(** * SnapRAID scan engine (scan.c): a shallow embedding and its properties

    The development follows [scan.c].  The catalog of a disk is a small
    heap of [snapraid_file], [snapraid_link] and [snapraid_dir] objects
    addressed by handles (the C pointers); the tommy containers of the disk
    ([filelist], [inodeset], [pathset], ...) hold handles, so that a flag set
    through one container is seen through the others.  The parity block map
    [blockarr] holds [block_ptr] cells: [BLOCK_EMPTY], a pointer into the
    block vector of a file, or a pointer to a deleted block.

    [exit(EXIT_FAILURE)] is the error [EXIT_FAILURE]; what C leaves undefined
    (an access outside the block array, a freed object, removing a node
    that is not in its container) is the error [UNDEFINED].  Logging
    ([printf], [fprintf(stdlog, ...)]) is not part of the model, except the
    list of disks printed by the empty-disk check.

    Unsigned 32-bit values ([block_off_t], the counters) are integers in [Z]
    and every increment wraps modulo [2^32]. *)

From stdpp Require Import base tactics option list numbers strings.
From Stdlib Require Import ZArith Lia.
From Stdlib.Strings Require Import Byte.

Local Open Scope Z_scope.

(** ** Errors *)

Inductive fatal :=
  | InconsistentLink (sub : string)            (* scan_link, "Internal inconsistency for link" *)
  | InconsistentBlockState (parity_pos : Z)    (* scan_file_remove, "Internal state inconsistency" *)
  | InodeAlreadyPresent (ino : Z) (sub : string)   (* scan_file, inode matching, present, nlink <= 1 *)
  | InodeMatchingDifferent (ino : Z) (sub : string) (* scan_file, inode matching, present, different info *)
  | InodeUnexpectedMatching (ino : Z) (sub : string) (* scan_file, found by path with the same inode *)
  | PathAlreadyPresent (sub : string)          (* scan_file, found by path, already present *)
  | UnexpectedZeroSize (sub : string)          (* scan_file, "has unexpected zero size!" *)
  | InconsistentDir (sub : string)             (* scan_emptydir, "Internal inconsistency for dir" *)
  | ErrorOpendir (sub : string)
  | ErrorStat (sub : string)
  | ErrorFilephy (sub : string)
  | ErrorReadlink (sub : string)
  | UnsupportedName (sub : string)
  | ErrorFsinfo (dir : string)
  | EmptyDisks (disks : list (string * string)). (* state_scan, "are now missing or rewritten!" *)

Inductive undefined :=
  | ArrayBounds      (* tommy_arrayblk_get / _set outside the array *)
  | DanglingPointer  (* an object that was freed, or never allocated *)
  | NotInContainer.  (* tommy_*_remove_existing of a node that is not there *)

Inductive error :=
  | EXIT_FAILURE (why : fatal)
  | UNDEFINED (what : undefined)
  | OUT_OF_FUEL.

Inductive result (A : Type) :=
  | Ok (a : A)
  | Err (e : error).
Arguments Ok {A} a.
Arguments Err {A} e.

Definition bind {A B} (r : result A) (k : A -> result B) : result B :=
  match r with
  | Ok a => k a
  | Err e => Err e
  end.

Notation "'do' x <- e ; k" := (bind e (fun x => k))
  (at level 10, x name, e at level 100, k at level 200).
Notation "'do' ' p <- e ; k" := (bind e (fun x => match x with p => k end))
  (at level 10, p pattern, e at level 100, k at level 200).

Definition exit {A} (why : fatal) : result A := Err (EXIT_FAILURE why).

(** [for (i = start; i < start + n; ++i) body] over a threaded state. *)
Fixpoint for_loop {St} (n : nat) (i : nat) (body : nat -> St -> result St) (s : St)
  : result St :=
  match n with
  | O => Ok s
  | S n' => do s' <- body i s; for_loop n' (S i) body s'
  end.

(** ** 32-bit unsigned arithmetic *)

Definition wrap32 (z : Z) : Z := z mod 2 ^ 32.

(** ** Blocks, files, links and dirs (elem.h) *)

(** Modelled from the spec: elem.h is not part of the sources; the states of
    a block are [BLK], [CHG], [NEW] and [DELETED]. *)
Inductive block_state :=
  | BLOCK_STATE_BLK
  | BLOCK_STATE_CHG
  | BLOCK_STATE_NEW
  | BLOCK_STATE_DELETED.

(** Modelled from the spec: the hash size is 16 bytes. *)
Definition HASH_SIZE : nat := 16.

Record snapraid_block := mk_block {
  parity_pos : Z;
  state_of : block_state;
  hash : list byte
}.

(** [block_state_get], [block_state_set] and the writes to the other two
    fields of a block. *)
Definition block_state_get (b : snapraid_block) : block_state := state_of b.
Definition block_state_set (st : block_state) (b : snapraid_block) : snapraid_block :=
  mk_block (parity_pos b) st (hash b).
Definition block_parity_pos_set (pos : Z) (b : snapraid_block) : snapraid_block :=
  mk_block pos (state_of b) (hash b).
Definition block_hash_set (h : list byte) (b : snapraid_block) : snapraid_block :=
  mk_block (parity_pos b) (state_of b) h.

(** [memset(hash, 0, HASH_SIZE)] and [memcpy(dst, src, HASH_SIZE)] on the
    [HASH_SIZE] bytes of a hash field. *)
Definition hash_zero : list byte := replicate HASH_SIZE x00.
Definition hash_copy (src : list byte) : list byte := take HASH_SIZE src.

(** A cell of the block array: the null pointer [BLOCK_EMPTY], the address
    of block [i] of the file with handle [f], or the address of the block of
    the [d]-th entry of the deleted list. *)
Inductive block_ptr :=
  | BLOCK_EMPTY
  | FileBlock (f : nat) (i : nat)
  | DeletedBlock (d : nat).

(** Modelled from the spec: [block_has_file] is defined in elem.h; a cell is
    occupied when it is a file-block reference. *)
Definition block_has_file (p : block_ptr) : bool :=
  match p with
  | FileBlock _ _ => true
  | _ => false
  end.

Record snapraid_file := mk_file {
  file_sub : string;
  file_size : Z;
  file_mtime_sec : Z;
  file_mtime_nsec : Z;
  file_inode : Z;
  file_physical : Z;
  file_is_present : bool;        (* FILE_IS_PRESENT *)
  file_is_without_inode : bool;  (* FILE_IS_WITHOUT_INODE *)
  blockvec : list snapraid_block (* blockmax is its length *)
}.

Definition blockmax (file : snapraid_file) : nat := length (blockvec file).

Inductive link_kind := FILE_IS_HARDLINK | FILE_IS_SYMLINK.

Record snapraid_link := mk_link {
  link_sub : string;
  link_linkto : string;
  link_kind_of : link_kind;      (* flag & FILE_IS_LINK_MASK *)
  link_is_present : bool
}.

Record snapraid_dir := mk_dir {
  dir_sub : string;
  dir_is_present : bool
}.

#[global] Instance block_state_eq_dec : EqDecision block_state.
Proof. solve_decision. Defined.
#[global] Instance link_kind_eq_dec : EqDecision link_kind.
Proof. solve_decision. Defined.
#[global] Instance block_ptr_eq_dec : EqDecision block_ptr.
Proof. solve_decision. Defined.

(** ** The heap of catalog objects *)

(** A list of cells; a handle is an index, a freed cell is [None]. *)
Abbreviation heap A := (list (option A)).

Definition heap_get {A} (h : heap A) (p : nat) : result A :=
  match h !! p with
  | Some (Some a) => Ok a
  | _ => Err (UNDEFINED DanglingPointer)
  end.

Definition heap_set {A} (h : heap A) (p : nat) (a : A) : result (heap A) :=
  do _ <- heap_get h p; Ok (<[p := Some a]> h).

Definition heap_alloc {A} (h : heap A) (a : A) : heap A * nat :=
  (h ++ [Some a], length h).

Definition heap_free {A} (h : heap A) (p : nat) : result (heap A) :=
  do _ <- heap_get h p; Ok (<[p := None]> h).

(** ** tommy containers *)

(** [tommy_list_insert_tail] and [tommy_hashdyn_insert]: a new node goes to
    the end (of the list, of its bucket). *)
Definition tommy_insert_tail (l : list nat) (p : nat) : list nat := l ++ [p].

(** [tommy_list_remove_existing] and [tommy_hashdyn_remove_existing]: the
    node must be in the container. *)
Fixpoint remove_first (p : nat) (l : list nat) : option (list nat) :=
  match l with
  | [] => None
  | q :: l' =>
      if decide (q = p) then Some l'
      else match remove_first p l' with
           | Some r => Some (q :: r)
           | None => None
           end
  end.

Definition tommy_remove_existing (l : list nat) (p : nat) : result (list nat) :=
  match remove_first p l with
  | Some l' => Ok l'
  | None => Err (UNDEFINED NotInContainer)
  end.

(** [tommy_hashdyn_search]: the first node, in insertion order, whose object
    compares equal to the argument. *)
Fixpoint tommy_hashdyn_search {A} (h : heap A) (cmp : A -> bool) (set : list nat)
  : result (option nat) :=
  match set with
  | [] => Ok None
  | p :: set' =>
      do a <- heap_get h p;
      if cmp a then Ok (Some p) else tommy_hashdyn_search h cmp set'
  end.

(** [tommy_arrayblk]: size, read, write and growth. New cells are null. *)
Definition tommy_arrayblk_size (arr : list block_ptr) : Z := Z.of_nat (length arr).

Definition tommy_arrayblk_get (arr : list block_ptr) (pos : Z) : result block_ptr :=
  match arr !! Z.to_nat pos with
  | Some p => Ok p
  | None => Err (UNDEFINED ArrayBounds)
  end.

Definition tommy_arrayblk_set (arr : list block_ptr) (pos : Z) (p : block_ptr)
  : result (list block_ptr) :=
  if decide (Z.to_nat pos < length arr)%nat
  then Ok (<[Z.to_nat pos := p]> arr)
  else Err (UNDEFINED ArrayBounds).

Definition tommy_arrayblk_grow (arr : list block_ptr) (size : Z) : list block_ptr :=
  arr ++ replicate (Z.to_nat size - length arr) BLOCK_EMPTY.

(** ** State of the program (state.h) *)

Inductive sort_order := SORT_PHYSICAL | SORT_INODE | SORT_ALPHA | SORT_DIR.

Record snapraid_disk := mk_disk {
  disk_name : string;
  disk_dir : string;
  disk_device : Z;
  files : heap snapraid_file;
  filelist : list nat;
  inodeset : list nat;
  pathset : list nat;
  links : heap snapraid_link;
  linklist : list nat;
  linkset : list nat;
  dirs : heap snapraid_dir;
  dirlist : list nat;
  dirset : list nat;
  blockarr : list block_ptr;
  deletedlist : list snapraid_block;
  first_free_block : Z;
  has_not_persistent_inodes : bool;
  has_not_reliable_physical : bool
}.

Record snapraid_state := mk_state {
  need_write : bool;
  clear_undeterminate_hash : bool;
  opt_force_zero : bool;
  opt_force_empty : bool;
  opt_force_order : sort_order;
  block_size : Z
}.

Record snapraid_scan := mk_scan {
  count_equal : Z;
  count_move : Z;
  count_restore : Z;
  count_change : Z;
  count_remove : Z;
  count_insert : Z;
  file_insert_list : list nat;
  link_insert_list : list nat;
  dir_insert_list : list nat
}.

(** Field updates of the records above. *)
Definition set_files (v : heap snapraid_file) (d : snapraid_disk) : snapraid_disk :=
  mk_disk (disk_name d) (disk_dir d) (disk_device d) v (filelist d) (inodeset d)
    (pathset d) (links d) (linklist d) (linkset d) (dirs d) (dirlist d) (dirset d)
    (blockarr d) (deletedlist d) (first_free_block d) (has_not_persistent_inodes d)
    (has_not_reliable_physical d).
Definition set_filelist (v : list nat) (d : snapraid_disk) : snapraid_disk :=
  mk_disk (disk_name d) (disk_dir d) (disk_device d) (files d) v (inodeset d)
    (pathset d) (links d) (linklist d) (linkset d) (dirs d) (dirlist d) (dirset d)
    (blockarr d) (deletedlist d) (first_free_block d) (has_not_persistent_inodes d)
    (has_not_reliable_physical d).
Definition set_inodeset (v : list nat) (d : snapraid_disk) : snapraid_disk :=
  mk_disk (disk_name d) (disk_dir d) (disk_device d) (files d) (filelist d) v
    (pathset d) (links d) (linklist d) (linkset d) (dirs d) (dirlist d) (dirset d)
    (blockarr d) (deletedlist d) (first_free_block d) (has_not_persistent_inodes d)
    (has_not_reliable_physical d).
Definition set_pathset (v : list nat) (d : snapraid_disk) : snapraid_disk :=
  mk_disk (disk_name d) (disk_dir d) (disk_device d) (files d) (filelist d) (inodeset d)
    v (links d) (linklist d) (linkset d) (dirs d) (dirlist d) (dirset d)
    (blockarr d) (deletedlist d) (first_free_block d) (has_not_persistent_inodes d)
    (has_not_reliable_physical d).
Definition set_links (v : heap snapraid_link) (d : snapraid_disk) : snapraid_disk :=
  mk_disk (disk_name d) (disk_dir d) (disk_device d) (files d) (filelist d) (inodeset d)
    (pathset d) v (linklist d) (linkset d) (dirs d) (dirlist d) (dirset d)
    (blockarr d) (deletedlist d) (first_free_block d) (has_not_persistent_inodes d)
    (has_not_reliable_physical d).
Definition set_linklist (v : list nat) (d : snapraid_disk) : snapraid_disk :=
  mk_disk (disk_name d) (disk_dir d) (disk_device d) (files d) (filelist d) (inodeset d)
    (pathset d) (links d) v (linkset d) (dirs d) (dirlist d) (dirset d)
    (blockarr d) (deletedlist d) (first_free_block d) (has_not_persistent_inodes d)
    (has_not_reliable_physical d).
Definition set_linkset (v : list nat) (d : snapraid_disk) : snapraid_disk :=
  mk_disk (disk_name d) (disk_dir d) (disk_device d) (files d) (filelist d) (inodeset d)
    (pathset d) (links d) (linklist d) v (dirs d) (dirlist d) (dirset d)
    (blockarr d) (deletedlist d) (first_free_block d) (has_not_persistent_inodes d)
    (has_not_reliable_physical d).
Definition set_dirs (v : heap snapraid_dir) (d : snapraid_disk) : snapraid_disk :=
  mk_disk (disk_name d) (disk_dir d) (disk_device d) (files d) (filelist d) (inodeset d)
    (pathset d) (links d) (linklist d) (linkset d) v (dirlist d) (dirset d)
    (blockarr d) (deletedlist d) (first_free_block d) (has_not_persistent_inodes d)
    (has_not_reliable_physical d).
Definition set_dirlist (v : list nat) (d : snapraid_disk) : snapraid_disk :=
  mk_disk (disk_name d) (disk_dir d) (disk_device d) (files d) (filelist d) (inodeset d)
    (pathset d) (links d) (linklist d) (linkset d) (dirs d) v (dirset d)
    (blockarr d) (deletedlist d) (first_free_block d) (has_not_persistent_inodes d)
    (has_not_reliable_physical d).
Definition set_dirset (v : list nat) (d : snapraid_disk) : snapraid_disk :=
  mk_disk (disk_name d) (disk_dir d) (disk_device d) (files d) (filelist d) (inodeset d)
    (pathset d) (links d) (linklist d) (linkset d) (dirs d) (dirlist d) v
    (blockarr d) (deletedlist d) (first_free_block d) (has_not_persistent_inodes d)
    (has_not_reliable_physical d).
Definition set_blockarr (v : list block_ptr) (d : snapraid_disk) : snapraid_disk :=
  mk_disk (disk_name d) (disk_dir d) (disk_device d) (files d) (filelist d) (inodeset d)
    (pathset d) (links d) (linklist d) (linkset d) (dirs d) (dirlist d) (dirset d)
    v (deletedlist d) (first_free_block d) (has_not_persistent_inodes d)
    (has_not_reliable_physical d).
Definition set_deletedlist (v : list snapraid_block) (d : snapraid_disk) : snapraid_disk :=
  mk_disk (disk_name d) (disk_dir d) (disk_device d) (files d) (filelist d) (inodeset d)
    (pathset d) (links d) (linklist d) (linkset d) (dirs d) (dirlist d) (dirset d)
    (blockarr d) v (first_free_block d) (has_not_persistent_inodes d)
    (has_not_reliable_physical d).
Definition set_first_free_block (v : Z) (d : snapraid_disk) : snapraid_disk :=
  mk_disk (disk_name d) (disk_dir d) (disk_device d) (files d) (filelist d) (inodeset d)
    (pathset d) (links d) (linklist d) (linkset d) (dirs d) (dirlist d) (dirset d)
    (blockarr d) (deletedlist d) v (has_not_persistent_inodes d)
    (has_not_reliable_physical d).
Definition set_has_not_persistent_inodes (v : bool) (d : snapraid_disk) : snapraid_disk :=
  mk_disk (disk_name d) (disk_dir d) (disk_device d) (files d) (filelist d) (inodeset d)
    (pathset d) (links d) (linklist d) (linkset d) (dirs d) (dirlist d) (dirset d)
    (blockarr d) (deletedlist d) (first_free_block d) v
    (has_not_reliable_physical d).
Definition set_has_not_reliable_physical (v : bool) (d : snapraid_disk) : snapraid_disk :=
  mk_disk (disk_name d) (disk_dir d) (disk_device d) (files d) (filelist d) (inodeset d)
    (pathset d) (links d) (linklist d) (linkset d) (dirs d) (dirlist d) (dirset d)
    (blockarr d) (deletedlist d) (first_free_block d) (has_not_persistent_inodes d)
    v.

Definition set_need_write (v : bool) (s : snapraid_state) : snapraid_state :=
  mk_state v (clear_undeterminate_hash s) (opt_force_zero s) (opt_force_empty s)
    (opt_force_order s) (block_size s).

Definition set_blockvec (v : list snapraid_block) (f : snapraid_file) : snapraid_file :=
  mk_file (file_sub f) (file_size f) (file_mtime_sec f) (file_mtime_nsec f)
    (file_inode f) (file_physical f) (file_is_present f) (file_is_without_inode f) v.

(** ** Blocks through pointers *)

(** Reading the block a cell [p] of the block array points to. *)
Definition block_deref (disk : snapraid_disk) (p : block_ptr) : result snapraid_block :=
  match p with
  | BLOCK_EMPTY => Err (UNDEFINED DanglingPointer)
  | FileBlock f i =>
      do file <- heap_get (files disk) f;
      match blockvec file !! i with
      | Some b => Ok b
      | None => Err (UNDEFINED ArrayBounds)
      end
  | DeletedBlock d =>
      match deletedlist disk !! d with
      | Some b => Ok b
      | None => Err (UNDEFINED DanglingPointer)
      end
  end.

(** A write to some field of the block [p] points to. *)
Definition block_store (disk : snapraid_disk) (p : block_ptr)
    (upd : snapraid_block -> snapraid_block) : result snapraid_disk :=
  match p with
  | BLOCK_EMPTY => Err (UNDEFINED DanglingPointer)
  | FileBlock f i =>
      do file <- heap_get (files disk) f;
      match blockvec file !! i with
      | Some b =>
          do h <- heap_set (files disk) f
                    (set_blockvec (<[i := upd b]> (blockvec file)) file);
          Ok (set_files h disk)
      | None => Err (UNDEFINED ArrayBounds)
      end
  | DeletedBlock d =>
      match deletedlist disk !! d with
      | Some b => Ok (set_deletedlist (<[d := upd b]> (deletedlist disk)) disk)
      | None => Err (UNDEFINED DanglingPointer)
      end
  end.

(** Modelled from the spec: [deleted_dup] is defined in elem.c; it wraps the
    hash of the block in a new Deleted-block cell for the same slot. *)
Definition deleted_dup (block : snapraid_block) : snapraid_block :=
  mk_block (parity_pos block) BLOCK_STATE_DELETED (hash_copy (hash block)).

(** ** scan_file_remove *)

(** The body of the loop over the blocks of the file. *)
Definition scan_file_remove_block (state : snapraid_state) (file : nat) (i : nat)
    (disk : snapraid_disk) : result snapraid_disk :=
  do block <- block_deref disk (FileBlock file i);
  let block_pos := parity_pos block in
  (* adjust the first free position *)
  let disk :=
    if first_free_block disk >? block_pos
    then set_first_free_block block_pos disk
    else disk in
  do disk <-
    match block_state_get block with
    | BLOCK_STATE_BLK =>
        (* we keep the hash making it an "old" hash *)
        Ok disk
    | BLOCK_STATE_CHG | BLOCK_STATE_NEW =>
        (* if we have not already cleared the undeterminated hash *)
        if negb (clear_undeterminate_hash state)
        then block_store disk (FileBlock file i) (block_hash_set hash_zero)
        else Ok disk
    | BLOCK_STATE_DELETED => exit (InconsistentBlockState (parity_pos block))
    end;
  (* allocated a new deleted block from the block we are going to delete *)
  do block <- block_deref disk (FileBlock file i);
  let deleted := deleted_dup block in
  (* insert it in the list of deleted blocks *)
  let d := length (deletedlist disk) in
  let disk := set_deletedlist (deletedlist disk ++ [deleted]) disk in
  (* set the deleted block in the block array *)
  do arr <- tommy_arrayblk_set (blockarr disk) block_pos (DeletedBlock d);
  Ok (set_blockarr arr disk).

Definition scan_file_remove (state : snapraid_state) (disk : snapraid_disk) (file : nat)
  : result (snapraid_state * snapraid_disk) :=
  (* state changed *)
  let state := set_need_write true state in
  (* free all the blocks of the file *)
  do f <- heap_get (files disk) file;
  do disk <- for_loop (blockmax f) 0 (scan_file_remove_block state file) disk;
  (* remove the file from the file containers *)
  do f <- heap_get (files disk) file;
  do disk <-
    (if negb (file_is_without_inode f)
     then do s <- tommy_remove_existing (inodeset disk) file; Ok (set_inodeset s disk)
     else Ok disk);
  do s <- tommy_remove_existing (pathset disk) file;
  let disk := set_pathset s disk in
  do l <- tommy_remove_existing (filelist disk) file;
  let disk := set_filelist l disk in
  (* deallocate *)
  do h <- heap_free (files disk) file;
  Ok (state, set_files h disk).

(** ** scan_file_insert *)

(** [while (block_pos < block_max && block_has_file(...)) ++block_pos;]
    The cursor stops at [block_max] at the latest, so a fuel of the size of
    the array is enough (lemma [find_free_block_total]). *)
Fixpoint find_free_block (fuel : nat) (arr : list block_ptr) (block_max block_pos : Z)
  : result Z :=
  if block_pos <? block_max then
    do block <- tommy_arrayblk_get arr block_pos;
    if block_has_file block then
      match fuel with
      | O => Err OUT_OF_FUEL
      | S fuel' => find_free_block fuel' arr block_max (wrap32 (block_pos + 1))
      end
    else Ok block_pos
  else Ok block_pos.

(** The body of the loop over the blocks of the file; the loop carries the
    disk and the two locals [block_max] and [block_pos]. *)
Definition scan_file_insert_block (state : snapraid_state) (file : nat) (i : nat)
    (s : snapraid_disk * Z * Z) : result (snapraid_disk * Z * Z) :=
  let '(disk, block_max, block_pos) := s in
  (* find a free block *)
  do block_pos <-
    find_free_block (length (blockarr disk)) (blockarr disk) block_max block_pos;
  (* if not found, allocate a new one *)
  let '(disk, block_max) :=
    if block_pos =? block_max then
      let block_max := wrap32 (block_max + 1) in
      (set_blockarr (tommy_arrayblk_grow (blockarr disk) block_max) disk, block_max)
    else (disk, block_max) in
  (* set the position *)
  do disk <- block_store disk (FileBlock file i) (block_parity_pos_set block_pos);
  (* block to overwrite *)
  do block <- tommy_arrayblk_get (blockarr disk) block_pos;
  do disk <-
    (if decide (block = BLOCK_EMPTY) then
       (* we just overwrite it with a NEW one *)
       block_store disk (FileBlock file i) (block_state_set BLOCK_STATE_NEW)
     else
       (* otherwise it's a DELETED one *)
       do disk <-
         (if negb (clear_undeterminate_hash state)
          then block_store disk block (block_hash_set hash_zero)
          else Ok disk);
       do disk <- block_store disk (FileBlock file i) (block_state_set BLOCK_STATE_CHG);
       do old <- block_deref disk block;
       block_store disk (FileBlock file i) (block_hash_set (hash_copy (hash old))));
  (* store in the disk map *)
  do arr <- tommy_arrayblk_set (blockarr disk) block_pos (FileBlock file i);
  Ok (set_blockarr arr disk, block_max, block_pos).

Definition scan_file_insert (state : snapraid_state) (disk : snapraid_disk) (file : nat)
  : result (snapraid_state * snapraid_disk) :=
  (* state changed *)
  let state := set_need_write true state in
  (* allocate the blocks of the file *)
  do f <- heap_get (files disk) file;
  let block_pos := first_free_block disk in
  let block_max := tommy_arrayblk_size (blockarr disk) in
  do '(disk, block_max, block_pos) <-
    for_loop (blockmax f) 0 (scan_file_insert_block state file)
      (disk, block_max, block_pos);
  let disk :=
    if decide (blockmax f = 0%nat) then disk
    else (* set the new free position, but only if allocated something *)
      set_first_free_block (wrap32 (block_pos + 1)) disk in
  (* note that the file is already added in the file hashtables *)
  Ok (state, set_filelist (tommy_insert_tail (filelist disk) file) disk).

(** ** The counters and lists of a scan *)

Definition set_count_equal (v : Z) (s : snapraid_scan) : snapraid_scan :=
  mk_scan v (count_move s) (count_restore s) (count_change s) (count_remove s)
    (count_insert s) (file_insert_list s) (link_insert_list s) (dir_insert_list s).
Definition set_count_move (v : Z) (s : snapraid_scan) : snapraid_scan :=
  mk_scan (count_equal s) v (count_restore s) (count_change s) (count_remove s)
    (count_insert s) (file_insert_list s) (link_insert_list s) (dir_insert_list s).
Definition set_count_restore (v : Z) (s : snapraid_scan) : snapraid_scan :=
  mk_scan (count_equal s) (count_move s) v (count_change s) (count_remove s)
    (count_insert s) (file_insert_list s) (link_insert_list s) (dir_insert_list s).
Definition set_count_change (v : Z) (s : snapraid_scan) : snapraid_scan :=
  mk_scan (count_equal s) (count_move s) (count_restore s) v (count_remove s)
    (count_insert s) (file_insert_list s) (link_insert_list s) (dir_insert_list s).
Definition set_count_remove (v : Z) (s : snapraid_scan) : snapraid_scan :=
  mk_scan (count_equal s) (count_move s) (count_restore s) (count_change s) v
    (count_insert s) (file_insert_list s) (link_insert_list s) (dir_insert_list s).
Definition set_count_insert (v : Z) (s : snapraid_scan) : snapraid_scan :=
  mk_scan (count_equal s) (count_move s) (count_restore s) (count_change s)
    (count_remove s) v (file_insert_list s) (link_insert_list s) (dir_insert_list s).
Definition set_file_insert_list (v : list nat) (s : snapraid_scan) : snapraid_scan :=
  mk_scan (count_equal s) (count_move s) (count_restore s) (count_change s)
    (count_remove s) (count_insert s) v (link_insert_list s) (dir_insert_list s).
Definition set_link_insert_list (v : list nat) (s : snapraid_scan) : snapraid_scan :=
  mk_scan (count_equal s) (count_move s) (count_restore s) (count_change s)
    (count_remove s) (count_insert s) (file_insert_list s) v (dir_insert_list s).
Definition set_dir_insert_list (v : list nat) (s : snapraid_scan) : snapraid_scan :=
  mk_scan (count_equal s) (count_move s) (count_restore s) (count_change s)
    (count_remove s) (count_insert s) (file_insert_list s) (link_insert_list s) v.

(** [++scan->count_...] *)
Definition incr (c : Z) : Z := wrap32 (c + 1).

(** The scan of a disk starts with null counters and empty lists. *)
Definition scan_init : snapraid_scan := mk_scan 0 0 0 0 0 0 [] [] [].

(** Field updates of files, links and dirs. *)
Definition set_file_sub (v : string) (f : snapraid_file) : snapraid_file :=
  mk_file v (file_size f) (file_mtime_sec f) (file_mtime_nsec f)
    (file_inode f) (file_physical f) (file_is_present f) (file_is_without_inode f)
    (blockvec f).
Definition set_file_mtime_nsec (v : Z) (f : snapraid_file) : snapraid_file :=
  mk_file (file_sub f) (file_size f) (file_mtime_sec f) v
    (file_inode f) (file_physical f) (file_is_present f) (file_is_without_inode f)
    (blockvec f).
Definition set_file_inode (v : Z) (f : snapraid_file) : snapraid_file :=
  mk_file (file_sub f) (file_size f) (file_mtime_sec f) (file_mtime_nsec f)
    v (file_physical f) (file_is_present f) (file_is_without_inode f)
    (blockvec f).
Definition set_file_is_present (v : bool) (f : snapraid_file) : snapraid_file :=
  mk_file (file_sub f) (file_size f) (file_mtime_sec f) (file_mtime_nsec f)
    (file_inode f) (file_physical f) v (file_is_without_inode f)
    (blockvec f).
Definition set_file_is_without_inode (v : bool) (f : snapraid_file) : snapraid_file :=
  mk_file (file_sub f) (file_size f) (file_mtime_sec f) (file_mtime_nsec f)
    (file_inode f) (file_physical f) (file_is_present f) v
    (blockvec f).

Definition set_link_linkto (v : string) (l : snapraid_link) : snapraid_link :=
  mk_link (link_sub l) v (link_kind_of l) (link_is_present l).
Definition set_link_kind (v : link_kind) (l : snapraid_link) : snapraid_link :=
  mk_link (link_sub l) (link_linkto l) v (link_is_present l).
Definition set_link_is_present (v : bool) (l : snapraid_link) : snapraid_link :=
  mk_link (link_sub l) (link_linkto l) (link_kind_of l) v.

Definition set_dir_is_present (v : bool) (d : snapraid_dir) : snapraid_dir :=
  mk_dir (dir_sub d) v.

(** A write to a field of the file, link or dir behind a handle. *)
Definition file_store (disk : snapraid_disk) (file : nat)
    (upd : snapraid_file -> snapraid_file) : result snapraid_disk :=
  do f <- heap_get (files disk) file;
  do h <- heap_set (files disk) file (upd f);
  Ok (set_files h disk).

Definition link_store (disk : snapraid_disk) (link : nat)
    (upd : snapraid_link -> snapraid_link) : result snapraid_disk :=
  do l <- heap_get (links disk) link;
  do h <- heap_set (links disk) link (upd l);
  Ok (set_links h disk).

Definition dir_store (disk : snapraid_disk) (dir : nat)
    (upd : snapraid_dir -> snapraid_dir) : result snapraid_disk :=
  do d <- heap_get (dirs disk) dir;
  do h <- heap_set (dirs disk) dir (upd d);
  Ok (set_dirs h disk).

(** ** What the filesystem reports *)

Inductive file_type := S_IFREG | S_IFLNK | S_IFDIR | S_IFOTHER.

Record stat := mk_stat {
  st_mode : file_type;
  st_ino : Z;
  st_dev : Z;
  st_nlink : Z;
  st_size : Z;
  st_mtime : Z;
  st_mtime_nsec : Z
}.

(** Modelled from the spec: [STAT_NSEC] and [STAT_NSEC_INVALID] come from
    portable.h; the sentinel [INVALID] marks a catalog entry, or a platform,
    without sub-second time. *)
Definition STAT_NSEC (st : stat) : Z := st_mtime_nsec st.
Definition STAT_NSEC_INVALID : Z := -1.

(** ** Links *)

Definition scan_link_remove (state : snapraid_state) (disk : snapraid_disk) (link : nat)
  : result (snapraid_state * snapraid_disk) :=
  (* state changed *)
  let state := set_need_write true state in
  (* remove the file from the link containers *)
  do s <- tommy_remove_existing (linkset disk) link;
  let disk := set_linkset s disk in
  do l <- tommy_remove_existing (linklist disk) link;
  let disk := set_linklist l disk in
  (* deallocate *)
  do h <- heap_free (links disk) link;
  Ok (state, set_links h disk).

Definition scan_link_insert (state : snapraid_state) (disk : snapraid_disk) (link : nat)
  : result (snapraid_state * snapraid_disk) :=
  (* state changed *)
  let state := set_need_write true state in
  (* insert the link in the link containers *)
  let disk := set_linkset (tommy_insert_tail (linkset disk) link) disk in
  let disk := set_linklist (tommy_insert_tail (linklist disk) link) disk in
  Ok (state, disk).

(** Modelled from the spec: [link_alloc] is defined in elem.c; a new link
    with the given path, target and kind. *)
Definition link_alloc (sub linkto : string) (link_flag : link_kind) : snapraid_link :=
  mk_link sub linkto link_flag false.

Definition scan_link (scan : snapraid_scan) (state : snapraid_state)
    (disk : snapraid_disk) (sub linkto : string) (link_flag : link_kind)
  : result (snapraid_scan * snapraid_state * snapraid_disk) :=
  (* check if the link already exists *)
  do found <- tommy_hashdyn_search (links disk)
                (fun l => bool_decide (link_sub l = sub)) (linkset disk);
  match found with
  | Some link =>
      do l <- heap_get (links disk) link;
      (* check if multiple files have the same name *)
      if link_is_present l then exit (InconsistentLink sub)
      else
        (* mark as present *)
        do disk <- link_store disk link (set_link_is_present true);
        (* check if the link is not changed and it's of the same kind *)
        if bool_decide (link_linkto l = linkto)
           && bool_decide (link_flag = link_kind_of l)
        then
          (* it's equal *)
          Ok (set_count_equal (incr (count_equal scan)) scan, state, disk)
        else
          (* it's an update: we have to save the linkto/type *)
          let state := set_need_write true state in
          let scan := set_count_change (incr (count_change scan)) scan in
          (* update it *)
          do disk <- link_store disk link (set_link_linkto linkto);
          do disk <- link_store disk link (set_link_kind link_flag);
          Ok (scan, state, disk)
  | None =>
      (* create the new link *)
      let scan := set_count_insert (incr (count_insert scan)) scan in
      (* insert it *)
      let '(h, link) := heap_alloc (links disk) (link_alloc sub linkto link_flag) in
      let disk := set_links h disk in
      (* mark it as present *)
      do disk <- link_store disk link (set_link_is_present true);
      (* insert it in the delayed insert list *)
      Ok (set_link_insert_list (tommy_insert_tail (link_insert_list scan) link) scan,
          state, disk)
  end.

(** ** Files *)

(** The test "the file is not changed" of scan_file, written twice there. *)
Definition file_not_changed (f : snapraid_file) (st : stat) : bool :=
  (file_size f =? st_size st)
  && (file_mtime_sec f =? st_mtime st)
  && ((file_mtime_nsec f =? STAT_NSEC st)
      (* always accept the stored value if it's STAT_NSEC_INVALID *)
      || (file_mtime_nsec f =? STAT_NSEC_INVALID)).

(** "update the nano seconds mtime only if different", written twice. *)
Definition update_mtime_nsec (state : snapraid_state) (disk : snapraid_disk)
    (file : nat) (st : stat) : result (snapraid_state * snapraid_disk) :=
  do f <- heap_get (files disk) file;
  if (file_mtime_nsec f =? STAT_NSEC_INVALID)
     && negb (STAT_NSEC st =? STAT_NSEC_INVALID)
  then
    do disk <- file_store disk file (set_file_mtime_nsec (STAT_NSEC st));
    (* we have to save the new mtime *)
    Ok (set_need_write true state, disk)
  else Ok (state, disk).

(** Modelled from the spec: [file_alloc] is defined in elem.c; the new file
    takes its fields from the stat data and has [ceil(size / block_size)]
    blocks.  The spec does not say what a fresh block holds; scan_file_insert
    writes the position and the state of every block before they are read. *)
Definition file_alloc (block_size : Z) (sub : string) (size mtime_sec mtime_nsec
    inode physical : Z) : snapraid_file :=
  mk_file sub size mtime_sec mtime_nsec inode physical false false
    (replicate (Z.to_nat ((size + block_size - 1) / block_size))
       (mk_block 0 BLOCK_STATE_NEW hash_zero)).

(** A function of scan.c either returns or goes on with the next part. *)
Inductive flow (A : Type) :=
  | Return (a : A)
  | Continue (a : A).
Arguments Return {A} a.
Arguments Continue {A} a.

Definition scan_ctx : Type := snapraid_scan * snapraid_state * snapraid_disk.

(** scan_file, first part: the search by inode. *)
Definition scan_file_inode (scan : snapraid_scan) (state : snapraid_state)
    (disk : snapraid_disk) (sub : string) (st : stat) : result (flow scan_ctx) :=
  let inode := st_ino st in
  do found <- tommy_hashdyn_search (files disk)
                (fun f => file_inode f =? inode) (inodeset disk);
  (* identify moved files searching by inode *)
  match found with
  | Some file =>
      do f <- heap_get (files disk) file;
      (* check if the file is not changed *)
      if file_not_changed f st then
        (* check if multiple files have the same inode *)
        if file_is_present f then
          if st_nlink st >? 1 then
            (* it's a hardlink *)
            do r <- scan_link scan state disk sub (file_sub f) FILE_IS_HARDLINK;
            Ok (Return r)
          else exit (InodeAlreadyPresent (st_ino st) sub)
        else
          (* mark as present *)
          do disk <- file_store disk file (set_file_is_present true);
          (* update the nano seconds mtime only if different *)
          do '(state, disk) <- update_mtime_nsec state disk file st;
          if negb (bool_decide (file_sub f = sub)) then
            (* if the path is different, it means a moved file with the same inode *)
            let scan := set_count_move (incr (count_move scan)) scan in
            (* remove from the name set *)
            do s <- tommy_remove_existing (pathset disk) file;
            let disk := set_pathset s disk in
            (* save the new name *)
            do disk <- file_store disk file (set_file_sub sub);
            (* reinsert in the name set *)
            let disk := set_pathset (tommy_insert_tail (pathset disk) file) disk in
            (* we have to save the new name *)
            let state := set_need_write true state in
            Ok (Return (scan, state, disk))
          else
            (* otherwise it's equal *)
            let scan := set_count_equal (incr (count_equal scan)) scan in
            Ok (Return (scan, state, disk))
      else
        (* here the file matches the inode, but not the other info *)
        (* for sure it cannot be already present *)
        if file_is_present f then exit (InodeMatchingDifferent (file_inode f) sub)
        else
          (* remove from the inode set *)
          do s <- tommy_remove_existing (inodeset disk) file;
          let disk := set_inodeset s disk in
          (* clear the inode *)
          do disk <- file_store disk file (set_file_inode 0);
          (* mark as missing inode *)
          do disk <- file_store disk file (set_file_is_without_inode true);
          (* go further to find it by name *)
          Ok (Continue (scan, state, disk))
  | None => Ok (Continue (scan, state, disk))
  end.

(** scan_file, the inode of the file found by name: a file without inode
    takes the inode of the entry, another file must have a different one. *)
Definition scan_file_path_inode (disk : snapraid_disk) (file : nat) (sub : string)
    (st : stat) : result snapraid_disk :=
  do f <- heap_get (files disk) file;
  (* if the file is without an inode *)
  if file_is_without_inode f then
    (* set it now *)
    do disk <- file_store disk file (set_file_inode (st_ino st));
    (* insert in the set *)
    let disk := set_inodeset (tommy_insert_tail (inodeset disk) file) disk in
    (* unmark as missing inode *)
    file_store disk file (set_file_is_without_inode false)
  else
    (* here the inode has to be different, otherwise we would have found it
       before *)
    if file_inode f =? st_ino st
    then exit (InodeUnexpectedMatching (file_inode f) sub)
    else Ok disk.

(** scan_file, second part: the search by name. *)
Definition scan_file_path (scan : snapraid_scan) (state : snapraid_state)
    (disk : snapraid_disk) (sub : string) (st : stat) : result (flow scan_ctx) :=
  do found <- tommy_hashdyn_search (files disk)
                (fun f => bool_decide (file_sub f = sub)) (pathset disk);
  match found with
  | Some file =>
      do f <- heap_get (files disk) file;
      do disk <- scan_file_path_inode disk file sub st;
      (* for sure it cannot be already present *)
      if file_is_present f then exit (PathAlreadyPresent sub)
      else
        (* check if the file is not changed *)
        if file_not_changed f st then
          (* mark as present *)
          do disk <- file_store disk file (set_file_is_present true);
          (* update the nano seconds mtime only if different *)
          do '(state, disk) <- update_mtime_nsec state disk file st;
          (* if the disk support persistent inodes *)
          if negb (has_not_persistent_inodes disk) then
            (* a rewritten file with the same path *)
            let scan := set_count_restore (incr (count_restore scan)) scan in
            (* remove from the inode set *)
            do s <- tommy_remove_existing (inodeset disk) file;
            let disk := set_inodeset s disk in
            (* save the new inode *)
            do disk <- file_store disk file (set_file_inode (st_ino st));
            (* reinsert in the inode set *)
            let disk := set_inodeset (tommy_insert_tail (inodeset disk) file) disk in
            (* we have to save the new inode *)
            let state := set_need_write true state in
            Ok (Return (scan, state, disk))
          else
            (* otherwise it's the case of not persistent inode *)
            let scan := set_count_equal (incr (count_equal scan)) scan in
            Ok (Return (scan, state, disk))
        else
          (* here if the file is changed but with the correct name *)
          if negb (file_size f =? 0) && (st_size st =? 0)
             && negb (opt_force_zero state)
          then exit (UnexpectedZeroSize sub)
          else
            (* it has the same name, so it's an update *)
            let scan := set_count_change (incr (count_change scan)) scan in
            (* remove it *)
            do '(state, disk) <- scan_file_remove state disk file;
            (* and continue to reinsert it *)
            Ok (Continue (scan, state, disk))
  | None =>
      (* if the name doesn't exist, it's a new file *)
      let scan := set_count_insert (incr (count_insert scan)) scan in
      (* and continue to insert it *)
      Ok (Continue (scan, state, disk))
  end.

(** scan_file, last part: the new file. *)
Definition scan_file_new (scan : snapraid_scan) (state : snapraid_state)
    (disk : snapraid_disk) (sub : string) (st : stat) (physical : Z)
  : result scan_ctx :=
  (* insert it *)
  let '(h, file) :=
    heap_alloc (files disk)
      (file_alloc (block_size state) sub (st_size st) (st_mtime st) (STAT_NSEC st)
         (st_ino st) physical) in
  let disk := set_files h disk in
  (* mark it as present *)
  do disk <- file_store disk file (set_file_is_present true);
  (* insert the file in the file hashtables, to allow to find duplicate hardlinks *)
  let disk := set_inodeset (tommy_insert_tail (inodeset disk) file) disk in
  let disk := set_pathset (tommy_insert_tail (pathset disk) file) disk in
  (* insert the file in the delayed block allocation *)
  Ok (set_file_insert_list (tommy_insert_tail (file_insert_list scan) file) scan,
      state, disk).

Definition scan_file (scan : snapraid_scan) (state : snapraid_state)
    (disk : snapraid_disk) (sub : string) (st : stat) (physical : Z)
  : result scan_ctx :=
  do by_inode <- scan_file_inode scan state disk sub st;
  match by_inode with
  | Return r => Ok r
  | Continue (scan, state, disk) =>
      do by_path <- scan_file_path scan state disk sub st;
      match by_path with
      | Return r => Ok r
      | Continue (scan, state, disk) => scan_file_new scan state disk sub st physical
      end
  end.

(** ** Empty dirs *)

Definition scan_emptydir_remove (state : snapraid_state) (disk : snapraid_disk)
    (dir : nat) : result (snapraid_state * snapraid_disk) :=
  (* state changed *)
  let state := set_need_write true state in
  (* remove the file from the dir containers *)
  do s <- tommy_remove_existing (dirset disk) dir;
  let disk := set_dirset s disk in
  do l <- tommy_remove_existing (dirlist disk) dir;
  let disk := set_dirlist l disk in
  (* deallocate *)
  do h <- heap_free (dirs disk) dir;
  Ok (state, set_dirs h disk).

Definition scan_emptydir_insert (state : snapraid_state) (disk : snapraid_disk)
    (dir : nat) : result (snapraid_state * snapraid_disk) :=
  (* state changed *)
  let state := set_need_write true state in
  (* insert the dir in the dir containers *)
  let disk := set_dirset (tommy_insert_tail (dirset disk) dir) disk in
  let disk := set_dirlist (tommy_insert_tail (dirlist disk) dir) disk in
  Ok (state, disk).

(** Modelled from the spec: [dir_alloc] is defined in elem.c. *)
Definition dir_alloc (sub : string) : snapraid_dir := mk_dir sub false.

Definition scan_emptydir (scan : snapraid_scan) (state : snapraid_state)
    (disk : snapraid_disk) (sub : string) : result scan_ctx :=
  (* check if the dir already exists *)
  do found <- tommy_hashdyn_search (dirs disk)
                (fun d => bool_decide (dir_sub d = sub)) (dirset disk);
  match found with
  | Some dir =>
      do d <- heap_get (dirs disk) dir;
      (* check if multiple files have the same name *)
      if dir_is_present d then exit (InconsistentDir sub)
      else
        (* mark as present *)
        do disk <- dir_store disk dir (set_dir_is_present true);
        (* it's equal *)
        Ok (set_count_equal (incr (count_equal scan)) scan, state, disk)
  | None =>
      (* create the new dir *)
      let scan := set_count_insert (incr (count_insert scan)) scan in
      (* insert it *)
      let '(h, dir) := heap_alloc (dirs disk) (dir_alloc sub) in
      let disk := set_dirs h disk in
      (* mark it as present *)
      do disk <- dir_store disk dir (set_dir_is_present true);
      (* insert it in the delayed insert list *)
      Ok (set_dir_insert_list (tommy_insert_tail (dir_insert_list scan) dir) scan,
          state, disk)
  end.

(** ** The directory walk *)

#[global] Instance sort_order_eq_dec : EqDecision sort_order.
Proof. solve_decision. Defined.

Inductive dirent_type := DT_UNKNOWN | DT_REG | DT_LNK | DT_DIR | DT_OTHER.

(** An entry of a directory as [readdir] returns it, with the answers of the
    system calls scan_dir may make on its path: [lstat] (none when it fails),
    [filephy] (none when it fails), [readlink] (none when it fails or the
    target does not fit the buffer) and, for [opendir] and [readdir] on the
    path, the entries read (none when one of them fails). *)
#[warnings="-register-all"] Inductive dirent :=
  | Dirent (d_name : string) (d_ino : Z) (d_type : dirent_type)
      (d_lstat : option stat) (d_filephy : option Z) (d_readlink : option string)
      (d_readdir : option (list dirent)).

Definition d_name (dd : dirent) : string :=
  match dd with Dirent name _ _ _ _ _ _ => name end.
Definition d_ino (dd : dirent) : Z :=
  match dd with Dirent _ ino _ _ _ _ _ => ino end.

(** The predicates of the filter collaborator; [true] excludes. *)
Record snapraid_filter := mk_filter {
  filter_hidden : string -> bool;          (* the name of the entry *)
  filter_content : string -> bool;         (* the path *)
  filter_path : string -> string -> bool;  (* the name of the disk, the sub *)
  filter_dir : string -> string -> bool
}.

(** [tommy_list_sort]: a stable sort. *)
Fixpoint insert_sorted {A} (le : A -> A -> bool) (x : A) (l : list A) : list A :=
  match l with
  | [] => [x]
  | y :: l' => if le x y then x :: l else y :: insert_sorted le x l'
  end.

Definition tommy_list_sort {A} (le : A -> A -> bool) (l : list A) : list A :=
  foldr (insert_sorted le) [] l.

(** What processing an entry of the directory [dir] (relative path [sub])
    does to the scan, and whether it sets [processed]. *)
Definition scan_action : Type :=
  snapraid_scan -> snapraid_state -> snapraid_disk -> string -> string ->
  result (scan_ctx * bool).

(** The first loop of scan_dir, which reads the full directory: the entries
    that are kept, each with its action. *)
Fixpoint scan_dir_read {A} (flt : snapraid_filter) (dir : string)
    (entries : list (dirent * A)) : result (list (dirent * A)) :=
  match entries with
  | [] => Ok []
  | (dd, action) :: rest =>
      let name := d_name dd in
      (* skip "." and ".." files *)
      if bool_decide (name = ".") || bool_decide (name = "..")
      then scan_dir_read flt dir rest
      else
        (* check for not supported file names *)
        if bool_decide (name = "") then exit (UnsupportedName (dir +:+ name))
        else
          (* exclude hidden files even before calling lstat() *)
          if filter_hidden flt name then scan_dir_read flt dir rest
          else
            (* exclude content files even before calling lstat() *)
            if filter_content flt (dir +:+ name) then scan_dir_read flt dir rest
            else
              (* insert in the list *)
              do list <- scan_dir_read flt dir rest;
              Ok ((dd, action) :: list)
  end.

(** The second loop of scan_dir, which processes the sorted entries. *)
Fixpoint scan_dir_process (list : list (dirent * scan_action)) (scan : snapraid_scan)
    (state : snapraid_state) (disk : snapraid_disk) (dir sub : string)
    (processed : bool) : result (scan_ctx * bool) :=
  match list with
  | [] => Ok (scan, state, disk, processed)
  | (dd, action) :: list' =>
      do '(scan, state, disk, p) <- action scan state disk dir sub;
      scan_dir_process list' scan state disk dir sub (processed || p)
  end.

(** scan_dir on the entries the directory holds, each paired with the action
    of the body of the second loop on it. *)
Definition scan_dir (flt : snapraid_filter)
    (entries : option (list (dirent * scan_action))) : scan_action :=
  fun scan state disk dir sub =>
    match entries with
    | None => exit (ErrorOpendir dir)
    | Some entries =>
        (* read the full directory *)
        do list <- scan_dir_read flt dir entries;
        (* if inodes are persistent, sort the list of dir entries by inodes *)
        let list :=
          if negb (has_not_persistent_inodes disk)
          then tommy_list_sort (fun a b => d_ino a.1 <=? d_ino b.1) list
          else list in
        (* process the sorted dir entries *)
        scan_dir_process list scan state disk dir sub false
    end.

(** The body of the second loop of scan_dir for one entry.  The recursive
    call of scan_dir on a directory gets the entries of that directory
    paired with this body. *)
Fixpoint scan_dir_entry (flt : snapraid_filter) (dd : dirent) {struct dd}
  : scan_action :=
  fun scan state disk dir sub =>
    match dd with
    | Dirent name _ dtype lst phy target entries =>
        let path_next := dir +:+ name in
        let sub_next := sub +:+ name in
        let DSTAT : result stat :=
          match lst with
          | Some st => Ok st
          | None => exit (ErrorStat path_next)
          end in
        (* if dirent has the type, use it; if type is still unknown, get the
           type from stat *)
        do type <-
          match dtype with
          | DT_UNKNOWN => do st <- DSTAT; Ok (st_mode st)
          | DT_REG => Ok S_IFREG
          | DT_LNK => Ok S_IFLNK
          | DT_DIR => Ok S_IFDIR
          | DT_OTHER => Ok S_IFOTHER
          end;
        match type with
        | S_IFREG =>
            if negb (filter_path flt (disk_name disk) sub_next) then
              (* late stat *)
              do st <- DSTAT;
              do physical <-
                match opt_force_order state with
                | SORT_PHYSICAL =>
                    match phy with
                    | Some p => Ok p
                    | None => exit (ErrorFilephy path_next)
                    end
                | _ => Ok 0
                end;
              do r <- scan_file scan state disk sub_next st physical;
              Ok (r, true)
            else Ok (scan, state, disk, false)
        | S_IFLNK =>
            if negb (filter_path flt (disk_name disk) sub_next) then
              do subnew <-
                match target with
                | Some t => Ok t
                | None => exit (ErrorReadlink path_next)
                end;
              (* process as a symbolic link *)
              do r <- scan_link scan state disk sub_next subnew FILE_IS_SYMLINK;
              Ok (r, true)
            else Ok (scan, state, disk, false)
        | S_IFDIR =>
            if negb (filter_dir flt (disk_name disk) sub_next) then
              (* late stat *)
              do st <- DSTAT;
              (* in Unix don't follow mount points in different devices *)
              if negb (st_dev st =? disk_device disk)
              then Ok (scan, state, disk, false)
              else
                (* recurse *)
                do '(scan, state, disk, p) <-
                  scan_dir flt
                    match entries with
                    | Some es => Some (map (fun e => (e, scan_dir_entry flt e)) es)
                    | None => None
                    end
                    scan state disk (path_next +:+ "/") (sub_next +:+ "/");
                do r <-
                  (if negb p
                   then (* scan the directory as empty dir *)
                     scan_emptydir scan state disk sub_next
                   else Ok (scan, state, disk));
                (* or we processed something internally, or we have added the
                   empty dir *)
                Ok (r, true)
            else Ok (scan, state, disk, false)
        | S_IFOTHER =>
            if negb (filter_path flt (disk_name disk) sub_next) then
              (* late stat *)
              do st <- DSTAT;
              Ok (scan, state, disk, false)
            else Ok (scan, state, disk, false)
        end
    end.

(** ** state_scan *)

(** What the filesystem of a disk answers: [fsinfo] (none when it fails, else
    whether the inodes are persistent) and the entries of its root. *)
Record disk_view := mk_disk_view {
  fs_fsinfo : option bool;
  fs_root : option (list dirent)
}.

(** "removes all the inodes from the inode collection" *)
Fixpoint clear_inodes (nodes : list nat) (disk : snapraid_disk) : result snapraid_disk :=
  match nodes with
  | [] => Ok disk
  | file :: nodes' =>
      (* remove from the inode set *)
      do s <- tommy_remove_existing (inodeset disk) file;
      let disk := set_inodeset s disk in
      (* clear the inode *)
      do disk <- file_store disk file (set_file_inode 0);
      (* mark as missing inode *)
      do disk <- file_store disk file (set_file_is_without_inode true);
      clear_inodes nodes' disk
  end.

(** "check for removed files", "... links", "... dirs": the loops walk the
    nodes the list has when they start. *)
Fixpoint remove_missing_files (nodes : list nat) (scan : snapraid_scan)
    (state : snapraid_state) (disk : snapraid_disk) : result scan_ctx :=
  match nodes with
  | [] => Ok (scan, state, disk)
  | file :: nodes' =>
      do f <- heap_get (files disk) file;
      (* remove if not present *)
      if negb (file_is_present f) then
        let scan := set_count_remove (incr (count_remove scan)) scan in
        do '(state, disk) <- scan_file_remove state disk file;
        remove_missing_files nodes' scan state disk
      else remove_missing_files nodes' scan state disk
  end.

Fixpoint remove_missing_links (nodes : list nat) (scan : snapraid_scan)
    (state : snapraid_state) (disk : snapraid_disk) : result scan_ctx :=
  match nodes with
  | [] => Ok (scan, state, disk)
  | link :: nodes' =>
      do l <- heap_get (links disk) link;
      (* remove if not present *)
      if negb (link_is_present l) then
        let scan := set_count_remove (incr (count_remove scan)) scan in
        do '(state, disk) <- scan_link_remove state disk link;
        remove_missing_links nodes' scan state disk
      else remove_missing_links nodes' scan state disk
  end.

Fixpoint remove_missing_dirs (nodes : list nat) (scan : snapraid_scan)
    (state : snapraid_state) (disk : snapraid_disk) : result scan_ctx :=
  match nodes with
  | [] => Ok (scan, state, disk)
  | dir :: nodes' =>
      do d <- heap_get (dirs disk) dir;
      (* remove if not present *)
      if negb (dir_is_present d) then
        let scan := set_count_remove (incr (count_remove scan)) scan in
        do '(state, disk) <- scan_emptydir_remove state disk dir;
        remove_missing_dirs nodes' scan state disk
      else remove_missing_dirs nodes' scan state disk
  end.

(** Modelled from the spec: the comparators [file_physical_compare],
    [file_inode_compare] and [file_alpha_compare] are defined in elem.c;
    ascending by physical offset, by inode, by [sub]. *)
Definition file_physical_compare (a b : snapraid_file) : bool :=
  file_physical a <=? file_physical b.
Definition file_inode_compare (a b : snapraid_file) : bool :=
  file_inode a <=? file_inode b.
Definition file_alpha_compare (a b : snapraid_file) : bool :=
  String.leb (file_sub a) (file_sub b).

(** The nodes of a list with the files they hold. *)
Fixpoint node_data (h : heap snapraid_file) (nodes : list nat)
  : result (list (nat * snapraid_file)) :=
  match nodes with
  | [] => Ok []
  | file :: nodes' =>
      do f <- heap_get h file;
      do l <- node_data h nodes';
      Ok ((file, f) :: l)
  end.

(** "sort the files before inserting them" *)
Definition sort_file_insert_list (state : snapraid_state) (disk : snapraid_disk)
    (nodes : list nat) : result (list nat) :=
  do l <- node_data (files disk) nodes;
  let sorted (le : snapraid_file -> snapraid_file -> bool) :=
    (tommy_list_sort (fun a b => le a.2 b.2) l).*1 in
  Ok match opt_force_order state with
     | SORT_PHYSICAL => sorted file_physical_compare
     | SORT_INODE => sorted file_inode_compare
     | SORT_ALPHA => sorted file_alpha_compare
     | SORT_DIR => (* already in order *) nodes
     end.

(** Modelled from the spec: the sentinel of [filephy] for a file without a
    known offset is defined in portable.h; its value is not in the spec. *)
Definition FILEPHY_WITHOUT_OFFSET : Z := 0.

(** "insert all the new files", with the count of duplicate physical
    offsets: the loop carries [phy_count], [phy_dup] and [phy_last]. *)
Fixpoint insert_new_files (nodes : list nat) (state : snapraid_state)
    (disk : snapraid_disk) (phy_count phy_dup phy_last : Z)
  : result (snapraid_state * snapraid_disk * Z) :=
  match nodes with
  | [] => Ok (state, disk, phy_dup)
  | file :: nodes' =>
      do f <- heap_get (files disk) file;
      (* if the file is not empty, count duplicate physical offsets *)
      let '(phy_count, phy_dup, phy_last) :=
        if bool_decide (opt_force_order state = SORT_PHYSICAL)
           && negb (file_size f =? 0)
        then
          let phy_dup :=
            if (phy_count >? 0) && (file_physical f =? phy_last)
               && negb (phy_last =? FILEPHY_WITHOUT_OFFSET)
            then incr phy_dup else phy_dup in
          (incr phy_count, phy_dup, file_physical f)
        else (phy_count, phy_dup, phy_last) in
      (* insert it *)
      do '(state, disk) <- scan_file_insert state disk file;
      insert_new_files nodes' state disk phy_count phy_dup phy_last
  end.

Fixpoint insert_new_links (nodes : list nat) (state : snapraid_state)
    (disk : snapraid_disk) : result (snapraid_state * snapraid_disk) :=
  match nodes with
  | [] => Ok (state, disk)
  | link :: nodes' =>
      do '(state, disk) <- scan_link_insert state disk link;
      insert_new_links nodes' state disk
  end.

Fixpoint insert_new_dirs (nodes : list nat) (state : snapraid_state)
    (disk : snapraid_disk) : result (snapraid_state * snapraid_disk) :=
  match nodes with
  | [] => Ok (state, disk)
  | dir :: nodes' =>
      do '(state, disk) <- scan_emptydir_insert state disk dir;
      insert_new_dirs nodes' state disk
  end.

(** The body of the first loop of state_scan, for one disk. *)
Definition state_scan_disk (flt : snapraid_filter) (state : snapraid_state)
    (disk : snapraid_disk) (fs : disk_view) : result scan_ctx :=
  let scan := scan_init in
  (* check if the disk supports persistent inodes *)
  do has_persistent_inode <-
    match fs_fsinfo fs with
    | Some b => Ok b
    | None => exit (ErrorFsinfo (disk_dir disk))
    end;
  do disk <-
    (if negb has_persistent_inode then
       (* mask the disk *)
       let disk := set_has_not_persistent_inodes true disk in
       (* removes all the inodes from the inode collection *)
       clear_inodes (filelist disk) disk
     else Ok disk);
  do '(scan, state, disk, _) <-
    scan_dir flt
      match fs_root fs with
      | Some es => Some (map (fun e => (e, scan_dir_entry flt e)) es)
      | None => None
      end
      scan state disk (disk_dir disk) "";
  (* check for removed files *)
  do '(scan, state, disk) <- remove_missing_files (filelist disk) scan state disk;
  (* check for removed links *)
  do '(scan, state, disk) <- remove_missing_links (linklist disk) scan state disk;
  (* check for removed dirs *)
  do '(scan, state, disk) <- remove_missing_dirs (dirlist disk) scan state disk;
  (* sort the files before inserting them *)
  do nodes <- sort_file_insert_list state disk (file_insert_list scan);
  let scan := set_file_insert_list nodes scan in
  (* insert all the new files, we insert them only after the deletion *)
  do '(state, disk, phy_dup) <-
    insert_new_files (file_insert_list scan) state disk 0 0 (2 ^ 64 - 1);
  (* mark the disk without reliable physical offset if it has duplicates *)
  let disk :=
    if bool_decide (opt_force_order state = SORT_PHYSICAL) && (phy_dup >? 0)
    then set_has_not_reliable_physical true disk
    else disk in
  (* insert all the new links *)
  do '(state, disk) <- insert_new_links (link_insert_list scan) state disk;
  (* insert all the new dirs *)
  do '(state, disk) <- insert_new_dirs (dir_insert_list scan) state disk;
  Ok (scan, state, disk).

(** The first loop of state_scan, over the disks: the disks after their scan
    and the list of the scans. [fs] gives the filesystem under the dir of
    each disk. *)
Fixpoint state_scan_disks (flt : snapraid_filter) (fs : string -> disk_view)
    (state : snapraid_state) (disklist : list snapraid_disk)
  : result (snapraid_state * list snapraid_disk * list snapraid_scan) :=
  match disklist with
  | [] => Ok (state, [], [])
  | disk :: disklist' =>
      do '(scan, state, disk) <- state_scan_disk flt state disk (fs (disk_dir disk));
      do '(state, disks, scanlist) <- state_scan_disks flt fs state disklist';
      Ok (state, disk :: disks, scan :: scanlist)
  end.

(** The test of the empty-disk check on the counters of a scan. *)
Definition all_missing_or_rewritten (scan : snapraid_scan) : bool :=
  (count_equal scan =? 0) && (count_move scan =? 0) && (count_restore scan =? 0)
  && (negb (count_remove scan =? 0) || negb (count_change scan =? 0)).

(** "checks for disks where all the previously existing files where
    removed": the loop over the disks and their scans gives the disks named
    on stderr, by name and dir, in the order they are printed. *)
Fixpoint missing_disks (disklist : list snapraid_disk) (scanlist : list snapraid_scan)
  : list (string * string) :=
  match disklist, scanlist with
  | disk :: disklist', scan :: scanlist' =>
      if all_missing_or_rewritten scan
      then (disk_name disk, disk_dir disk) :: missing_disks disklist' scanlist'
      else missing_disks disklist' scanlist'
  | _, _ => []
  end.

Definition check_empty_disks (state : snapraid_state) (disklist : list snapraid_disk)
    (scanlist : list snapraid_scan) : result unit :=
  if negb (opt_force_empty state) then
    let printed := missing_disks disklist scanlist in
    (* [done] is set when the first disk is printed *)
    if negb (bool_decide (printed = [])) then exit (EmptyDisks printed)
    else Ok tt
  else Ok tt.

(** state_scan: the scan of every disk, then the check. The warnings and the
    summary that follow only print. *)
Definition state_scan (flt : snapraid_filter) (fs : string -> disk_view)
    (state : snapraid_state) (disklist : list snapraid_disk)
  : result (snapraid_state * list snapraid_disk * list snapraid_scan) :=
  do '(state, disklist, scanlist) <- state_scan_disks flt fs state disklist;
  (* checks for disks where all the previously existing files where removed *)
  do _ <- check_empty_disks state disklist scanlist;
  Ok (state, disklist, scanlist).

(** ** Specification vocabulary *)

(** What scan_file_insert gives a block for the cell [c] found in the slot
    it claims ([None]: a slot past the end of the array, created empty):
    [b] is the block before, [b'] the block after, [deleted] the deleted
    list the cell points into. *)
Definition claimed_block (state : snapraid_state) (deleted : list snapraid_block)
    (c : option block_ptr) (b b' : snapraid_block) : Prop :=
  match c with
  | Some (DeletedBlock d) =>
      exists del, deleted !! d = Some del /\
        state_of b' = BLOCK_STATE_CHG /\
        hash b' = (if clear_undeterminate_hash state
                   then hash_copy (hash del) else hash_zero)
  | Some (FileBlock _ _) => False
  | Some BLOCK_EMPTY | None =>
      state_of b' = BLOCK_STATE_NEW /\ hash b' = hash b
  end.

(** The invariant of the loop of scan_file_insert before iteration [i]:
    [disk0] and [f0] are the disk and the file at the start of the loop,
    [disk], [block_max] and [block_pos] their values now. *)
Record insert_inv (state : snapraid_state) (disk0 : snapraid_disk) (file : nat)
    (f0 : snapraid_file) (i : nat) (disk : snapraid_disk) (block_max block_pos : Z)
  : Prop := {
  ii_max : block_max = Z.of_nat (length (blockarr disk));
  ii_len : (length (blockarr disk0) <= length (blockarr disk)
            <= length (blockarr disk0) + i)%nat;
  ii_first : i = 0%nat -> block_pos = first_free_block disk0;
  ii_last : i <> 0%nat ->
    first_free_block disk0 <= block_pos < block_max /\
    blockarr disk !! Z.to_nat block_pos = Some (FileBlock file (i - 1));
  ii_last_block : i <> 0%nat ->
    exists f b, files disk !! file = Some (Some f) /\
      blockvec f !! (i - 1)%nat = Some b /\ parity_pos b = block_pos;
  ii_above : forall q, block_pos <= q -> i = 0%nat \/ block_pos < q ->
    blockarr disk !! Z.to_nat q = blockarr disk0 !! Z.to_nat q;
  ii_below : forall q, 0 <= q < first_free_block disk0 ->
    blockarr disk !! Z.to_nat q = blockarr disk0 !! Z.to_nat q;
  ii_between : forall q, first_free_block disk0 <= q <= block_pos -> i <> 0%nat ->
    exists c, blockarr disk !! Z.to_nat q = Some c /\ block_has_file c = true;
  ii_claimed : forall q, first_free_block disk0 <= q <= block_pos -> i <> 0%nat ->
    (exists c, blockarr disk0 !! Z.to_nat q = Some c /\ block_has_file c = true) \/
    (exists j f b', (j < i)%nat /\ files disk !! file = Some (Some f) /\
       blockvec f !! j = Some b' /\ parity_pos b' = q);
  ii_deleted_length : length (deletedlist disk) = length (deletedlist disk0);
  ii_deleted : clear_undeterminate_hash state = true ->
    deletedlist disk = deletedlist disk0;
  ii_file : exists f,
    files disk !! file = Some (Some f) /\
    length (blockvec f) = length (blockvec f0) /\
    (forall j, (i <= j)%nat -> blockvec f !! j = blockvec f0 !! j) /\
    (forall j b', (j < i)%nat -> blockvec f !! j = Some b' ->
       first_free_block disk0 <= parity_pos b' <= block_pos /\
       blockarr disk !! Z.to_nat (parity_pos b') = Some (FileBlock file j) /\
       exists b, blockvec f0 !! j = Some b /\
         claimed_block state (deletedlist disk0)
           (blockarr disk0 !! Z.to_nat (parity_pos b')) b b') /\
    (forall j k bj bk, (j < k < i)%nat ->
       blockvec f !! j = Some bj -> blockvec f !! k = Some bk ->
       parity_pos bj < parity_pos bk);
  ii_frame :
    first_free_block disk = first_free_block disk0 /\
    filelist disk = filelist disk0 /\
    inodeset disk = inodeset disk0 /\
    pathset disk = pathset disk0
}.

(** The hash scan_file_remove leaves in the deleted block made from [b]:
    the hash of a [BLK] block, and for the other states the hash or zeros
    after [clear_undeterminate_hash]. *)
Definition kept_hash (state : snapraid_state) (b : snapraid_block) : list byte :=
  match state_of b with
  | BLOCK_STATE_BLK => hash b
  | _ => if clear_undeterminate_hash state then hash b else hash_zero
  end.

(** I2 for one file: the block array refers to each block of the file at
    the parity position of the block. *)
Definition file_blocks_mapped (disk : snapraid_disk) (file : nat) (f : snapraid_file)
  : Prop :=
  forall i b, blockvec f !! i = Some b ->
    0 <= parity_pos b /\
    blockarr disk !! Z.to_nat (parity_pos b) = Some (FileBlock file i).

(** The invariant of the loop of scan_file_remove before iteration [i]. *)
Record remove_inv (state : snapraid_state) (disk0 : snapraid_disk) (file : nat)
    (f0 : snapraid_file) (i : nat) (disk : snapraid_disk) : Prop := {
  ri_file : exists f,
    files disk !! file = Some (Some f) /\
    length (blockvec f) = length (blockvec f0) /\
    (forall j, (i <= j)%nat -> blockvec f !! j = blockvec f0 !! j) /\
    file_is_without_inode f = file_is_without_inode f0;
  ri_files : length (files disk) = length (files disk0) /\
    forall g, g <> file -> files disk !! g = files disk0 !! g;
  ri_deleted : deletedlist disk =
    deletedlist disk0 ++
    map (fun b => deleted_dup (block_hash_set (kept_hash state b) b))
        (take i (blockvec f0));
  ri_length : length (blockarr disk) = length (blockarr disk0);
  ri_done : file_blocks_mapped disk0 file f0 ->
    forall j b, (j < i)%nat -> blockvec f0 !! j = Some b ->
    blockarr disk !! Z.to_nat (parity_pos b)
    = Some (DeletedBlock (length (deletedlist disk0) + j));
  ri_nonempty : forall q c, blockarr disk0 !! q = Some c -> c <> BLOCK_EMPTY ->
    exists c', blockarr disk !! q = Some c' /\ c' <> BLOCK_EMPTY;
  ri_rest : forall q,
    (forall j b, (j < i)%nat -> blockvec f0 !! j = Some b -> Z.to_nat (parity_pos b) <> q) ->
    blockarr disk !! q = blockarr disk0 !! q;
  ri_free : first_free_block disk =
    fold_left Z.min (map parity_pos (take i (blockvec f0))) (first_free_block disk0);
  ri_frame :
    filelist disk = filelist disk0 /\
    inodeset disk = inodeset disk0 /\
    pathset disk = pathset disk0
}.

(** I3: no cell below the cursor [first_free_block] is empty; the cursor is
    at most the index of the first empty cell, and at most the size of the
    array when no cell is empty. *)
Fixpoint first_empty (arr : list block_ptr) : nat :=
  match arr with
  | [] => 0
  | c :: arr' =>
      match c with
      | BLOCK_EMPTY => 0
      | _ => S (first_empty arr')
      end
  end.

Definition first_free_bound (disk : snapraid_disk) : Prop :=
  first_free_block disk <= Z.of_nat (first_empty (blockarr disk)).

(** I1 for one file of the file list: it is in the path index, and in the
    inode index unless flagged without inode. *)
Definition file_indexed (disk : snapraid_disk) (file : nat) (f : snapraid_file) : Prop :=
  (file_is_without_inode f = false -> file ∈ inodeset disk) /\
  file ∈ pathset disk /\
  file ∈ filelist disk.

(** What scan_file_insert needs of the disk to allocate the blocks of [f]:
    the cursor is inside the array, the array with one more cell for each
    block fits the 32 bits of [block_off_t], and the deleted cells from the
    cursor on point into the deleted list. *)
Definition insert_ready (disk : snapraid_disk) (f : snapraid_file) : Prop :=
  0 <= first_free_block disk <= Z.of_nat (length (blockarr disk)) /\
  Z.of_nat (length (blockarr disk)) + Z.of_nat (blockmax f) < 2 ^ 32 /\
  forall q d, first_free_block disk <= q ->
    blockarr disk !! Z.to_nat q = Some (DeletedBlock d) ->
    (d < length (deletedlist disk))%nat.

(** The condition of the empty-disk check on the counters of a disk. *)
Definition all_missing (scan : snapraid_scan) : Prop :=
  count_equal scan = 0 /\ count_move scan = 0 /\ count_restore scan = 0 /\
  (count_remove scan <> 0 \/ count_change scan <> 0).

#[global] Instance all_missing_dec (scan : snapraid_scan) : Decision (all_missing scan).
Proof. unfold all_missing. apply _. Defined.

(** The disks, with their scans, that satisfy the condition. *)
Definition affected_disks (disklist : list snapraid_disk) (scanlist : list snapraid_scan)
  : list (snapraid_disk * snapraid_scan) :=
  filter (fun ds => all_missing ds.2) (zip disklist scanlist).

(** ** A small catalog, used to exercise the statements below

    One disk with the file "f" of two blocks, at the parity positions 0 and
    1, in state [BLK] with the hashes [ex_H1] and [ex_H2]; the filesystem
    holds "f" with another size and time. *)

Definition ex_H1 : list byte := replicate HASH_SIZE x01.
Definition ex_H2 : list byte := replicate HASH_SIZE x02.

Definition ex_file : snapraid_file :=
  mk_file "f" 300000 1000 0 10 0 false false
    [mk_block 0 BLOCK_STATE_BLK ex_H1; mk_block 1 BLOCK_STATE_BLK ex_H2].

Definition ex_disk : snapraid_disk :=
  mk_disk "d1" "/mnt/d1/" 1
    [Some ex_file] [0%nat] [0%nat] [0%nat]
    [] [] [] [] [] []
    [FileBlock 0 0; FileBlock 0 1] [] 2 false false.

Definition ex_state (clear : bool) : snapraid_state :=
  mk_state false clear false false SORT_DIR 262144.

Definition ex_stat : stat := mk_stat S_IFREG 10 1 1 400000 1001 0.

(** The disk after scan_file has seen the changed "f": the old file is
    removed, its two slots hold deleted blocks, and the new file, with the
    handle 1, waits in the insert list. *)
Definition ex_changed_disk : snapraid_disk :=
  Eval vm_compute in
    match scan_file scan_init (ex_state false) ex_disk "f" ex_stat 0 with
    | Ok (_, _, disk) => disk
    | Err _ => ex_disk
    end.

(** [ex_disk] after scan_file_remove of "f". *)
Definition ex_removed_disk : snapraid_disk :=
  Eval vm_compute in
    match scan_file_remove (ex_state false) ex_disk 0 with
    | Ok (_, disk) => disk
    | Err _ => ex_disk
    end.

Definition ex_new_file : snapraid_file :=
  set_file_is_present true
    (file_alloc 262144 "f" 400000 1001 0 10 0).

(** An empty file waiting for its insertion on [ex_disk]. *)
Definition ex_empty_file : snapraid_file :=
  set_file_is_present true (file_alloc 262144 "e" 0 1001 0 11 0).

Definition ex_disk_with_empty : snapraid_disk :=
  set_files (files ex_disk ++ [Some ex_empty_file]) ex_disk.

(** [ex_disk] with the new version of "f" allocated next to the old one. *)
Definition ex_disk_two : snapraid_disk :=
  set_files (files ex_disk ++ [Some ex_new_file]) ex_disk.

(** A filter that excludes nothing, and a filesystem whose only entry is the
    changed "f". *)
Definition ex_filter : snapraid_filter :=
  mk_filter (fun _ => false) (fun _ => false) (fun _ _ => false) (fun _ _ => false).

Definition ex_fs : string -> disk_view :=
  fun _ => mk_disk_view (Some true)
             (Some [Dirent "f" 10 DT_REG (Some ex_stat) (Some 0) None None]).

(** [ex_disk] after the scan of the disk on [ex_fs], and the scan. *)
Definition ex_scanned : snapraid_scan * snapraid_state * snapraid_disk :=
  Eval vm_compute in
    match state_scan_disk ex_filter (ex_state false) ex_disk (ex_fs "/mnt/d1/") with
    | Ok r => r
    | Err _ => (scan_init, ex_state false, ex_disk)
    end.

(** [ex_disk] when "f" has been seen, and a second path "g" for the same
    inode, with a link count of two. *)
Definition ex_disk_present : snapraid_disk :=
  set_files [Some (set_file_is_present true ex_file)] ex_disk.

Definition ex_stat_link : stat := mk_stat S_IFREG 10 1 2 300000 1000 0.




(** "f" as the filesystem holds it after a restore: same size and times,
    another inode. *)
Definition ex_stat_restored : stat := mk_stat S_IFREG 17 1 1 300000 1000 0.

(** A disk with an empty catalog, and a filesystem whose only entry is the
    file "a", with a link count of two. *)
Definition ex_disk_new : snapraid_disk :=
  mk_disk "d1" "/mnt/d1/" 1 [] [] [] [] [] [] [] [] [] [] [] [] 0 false false.

Definition ex_fs_link : string -> disk_view :=
  fun _ => mk_disk_view (Some true)
             (Some [Dirent "a" 10 DT_REG (Some ex_stat_link) (Some 0) None None]).

(** The scan of [ex_disk_new] on [ex_fs_link]: the state, the disks and the
    scans. *)
Definition ex_first_scan : snapraid_state * list snapraid_disk * list snapraid_scan :=
  Eval vm_compute in
    match state_scan ex_filter ex_fs_link (ex_state false) [ex_disk_new] with
    | Ok r => r
    | Err _ => (ex_state false, [], [])
    end.


(** [ex_disk] with the time of "f" stored without nanoseconds. *)
Definition ex_disk_nsec : snapraid_disk :=
  set_files [Some (set_file_mtime_nsec STAT_NSEC_INVALID ex_file)] ex_disk.

(** "f" as the filesystem holds it unchanged, with the nanoseconds 7. *)
Definition ex_stat_nsec : stat := mk_stat S_IFREG 10 1 1 300000 1000 7.

(** A filesystem whose root directory is empty, and the scan of [ex_disk]
    on it. *)
Definition ex_fs_empty : string -> disk_view :=
  fun _ => mk_disk_view (Some true) (Some []).

Definition ex_unmounted : snapraid_state * list snapraid_disk * list snapraid_scan :=
  Eval vm_compute in
    match state_scan_disks ex_filter ex_fs_empty (ex_state false) [ex_disk] with
    | Ok r => r
    | Err _ => (ex_state false, [], [])
    end.

(** A filesystem whose inodes are not persistent, with the unchanged "f",
    and the scan of [ex_disk] on it. *)
Definition ex_fs_fat : string -> disk_view :=
  fun _ => mk_disk_view (Some false)
             (Some [Dirent "f" 44 DT_REG (Some (mk_stat S_IFREG 44 1 1 300000 1000 0))
                      (Some 0) None None]).

Definition ex_fat_scan : snapraid_state * list snapraid_disk * list snapraid_scan :=
  Eval vm_compute in
    match state_scan ex_filter ex_fs_fat (ex_state false) [ex_disk] with
    | Ok r => r
    | Err _ => (ex_state false, [], [])
    end.

(** A filesystem with a tree: the directory "a" holding the file "f" and the
    link "l", the file "f" beside it, and the empty directory "e". *)
Definition ex_stat_dir : stat := mk_stat S_IFDIR 20 1 2 4096 1001 0.
Definition ex_stat_other : stat := mk_stat S_IFREG 11 1 1 5 1001 0.

Definition ex_fs_tree : disk_view :=
  mk_disk_view (Some true)
    (Some [Dirent "a" 20 DT_DIR (Some ex_stat_dir) None None
             (Some [Dirent "f" 10 DT_REG (Some ex_stat) (Some 0) None None;
                    Dirent "l" 12 DT_LNK None None (Some "f") None]);
           Dirent "f" 11 DT_REG (Some ex_stat_other) (Some 0) None None;
           Dirent "e" 21 DT_DIR (Some ex_stat_dir) None None (Some [])]).

(** The scan of [ex_disk_new] on [ex_fs_tree]. *)
Definition ex_tree_scan : snapraid_scan * snapraid_state * snapraid_disk :=
  Eval vm_compute in
    match state_scan_disk ex_filter (ex_state false) ex_disk_new ex_fs_tree with
    | Ok r => r
    | Err _ => (scan_init, ex_state false, ex_disk_new)
    end.

(** [ex_disk_two] after scan_file_insert of the new "f". *)
Definition ex_disk_two_inserted : snapraid_disk :=
  Eval vm_compute in
    match scan_file_insert (ex_state false) ex_disk_two 1 with
    | Ok (_, disk) => disk
    | Err _ => ex_disk_two
    end.

(** [ex_disk_two] after scan_file_remove of the old "f". *)
Definition ex_removed_two : snapraid_disk :=
  Eval vm_compute in
    match scan_file_remove (ex_state false) ex_disk_two 0 with
    | Ok (_, disk) => disk
    | Err _ => ex_disk_two
    end.

(** The scan of [ex_disk] on [ex_fs_fat]. *)
Definition ex_fat_disk_scan : snapraid_scan * snapraid_state * snapraid_disk :=
  Eval vm_compute in
    match state_scan_disk ex_filter (ex_state false) ex_disk (ex_fs_fat "/mnt/d1/") with
    | Ok r => r
    | Err _ => (scan_init, ex_state false, ex_disk)
    end.

(** A filter that excludes the path "a/l", and the scan of [ex_disk_new] on
    [ex_fs_tree] with it. *)
Definition ex_filter_link : snapraid_filter :=
  mk_filter (fun _ => false) (fun _ => false)
    (fun _ sub => bool_decide (sub = "a/l")) (fun _ _ => false).

Definition ex_tree_filtered : snapraid_scan * snapraid_state * snapraid_disk :=
  Eval vm_compute in
    match state_scan_disk ex_filter_link (ex_state false) ex_disk_new ex_fs_tree with
    | Ok r => r
    | Err _ => (scan_init, ex_state false, ex_disk_new)
    end.

(** A catalog with the symbolic link "l" to "old". *)
Definition ex_link : snapraid_link := mk_link "l" "old" FILE_IS_SYMLINK false.

Definition ex_disk_link : snapraid_disk :=
  mk_disk "d1" "/mnt/d1/" 1 [] [] [] [] [Some ex_link] [0%nat] [0%nat]
    [] [] [] [] [] 0 false false.

(** [ex_disk] with "f" detached from the inode index, as the search by inode
    leaves a file whose inode was met with other data: the inode cleared and
    the flag WITHOUT_INODE set; and stat data for "f" with the inode 0. *)
Definition ex_file_detached : snapraid_file :=
  set_file_is_without_inode true (set_file_inode 0 ex_file).

Definition ex_disk_detached : snapraid_disk :=
  set_inodeset [] (set_files [Some ex_file_detached] ex_disk).

Definition ex_stat_zero : stat := mk_stat S_IFREG 0 1 1 300000 1000 0.

(** [ex_disk] with "f" missing from the inode index though it has its inode,
    and stat data for "f" with that inode. *)
Definition ex_disk_unindexed : snapraid_disk := set_inodeset [] ex_disk.

Definition ex_stat_same : stat := mk_stat S_IFREG 10 1 1 300000 1000 0.

(** ** The walk of scan_dir, apart from the catalog *)

(** The calls scan_dir makes on the catalog while it walks a tree: scan_file
    on a regular file, scan_link on a symbolic link, scan_emptydir on a
    directory in which nothing was processed. *)
Inductive event :=
  | EvFile (sub : string) (st : stat) (physical : Z)
  | EvLink (sub linkto : string)
  | EvDir (sub : string).

Definition event_sub (ev : event) : string :=
  match ev with
  | EvFile sub _ _ => sub
  | EvLink sub _ => sub
  | EvDir sub => sub
  end.

Definition scan_event (ev : event) (ctx : scan_ctx) : result scan_ctx :=
  let '(scan, state, disk) := ctx in
  match ev with
  | EvFile sub st physical => scan_file scan state disk sub st physical
  | EvLink sub linkto => scan_link scan state disk sub linkto FILE_IS_SYMLINK
  | EvDir sub => scan_emptydir scan state disk sub
  end.

Fixpoint scan_events (evs : list event) (ctx : scan_ctx) : result scan_ctx :=
  match evs with
  | [] => Ok ctx
  | ev :: evs' => do ctx <- scan_event ev ctx; scan_events evs' ctx
  end.

(** What the scan of a disk reads of the disk and of the state to choose
    its way. *)
Record walk_env := mk_walk_env {
  we_name : string;
  we_dir : string;
  we_device : Z;
  we_not_persistent : bool;
  we_order : sort_order
}.

Definition env_of (state : snapraid_state) (disk : snapraid_disk) : walk_env :=
  mk_walk_env (disk_name disk) (disk_dir disk) (disk_device disk)
    (has_not_persistent_inodes disk)
    (opt_force_order state).

(** The events of an entry of the directory [dir] (relative path [sub]), and
    whether it sets [processed]. *)
Definition walk_action : Type := string -> string -> result (list event * bool).

Fixpoint walk_process (entries : list (dirent * walk_action)) (dir sub : string)
    (processed : bool) : result (list event * bool) :=
  match entries with
  | [] => Ok ([], processed)
  | (dd, action) :: entries' =>
      do '(evs, p) <- action dir sub;
      do '(evs', p') <- walk_process entries' dir sub (processed || p);
      Ok (evs ++ evs', p')
  end.

Definition walk_dir (flt : snapraid_filter) (env : walk_env)
    (entries : option (list (dirent * walk_action))) : walk_action :=
  fun dir sub =>
    match entries with
    | None => exit (ErrorOpendir dir)
    | Some entries =>
        do entries <- scan_dir_read flt dir entries;
        let entries :=
          if negb (we_not_persistent env)
          then tommy_list_sort (fun a b => d_ino a.1 <=? d_ino b.1) entries
          else entries in
        walk_process entries dir sub false
    end.

Fixpoint walk_entry (flt : snapraid_filter) (env : walk_env) (dd : dirent) {struct dd}
  : walk_action :=
  fun dir sub =>
    match dd with
    | Dirent name _ dtype lst phy target entries =>
        let path_next := dir +:+ name in
        let sub_next := sub +:+ name in
        let DSTAT : result stat :=
          match lst with
          | Some st => Ok st
          | None => exit (ErrorStat path_next)
          end in
        do type <-
          match dtype with
          | DT_UNKNOWN => do st <- DSTAT; Ok (st_mode st)
          | DT_REG => Ok S_IFREG
          | DT_LNK => Ok S_IFLNK
          | DT_DIR => Ok S_IFDIR
          | DT_OTHER => Ok S_IFOTHER
          end;
        match type with
        | S_IFREG =>
            if negb (filter_path flt (we_name env) sub_next) then
              do st <- DSTAT;
              do physical <-
                match we_order env with
                | SORT_PHYSICAL =>
                    match phy with
                    | Some p => Ok p
                    | None => exit (ErrorFilephy path_next)
                    end
                | _ => Ok 0
                end;
              Ok ([EvFile sub_next st physical], true)
            else Ok ([], false)
        | S_IFLNK =>
            if negb (filter_path flt (we_name env) sub_next) then
              do subnew <-
                match target with
                | Some t => Ok t
                | None => exit (ErrorReadlink path_next)
                end;
              Ok ([EvLink sub_next subnew], true)
            else Ok ([], false)
        | S_IFDIR =>
            if negb (filter_dir flt (we_name env) sub_next) then
              do st <- DSTAT;
              if negb (st_dev st =? we_device env)
              then Ok ([], false)
              else
                do '(evs, p) <-
                  walk_dir flt env
                    match entries with
                    | Some es => Some (map (fun e => (e, walk_entry flt env e)) es)
                    | None => None
                    end
                    (path_next +:+ "/") (sub_next +:+ "/");
                Ok (if negb p then evs ++ [EvDir sub_next] else evs, true)
            else Ok ([], false)
        | S_IFOTHER =>
            if negb (filter_path flt (we_name env) sub_next) then
              do st <- DSTAT;
              Ok ([], false)
            else Ok ([], false)
        end
    end.

(** The events of the walk of a disk. *)
Definition walk_disk (flt : snapraid_filter) (env : walk_env) (dir : string)
    (fs : disk_view) : result (list event) :=
  do '(evs, _) <-
    walk_dir flt env
      match fs_root fs with
      | Some es => Some (map (fun e => (e, walk_entry flt env e)) es)
      | None => None
      end
      dir "";
  Ok evs.

(** ** The catalog of a disk after a scan *)

(** The file behind a handle, apart from its blocks; the link and the dir
    behind a handle. *)
Definition file_meta (f : snapraid_file) : snapraid_file := set_blockvec [] f.

Definition fget (d : snapraid_disk) (h : nat) : option snapraid_file :=
  match files d !! h with
  | Some (Some f) => Some (file_meta f)
  | _ => None
  end.

Definition lget (d : snapraid_disk) (l : nat) : option snapraid_link :=
  match links d !! l with
  | Some (Some x) => Some x
  | _ => None
  end.

Definition dget (d : snapraid_disk) (dh : nat) : option snapraid_dir :=
  match dirs d !! dh with
  | Some (Some x) => Some x
  | _ => None
  end.

Section Objects.
Context {A : Type} (present : A -> bool).

Definition is_present (get : nat -> option A) (h : nat) : Prop :=
  exists a, get h = Some a /\ present a = true.

(** What a step of the scan does to the objects of one kind, listed in [dom]
    before it and in [dom'] after it: the objects that were marked present
    stay as they are, and the ones in [new] are the only ones it may mark. *)
Record obj_step (get get' : nat -> option A) (dom dom' new : list nat) : Prop := {
  os_frozen : forall k a, get k = Some a -> present a = true -> get' k = Some a;
  os_dom : forall k, k ∈ dom -> is_present get k -> k ∈ dom';
  os_present : forall k, k ∈ dom' -> is_present get' k ->
    k ∈ new \/ (k ∈ dom /\ is_present get k);
  os_new : forall k, k ∈ new -> ~ is_present get k
}.

(** The objects marked present are the ones of [marks], each once. *)
Record obj_marks (get : nat -> option A) (dom marks : list nat) : Prop := {
  om_nodup : NoDup marks;
  om_iff : forall h, h ∈ marks <-> h ∈ dom /\ is_present get h
}.

End Objects.

(** I1 for the files listed in [dom]: the index by path holds them all, the
    index by inode holds the ones that have an inode, each once, and no two
    of these have the same inode. *)
Record files_wf (d : snapraid_disk) (dom : list nat) : Prop := {
  fw_nodup : NoDup dom;
  fw_live : forall h, h ∈ dom -> is_Some (fget d h);
  fw_path : pathset d ≡ₚ dom;
  fw_inode_nodup : NoDup (inodeset d);
  fw_inode : forall h, h ∈ inodeset d <->
    h ∈ dom /\ exists m, fget d h = Some m /\ file_is_without_inode m = false;
  fw_unique : forall h g m n, h ∈ inodeset d -> g ∈ inodeset d ->
    fget d h = Some m -> fget d g = Some n -> file_inode m = file_inode n -> h = g
}.

(** The links of the list with the ones that wait in [pend]: the index holds
    the links of the list. *)
Record links_wf (d : snapraid_disk) (pend : list nat) : Prop := {
  lw_nodup : NoDup (linklist d ++ pend);
  lw_live : forall l, l ∈ linklist d ++ pend -> is_Some (lget d l);
  lw_set : linkset d ≡ₚ linklist d
}.

Record dirs_wf (d : snapraid_disk) (pend : list nat) : Prop := {
  dw_nodup : NoDup (dirlist d ++ pend);
  dw_live : forall dh, dh ∈ dirlist d ++ pend -> is_Some (dget d dh);
  dw_set : dirset d ≡ₚ dirlist d
}.

(** What an event marks present: a file, the link of a hardlink to the file
    [h] met before, a symbolic link, a dir. *)
Inductive mark :=
  | MFile (h : nat)
  | MHard (h l : nat)
  | MSym (l : nat)
  | MDir (dh : nat).

Definition mark_file (mk : mark) : option nat :=
  match mk with MFile h => Some h | _ => None end.
Definition mark_link (mk : mark) : option nat :=
  match mk with MHard _ l | MSym l => Some l | _ => None end.
Definition mark_dir (mk : mark) : option nat :=
  match mk with MDir dh => Some dh | _ => None end.

Definition mark_files (t : list mark) : list nat := omap mark_file t.
Definition mark_links (t : list mark) : list nat := omap mark_link t.
Definition mark_dirs (t : list mark) : list nat := omap mark_dir t.

(** The file [h] is the entry [sub] with the stat data [st]. *)
Definition file_has (p : bool) (d : snapraid_disk) (h : nat) (sub : string) (st : stat)
  : Prop :=
  exists m, fget d h = Some m /\
    file_is_present m = p /\ file_is_without_inode m = false /\
    file_sub m = sub /\ file_inode m = st_ino st /\
    file_size m = st_size st /\ file_mtime_sec m = st_mtime st /\
    file_mtime_nsec m = STAT_NSEC st.

Definition link_has (p : bool) (d : snapraid_disk) (l : nat) (sub linkto : string)
    (kind : link_kind) : Prop :=
  lget d l = Some (mk_link sub linkto kind p).

Definition dir_has (p : bool) (d : snapraid_disk) (dh : nat) (sub : string) : Prop :=
  dget d dh = Some (mk_dir sub p).

(** The catalog holds what the event saw, in the object of the mark.  [p] is
    the value of the PRESENT flags. *)
Definition mark_ok (p : bool) (d : snapraid_disk) (ev : event) (mk : mark) : Prop :=
  match ev, mk with
  | EvFile sub st _, MFile h => file_has p d h sub st
  | EvFile sub st _, MHard h l =>
      exists m, fget d h = Some m /\
        file_is_present m = p /\ file_is_without_inode m = false /\
        file_inode m = st_ino st /\ file_not_changed m st = true /\
        1 < st_nlink st /\
        link_has p d l sub (file_sub m) FILE_IS_HARDLINK
  | EvLink sub linkto, MSym l => link_has p d l sub linkto FILE_IS_SYMLINK
  | EvDir sub, MDir dh => dir_has p d dh sub
  | _, _ => False
  end.

(** A hardlink comes after the file it links to. *)
Definition hard_after (t : list mark) : Prop :=
  forall t1 h l t2, t = t1 ++ MHard h l :: t2 -> h ∈ mark_files t1.

(** The invariant of the walk of a disk, after the events [evs]: the files,
    links and dirs that wait for their insertion are [fp], [lp] and [dp]. *)
Record scanned (d : snapraid_disk) (fp lp dp : list nat) (evs : list event)
    (t : list mark) : Prop := {
  sc_files : files_wf d (filelist d ++ fp);
  sc_links : links_wf d lp;
  sc_dirs : dirs_wf d dp;
  sc_marks : Forall2 (mark_ok true d) evs t;
  sc_hard : hard_after t;
  sc_mfiles : obj_marks file_is_present (fget d) (filelist d ++ fp) (mark_files t);
  sc_mlinks : obj_marks link_is_present (lget d) (linklist d ++ lp) (mark_links t);
  sc_mdirs : obj_marks dir_is_present (dget d) (dirlist d ++ dp) (mark_dirs t);
  sc_fp : forall h, h ∈ fp -> h ∈ mark_files t;
  sc_lp : forall l, l ∈ lp -> l ∈ mark_links t;
  sc_dp : forall dh, dh ∈ dp -> dh ∈ mark_dirs t;
  sc_np : has_not_persistent_inodes d = true ->
    forall h, h ∈ inodeset d -> h ∈ mark_files t
}.

(** The catalog is the one of the events [evs]: every object is the one of
    an event, the lists and the indices hold them all. *)
Record synced (p : bool) (d : snapraid_disk) (evs : list event) (t : list mark)
  : Prop := {
  sy_marks : Forall2 (mark_ok p d) evs t;
  sy_hard : hard_after t;
  sy_files : NoDup (mark_files t);
  sy_filelist : filelist d ≡ₚ mark_files t;
  sy_pathset : pathset d ≡ₚ mark_files t;
  sy_inodeset : inodeset d ≡ₚ mark_files t;
  sy_unique : forall h g m n, h ∈ mark_files t -> g ∈ mark_files t ->
    fget d h = Some m -> fget d g = Some n -> file_inode m = file_inode n -> h = g;
  sy_links : NoDup (mark_links t);
  sy_linklist : linklist d ≡ₚ mark_links t;
  sy_linkset : linkset d ≡ₚ mark_links t;
  sy_dirs : NoDup (mark_dirs t);
  sy_dirlist : dirlist d ≡ₚ mark_dirs t;
  sy_dirset : dirset d ≡ₚ mark_dirs t
}.

(** The catalog before a scan: I1, and no PRESENT flag is set. *)
Record catalog_wf (d : snapraid_disk) : Prop := {
  cw_files : files_wf d (filelist d);
  cw_links : links_wf d [];
  cw_dirs : dirs_wf d [];
  cw_file_flags : forall h, h ∈ filelist d -> ~ is_present file_is_present (fget d) h;
  cw_link_flags : forall l, l ∈ linklist d -> ~ is_present link_is_present (lget d) l;
  cw_dir_flags : forall dh, dh ∈ dirlist d -> ~ is_present dir_is_present (dget d) dh
}.

(** The PRESENT flags are cleared before a scan: here, of every file, link
    and dir of the disk. *)
Definition clear_present (d : snapraid_disk) : snapraid_disk :=
  set_dirs (map (option_map (set_dir_is_present false)) (dirs d))
    (set_links (map (option_map (set_link_is_present false)) (links d))
       (set_files (map (option_map (set_file_is_present false)) (files d)) d)).

(** The options of the state, which a scan reads and never writes. *)
Definition state_rest (state : snapraid_state) :=
  (clear_undeterminate_hash state, opt_force_zero state, opt_force_empty state,
   opt_force_order state, block_size state).

(** The invariant of the walk, with the insert lists of the scan. *)
Definition scanning (scan : snapraid_scan) (d : snapraid_disk) (evs : list event)
    (t : list mark) : Prop :=
  scanned d (file_insert_list scan) (link_insert_list scan) (dir_insert_list scan)
    evs t.

(** "mark as present" and "update the nano seconds mtime only if different",
    on the file. *)
Definition marked (st : stat) (f : snapraid_file) : snapraid_file :=
  let f := set_file_is_present true f in
  if (file_mtime_nsec f =? STAT_NSEC_INVALID)
     && negb (STAT_NSEC st =? STAT_NSEC_INVALID)
  then set_file_mtime_nsec (STAT_NSEC st) f
  else f.

(** The disk apart from the blocks: what the allocation of the blocks and
    their release leave as it is. *)
Definition catalog_of (d : snapraid_disk) :=
  (disk_name d, disk_dir d, disk_device d, has_not_persistent_inodes d,
   map (option_map file_meta) (files d), filelist d, inodeset d, pathset d,
   (links d, linklist d, linkset d), (dirs d, dirlist d, dirset d)).

(** The disk apart from the files. *)
Definition disk_rest (d : snapraid_disk) :=
  (disk_name d, disk_dir d, disk_device d, has_not_persistent_inodes d,
   (links d, linklist d, linkset d), (dirs d, dirlist d, dirset d)).

(** Inside scan_file on an entry with the inode [ino], after the search by
    inode went on to the search by name: I1 holds, no file marked present
    was written, and no file of the index by inode has the inode [ino]. *)
Record file_mid (d dx : snapraid_disk) (dom domx : list nat) (ino : Z) : Prop := {
  fm_wf : files_wf dx domx;
  fm_step : obj_step file_is_present (fget d) (fget dx) dom domx [];
  fm_fresh : forall g n, g ∈ inodeset dx -> fget dx g = Some n -> file_inode n <> ino;
  fm_inodes : forall g, g ∈ inodeset dx -> g ∈ inodeset d;
  fm_rest : disk_rest dx = disk_rest d
}.

(** An action of scan_dir follows an action of the walk: it returns exactly
    when the walk returns events on which the scan returns, with the same
    result. *)
Definition follows (env : walk_env) (sa : scan_action) (wa : walk_action) : Prop :=
  forall scan state d dir sub evs0 t0 ctx' p,
    scanning scan d evs0 t0 -> env_of state d = env ->
    sa scan state d dir sub = Ok (ctx', p) <->
    exists evs, wa dir sub = Ok (evs, p) /\ scan_events evs (scan, state, d) = Ok ctx'.

(** "clear the inode" and "mark as missing inode", on the file. *)
Definition detached (f : snapraid_file) : snapraid_file :=
  set_file_is_without_inode true (set_file_inode 0 f).

(** The disk apart from the links, and apart from the dirs. *)
Definition links_rest (d : snapraid_disk) :=
  (disk_name d, disk_dir d, disk_device d, has_not_persistent_inodes d,
   files d, filelist d, inodeset d, pathset d, (dirs d, dirlist d, dirset d)).

Definition dirs_rest (d : snapraid_disk) :=
  (disk_name d, disk_dir d, disk_device d, has_not_persistent_inodes d,
   files d, filelist d, inodeset d, pathset d, (links d, linklist d, linkset d)).

(** What the walk of the disk reads, after the answer of [fsinfo], and the
    events of the walk of the disk. *)
Definition walk_env_of (state : snapraid_state) (d : snapraid_disk) (fs : disk_view)
  : walk_env :=
  mk_walk_env (disk_name d) (disk_dir d) (disk_device d)
    match fs_fsinfo fs with Some b => negb b | None => false end
    (opt_force_order state).

Definition disk_events (flt : snapraid_filter) (state : snapraid_state)
    (d : snapraid_disk) (fs : disk_view) : result (list event) :=
  walk_disk flt (walk_env_of state d fs) (disk_dir d) fs.

(** ** The second scan *)




(** ** Two scans in a row *)

(** The flag of the disk for inodes that are not persistent is set only if
    the filesystem says so; it is not set on a catalog that was just
    loaded. *)
Definition flag_consistent (fs : string -> disk_view) (d : snapraid_disk) : Prop :=
  has_not_persistent_inodes d = true -> fs_fsinfo (fs (disk_dir d)) = Some false.


(** The scan found no difference. *)
Definition no_differences (scan : snapraid_scan) : Prop :=
  count_move scan = 0 /\ count_restore scan = 0 /\ count_change scan = 0 /\
  count_remove scan = 0 /\ count_insert scan = 0.

(** ** The catalog after a scan, entry by entry *)

(** The catalog of the disk holds the file [sub] with the stat data [st],
    marked present. *)
Definition catalog_file (d : snapraid_disk) (sub : string) (st : stat) : Prop :=
  exists h f, h ∈ filelist d /\ files d !! h = Some (Some f) /\
    file_is_present f = true /\ file_is_without_inode f = false /\
    file_sub f = sub /\ file_inode f = st_ino st /\
    file_size f = st_size st /\ file_mtime_sec f = st_mtime st /\
    file_mtime_nsec f = STAT_NSEC st.

(** The catalog holds the link [sub], marked present. *)
Definition catalog_link (d : snapraid_disk) (sub linkto : string) (kind : link_kind)
  : Prop :=
  exists l, l ∈ linklist d /\ links d !! l = Some (Some (mk_link sub linkto kind true)).

(** The catalog holds [sub] as a hardlink to a file with the inode and the
    data of [st]. *)
Definition catalog_hardlink (d : snapraid_disk) (sub : string) (st : stat) : Prop :=
  exists h f, h ∈ filelist d /\ files d !! h = Some (Some f) /\
    file_is_present f = true /\ file_inode f = st_ino st /\
    file_not_changed f st = true /\ 1 < st_nlink st /\
    catalog_link d sub (file_sub f) FILE_IS_HARDLINK.

(** The catalog holds the empty dir [sub], marked present. *)
Definition catalog_dir (d : snapraid_disk) (sub : string) : Prop :=
  exists dh, dh ∈ dirlist d /\ dirs d !! dh = Some (Some (mk_dir sub true)).

(** The catalog holds the entry of the walk. *)
Definition catalog_entry (d : snapraid_disk) (ev : event) : Prop :=
  match ev with
  | EvFile sub st _ => catalog_file d sub st \/ catalog_hardlink d sub st
  | EvLink sub linkto => catalog_link d sub linkto FILE_IS_SYMLINK
  | EvDir sub => catalog_dir d sub
  end.

(** ** The end of state_scan: the warnings and the summary *)

(** "checks for disks without the physical offset support": the names of
    the disks the warning prints, in the order they are printed; nothing is
    printed when the list is empty. *)
Definition physical_warning (state : snapraid_state) (disklist : list snapraid_disk)
  : list string :=
  if bool_decide (opt_force_order state = SORT_PHYSICAL)
  then disk_name <$> filter (fun d => has_not_reliable_physical d = true) disklist
  else [].

(** "Check for disks without persisten inodes": the names printed. *)
Definition inode_warning (disklist : list snapraid_disk) : list string :=
  disk_name <$> filter (fun d => has_not_persistent_inodes d = true) disklist.

(** The totals of the summary: unsigned sums of the counters of the scans.
    The lists of [total] are never set nor read in the source; they are
    empty here. *)
Definition scan_add (total scan : snapraid_scan) : snapraid_scan :=
  mk_scan (wrap32 (count_equal total + count_equal scan))
    (wrap32 (count_move total + count_move scan))
    (wrap32 (count_restore total + count_restore scan))
    (wrap32 (count_change total + count_change scan))
    (wrap32 (count_remove total + count_remove scan))
    (wrap32 (count_insert total + count_insert scan)) [] [] [].

Definition scan_total (scanlist : list snapraid_scan) : snapraid_scan :=
  fold_left scan_add scanlist scan_init.

(** [no_difference] of the summary. *)
Definition no_difference (total : snapraid_scan) : bool :=
  (count_move total =? 0) && (count_restore total =? 0) && (count_change total =? 0)
  && (count_remove total =? 0) && (count_insert total =? 0).

(** The line of the summary state_scan prints with [output] set. *)
Inductive summary_line := No_difference | There_are_differences.

Definition scan_summary (output : bool) (scanlist : list snapraid_scan)
  : option summary_line :=
  if output then
    Some (if no_difference (scan_total scanlist)
          then No_difference else There_are_differences)
  else None.

(** The counters of a scan are values of an unsigned of 32 bits. *)
Definition counters_in_range (scan : snapraid_scan) : Prop :=
  0 <= count_equal scan < 2 ^ 32 /\ 0 <= count_move scan < 2 ^ 32 /\
  0 <= count_restore scan < 2 ^ 32 /\ 0 <= count_change scan < 2 ^ 32 /\
  0 <= count_remove scan < 2 ^ 32 /\ 0 <= count_insert scan < 2 ^ 32.

(** ** What a scan does to the state *)

(** From [s] to [s'] the options are the same and [need_write] was not
    cleared. *)
Definition state_le (s s' : snapraid_state) : Prop :=
  state_rest s' = state_rest s /\ (need_write s = true -> need_write s' = true).

(** The differences counted so far are accounted for: [need_write] is set,
    or nothing was moved, restored, changed or removed and what was counted
    as inserted waits in an insert list. *)
Definition accounted (scan : snapraid_scan) (state : snapraid_state) : Prop :=
  need_write state = true \/
  (count_move scan = 0 /\ count_restore scan = 0 /\ count_change scan = 0 /\
   count_remove scan = 0 /\
   (count_insert scan <> 0 ->
    file_insert_list scan <> [] \/ link_insert_list scan <> [] \/
    dir_insert_list scan <> [])).

(** What identifies the disk and its filesystem, with the flag for inodes
    that are not persistent. *)
Definition disk_ident (d : snapraid_disk) : string * string * Z * bool :=
  (disk_name d, disk_dir d, disk_device d, has_not_persistent_inodes d).

(** A step of the scan of a disk, from one context to the next. *)
Definition scan_step (ctx ctx' : scan_ctx) : Prop :=
  state_le ctx.1.2 ctx'.1.2 /\
  (accounted ctx.1.1 ctx.1.2 -> accounted ctx'.1.1 ctx'.1.2) /\
  disk_ident ctx'.2 = disk_ident ctx.2.

(** The action of scan_dir on an entry relates the context it gets to the
    one it returns by [R]. *)
Definition action_keeps (R : scan_ctx -> scan_ctx -> Prop) (sa : scan_action) : Prop :=
  forall scan state d dir sub ctx' p,
    sa scan state d dir sub = Ok (ctx', p) -> R (scan, state, d) ctx'.

(** A step of the scan keeps the counters in the range of an unsigned. *)
Definition range_step (ctx ctx' : scan_ctx) : Prop :=
  counters_in_range ctx.1.1 -> counters_in_range ctx'.1.1.

(** The differences a scan counted, and those of a list of scans. *)
Definition count_differences (scan : snapraid_scan) : Z :=
  count_move scan + count_restore scan + count_change scan + count_remove scan
  + count_insert scan.

Definition total_differences (scanlist : list snapraid_scan) : Z :=
  foldr Z.add 0 (count_differences <$> scanlist).

(** ** The size of the catalog and the counters *)

(** The files, links and dirs listed in the catalog of the disk. *)
Definition disk_lists (d : snapraid_disk) : list nat * list nat * list nat :=
  (filelist d, linklist d, dirlist d).

Definition catalog_size (d : snapraid_disk) : Z :=
  Z.of_nat (length (filelist d)) + Z.of_nat (length (linklist d))
  + Z.of_nat (length (dirlist d)).

(** The objects that wait in the insert lists of the scan. *)
Definition waiting (scan : snapraid_scan) : Z :=
  Z.of_nat (length (file_insert_list scan)) + Z.of_nat (length (link_insert_list scan))
  + Z.of_nat (length (dir_insert_list scan)).

(** What the scan counted for the entries it met. *)
Definition counted (scan : snapraid_scan) : Z :=
  count_equal scan + count_move scan + count_restore scan + count_change scan
  + count_insert scan.

(** The objects listed or waiting, with the removed ones and without the
    inserted ones. *)
Definition balance (ctx : scan_ctx) : Z :=
  catalog_size ctx.2 + waiting ctx.1.1 + count_remove ctx.1.1 - count_insert ctx.1.1.

(** A step of the scan keeps the balance, as an unsigned of 32 bits. *)
Definition balance_step (ctx ctx' : scan_ctx) : Prop :=
  wrap32 (balance ctx') = wrap32 (balance ctx).

(** A step of the scan counts [n] entries. *)
Definition counted_step (n : Z) (ctx ctx' : scan_ctx) : Prop :=
  wrap32 (counted ctx'.1.1) = wrap32 (counted ctx.1.1 + n).

(** ** The block map across an insertion *)

(** What the loop of scan_file_insert keeps: [block_max] is the size of the
    array, the cells of the array [arr0] that hold a file block stay, the
    other cells are those of [arr0] or blocks of the file, and the array
    does not shrink. *)
Definition insert_keeps (arr0 : list block_ptr) (file : nat)
    (s : snapraid_disk * Z * Z) : Prop :=
  s.1.2 = Z.of_nat (length (blockarr s.1.1)) /\
  (forall q g j, arr0 !! q = Some (FileBlock g j) ->
     blockarr s.1.1 !! q = Some (FileBlock g j)) /\
  (forall q c, blockarr s.1.1 !! q = Some c ->
     arr0 !! q = Some c \/ exists i, c = FileBlock file i) /\
  (length arr0 <= length (blockarr s.1.1))%nat.

(** ** The index by inode on a disk without persistent inodes *)

(** Every file of the index by inode is marked present, apart from the file
    [n] when [n] is given. *)
Definition indexed_present (n : option nat) (d : snapraid_disk) : Prop :=
  forall h f, h ∈ inodeset d -> n <> Some h ->
    files d !! h = Some (Some f) -> file_is_present f = true.

(** From [d] to [d'] only the file [n] was written: the other files are
    the same, the index by inode got [n] at most, and [n] is marked present
    if it was. *)
Definition file_touch (n : nat) (d d' : snapraid_disk) : Prop :=
  has_not_persistent_inodes d' = has_not_persistent_inodes d /\
  (forall h, h <> n -> files d' !! h = files d !! h) /\
  (forall h, h ∈ inodeset d' -> h = n \/ h ∈ inodeset d) /\
  (forall f', files d' !! n = Some (Some f') ->
     exists f, files d !! n = Some (Some f) /\
       (file_is_present f = true -> file_is_present f' = true)).

(** The file [n], if there is one, is marked present. *)
Definition present_at (n : nat) (d : snapraid_disk) : Prop :=
  forall f, files d !! n = Some (Some f) -> file_is_present f = true.

(** A step of the scan of a disk without persistent inodes: the index by
    inode still holds files marked present only, and nothing was counted as
    moved or restored. *)
Definition np_step (ctx ctx' : scan_ctx) : Prop :=
  has_not_persistent_inodes ctx.2 = true -> indexed_present None ctx.2 ->
  has_not_persistent_inodes ctx'.2 = true /\ indexed_present None ctx'.2 /\
  count_move ctx'.1.1 = count_move ctx.1.1 /\
  count_restore ctx'.1.1 = count_restore ctx.1.1.

(** ** The filter *)

(** The filter does not exclude the entry of the event on the disk [name]. *)
Definition event_passes (flt : snapraid_filter) (name : string) (ev : event) : Prop :=
  match ev with
  | EvFile sub _ _ | EvLink sub _ => filter_path flt name sub = false
  | EvDir sub => filter_dir flt name sub = false
  end.

(** ** The names of a filesystem *)

Import Stdlib.Strings.Ascii.

(** The name holds no "/". *)
Fixpoint no_slash (s : string) : bool :=
  match s with
  | EmptyString => true
  | String c s' => negb (Ascii.eqb c "/"%char) && no_slash s'
  end.

(** The names below the entry are those a filesystem gives: no name holds a
    "/", and the names of a directory are pairwise distinct. *)
Fixpoint dirent_names_ok (dd : dirent) : Prop :=
  match dd with
  | Dirent name _ _ _ _ _ es =>
      no_slash name = true /\
      match es with
      | Some l =>
          NoDup (d_name <$> l) /\
          (fix all (l : list dirent) : Prop :=
             match l with
             | [] => True
             | e :: l' => dirent_names_ok e /\ all l'
             end) l
      | None => True
      end
  end.

Definition fs_names_ok (fs : disk_view) : Prop :=
  match fs_root fs with
  | Some l => NoDup (d_name <$> l) /\ Forall dirent_names_ok l
  | None => True
  end.

(** What follows the name of an entry in the path of something below it:
    nothing, or a "/" and more. *)
Definition tail_ok (rest : string) : Prop :=
  rest = "" \/ exists r, rest = String "/"%char r.

(** The paths of the events are pairwise distinct and start with [prefix],
    followed by nothing or by a "/". *)
Definition paths_under (prefix : string) (evs : list event) : Prop :=
  NoDup (event_sub <$> evs) /\
  forall ev, ev ∈ evs -> exists rest, event_sub ev = prefix +:+ rest /\ tail_ok rest.

(** * Properties *)

(** ** The error monad, loops, heaps and containers *)

Lemma bind_Ok {A B} (r : result A) (k : A -> result B) (b : B) :
  bind r k = Ok b <-> exists a, r = Ok a /\ k a = Ok b.
Proof.
  destruct r as [a|e]; simpl; split.
  - intros H. exists a. auto.
  - intros (a' & Ha & Hk). congruence.
  - discriminate.
  - intros (a' & Ha & _). discriminate.
Qed.

Lemma bind_Ok_l {A B} (r : result A) (k : A -> result B) (a : A) :
  r = Ok a -> bind r k = k a.
Proof. intros ->. reflexivity. Qed.

(** An invariant of a [for] loop whose body never fails under it. *)
Lemma for_loop_invariant {St} (P : nat -> St -> Prop) (body : nat -> St -> result St) :
  forall (n i : nat) (s : St),
    P i s ->
    (forall j t, (i <= j < i + n)%nat -> P j t ->
       exists t', body j t = Ok t' /\ P (S j) t') ->
    exists s', for_loop n i body s = Ok s' /\ P (i + n)%nat s'.
Proof.
  induction n as [|n IH]; intros i s Hs Hbody; simpl.
  - exists s. split; [reflexivity|]. by replace (i + 0)%nat with i by lia.
  - destruct (Hbody i s) as (t' & Ht' & HP); [lia|done|].
    rewrite Ht'. simpl.
    destruct (IH (S i) t' HP) as (s' & Hs' & HP').
    + intros j t Hj. apply Hbody. lia.
    + exists s'. split; [done|]. by replace (i + S n)%nat with (S i + n)%nat by lia.
Qed.

(** The first failing iteration makes the loop fail. *)
Lemma for_loop_fails {St} (P : nat -> St -> Prop) (body : nat -> St -> result St)
    (e : error) :
  forall (n i k : nat) (s : St),
    (i <= k < i + n)%nat ->
    P i s ->
    (forall j t, (i <= j < k)%nat -> P j t ->
       exists t', body j t = Ok t' /\ P (S j) t') ->
    (forall t, P k t -> body k t = Err e) ->
    for_loop n i body s = Err e.
Proof.
  induction n as [|n IH]; intros i k s Hk Hs Hbody Hfail; [lia|].
  simpl. destruct (decide (i = k)) as [->|Hne].
  - by rewrite (Hfail s Hs).
  - destruct (Hbody i s) as (t' & Ht' & HP); [lia|done|].
    rewrite Ht'. simpl. apply (IH (S i) k); [lia|done| |done].
    intros j t Hj. apply Hbody. lia.
Qed.

(** A loop whose body, under the invariant, fails exactly on the indices
    that are not [good], and then with an error in [Q]. *)
Lemma for_loop_invariant_or {St} (P : nat -> St -> Prop) (good : nat -> Prop)
    (Q : error -> Prop) (body : nat -> St -> result St) :
  forall (n i : nat) (s : St),
    P i s ->
    (forall j t, (i <= j < i + n)%nat -> P j t ->
       (good j /\ exists t', body j t = Ok t' /\ P (S j) t') \/
       (~ good j /\ exists e, body j t = Err e /\ Q e)) ->
    ((forall j, (i <= j < i + n)%nat -> good j) /\
     exists s', for_loop n i body s = Ok s' /\ P (i + n)%nat s') \/
    ((exists j, (i <= j < i + n)%nat /\ ~ good j) /\
     exists e, for_loop n i body s = Err e /\ Q e).
Proof.
  induction n as [|n IH]; intros i s Hs Hbody; simpl.
  - left. split; [intros; lia|]. exists s. split; [done|].
    by replace (i + 0)%nat with i by lia.
  - destruct (Hbody i s) as [(Hgood & t' & Ht' & HP)|(Hbad & e & He & HQ)]; [lia|done| |].
    + rewrite Ht'. simpl.
      destruct (IH (S i) t' HP) as [(Hall & s' & Hs' & HP')|((j & Hj & Hbad) & e & He & HQ)].
      * intros j t Hj. apply Hbody. lia.
      * left. split.
        -- intros j Hj. destruct (decide (j = i)) as [->|]; [done|]. apply Hall. lia.
        -- exists s'. split; [done|].
           by replace (i + S n)%nat with (S i + n)%nat by lia.
      * right. split; [exists j; split; [lia|done]|eauto].
    + rewrite He. simpl. right. split; [exists i; split; [lia|done]|eauto].
Qed.

(** An invariant of a loop that returns: the body keeps it when it returns. *)
Lemma for_loop_Ok_invariant {St} (P : nat -> St -> Prop) (body : nat -> St -> result St) :
  forall (n i : nat) (s s' : St),
    for_loop n i body s = Ok s' ->
    P i s ->
    (forall j t t', (i <= j < i + n)%nat -> P j t -> body j t = Ok t' -> P (S j) t') ->
    P (i + n)%nat s'.
Proof.
  induction n as [|n IH]; intros i s s' Hrun Hs Hbody; simpl in Hrun.
  - injection Hrun as <-. by replace (i + 0)%nat with i by lia.
  - apply bind_Ok in Hrun as (t & Ht & Hrun).
    replace (i + S n)%nat with (S i + n)%nat by lia.
    apply (IH (S i) t s' Hrun).
    + apply (Hbody i s t); [lia|done..].
    + intros j u u' Hj. apply Hbody. lia.
Qed.

(** Inversion of a computation that returned [Ok]: the binds are split, the
    tests and matches that decide between a result and an error are
    analysed. *)
Ltac inv_ok_step H :=
  lazymatch type of H with
  | Ok _ = Ok _ => injection H as H; try subst
  | Err _ = Ok _ => discriminate H
  | exit _ = Ok _ => discriminate H
  | bind ?e ?k = Ok _ =>
      let x := fresh "x" in
      let Hx := fresh "Hx" in
      apply bind_Ok in H as (x & Hx & H)
  | (if ?b then _ else _) = Ok _ =>
      let Hb := fresh "Hb" in destruct b eqn:Hb
  | (match ?o with _ => _ end) = Ok _ =>
      let Ho := fresh "Ho" in destruct o eqn:Ho
  end.

Ltac inv_ok H := repeat (inv_ok_step H; try discriminate H).

Lemma wrap32_small (z : Z) : 0 <= z < 2 ^ 32 -> wrap32 z = z.
Proof. intros H. unfold wrap32. by apply Z.mod_small. Qed.

Lemma wrap32_range (z : Z) : 0 <= wrap32 z < 2 ^ 32.
Proof. unfold wrap32. apply Z.mod_pos_bound. lia. Qed.

Lemma hash_copy_id (h : list byte) : length h = HASH_SIZE -> hash_copy h = h.
Proof. intros H. unfold hash_copy. apply take_ge. lia. Qed.

Lemma hash_zero_length : length hash_zero = HASH_SIZE.
Proof. reflexivity. Qed.

Lemma hash_copy_zero : hash_copy hash_zero = hash_zero.
Proof. reflexivity. Qed.

Section Heap.
Context {A : Type}.
Implicit Types (h : heap A) (p q : nat) (a : A).

Lemma heap_get_Ok h p a : heap_get h p = Ok a <-> h !! p = Some (Some a).
Proof.
  unfold heap_get. destruct (h !! p) as [[b|]|]; split; intros H;
    try discriminate; congruence.
Qed.

Lemma heap_get_lookup h p a : h !! p = Some (Some a) -> heap_get h p = Ok a.
Proof. apply heap_get_Ok. Qed.

Lemma heap_set_Ok h p a h' :
  heap_set h p a = Ok h' <-> (exists b, h !! p = Some (Some b)) /\ h' = <[p := Some a]> h.
Proof.
  unfold heap_set. rewrite bind_Ok. split.
  - intros (b & Hb & Heq). apply heap_get_Ok in Hb. split; [eauto|congruence].
  - intros ((b & Hb) & ->). exists b. by rewrite (heap_get_lookup _ _ _ Hb).
Qed.

Lemma heap_set_lookup h p a b :
  h !! p = Some (Some b) -> heap_set h p a = Ok (<[p := Some a]> h).
Proof. intros H. apply heap_set_Ok. eauto. Qed.

Lemma heap_free_lookup h p b :
  h !! p = Some (Some b) -> heap_free h p = Ok (<[p := None]> h).
Proof. intros H. unfold heap_free. by rewrite (heap_get_lookup _ _ _ H). Qed.

Lemma heap_insert_lookup_eq h p (o : option A) b :
  h !! p = Some b -> <[p := o]> h !! p = Some o.
Proof. intros H. apply list_lookup_insert_eq. by eapply lookup_lt_Some. Qed.

Lemma heap_insert_lookup_ne h p q (o : option A) :
  p <> q -> <[p := o]> h !! q = h !! q.
Proof. intros H. by apply list_lookup_insert_ne. Qed.
End Heap.

Lemma remove_first_elem_of (p : nat) (l : list nat) :
  p ∈ l -> exists l', remove_first p l = Some l'.
Proof.
  induction l as [|q l IH]; intros Hin.
  - by apply not_elem_of_nil in Hin.
  - simpl. destruct (decide (q = p)) as [->|Hne]; [eauto|].
    apply elem_of_cons in Hin as [->|Hin]; [done|].
    destruct (IH Hin) as (l' & ->). eauto.
Qed.

Lemma remove_first_Some (p : nat) (l l' : list nat) :
  remove_first p l = Some l' -> l ≡ₚ p :: l'.
Proof.
  revert l'. induction l as [|q l IH]; intros l' H; [discriminate|].
  simpl in H. destruct (decide (q = p)) as [->|Hne].
  - by injection H as <-.
  - destruct (remove_first p l) as [r|] eqn:Hr; [|discriminate].
    injection H as <-. rewrite (IH r eq_refl). apply Permutation_swap.
Qed.

Lemma tommy_remove_existing_Ok (l : list nat) (p : nat) :
  p ∈ l -> exists l', tommy_remove_existing l p = Ok l' /\ remove_first p l = Some l'.
Proof.
  intros Hin. destruct (remove_first_elem_of p l Hin) as (l' & Hl').
  exists l'. unfold tommy_remove_existing. by rewrite Hl'.
Qed.

Lemma tommy_arrayblk_get_Ok (arr : list block_ptr) (pos : Z) (p : block_ptr) :
  tommy_arrayblk_get arr pos = Ok p <-> arr !! Z.to_nat pos = Some p.
Proof.
  unfold tommy_arrayblk_get. destruct (arr !! Z.to_nat pos); split; intros H;
    try discriminate; congruence.
Qed.

Lemma tommy_arrayblk_set_Ok (arr : list block_ptr) (pos : Z) (p : block_ptr) :
  (Z.to_nat pos < length arr)%nat ->
  tommy_arrayblk_set arr pos p = Ok (<[Z.to_nat pos := p]> arr).
Proof. intros H. unfold tommy_arrayblk_set. by rewrite decide_True. Qed.

(** ** The block allocator: searching a free slot *)

Lemma find_free_block_unfold (fuel : nat) (arr : list block_ptr) (block_max block_pos : Z) :
  find_free_block fuel arr block_max block_pos =
  if block_pos <? block_max then
    do block <- tommy_arrayblk_get arr block_pos;
    if block_has_file block then
      match fuel with
      | O => Err OUT_OF_FUEL
      | S fuel' => find_free_block fuel' arr block_max (wrap32 (block_pos + 1))
      end
    else Ok block_pos
  else Ok block_pos.
Proof. destruct fuel; reflexivity. Qed.

(** The search returns, with a fuel of the distance to the end of the array:
    it stops on the first cell from [block_pos] on that holds no file block,
    or at the end of the array. *)
Lemma find_free_block_total (arr : list block_ptr) :
  forall (fuel : nat) (block_pos : Z),
    Z.of_nat (length arr) < 2 ^ 32 ->
    0 <= block_pos <= Z.of_nat (length arr) ->
    (Z.to_nat (Z.of_nat (length arr) - block_pos) <= fuel)%nat ->
    exists p,
      find_free_block fuel arr (Z.of_nat (length arr)) block_pos = Ok p /\
      block_pos <= p <= Z.of_nat (length arr) /\
      (forall q, block_pos <= q < p ->
         exists c, arr !! Z.to_nat q = Some c /\ block_has_file c = true) /\
      (p < Z.of_nat (length arr) ->
         exists c, arr !! Z.to_nat p = Some c /\ block_has_file c = false).
Proof.
  induction fuel as [|fuel IH]; intros block_pos Hsize Hpos Hfuel;
    rewrite find_free_block_unfold.
  - rewrite (proj2 (Z.ltb_ge _ _)) by lia.
    exists block_pos. repeat split; try lia.
  - destruct (block_pos <? Z.of_nat (length arr)) eqn:Hlt.
    + apply Z.ltb_lt in Hlt.
      destruct (lookup_lt_is_Some_2 arr (Z.to_nat block_pos)) as [c Hc]; [lia|].
      rewrite (proj2 (tommy_arrayblk_get_Ok _ _ _) Hc). simpl.
      destruct (block_has_file c) eqn:Hfile.
      * rewrite wrap32_small by lia.
        destruct (IH (block_pos + 1)) as (p & Hp & Hrange & Hskip & Hstop); [lia..|].
        exists p. split; [done|]. split; [lia|]. split; [|done].
        intros q Hq. destruct (decide (q = block_pos)) as [->|Hne]; [eauto|].
        apply Hskip. lia.
      * exists block_pos. split; [done|]. split; [lia|]. split; [intros; lia|eauto].
    + apply Z.ltb_ge in Hlt.
      exists block_pos. repeat split; try lia.
Qed.

(** ** Blocks through pointers *)

Lemma block_deref_file (disk : snapraid_disk) (f i : nat) (file : snapraid_file)
    (b : snapraid_block) :
  files disk !! f = Some (Some file) -> blockvec file !! i = Some b ->
  block_deref disk (FileBlock f i) = Ok b.
Proof.
  intros Hf Hb. simpl. rewrite (heap_get_lookup _ _ _ Hf). simpl. by rewrite Hb.
Qed.

Lemma block_deref_deleted (disk : snapraid_disk) (d : nat) (b : snapraid_block) :
  deletedlist disk !! d = Some b -> block_deref disk (DeletedBlock d) = Ok b.
Proof. intros Hd. simpl. by rewrite Hd. Qed.

Lemma block_store_file (disk : snapraid_disk) (f i : nat) (file : snapraid_file)
    (b : snapraid_block) (upd : snapraid_block -> snapraid_block) :
  files disk !! f = Some (Some file) -> blockvec file !! i = Some b ->
  block_store disk (FileBlock f i) upd =
  Ok (set_files (<[f := Some (set_blockvec (<[i := upd b]> (blockvec file)) file)]>
                   (files disk)) disk).
Proof.
  intros Hf Hb. simpl. rewrite (heap_get_lookup _ _ _ Hf). simpl. rewrite Hb.
  by rewrite (heap_set_lookup _ _ _ _ Hf).
Qed.

Lemma block_store_deleted (disk : snapraid_disk) (d : nat) (b : snapraid_block)
    (upd : snapraid_block -> snapraid_block) :
  deletedlist disk !! d = Some b ->
  block_store disk (DeletedBlock d) upd =
  Ok (set_deletedlist (<[d := upd b]> (deletedlist disk)) disk).
Proof. intros Hd. simpl. by rewrite Hd. Qed.

Lemma tommy_arrayblk_grow_one (arr : list block_ptr) :
  tommy_arrayblk_grow arr (Z.of_nat (length arr) + 1) = arr ++ [BLOCK_EMPTY].
Proof.
  unfold tommy_arrayblk_grow.
  by replace (Z.to_nat (Z.of_nat (length arr) + 1) - length arr)%nat with 1%nat by lia.
Qed.

(** ** One iteration of the loop of scan_file_insert *)

(** What one iteration does: it claims the first slot from [block_pos] on
    that holds no file block (growing the array by one empty cell at its
    end when there is none), gives the block [NEW] on an empty cell and
    [CHG] with the hash of the deleted block, zeroed first unless
    [clear_undeterminate_hash], on a deleted one. *)
Lemma scan_file_insert_block_spec (state : snapraid_state) (file i : nat)
    (disk : snapraid_disk) (block_pos : Z) (f : snapraid_file) (b : snapraid_block) :
  files disk !! file = Some (Some f) ->
  blockvec f !! i = Some b ->
  Z.of_nat (length (blockarr disk)) + 1 < 2 ^ 32 ->
  0 <= block_pos <= Z.of_nat (length (blockarr disk)) ->
  (forall q d, block_pos <= q ->
     blockarr disk !! Z.to_nat q = Some (DeletedBlock d) ->
     (d < length (deletedlist disk))%nat) ->
  exists (disk' : snapraid_disk) (block_max' p : Z) (b' : snapraid_block)
         (arr : list block_ptr) (c : block_ptr),
    scan_file_insert_block state file i
      (disk, Z.of_nat (length (blockarr disk)), block_pos)
    = Ok (disk', block_max', p) /\
    block_max' = Z.of_nat (length (blockarr disk')) /\
    block_pos <= p <= Z.of_nat (length (blockarr disk)) /\
    (forall q, block_pos <= q < p ->
       exists c, blockarr disk !! Z.to_nat q = Some c /\ block_has_file c = true) /\
    arr = (if decide (p = Z.of_nat (length (blockarr disk)))
           then blockarr disk ++ [BLOCK_EMPTY] else blockarr disk) /\
    arr !! Z.to_nat p = Some c /\ block_has_file c = false /\
    blockarr disk' = <[Z.to_nat p := FileBlock file i]> arr /\
    files disk' = <[file := Some (set_blockvec (<[i := b']> (blockvec f)) f)]> (files disk) /\
    parity_pos b' = p /\
    match c with
    | DeletedBlock d =>
        exists del, deletedlist disk !! d = Some del /\
          state_of b' = BLOCK_STATE_CHG /\
          hash b' = (if clear_undeterminate_hash state
                     then hash_copy (hash del) else hash_zero) /\
          deletedlist disk' =
            (if clear_undeterminate_hash state then deletedlist disk
             else <[d := block_hash_set hash_zero del]> (deletedlist disk))
    | _ => state_of b' = BLOCK_STATE_NEW /\ hash b' = hash b /\
           deletedlist disk' = deletedlist disk
    end /\
    first_free_block disk' = first_free_block disk /\
    filelist disk' = filelist disk /\ inodeset disk' = inodeset disk /\
    pathset disk' = pathset disk.
Proof.
  intros Hf Hb Hsize Hpos Hdel.
  destruct (find_free_block_total (blockarr disk) (length (blockarr disk)) block_pos)
    as (p & Hfind & Hp & Hskip & Hstop); [lia..|].
  unfold scan_file_insert_block. rewrite Hfind. cbn [bind].
  set (arr := if decide (p = Z.of_nat (length (blockarr disk)))
              then blockarr disk ++ [BLOCK_EMPTY] else blockarr disk).
  assert (exists c, arr !! Z.to_nat p = Some c /\ block_has_file c = false
                    /\ (Z.to_nat p < length arr)%nat) as (c & Hc & Hcfile & Hplt).
  { subst arr. destruct (decide (p = Z.of_nat (length (blockarr disk)))) as [->|Hne].
    - exists BLOCK_EMPTY. rewrite Nat2Z.id. rewrite length_app. simpl.
      split; [|split; [done|lia]].
      rewrite lookup_app_r by lia. by rewrite Nat.sub_diag.
    - destruct Hstop as (c & Hc & Hcf); [lia|]. exists c. split; [done|].
      split; [done|]. by eapply lookup_lt_Some. }
  assert (exists disk1,
    (if p =? Z.of_nat (length (blockarr disk))
     then (set_blockarr (tommy_arrayblk_grow (blockarr disk)
                           (wrap32 (Z.of_nat (length (blockarr disk)) + 1))) disk,
           wrap32 (Z.of_nat (length (blockarr disk)) + 1))
     else (disk, Z.of_nat (length (blockarr disk))))
    = (disk1, Z.of_nat (length arr)) /\ disk1 = set_blockarr arr disk)
    as (disk1 & -> & Hdisk1).
  { subst arr. destruct (decide (p = Z.of_nat (length (blockarr disk)))) as [->|Hne].
    - rewrite Z.eqb_refl. rewrite wrap32_small by lia. rewrite tommy_arrayblk_grow_one.
      eexists. split; [|reflexivity]. f_equal. rewrite length_app. simpl. lia.
    - rewrite (proj2 (Z.eqb_neq _ _) Hne). exists disk. split; [done|].
      by destruct disk. }
  subst disk1.
  assert (forall (x : snapraid_file) (h : heap snapraid_file),
            length h = length (files disk) ->
            <[file := Some x]> h !! file = Some (Some x)) as Hfile_eq.
  { intros x h Hh. apply list_lookup_insert_eq. rewrite Hh. by eapply lookup_lt_Some. }
  assert (forall (x : snapraid_block) (l : list snapraid_block),
            length l = length (blockvec f) ->
            <[i := x]> l !! i = Some x) as Hblock_eq.
  { intros x l Hl. apply list_lookup_insert_eq. rewrite Hl. by eapply lookup_lt_Some. }
  erewrite block_store_file; [|cbn; exact Hf|exact Hb]. cbn [bind].
  change (blockarr (set_files _ (set_blockarr arr disk))) with arr.
  rewrite (proj2 (tommy_arrayblk_get_Ok _ _ _) Hc). cbn [bind].
  destruct (decide (c = BLOCK_EMPTY)) as [->|Hne].
  - erewrite block_store_file;
      [|cbn; apply Hfile_eq; by rewrite ?length_insert|cbn; by apply Hblock_eq].
    cbn [bind]. rewrite tommy_arrayblk_set_Ok by (cbn; done). cbn.
    eexists _, _, p, (block_state_set BLOCK_STATE_NEW (block_parity_pos_set p b)),
      arr, BLOCK_EMPTY.
    split; [reflexivity|]. cbn. split; [by rewrite length_insert|].
    split; [lia|]. split; [done|]. split; [done|]. split; [done|]. split; [done|].
    split; [done|]. split.
    { rewrite !list_insert_insert_eq. reflexivity. }
    done.
  - destruct c as [|g j|d]; [done|discriminate|].
    assert (blockarr disk !! Z.to_nat p = Some (DeletedBlock d)) as Hcd.
    { subst arr. destruct (decide (p = Z.of_nat (length (blockarr disk)))) as [->|Hne'];
        [|done].
      rewrite lookup_app_r in Hc by lia.
      rewrite Nat2Z.id, Nat.sub_diag in Hc. discriminate. }
    destruct (lookup_lt_is_Some_2 (deletedlist disk) d) as [del Hdl];
      [by eapply (Hdel p); [lia|]|].
    destruct (clear_undeterminate_hash state) eqn:Hclear; cbn [negb bind].
    + erewrite block_store_file;
        [|cbn; apply Hfile_eq; by rewrite ?length_insert|cbn; by apply Hblock_eq].
      cbn [bind]. erewrite block_deref_deleted; [|cbn; exact Hdl]. cbn [bind].
      erewrite block_store_file;
        [|cbn; apply Hfile_eq; by rewrite ?length_insert|cbn; apply Hblock_eq; by rewrite length_insert].
      cbn [bind]. rewrite tommy_arrayblk_set_Ok by (cbn; done). cbn.
      eexists _, _, p,
        (block_hash_set (hash_copy (hash del))
           (block_state_set BLOCK_STATE_CHG (block_parity_pos_set p b))),
        arr, (DeletedBlock d).
      split; [reflexivity|]. cbn. split; [by rewrite length_insert|].
      split; [lia|]. split; [done|]. split; [done|]. split; [done|]. split; [done|].
      split; [done|]. split.
      { rewrite !list_insert_insert_eq. reflexivity. }
      split; [done|]. split; [|done]. exists del. done.
    + erewrite block_store_deleted; [|cbn; exact Hdl]. cbn [bind].
      erewrite block_store_file;
        [|cbn; apply Hfile_eq; by rewrite ?length_insert|cbn; by apply Hblock_eq].
      cbn [bind]. erewrite block_deref_deleted;
        [|cbn; apply list_lookup_insert_eq; by eapply lookup_lt_Some]. cbn [bind].
      erewrite block_store_file;
        [|cbn; apply Hfile_eq; by rewrite ?length_insert|cbn; apply Hblock_eq; by rewrite length_insert].
      cbn [bind]. rewrite tommy_arrayblk_set_Ok by (cbn; done). cbn.
      eexists _, _, p,
        (block_hash_set (hash_copy hash_zero)
           (block_state_set BLOCK_STATE_CHG (block_parity_pos_set p b))),
        arr, (DeletedBlock d).
      split; [reflexivity|]. cbn. split; [by rewrite length_insert|].
      split; [lia|]. split; [done|]. split; [done|]. split; [done|]. split; [done|].
      split; [done|]. split.
      { rewrite !list_insert_insert_eq. reflexivity. }
      split; [done|]. split; [|done]. exists del. done.
Qed.

(** A cell of the array after the growth by at most one empty cell. *)
Lemma grown_lookup_ne (l : list block_ptr) (p : Z) (q : nat) :
  0 <= p -> q <> Z.to_nat p ->
  (if decide (p = Z.of_nat (length l)) then l ++ [BLOCK_EMPTY] else l) !! q = l !! q.
Proof.
  intros Hp Hne. destruct (decide (p = Z.of_nat (length l))) as [Heq|_]; [|done].
  destruct (decide (q < length l)%nat) as [Hlt|Hge].
  - by rewrite lookup_app_l.
  - rewrite !lookup_ge_None_2; [done|lia|]. rewrite length_app. simpl. lia.
Qed.

Lemma grown_lookup_eq (l : list block_ptr) (p : Z) (c : block_ptr) :
  0 <= p ->
  (if decide (p = Z.of_nat (length l)) then l ++ [BLOCK_EMPTY] else l) !! Z.to_nat p
  = Some c ->
  ((Z.to_nat p < length l)%nat /\ l !! Z.to_nat p = Some c) \/
  (p = Z.of_nat (length l) /\ c = BLOCK_EMPTY /\ l !! Z.to_nat p = None).
Proof.
  intros Hp. destruct (decide (p = Z.of_nat (length l))) as [Heq|Hne]; intros H.
  - right. subst p. rewrite Nat2Z.id in *.
    rewrite lookup_app_r, Nat.sub_diag in H by lia. simpl in H.
    split; [done|]. split; [congruence|]. by apply lookup_ge_None_2.
  - left. split; [by eapply lookup_lt_Some|done].
Qed.

Lemma grown_length (l : list block_ptr) (p : Z) :
  (length l <= length (if decide (p = Z.of_nat (length l))
                       then l ++ [BLOCK_EMPTY] else l) <= length l + 1)%nat.
Proof. destruct (decide _); rewrite ?length_app; simpl; lia. Qed.

(** ** The loop of scan_file_insert *)

Section InsertLoop.
Variables (state : snapraid_state) (disk0 : snapraid_disk) (file : nat)
          (f0 : snapraid_file).
Hypothesis Hfree : 0 <= first_free_block disk0 <= Z.of_nat (length (blockarr disk0)).
Hypothesis Hsize :
  Z.of_nat (length (blockarr disk0)) + Z.of_nat (length (blockvec f0)) < 2 ^ 32.
Hypothesis Hdeleted : forall q d,
  first_free_block disk0 <= q ->
  blockarr disk0 !! Z.to_nat q = Some (DeletedBlock d) ->
  (d < length (deletedlist disk0))%nat.

Lemma insert_inv_start :
  files disk0 !! file = Some (Some f0) ->
  insert_inv state disk0 file f0 0 disk0
    (tommy_arrayblk_size (blockarr disk0)) (first_free_block disk0).
Proof.
  intros Hfile. split; try done; try lia.
  exists f0. repeat split; try done; intros; lia.
Qed.

Lemma insert_inv_step (i : nat) (disk : snapraid_disk) (block_max block_pos : Z) :
  (i < length (blockvec f0))%nat ->
  insert_inv state disk0 file f0 i disk block_max block_pos ->
  exists disk' block_max' block_pos',
    scan_file_insert_block state file i (disk, block_max, block_pos)
    = Ok (disk', block_max', block_pos') /\
    insert_inv state disk0 file f0 (S i) disk' block_max' block_pos'.
Proof.
  intros Hi [Hmax Hlen Hfirst Hlast _ Habove Hbelow Hbetween Hclaimed Hdlen Hdl
               (f & Hf & Hflen & Hrest & Hdone & Hincr) Hframe].
  subst block_max.
  assert (first_free_block disk0 <= block_pos <= Z.of_nat (length (blockarr disk)))
    as Hpos.
  { destruct (decide (i = 0%nat)) as [Hi0|Hi0].
    - rewrite (Hfirst Hi0). lia.
    - destruct (Hlast Hi0) as [? _]. lia. }
  destruct (lookup_lt_is_Some_2 (blockvec f) i) as [b Hb]; [lia|].
  destruct (scan_file_insert_block_spec state file i disk block_pos f b Hf Hb)
    as (disk' & block_max' & p & b' & arr & c & Hrun & Hmax' & Hp & Hskip & Harr &
        Hc & Hcfile & Harr' & Hfiles' & Hpos' & Hclaim & Hff' & Hfl' & His' & Hps');
    [lia|lia| |].
  { intros q d Hq Hcell.
    destruct (decide (i = 0%nat \/ block_pos < q)) as [Hcase|Hcase].
    - rewrite Hdlen. apply (Hdeleted q); [lia|]. by rewrite <- Habove.
    - assert (q = block_pos) as -> by lia.
      destruct Hlast as [_ Hcell']; [lia|]. congruence. }
  exists disk', block_max', p. split; [done|].
  assert (0 <= p) as Hp0 by lia.
  assert (i <> 0%nat -> block_pos < p) as Hstrict.
  { intros Hi0. destruct (decide (p = block_pos)) as [->|]; [|lia].
    destruct (Hlast Hi0) as [Hlt Hcell].
    subst arr. rewrite decide_False in Hc by lia. rewrite Hcell in Hc.
    injection Hc as <-. discriminate. }
  assert (forall q : Z, 0 <= q -> q <> p ->
            blockarr disk' !! Z.to_nat q = blockarr disk !! Z.to_nat q) as Hother.
  { intros q Hq0 Hq. rewrite Harr', list_lookup_insert_ne by lia.
    subst arr. apply grown_lookup_ne; lia. }
  assert (blockarr disk' !! Z.to_nat p = Some (FileBlock file i)) as Hcellp.
  { rewrite Harr'. apply list_lookup_insert_eq. by eapply lookup_lt_Some. }
  assert (blockarr disk0 !! Z.to_nat p = blockarr disk !! Z.to_nat p) as Hcell0.
  { symmetry. apply Habove; [lia|]. destruct (decide (i = 0%nat)); [by left|right; auto]. }
  assert (forall j bj, (j < i)%nat -> blockvec f !! j = Some bj -> parity_pos bj < p)
    as Hbefore.
  { intros j bj Hj Hbj. destruct (Hdone j bj Hj Hbj) as (Hrange & Hcellj & _).
    destruct (decide (parity_pos bj = p)) as [Heq|]; [|lia].
    rewrite Heq in Hcellj. subst arr.
    apply grown_lookup_eq in Hc as [[_ Hc]|(_ & _ & Hc)]; [|congruence|lia].
    rewrite Hcellj in Hc. injection Hc as <-. discriminate. }
  split.
  - done.
  - rewrite Harr', length_insert. subst arr.
    pose proof (grown_length (blockarr disk) p). lia.
  - lia.
  - intros _. replace (S i - 1)%nat with i by lia. split; [|done].
    apply lookup_lt_Some in Hcellp. lia.
  - intros _. replace (S i - 1)%nat with i by lia.
    exists (set_blockvec (<[i := b']> (blockvec f)) f), b'.
    split; [rewrite Hfiles'; by eapply heap_insert_lookup_eq|].
    split; [simpl; apply list_lookup_insert_eq; lia|done].
  - intros q Hq Hcase. rewrite Hother by lia. apply Habove; [lia|].
    destruct (decide (i = 0%nat)); [by left|right]. lia.
  - intros q Hq. rewrite Hother by lia. by apply Hbelow.
  - intros q Hq _. destruct (decide (q = p)) as [->|Hqp]; [eauto|].
    rewrite Hother by lia.
    destruct (decide (i <> 0%nat /\ q <= block_pos)) as [[Hi0 Hqb]|Hcase].
    + apply Hbetween; [lia|done].
    + apply Hskip. destruct (decide (i = 0%nat)) as [Hi0|Hi0]; [|lia].
      rewrite (Hfirst Hi0). lia.
  - intros q Hq _. destruct (decide (q = p)) as [->|Hqp].
    { right. exists i, (set_blockvec (<[i := b']> (blockvec f)) f), b'.
      split; [lia|]. split; [rewrite Hfiles'; by eapply heap_insert_lookup_eq|].
      split; [simpl; apply list_lookup_insert_eq; lia|done]. }
    destruct (decide (i <> 0%nat /\ q <= block_pos)) as [[Hi0 Hqb]|Hcase].
    + destruct (Hclaimed q) as [Hold|(j & f1 & bj & Hj & Hf1 & Hbj & Hpj)];
        [lia|done|by left|].
      right. exists j, (set_blockvec (<[i := b']> (blockvec f)) f), bj.
      split; [lia|]. split; [rewrite Hfiles'; by eapply heap_insert_lookup_eq|].
      assert (f1 = f) as -> by congruence.
      split; [simpl; rewrite list_lookup_insert_ne by lia; done|done].
    + left. rewrite <- Habove.
      * apply Hskip. destruct (decide (i = 0%nat)) as [Hi0|Hi0]; [|lia].
        rewrite (Hfirst Hi0). lia.
      * destruct (decide (i = 0%nat)) as [Hi0|Hi0]; [|lia].
        rewrite (Hfirst Hi0). lia.
      * destruct (decide (i = 0%nat)) as [Hi0|Hi0]; [by left|right; lia].
  - destruct c as [| |d].
    + destruct Hclaim as (_ & _ & ->). done.
    + discriminate.
    + destruct Hclaim as (del & _ & _ & _ & ->).
      destruct (clear_undeterminate_hash state); [done|by rewrite length_insert].
  - intros Hclear. destruct c as [| |d].
    + destruct Hclaim as (_ & _ & ->). by apply Hdl.
    + discriminate.
    + destruct Hclaim as (del & _ & _ & _ & ->). rewrite Hclear. by apply Hdl.
  - exists (set_blockvec (<[i := b']> (blockvec f)) f).
    split; [rewrite Hfiles'; by eapply heap_insert_lookup_eq|].
    split; [simpl; by rewrite length_insert|].
    split; [intros j Hj; simpl; rewrite list_lookup_insert_ne by lia; apply Hrest; lia|].
    split.
    + intros j bj Hj. simpl. destruct (decide (j = i)) as [->|Hji].
      * rewrite list_lookup_insert_eq by lia. intros [= <-]. rewrite Hpos'.
        split; [lia|]. split; [done|].
        exists b. split; [rewrite <- Hrest by lia; done|].
        rewrite Hcell0. subst arr.
        apply grown_lookup_eq in Hc as [[_ Hc]|(_ & -> & Hc)]; [| |lia];
          rewrite Hc; [|simpl; tauto].
        destruct c as [| |d]; [simpl; tauto|discriminate|].
        destruct Hclaim as (del & Hdel & Hst & Hh & _). simpl.
        destruct (clear_undeterminate_hash state) eqn:Hclear.
        -- exists del. rewrite <- Hdl by done. done.
        -- destruct (lookup_lt_is_Some_2 (deletedlist disk0) d) as [del0 Hdel0].
           { rewrite <- Hdlen. by eapply lookup_lt_Some. }
           exists del0. done.
      * rewrite list_lookup_insert_ne by lia. intros Hbj.
        destruct (Hdone j bj) as (Hrange & Hcellj & Hcl); [lia|done|].
        pose proof (Hbefore j bj ltac:(lia) Hbj).
        split; [lia|]. split; [|done]. rewrite Hother by lia. done.
    + intros j k bj bk Hjk. simpl.
      rewrite (list_lookup_insert_ne _ i j) by lia. intros Hbj.
      destruct (decide (k = i)) as [->|Hki].
      * rewrite list_lookup_insert_eq by lia. intros [= <-]. rewrite Hpos'.
        apply (Hbefore j); [lia|done].
      * rewrite list_lookup_insert_ne by lia. intros Hbk.
        apply (Hincr j k); [lia|done..].
  - destruct Hframe as (? & ? & ? & ?). repeat split; congruence.
Qed.
End InsertLoop.

(** ** One iteration of the loop of scan_file_remove *)

Lemma scan_file_remove_block_spec (state : snapraid_state) (file i : nat)
    (disk : snapraid_disk) (f : snapraid_file) (b : snapraid_block) :
  files disk !! file = Some (Some f) ->
  blockvec f !! i = Some b ->
  (Z.to_nat (parity_pos b) < length (blockarr disk))%nat ->
  (state_of b = BLOCK_STATE_DELETED ->
     scan_file_remove_block state file i disk
     = Err (EXIT_FAILURE (InconsistentBlockState (parity_pos b)))) /\
  (state_of b <> BLOCK_STATE_DELETED ->
     exists disk',
       scan_file_remove_block state file i disk = Ok disk' /\
       (exists b', files disk' =
          <[file := Some (set_blockvec (<[i := b']> (blockvec f)) f)]> (files disk)) /\
       deletedlist disk' =
         deletedlist disk ++ [deleted_dup (block_hash_set (kept_hash state b) b)] /\
       blockarr disk' =
         <[Z.to_nat (parity_pos b) := DeletedBlock (length (deletedlist disk))]>
           (blockarr disk) /\
       first_free_block disk' = Z.min (first_free_block disk) (parity_pos b) /\
       filelist disk' = filelist disk /\ inodeset disk' = inodeset disk /\
       pathset disk' = pathset disk).
Proof.
  intros Hf Hb Hpos.
  assert ((if first_free_block disk >? parity_pos b
           then set_first_free_block (parity_pos b) disk else disk)
          = set_first_free_block (Z.min (first_free_block disk) (parity_pos b)) disk)
    as Hdisk1.
  { destruct (first_free_block disk >? parity_pos b) eqn:Hgt.
    - apply Z.gtb_lt in Hgt. by rewrite Z.min_r by lia.
    - rewrite Z.min_l by (pose proof (Zgt_cases (first_free_block disk) (parity_pos b)) as Hc;
                          rewrite Hgt in Hc; lia).
      by destruct disk. }
  unfold scan_file_remove_block.
  rewrite (block_deref_file _ _ _ _ _ Hf Hb). cbn [bind]. rewrite Hdisk1.
  unfold block_state_get, kept_hash. split.
  - intros ->. reflexivity.
  - intros Hstate.
    assert (forall (x : snapraid_file) (h : heap snapraid_file),
              length h = length (files disk) ->
              <[file := Some x]> h !! file = Some (Some x)) as Hfile_eq.
    { intros x h Hh. apply list_lookup_insert_eq. rewrite Hh. by eapply lookup_lt_Some. }
    assert (state_of b = BLOCK_STATE_BLK \/ clear_undeterminate_hash state = true \/
            (state_of b <> BLOCK_STATE_BLK /\ clear_undeterminate_hash state = false))
      as [Hcase|[Hcase|[Hcase1 Hcase2]]].
    { destruct (state_of b), (clear_undeterminate_hash state); auto. }
    + rewrite Hcase. cbn [bind].
      erewrite block_deref_file; [|cbn; exact Hf|exact Hb]. cbn [bind].
      rewrite tommy_arrayblk_set_Ok by (cbn; done). cbn.
      eexists. split; [reflexivity|]. cbn. split; [|by destruct b].
      exists b. rewrite (list_insert_id (blockvec f)) by done.
      rewrite list_insert_id; [done|]. rewrite Hf. by destruct f.
    + rewrite Hcase.
      assert ((match state_of b with
               | BLOCK_STATE_BLK => Ok (set_first_free_block
                   (Z.min (first_free_block disk) (parity_pos b)) disk)
               | BLOCK_STATE_DELETED => exit (InconsistentBlockState (parity_pos b))
               | _ => Ok (set_first_free_block
                   (Z.min (first_free_block disk) (parity_pos b)) disk)
               end) = Ok (set_first_free_block
                   (Z.min (first_free_block disk) (parity_pos b)) disk)) as Hmatch
        by (by destruct (state_of b)).
      cbn [negb]. rewrite Hmatch. cbn [bind].
      erewrite block_deref_file; [|cbn; exact Hf|exact Hb]. cbn [bind].
      rewrite tommy_arrayblk_set_Ok by (cbn; done). cbn.
      eexists. split; [reflexivity|]. cbn. split.
      * exists b. rewrite (list_insert_id (blockvec f)) by done.
        rewrite list_insert_id; [done|]. rewrite Hf. by destruct f.
      * destruct (state_of b); by destruct b.
    + rewrite Hcase2. cbn [negb].
      assert ((match state_of b with
               | BLOCK_STATE_BLK => Ok (set_first_free_block
                   (Z.min (first_free_block disk) (parity_pos b)) disk)
               | BLOCK_STATE_DELETED => exit (InconsistentBlockState (parity_pos b))
               | _ => block_store (set_first_free_block
                   (Z.min (first_free_block disk) (parity_pos b)) disk)
                   (FileBlock file i) (block_hash_set hash_zero)
               end) = block_store (set_first_free_block
                   (Z.min (first_free_block disk) (parity_pos b)) disk)
                   (FileBlock file i) (block_hash_set hash_zero)) as Hmatch
        by (by destruct (state_of b)).
      rewrite Hmatch.
      erewrite block_store_file; [|cbn; exact Hf|exact Hb]. cbn [bind].
      erewrite block_deref_file;
        [|cbn; apply Hfile_eq; done
         |cbn; apply list_lookup_insert_eq; by eapply lookup_lt_Some].
      cbn [bind]. rewrite tommy_arrayblk_set_Ok by (cbn; done). cbn.
      eexists. split; [reflexivity|]. cbn. split; [eauto|].
      destruct (state_of b); done.
Qed.

(** ** The loop of scan_file_remove *)

Section RemoveLoop.
Variables (state : snapraid_state) (disk0 : snapraid_disk) (file : nat)
          (f0 : snapraid_file).
Hypothesis Hfile : files disk0 !! file = Some (Some f0).

Lemma remove_inv_start : remove_inv state disk0 file f0 0 disk0.
Proof.
  split; try done.
  all: try (rewrite take_0; simpl; by rewrite ?app_nil_r).
  all: try (by exists f0).
  all: try (intros; lia).
  intros q c Hc Hne. eauto.
Qed.

Lemma remove_positions_distinct (i j : nat) (bi bj : snapraid_block) :
  file_blocks_mapped disk0 file f0 ->
  blockvec f0 !! i = Some bi -> blockvec f0 !! j = Some bj -> i <> j ->
  Z.to_nat (parity_pos bi) <> Z.to_nat (parity_pos bj).
Proof.
  intros Hmap Hi Hj Hne Heq.
  destruct (Hmap i bi Hi) as [_ Hci]. destruct (Hmap j bj Hj) as [_ Hcj].
  rewrite Heq in Hci. congruence.
Qed.

Lemma remove_inv_step (i : nat) (disk : snapraid_disk) (b : snapraid_block) :
  blockvec f0 !! i = Some b ->
  (Z.to_nat (parity_pos b) < length (blockarr disk0))%nat ->
  remove_inv state disk0 file f0 i disk ->
  (state_of b = BLOCK_STATE_DELETED ->
     scan_file_remove_block state file i disk
     = Err (EXIT_FAILURE (InconsistentBlockState (parity_pos b)))) /\
  (state_of b <> BLOCK_STATE_DELETED ->
     exists disk', scan_file_remove_block state file i disk = Ok disk' /\
       first_free_block disk' = Z.min (first_free_block disk) (parity_pos b) /\
       remove_inv state disk0 file f0 (S i) disk').
Proof.
  intros Hb Hrange
    [(f & Hf & Hflen & Hrest & Hwi) [Hhlen Hother] Hdl Hlen Hdone Hnonempty
       Hcells Hfree Hframe].
  assert (blockvec f !! i = Some b) as Hbf by (by rewrite Hrest).
  assert (Z.to_nat (parity_pos b) < length (blockarr disk))%nat as Hpos
    by (by rewrite Hlen).
  destruct (scan_file_remove_block_spec state file i disk f b Hf Hbf Hpos)
    as [Hbad Hgood].
  split; [done|]. intros Hstate.
  destruct (Hgood Hstate)
    as (disk' & Hrun & (b' & Hfiles') & Hdl' & Harr' & Hfree' & Hfl' & His' & Hps').
  exists disk'. split; [done|]. split; [done|].
  assert (i < length (blockvec f0))%nat as Hi by (by eapply lookup_lt_Some).
  split.
  - exists (set_blockvec (<[i := b']> (blockvec f)) f).
    split; [rewrite Hfiles'; by eapply heap_insert_lookup_eq|].
    split; [simpl; by rewrite length_insert|]. split; [|done].
    intros j Hj. simpl. rewrite list_lookup_insert_ne by lia. apply Hrest. lia.
  - rewrite Hfiles'. split; [by rewrite length_insert|].
    intros g Hg. rewrite list_lookup_insert_ne by done. by apply Hother.
  - rewrite Hdl', Hdl. rewrite (take_S_r _ _ _ Hb), map_app, app_assoc. done.
  - by rewrite Harr', length_insert.
  - intros Hmap j bj Hj Hbj. rewrite Harr'. destruct (decide (j = i)) as [->|Hji].
    + assert (bj = b) as -> by congruence.
      rewrite list_lookup_insert_eq by done. rewrite Hdl.
      rewrite length_app, length_map, length_take. do 2 f_equal. lia.
    + rewrite list_lookup_insert_ne
        by (by apply (remove_positions_distinct i j)).
      apply Hdone; [done|lia|done].
  - intros q c Hc Hne. rewrite Harr'.
    destruct (decide (q = Z.to_nat (parity_pos b))) as [->|Hq].
    + rewrite list_lookup_insert_eq by done. eauto.
    + rewrite list_lookup_insert_ne by done. by apply (Hnonempty q c).
  - intros q Hq. rewrite Harr'.
    rewrite list_lookup_insert_ne by (apply (Hq i b); [lia|done]).
    apply Hcells. intros j bj Hj. apply Hq. lia.
  - rewrite Hfree', Hfree, (take_S_r _ _ _ Hb), map_app, fold_left_app. done.
  - destruct Hframe as (? & ? & ?). repeat split; congruence.
Qed.

(** The whole loop: it fails on the first block in state [DELETED], and
    otherwise reaches the invariant at the end of the block vector. *)
Lemma remove_loop_spec :
  file_blocks_mapped disk0 file f0 ->
  ((forall j b, blockvec f0 !! j = Some b -> state_of b <> BLOCK_STATE_DELETED) /\
   exists disk, for_loop (blockmax f0) 0 (scan_file_remove_block state file) disk0
                = Ok disk /\
                remove_inv state disk0 file f0 (blockmax f0) disk) \/
  ((exists j b, blockvec f0 !! j = Some b /\ state_of b = BLOCK_STATE_DELETED) /\
   exists pos, for_loop (blockmax f0) 0 (scan_file_remove_block state file) disk0
               = Err (EXIT_FAILURE (InconsistentBlockState pos))).
Proof.
  intros Hmap.
  destruct (for_loop_invariant_or
    (fun i disk => remove_inv state disk0 file f0 i disk)
    (fun j => forall b, blockvec f0 !! j = Some b -> state_of b <> BLOCK_STATE_DELETED)
    (fun e => exists pos, e = EXIT_FAILURE (InconsistentBlockState pos))
    (scan_file_remove_block state file) (blockmax f0) 0 disk0 remove_inv_start)
    as [(Hall & disk & Hrun & Hinv)|((j & Hj & Hbad) & e & Hrun & pos & ->)].
  - intros j disk Hj Hinv.
    destruct (lookup_lt_is_Some_2 (blockvec f0) j) as [b Hb];
      [unfold blockmax in Hj; lia|].
    assert (Z.to_nat (parity_pos b) < length (blockarr disk0))%nat as Hrange.
    { destruct (Hmap j b Hb) as [_ Hcell]. by eapply lookup_lt_Some. }
    destruct (remove_inv_step j disk b Hb Hrange Hinv) as [Hbad Hgood].
    destruct (decide (state_of b = BLOCK_STATE_DELETED)) as [Hst|Hst].
    + right. split; [intros Hall; by apply (Hall b)|]. eauto.
    + left. split; [intros b' Hb'; congruence|].
      destruct (Hgood Hst) as (disk' & Hrun & _ & Hinv'). eauto.
  - left. split.
    + intros j b Hb. apply (Hall j); [|done].
      apply lookup_lt_Some in Hb. unfold blockmax. lia.
    + eauto.
  - right. split; [|eauto].
    destruct (lookup_lt_is_Some_2 (blockvec f0) j) as [b Hb];
      [unfold blockmax in Hj; lia|].
    exists j, b. split; [done|].
    destruct (decide (state_of b = BLOCK_STATE_DELETED)) as [Hst|Hst]; [done|].
    exfalso. apply Hbad. intros b' Hb'. congruence.
Qed.
End RemoveLoop.

(** ** scan_file_insert and scan_file_remove as a whole *)

(** scan_file_insert returns, on a disk whose cursor is inside the block
    array, whose array leaves room for the blocks of the file below [2^32],
    and whose deleted cells from the cursor on point into the deleted list.
    Its loop ends in [insert_inv] at [blockmax]. *)
Lemma scan_file_insert_spec (state : snapraid_state) (disk : snapraid_disk)
    (file : nat) (f : snapraid_file) :
  files disk !! file = Some (Some f) ->
  insert_ready disk f ->
  exists diskL block_max block_pos,
    insert_inv state disk file f (blockmax f) diskL block_max block_pos /\
    scan_file_insert state disk file =
    Ok (set_need_write true state,
        set_filelist (tommy_insert_tail (filelist diskL) file)
          (if decide (blockmax f = 0%nat) then diskL
           else set_first_free_block (block_pos + 1) diskL)).
Proof.
  intros Hfile (Hfree & Hsize & Hdeleted).
  destruct (for_loop_invariant
    (fun i (s : snapraid_disk * Z * Z) =>
       insert_inv state disk file f i s.1.1 s.1.2 s.2)
    (scan_file_insert_block (set_need_write true state) file)
    (blockmax f) 0
    (disk, tommy_arrayblk_size (blockarr disk), first_free_block disk))
    as ([[diskL block_max] block_pos] & Hrun & Hinv).
  - simpl. by apply insert_inv_start.
  - intros j [[d bm] bp] Hj Hinv. simpl in Hinv.
    destruct (insert_inv_step state disk file f Hfree Hsize Hdeleted j d bm bp)
      as (d' & bm' & bp' & Hstep & Hinv'); [unfold blockmax in Hj; lia|done|].
    exists (d', bm', bp'). split; [|done].
    rewrite <- Hstep. reflexivity.
  - simpl in Hinv. exists diskL, block_max, block_pos. split; [done|].
    unfold scan_file_insert. rewrite (heap_get_lookup _ _ _ Hfile). cbn [bind].
    rewrite Hrun. cbn [bind].
    destruct (decide (blockmax f = 0%nat)) as [|Hne]; [done|].
    rewrite wrap32_small; [done|].
    destruct Hinv as [Hmax Hlen _ Hlast _ _ _ _ _ _ _ _ _].
    destruct (Hlast Hne) as [? _]. unfold blockmax in *. lia.
Qed.

(** scan_file_remove on a file whose blocks are those the block array
    refers to at their parity positions (I2) and which is in the containers
    of the disk (I1): it fails on a block in state [DELETED], and otherwise
    returns after a loop that ends in [remove_inv] at [blockmax]. *)
Lemma scan_file_remove_spec (state : snapraid_state) (disk : snapraid_disk)
    (file : nat) (f : snapraid_file) :
  files disk !! file = Some (Some f) ->
  file_blocks_mapped disk file f ->
  file_indexed disk file f ->
  ((forall j b, blockvec f !! j = Some b -> state_of b <> BLOCK_STATE_DELETED) /\
   exists diskL ins ps fl,
     remove_inv state disk file f (blockmax f) diskL /\
     (if file_is_without_inode f then ins = inodeset disk
      else remove_first file (inodeset disk) = Some ins) /\
     remove_first file (pathset disk) = Some ps /\
     remove_first file (filelist disk) = Some fl /\
     scan_file_remove state disk file =
     Ok (set_need_write true state,
         set_files (<[file := None]> (files diskL))
           (set_filelist fl (set_pathset ps (set_inodeset ins diskL))))) \/
  ((exists j b, blockvec f !! j = Some b /\ state_of b = BLOCK_STATE_DELETED) /\
   exists pos, scan_file_remove state disk file
               = Err (EXIT_FAILURE (InconsistentBlockState pos))).
Proof.
  intros Hfile Hmap (Hinode & Hpath & Hlist).
  unfold scan_file_remove. rewrite (heap_get_lookup _ _ _ Hfile). cbn [bind].
  change (scan_file_remove_block (set_need_write true state) file)
    with (scan_file_remove_block state file).
  destruct (remove_loop_spec state disk file f Hfile Hmap)
    as [(Hall & diskL & Hrun & Hinv)|(Hbad & pos & Hrun)].
  - left. split; [done|]. rewrite Hrun. cbn [bind].
    pose proof Hinv as [(f' & Hf' & _ & _ & Hwi) _ _ _ _ _ _ _ (Hfl & His & Hps)].
    rewrite (heap_get_lookup _ _ _ Hf'). cbn [bind]. rewrite Hwi.
    destruct (tommy_remove_existing_Ok (pathset disk) file Hpath) as (ps & Hps1 & Hps2).
    destruct (tommy_remove_existing_Ok (filelist disk) file Hlist) as (fl & Hfl1 & Hfl2).
    assert (exists ins,
      (if negb (file_is_without_inode f)
       then do s <- tommy_remove_existing (inodeset diskL) file;
            Ok (set_inodeset s diskL)
       else Ok diskL) = Ok (set_inodeset ins diskL) /\
      (if file_is_without_inode f then ins = inodeset disk
       else remove_first file (inodeset disk) = Some ins)) as (ins & -> & His').
    { destruct (file_is_without_inode f) eqn:Hw; simpl.
      - exists (inodeset disk). split; [|done]. rewrite <- His. by destruct diskL.
      - destruct (tommy_remove_existing_Ok (inodeset disk) file (Hinode eq_refl))
          as (ins & His1 & His2).
        exists ins. rewrite His, His1. done. }
    cbn [bind]. cbn. rewrite Hps, Hps1. cbn. rewrite Hfl, Hfl1. cbn.
    rewrite (heap_free_lookup _ _ _ Hf'). cbn.
    exists diskL, ins, ps, fl. auto.
  - right. split; [done|]. exists pos. rewrite Hrun. reflexivity.
Qed.

(** ** What follows from the return of the loops *)

Lemma block_deref_file_Ok (disk : snapraid_disk) (f i : nat) (b : snapraid_block) :
  block_deref disk (FileBlock f i) = Ok b ->
  exists file, files disk !! f = Some (Some file) /\ blockvec file !! i = Some b.
Proof.
  simpl. intros H. apply bind_Ok in H as (file & Hfile & H).
  apply heap_get_Ok in Hfile. exists file. split; [done|].
  destruct (blockvec file !! i); [congruence|discriminate].
Qed.

Lemma tommy_arrayblk_set_Ok_inv (arr arr' : list block_ptr) (pos : Z) (p : block_ptr) :
  tommy_arrayblk_set arr pos p = Ok arr' ->
  (Z.to_nat pos < length arr)%nat /\ arr' = <[Z.to_nat pos := p]> arr.
Proof.
  unfold tommy_arrayblk_set. destruct (decide _); [|discriminate].
  intros [= <-]. done.
Qed.

(** An iteration of the loop of scan_file_remove that returns found a block
    in the array range whose state is not [DELETED]. *)
Lemma scan_file_remove_block_Ok_inv (state : snapraid_state) (file i : nat)
    (disk disk' : snapraid_disk) :
  scan_file_remove_block state file i disk = Ok disk' ->
  exists f b,
    files disk !! file = Some (Some f) /\ blockvec f !! i = Some b /\
    (Z.to_nat (parity_pos b) < length (blockarr disk))%nat /\
    state_of b <> BLOCK_STATE_DELETED.
Proof.
  unfold scan_file_remove_block. intros H.
  apply bind_Ok in H as (b & Hb & H).
  destruct (block_deref_file_Ok _ _ _ _ Hb) as (f & Hf & Hbf).
  exists f, b. split; [done|]. split; [done|].
  apply bind_Ok in H as (disk1 & Hdisk1 & H).
  apply bind_Ok in H as (b1 & Hb1 & H).
  apply bind_Ok in H as (arr & Harr & H).
  apply tommy_arrayblk_set_Ok_inv in Harr as [Hlt _]. simpl in Hlt.
  split.
  - replace (length (blockarr disk)) with (length (blockarr disk1)); [done|].
    unfold block_state_get in Hdisk1.
    destruct (state_of b), (clear_undeterminate_hash state), (first_free_block disk >? parity_pos b);
      simpl in Hdisk1; try discriminate; try (injection Hdisk1 as <-; done);
      apply bind_Ok in Hdisk1 as (? & _ & Hdisk1);
      destruct (blockvec _ !! i); try discriminate;
      apply bind_Ok in Hdisk1 as (? & _ & Hdisk1); by injection Hdisk1 as <-.
  - unfold block_state_get in Hdisk1. intros Hst. rewrite Hst in Hdisk1. discriminate.
Qed.

Lemma remove_loop_Ok (state : snapraid_state) (disk0 : snapraid_disk) (file : nat)
    (f0 : snapraid_file) (disk : snapraid_disk) :
  files disk0 !! file = Some (Some f0) ->
  for_loop (blockmax f0) 0 (scan_file_remove_block state file) disk0 = Ok disk ->
  remove_inv state disk0 file f0 (blockmax f0) disk.
Proof.
  intros Hfile Hrun.
  apply (for_loop_Ok_invariant (fun i d => remove_inv state disk0 file f0 i d)
           _ _ _ _ _ Hrun).
  - by apply remove_inv_start.
  - intros j d d' Hj Hinv Hstep.
    destruct (scan_file_remove_block_Ok_inv _ _ _ _ _ Hstep)
      as (f & b & Hf & Hb & Hrange & Hst).
    pose proof Hinv as [(f' & Hf' & _ & Hrest & _) _ _ Hlen _ _ _ _ _].
    assert (f' = f) as -> by congruence.
    assert (blockvec f0 !! j = Some b) as Hb0 by (by rewrite <- Hrest).
    rewrite Hlen in Hrange.
    destruct (remove_inv_step state disk0 file f0 j d b Hb0 Hrange Hinv) as [_ Hgood].
    destruct (Hgood Hst) as (d'' & Hstep' & _ & Hinv'). congruence.
Qed.

(** scan_file_remove, when it returns, has run its loop to the end and
    removed the file from the containers. *)
Lemma scan_file_remove_Ok (state state' : snapraid_state) (disk disk' : snapraid_disk)
    (file : nat) :
  scan_file_remove state disk file = Ok (state', disk') ->
  exists f diskL ins ps fl,
    files disk !! file = Some (Some f) /\
    remove_inv state disk file f (blockmax f) diskL /\
    (if file_is_without_inode f then ins = inodeset disk
     else remove_first file (inodeset disk) = Some ins) /\
    remove_first file (pathset disk) = Some ps /\
    remove_first file (filelist disk) = Some fl /\
    state' = set_need_write true state /\
    disk' = set_files (<[file := None]> (files diskL))
              (set_filelist fl (set_pathset ps (set_inodeset ins diskL))).
Proof.
  unfold scan_file_remove. intros H.
  apply bind_Ok in H as (f & Hf & H). apply heap_get_Ok in Hf.
  apply bind_Ok in H as (diskL & Hloop & H).
  change (scan_file_remove_block (set_need_write true state) file)
    with (scan_file_remove_block state file) in Hloop.
  pose proof (remove_loop_Ok state disk file f diskL Hf Hloop) as Hinv.
  pose proof Hinv as [(f' & Hf' & _ & _ & Hwi) _ _ _ _ _ _ _ (Hfl & His & Hps)].
  rewrite (heap_get_lookup _ _ _ Hf') in H. cbn [bind] in H. rewrite Hwi in H.
  apply bind_Ok in H as (disk1 & Hdisk1 & H).
  apply bind_Ok in H as (ps & Hps' & H).
  apply bind_Ok in H as (fl & Hfl' & H).
  apply bind_Ok in H as (h & Hh & H). injection H as <- <-.
  unfold heap_free in Hh. apply bind_Ok in Hh as (? & _ & Hh). injection Hh as <-.
  assert (exists ins, disk1 = set_inodeset ins diskL /\
            (if file_is_without_inode f then ins = inodeset disk
             else remove_first file (inodeset disk) = Some ins)) as (ins & -> & Hins).
  { destruct (file_is_without_inode f); simpl in Hdisk1.
    - injection Hdisk1 as <-. exists (inodeset disk). split; [|done].
      rewrite <- His. by destruct diskL.
    - apply bind_Ok in Hdisk1 as (ins & Hins & Hdisk1). injection Hdisk1 as <-.
      exists ins. split; [done|]. rewrite His in Hins.
      unfold tommy_remove_existing in Hins.
      destruct (remove_first file (inodeset disk)); [congruence|discriminate]. }
  simpl in Hps', Hfl'. rewrite Hps in Hps'. rewrite Hfl in Hfl'.
  unfold tommy_remove_existing in Hps', Hfl'.
  destruct (remove_first file (pathset disk)) as [ps'|] eqn:Hps2; [|discriminate].
  destruct (remove_first file (filelist disk)) as [fl'|] eqn:Hfl2; [|discriminate].
  injection Hps' as <-. injection Hfl' as <-.
  exists f, diskL, ins, ps', fl'. done.
Qed.

(** ** The block allocator: zero-length files, parity positions *)

Lemma file_alloc_blockmax (block_size : Z) (sub : string)
    (size mtime_sec mtime_nsec inode physical : Z) :
  blockmax (file_alloc block_size sub size mtime_sec mtime_nsec inode physical)
  = Z.to_nat ((size + block_size - 1) / block_size).
Proof. unfold blockmax, file_alloc. simpl. by rewrite length_replicate. Qed.

Lemma file_alloc_blockmax_zero (block_size : Z) (sub : string)
    (mtime_sec mtime_nsec inode physical : Z) :
  0 < block_size ->
  blockmax (file_alloc block_size sub 0 mtime_sec mtime_nsec inode physical) = 0%nat.
Proof.
  intros Hbs. rewrite file_alloc_blockmax.
  rewrite Z.div_small by lia. reflexivity.
Qed.

(** C8: inserting a file without blocks (a zero-length file: its block
    vector has length [ceil(size / block_size) = 0]) through
    scan_file_insert returns and leaves the block array and
    [first_free_block] as they were: no slot is claimed, the array is not
    grown, the cursor is not advanced. *)
Theorem scan_file_insert_zero_length (state : snapraid_state) (disk : snapraid_disk)
    (file : nat) (f : snapraid_file) :
  files disk !! file = Some (Some f) ->
  blockmax f = 0%nat ->
  exists disk',
    scan_file_insert state disk file = Ok (set_need_write true state, disk') /\
    blockarr disk' = blockarr disk /\
    first_free_block disk' = first_free_block disk.
Proof.
  intros Hfile Hmax. unfold scan_file_insert.
  rewrite (heap_get_lookup _ _ _ Hfile). cbn [bind]. rewrite Hmax. cbn.
  eexists. split; [reflexivity|]. done.
Qed.

Lemma scan_file_insert_zero_length_witness :
  files ex_disk_with_empty !! 1%nat = Some (Some ex_empty_file) /\
  blockmax ex_empty_file = 0%nat /\
  exists disk',
    scan_file_insert (ex_state false) ex_disk_with_empty 1
    = Ok (set_need_write true (ex_state false), disk') /\
    blockarr disk' = blockarr ex_disk_with_empty /\
    first_free_block disk' = first_free_block ex_disk_with_empty.
Proof.
  split; [reflexivity|]. split; [reflexivity|].
  apply (scan_file_insert_zero_length (ex_state false) ex_disk_with_empty 1
           ex_empty_file); reflexivity.
Defined.

(** C10: for a file inserted by scan_file_insert, the parity positions given
    to its blocks are strictly increasing with the index of the block. *)
Theorem scan_file_insert_parity_pos_increasing (state : snapraid_state)
    (disk : snapraid_disk) (file : nat) (f : snapraid_file) :
  files disk !! file = Some (Some f) ->
  insert_ready disk f ->
  exists disk' f',
    scan_file_insert state disk file = Ok (set_need_write true state, disk') /\
    files disk' !! file = Some (Some f') /\
    blockmax f' = blockmax f /\
    forall i b c,
      blockvec f' !! i = Some b -> blockvec f' !! S i = Some c ->
      parity_pos b < parity_pos c.
Proof.
  intros Hfile Hready.
  destruct (scan_file_insert_spec state disk file f Hfile Hready)
    as (diskL & block_max & block_pos & Hinv & Hrun).
  destruct Hinv as [_ _ _ _ _ _ _ _ _ _ _ (f' & Hf' & Hlen & _ & _ & Hincr) _].
  eexists _, f'. split; [exact Hrun|].
  split; [by destruct (decide (blockmax f = 0%nat))|]. split; [done|].
  intros i b c Hb Hc. apply (Hincr i (S i)); [|done..].
  apply lookup_lt_Some in Hc. unfold blockmax. lia.
Qed.

Lemma ex_changed_disk_insert_ready : insert_ready ex_changed_disk ex_new_file.
Proof.
  split; [vm_compute; split; discriminate|].
  split; [vm_compute; reflexivity|].
  intros q d _ Hcell.
  change (blockarr ex_changed_disk) with [DeletedBlock 0; DeletedBlock 1] in Hcell.
  change (length (deletedlist ex_changed_disk)) with 2%nat.
  destruct (Z.to_nat q) as [|[|n]]; simpl in Hcell; [| |done];
    injection Hcell as <-; lia.
Qed.

Lemma scan_file_insert_parity_pos_increasing_witness :
  files ex_changed_disk !! 1%nat = Some (Some ex_new_file) /\
  insert_ready ex_changed_disk ex_new_file /\
  exists disk' f',
    scan_file_insert (ex_state false) ex_changed_disk 1
    = Ok (set_need_write true (ex_state false), disk') /\
    files disk' !! 1%nat = Some (Some f') /\
    blockmax f' = blockmax ex_new_file /\
    forall i b c,
      blockvec f' !! i = Some b -> blockvec f' !! S i = Some c ->
      parity_pos b < parity_pos c.
Proof.
  split; [reflexivity|]. split; [apply ex_changed_disk_insert_ready|].
  apply (scan_file_insert_parity_pos_increasing (ex_state false)
           ex_changed_disk 1 ex_new_file).
  - reflexivity.
  - apply ex_changed_disk_insert_ready.
Defined.

(** ** The cursor [first_free_block] *)

Lemma first_empty_ge (arr : list block_ptr) (n : nat) :
  (n <= first_empty arr)%nat <->
  forall q, (q < n)%nat -> exists c, arr !! q = Some c /\ c <> BLOCK_EMPTY.
Proof.
  revert n. induction arr as [|c arr IH]; intros n; simpl.
  - split.
    + intros Hn q Hq. lia.
    + intros H. destruct n as [|n]; [lia|]. destruct (H 0%nat) as (c & Hc & _); [lia|].
      discriminate.
  - destruct (decide (c = BLOCK_EMPTY)) as [->|Hc].
    + split.
      * intros Hn q Hq. lia.
      * intros H. destruct n as [|n]; [lia|].
        destruct (H 0%nat) as (c & Hc & Hne); [lia|]. simpl in Hc. congruence.
    + assert (match c with BLOCK_EMPTY => 0%nat | _ => S (first_empty arr) end
              = S (first_empty arr)) as -> by (by destruct c).
      destruct n as [|n]; [split; [intros; lia|lia]|].
      rewrite <- Nat.succ_le_mono, IH. split.
      * intros H [|q] Hq; [simpl; eauto|]. simpl. apply H. lia.
      * intros H q Hq. apply (H (S q)). lia.
Qed.

Lemma first_free_bound_cells (disk : snapraid_disk) :
  first_free_bound disk <->
  forall q, 0 <= q < first_free_block disk ->
    exists c, blockarr disk !! Z.to_nat q = Some c /\ c <> BLOCK_EMPTY.
Proof.
  unfold first_free_bound. split.
  - intros H q Hq.
    apply (proj1 (first_empty_ge (blockarr disk) (S (Z.to_nat q)))); lia.
  - intros H.
    destruct (decide (first_free_block disk <= 0)) as [|Hpos]; [lia|].
    assert (Z.to_nat (first_free_block disk) <= first_empty (blockarr disk))%nat; [|lia].
    apply first_empty_ge. intros q Hq.
    specialize (H (Z.of_nat q)). rewrite Nat2Z.id in H. apply H. lia.
Qed.

Lemma fold_left_min_le (l : list Z) (a : Z) : fold_left Z.min l a <= a.
Proof.
  revert a. induction l as [|x l IH]; intros a; simpl; [lia|].
  specialize (IH (Z.min a x)). lia.
Qed.

(** C7: the cursor [first_free_block] is lowered by every block deletion to
    the minimum of the cursor and the parity position of the block; an
    insertion that allocates at least one block leaves it at the last slot
    claimed plus one, an insertion without blocks leaves it as it is; and
    between these steps the cursor is at most the index of the first empty
    cell of the block array ([first_free_bound], a lower bound that need not
    be tight). *)
Theorem first_free_block_cursor (state : snapraid_state) (disk : snapraid_disk)
    (file : nat) (f : snapraid_file) :
  files disk !! file = Some (Some f) ->
  (forall i disk1 disk2,
     scan_file_remove_block state file i disk1 = Ok disk2 ->
     exists b, block_deref disk1 (FileBlock file i) = Ok b /\
       first_free_block disk2 = Z.min (first_free_block disk1) (parity_pos b)) /\
  (forall state' disk',
     scan_file_remove state disk file = Ok (state', disk') ->
     first_free_block disk'
     = fold_left Z.min (map parity_pos (blockvec f)) (first_free_block disk) /\
     (first_free_bound disk -> first_free_bound disk')) /\
  (insert_ready disk f ->
   exists disk' f',
     scan_file_insert state disk file = Ok (set_need_write true state, disk') /\
     files disk' !! file = Some (Some f') /\
     (blockmax f = 0%nat -> first_free_block disk' = first_free_block disk) /\
     (forall b, last (blockvec f') = Some b ->
        first_free_block disk' = parity_pos b + 1) /\
     (first_free_bound disk -> first_free_bound disk')).
Proof.
  intros Hfile. split; [|split].
  - intros i disk1 disk2 Hrun.
    destruct (scan_file_remove_block_Ok_inv _ _ _ _ _ Hrun)
      as (f1 & b & Hf1 & Hb & Hrange & Hst).
    exists b. split; [by eapply block_deref_file|].
    destruct (scan_file_remove_block_spec state file i disk1 f1 b Hf1 Hb Hrange)
      as [_ Hgood].
    destruct (Hgood Hst) as (disk2' & Hrun' & _ & _ & _ & Hfree & _). congruence.
  - intros state' disk' Hrun.
    destruct (scan_file_remove_Ok _ _ _ _ _ Hrun)
      as (f1 & diskL & ins & ps & fl & Hf1 & Hinv & _ & _ & _ & _ & ->).
    assert (f1 = f) as -> by congruence.
    destruct Hinv as [_ _ _ _ _ Hnonempty _ Hfree _].
    unfold blockmax in Hfree. rewrite firstn_all in Hfree. simpl. split; [done|].
    rewrite !first_free_bound_cells. simpl. intros Hbound q Hq.
    destruct (Hbound q) as (c & Hc & Hne).
    { pose proof (fold_left_min_le (map parity_pos (blockvec f)) (first_free_block disk)).
      lia. }
    by apply (Hnonempty _ c).
  - intros Hready. pose proof Hready as (Hfree & Hsize & _).
    destruct (scan_file_insert_spec state disk file f Hfile Hready)
      as (diskL & block_max & block_pos & Hinv & Hrun).
    destruct Hinv as [Hmax Hlen Hfirst Hlast Hlastb Habove Hbelow Hbetween _ _ _
                        (f' & Hf' & Hflen & Hrest & _ & _) (Hff & _)].
    eexists _, f'. split; [exact Hrun|].
    split; [by destruct (decide (blockmax f = 0%nat))|].
    split; [intros H0; rewrite decide_True by done; done|]. split.
    + intros b Hb. rewrite last_lookup in Hb.
      destruct (decide (blockmax f = 0%nat)) as [H0|Hn0].
      * unfold blockmax in H0. apply lookup_lt_Some in Hb. lia.
      * simpl. destruct (Hlastb Hn0) as (f1 & b1 & Hf1 & Hb1 & <-).
        assert (f1 = f') as -> by congruence.
        unfold blockmax in Hb1. rewrite Hflen in Hb.
        replace (Nat.pred (length (blockvec f))) with (length (blockvec f) - 1)%nat
          in Hb by lia.
        congruence.
    + rewrite !first_free_bound_cells. intros Hbound q Hq.
      destruct (decide (blockmax f = 0%nat)) as [H0|Hn0]; simpl in Hq |- *.
      * rewrite Hff in Hq. rewrite Hbelow by lia. by apply Hbound.
      * destruct (decide (q < first_free_block disk)) as [Hlow|Hhigh].
        -- rewrite Hbelow by lia. apply Hbound. lia.
        -- destruct (Hbetween q) as (c & Hc & Hcf); [lia|done|].
           exists c. split; [done|]. intros ->. discriminate.
Qed.

Lemma ex_file_blocks_mapped : file_blocks_mapped ex_disk 0 ex_file.
Proof.
  intros [|[|i]] b Hb; simpl in Hb; [| |done]; injection Hb as <-; simpl; split;
    done.
Qed.

Lemma ex_file_indexed : file_indexed ex_disk 0 ex_file.
Proof.
  split; [|split]; simpl; intros; apply list_elem_of_singleton; done.
Qed.

Lemma ex_disk_remove :
  scan_file_remove (ex_state false) ex_disk 0
  = Ok (set_need_write true (ex_state false), ex_removed_disk).
Proof. vm_compute. reflexivity. Qed.

Lemma first_free_block_cursor_witness :
  files ex_disk !! 0%nat = Some (Some ex_file) /\
  (exists state' disk',
     scan_file_remove (ex_state false) ex_disk 0 = Ok (state', disk') /\
     first_free_block disk' = 0) /\
  files ex_changed_disk !! 1%nat = Some (Some ex_new_file) /\
  (exists disk',
     scan_file_insert (ex_state false) ex_changed_disk 1
     = Ok (set_need_write true (ex_state false), disk') /\
     first_free_block disk' = 2).
Proof.
  split; [reflexivity|]. split.
  - destruct (first_free_block_cursor (ex_state false) ex_disk 0 ex_file eq_refl)
      as (_ & Hremove & _).
    eexists _, _. split; [exact ex_disk_remove|].
    rewrite (proj1 (Hremove _ _ ex_disk_remove)). reflexivity.
  - split; [reflexivity|].
    destruct (first_free_block_cursor (ex_state false) ex_changed_disk 1
                ex_new_file eq_refl) as (_ & _ & Hinsert).
    destruct (Hinsert ex_changed_disk_insert_ready)
      as (disk' & f' & Hrun & Hf' & _ & Hlast & _).
    exists disk'. split; [exact Hrun|].
    vm_compute in Hrun. injection Hrun as <-. reflexivity.
Defined.

(** ** scan_file_remove: the deleted blocks *)

(** C2: scan_file_remove, on a file whose blocks the block array refers to
    (I2), which is in the containers of the disk (I1) and whose hashes have
    the [HASH_SIZE] bytes of a hash field.  When no block of the file is in
    another state than [BLK], [CHG] and [NEW], it returns, and for every
    block of the file the cell of the block array at the parity position of
    the block is a deleted block, of state [DELETED], for the same position,
    whose hash is, byte for byte, the hash of the block if the block was
    [BLK], and for [CHG] and [NEW] [HASH_SIZE] zero bytes, unless
    [clear_undeterminate_hash] is set, and then the hash of the block.  When
    a block is in another state, it fails with the fatal error of an
    inconsistent state. *)
Theorem scan_file_remove_deleted_blocks (state : snapraid_state) (disk : snapraid_disk)
    (file : nat) (f : snapraid_file) :
  files disk !! file = Some (Some f) ->
  file_blocks_mapped disk file f ->
  file_indexed disk file f ->
  (forall i b, blockvec f !! i = Some b -> length (hash b) = HASH_SIZE) ->
  ((forall i b, blockvec f !! i = Some b -> state_of b <> BLOCK_STATE_DELETED) ->
   exists disk',
     scan_file_remove state disk file = Ok (set_need_write true state, disk') /\
     forall i b, blockvec f !! i = Some b ->
       exists d del,
         blockarr disk' !! Z.to_nat (parity_pos b) = Some (DeletedBlock d) /\
         deletedlist disk' !! d = Some del /\
         state_of del = BLOCK_STATE_DELETED /\
         parity_pos del = parity_pos b /\
         hash del =
           match state_of b with
           | BLOCK_STATE_BLK => hash b
           | _ => if clear_undeterminate_hash state
                  then hash b else replicate HASH_SIZE x00
           end) /\
  ((exists i b, blockvec f !! i = Some b /\ state_of b = BLOCK_STATE_DELETED) ->
   exists pos,
     scan_file_remove state disk file
     = Err (EXIT_FAILURE (InconsistentBlockState pos))).
Proof.
  intros Hfile Hmap Hindexed Hsize.
  destruct (scan_file_remove_spec state disk file f Hfile Hmap Hindexed)
    as [(Hall & diskL & ins & ps & fl & Hinv & _ & _ & _ & Hrun)
       |((j & bj & Hbj & Hst) & pos & Hrun)].
  - split.
    + intros _. eexists. split; [exact Hrun|]. simpl.
      destruct Hinv as [_ _ Hdl _ Hdone _ _ _ _].
      intros i b Hb. exists (length (deletedlist disk) + i)%nat.
      eexists. split.
      { apply (Hdone Hmap i b); [|done]. apply lookup_lt_Some in Hb.
        unfold blockmax. lia. }
      unfold blockmax in Hdl. rewrite firstn_all in Hdl. rewrite Hdl.
      rewrite lookup_app_r by lia.
      replace (length (deletedlist disk) + i - length (deletedlist disk))%nat
        with i by lia.
      rewrite list_lookup_fmap, Hb. simpl. split; [reflexivity|].
      split; [done|]. split; [done|].
      pose proof (hash_copy_id _ (Hsize i b Hb)) as Hcopy.
      unfold kept_hash.
      destruct (state_of b), (clear_undeterminate_hash state); done.
    + intros (i & b & Hb & Hst). exfalso. by apply (Hall i b).
  - split.
    + intros Hall. exfalso. by apply (Hall j bj).
    + intros _. eauto.
Qed.

Lemma scan_file_remove_deleted_blocks_witness :
  files ex_disk !! 0%nat = Some (Some ex_file) /\
  file_blocks_mapped ex_disk 0 ex_file /\
  file_indexed ex_disk 0 ex_file /\
  map hash (blockvec ex_file) = [ex_H1; ex_H2] /\
  exists disk',
    scan_file_remove (ex_state false) ex_disk 0
    = Ok (set_need_write true (ex_state false), disk') /\
    exists del0 del1,
      blockarr disk' !! 0%nat = Some (DeletedBlock 0) /\
      blockarr disk' !! 1%nat = Some (DeletedBlock 1) /\
      deletedlist disk' !! 0%nat = Some del0 /\
      deletedlist disk' !! 1%nat = Some del1 /\
      hash del0 = replicate 16 x01 /\ hash del1 = replicate 16 x02.
Proof.
  split; [reflexivity|]. split; [apply ex_file_blocks_mapped|].
  split; [apply ex_file_indexed|]. split; [reflexivity|].
  destruct (scan_file_remove_deleted_blocks (ex_state false) ex_disk 0 ex_file
              eq_refl ex_file_blocks_mapped ex_file_indexed) as [Hgood _].
  { intros [|[|i]] b Hb; simpl in Hb; [| |done]; injection Hb as <-; reflexivity. }
  destruct Hgood as (disk' & Hrun & Hcells).
  - intros [|[|i]] b Hb; simpl in Hb; [| |done]; injection Hb as <-; done.
  - exists disk'. split; [exact Hrun|].
    destruct (Hcells 0%nat _ eq_refl) as (d0 & del0 & Hc0 & Hd0 & _ & _ & Hh0).
    destruct (Hcells 1%nat _ eq_refl) as (d1 & del1 & Hc1 & Hd1 & _ & _ & Hh1).
    assert (scan_file_remove (ex_state false) ex_disk 0
            = Ok (set_need_write true (ex_state false), ex_removed_disk)) as Hrun'
      by (vm_compute; reflexivity).
    rewrite Hrun in Hrun'. injection Hrun' as ->.
    simpl in Hc0, Hc1. injection Hc0 as <-. injection Hc1 as <-.
    exists del0, del1. by repeat split.
Defined.

(** ** scan_file_insert: the reuse of the slot of a deleted block *)


(** C1 fails as it is stated: with [clear_undeterminate_hash] not set, the
    file "f" of two blocks in state [BLK] with the hashes [ex_H1] and
    [ex_H2], seen changed by scan_file and inserted again, has its two blocks
    in state [CHG] with hashes of zeros, not [ex_H1] and [ex_H2]. *)
Lemma scan_file_insert_reused_hash_counterexample :
  exists scan state disk disk' f',
    scan_file scan_init (ex_state false) ex_disk "f" ex_stat 0
    = Ok (scan, state, disk) /\
    file_insert_list scan = [1%nat] /\
    scan_file_insert state disk 1 = Ok (state, disk') /\
    files disk' !! 1%nat = Some (Some f') /\
    map parity_pos (blockvec f') = [0; 1] /\
    map state_of (blockvec f') = [BLOCK_STATE_CHG; BLOCK_STATE_CHG] /\
    map hash (blockvec f') = [hash_zero; hash_zero] /\
    map hash (blockvec f') <> [ex_H1; ex_H2].
Proof.
  eexists _, _, _, _, _.
  split; [vm_compute; reflexivity|]. split; [reflexivity|].
  split; [vm_compute; reflexivity|]. split; [reflexivity|].
  split; [reflexivity|]. split; [reflexivity|]. split; [reflexivity|].
  vm_compute. discriminate.
Qed.

(** The rule of scan_file_insert for a deleted cell. *)
Lemma scan_file_insert_deleted_cell (state : snapraid_state) (disk : snapraid_disk)
    (file : nat) (f : snapraid_file) :
  files disk !! file = Some (Some f) ->
  insert_ready disk f ->
  exists disk' f',
    scan_file_insert state disk file = Ok (set_need_write true state, disk') /\
    files disk' !! file = Some (Some f') /\
    blockmax f' = blockmax f /\
    forall i b' d del,
      blockvec f' !! i = Some b' ->
      blockarr disk !! Z.to_nat (parity_pos b') = Some (DeletedBlock d) ->
      deletedlist disk !! d = Some del ->
      blockarr disk' !! Z.to_nat (parity_pos b') = Some (FileBlock file i) /\
      state_of b' = BLOCK_STATE_CHG /\
      hash b' = (if clear_undeterminate_hash state
                 then hash_copy (hash del) else hash_zero).
Proof.
  intros Hfile Hready.
  destruct (scan_file_insert_spec state disk file f Hfile Hready)
    as (diskL & block_max & block_pos & Hinv & Hrun).
  destruct Hinv as [_ _ _ _ _ _ _ _ _ _ _ (f' & Hf' & Hlen & _ & Hdone & _) _].
  eexists _, f'. split; [exact Hrun|].
  split; [by destruct (decide (blockmax f = 0%nat))|]. split; [done|].
  intros i b' d del Hb' Hcell Hdel.
  destruct (Hdone i b') as (_ & Hcell' & b & _ & Hclaim);
    [apply lookup_lt_Some in Hb'; unfold blockmax; lia|done|].
  split; [by destruct (decide (blockmax f = 0%nat))|].
  rewrite Hcell in Hclaim. destruct Hclaim as (del' & Hdel' & Hst & Hh).
  assert (del' = del) as -> by congruence. done.
Qed.

(** S4 at the level of the allocator: a file of two blocks at the slots 0
    and 1, in state [BLK] with the hashes [H1] and [H2], is removed and a
    file of two blocks is inserted. *)
Lemma remove_then_insert_two_blocks (state : snapraid_state) (disk : snapraid_disk)
    (old new : nat) (f_old f_new : snapraid_file) (H1 H2 : list byte) :
  files disk !! old = Some (Some f_old) ->
  blockvec f_old = [mk_block 0 BLOCK_STATE_BLK H1; mk_block 1 BLOCK_STATE_BLK H2] ->
  length H1 = HASH_SIZE -> length H2 = HASH_SIZE ->
  file_blocks_mapped disk old f_old ->
  file_indexed disk old f_old ->
  files disk !! new = Some (Some f_new) ->
  new <> old ->
  blockmax f_new = 2%nat ->
  0 <= first_free_block disk ->
  Z.of_nat (length (blockarr disk)) + 2 < 2 ^ 32 ->
  (forall q d, blockarr disk !! q = Some (DeletedBlock d) ->
     (d < length (deletedlist disk))%nat) ->
  exists disk1 disk2 f',
    scan_file_remove state disk old = Ok (set_need_write true state, disk1) /\
    scan_file_insert (set_need_write true state) disk1 new
    = Ok (set_need_write true state, disk2) /\
    files disk2 !! new = Some (Some f') /\
    map parity_pos (blockvec f') = [0; 1] /\
    map state_of (blockvec f') = [BLOCK_STATE_CHG; BLOCK_STATE_CHG] /\
    map hash (blockvec f') =
      (if clear_undeterminate_hash state then [H1; H2] else [hash_zero; hash_zero]) /\
    blockarr disk2 !! 0%nat = Some (FileBlock new 0) /\
    blockarr disk2 !! 1%nat = Some (FileBlock new 1).
Proof.
  intros Hold Hblocks HH1 HH2 Hmap Hindexed Hnew Hne Hmax Hfree Hsize Hdeleted.
  destruct (scan_file_remove_spec state disk old f_old Hold Hmap Hindexed)
    as [(_ & diskL & ins & ps & fl & Hinv & _ & _ & _ & Hrun)
       |((j & bj & Hbj & Hst) & _)].
  2: { rewrite Hblocks in Hbj. destruct j as [|[|j]]; simpl in Hbj; [| |done];
       injection Hbj as <-; discriminate. }
  set (disk1 := set_files _ _) in Hrun.
  destruct Hinv as [_ [_ Hother] Hdl Hlen Hdone _ Hrest Hff _].
  assert (blockmax f_old = 2%nat) as Hmax_old
    by (unfold blockmax; by rewrite Hblocks).
  rewrite Hmax_old in Hdone, Hrest, Hdl, Hff.
  rewrite Hblocks in Hdl, Hff, Hdone, Hrest. simpl in Hdl, Hff.
  assert (first_free_block disk1 = 0) as Hff1 by (subst disk1; simpl; lia).
  assert (blockarr disk1 !! 0%nat = Some (DeletedBlock (length (deletedlist disk))))
    as Hcell0.
  { pose proof (Hdone Hmap 0%nat (mk_block 0 BLOCK_STATE_BLK H1) ltac:(lia) eq_refl)
      as Hc.
    simpl in Hc. rewrite Nat.add_0_r in Hc. subst disk1. simpl. exact Hc. }
  assert (blockarr disk1 !! 1%nat = Some (DeletedBlock (length (deletedlist disk) + 1)))
    as Hcell1.
  { pose proof (Hdone Hmap 1%nat (mk_block 1 BLOCK_STATE_BLK H2) ltac:(lia) eq_refl)
      as Hc.
    simpl in Hc. subst disk1. simpl. exact Hc. }
  assert (deletedlist disk1 = deletedlist disk ++
            [mk_block 0 BLOCK_STATE_DELETED H1; mk_block 1 BLOCK_STATE_DELETED H2])
    as Hdl1.
  { subst disk1. simpl. rewrite Hdl. unfold deleted_dup, kept_hash. simpl.
    by rewrite !hash_copy_id. }
  assert (files disk1 !! new = Some (Some f_new)) as Hnew1.
  { subst disk1. simpl. rewrite list_lookup_insert_ne by done.
    rewrite Hother by done. done. }
  assert (length (blockarr disk1) = length (blockarr disk)) as Hlen1
    by (subst disk1; simpl; done).
  assert (forall q, q <> 0%nat -> q <> 1%nat ->
            blockarr disk1 !! q = blockarr disk !! q) as Hrest1.
  { intros q Hq0 Hq1. subst disk1. simpl. apply Hrest.
    intros [|[|j]] b Hj Hb; simpl in Hb; [| |lia]; injection Hb as <-; simpl; lia. }
  clearbody disk1. clear Hrest Hdone Hdl Hff Hlen Hother.
  assert (insert_ready disk1 f_new) as Hready.
  { split; [|split].
    - rewrite Hff1. lia.
    - rewrite Hlen1, Hmax. lia.
    - intros q d _ Hcell. rewrite Hdl1, length_app. simpl.
      destruct (decide (Z.to_nat q = 0%nat)) as [Hq0|Hq0];
        [rewrite Hq0, Hcell0 in Hcell; injection Hcell as <-; lia|].
      destruct (decide (Z.to_nat q = 1%nat)) as [Hq1|Hq1];
        [rewrite Hq1, Hcell1 in Hcell; injection Hcell as <-; lia|].
      rewrite Hrest1 in Hcell by done.
      pose proof (Hdeleted _ _ Hcell). lia. }
  destruct (scan_file_insert_spec (set_need_write true state) disk1 new f_new
              Hnew1 Hready)
    as (diskM & block_max & block_pos & Hinv & Hrun2).
  rewrite decide_False in Hrun2 by lia.
  destruct Hinv as [_ _ _ Hlast _ _ _ _ Hclaimed _ _
                      (f' & Hf' & Hlen' & _ & Hdone' & Hincr) _].
  pose proof Hmax as Hmax'. unfold blockmax in Hmax'. rewrite Hmax' in Hlen'.
  destruct (blockvec f') as [|b0 [|b1 [|b2 l]]] eqn:Hbv; try discriminate.
  pose proof (Hincr 0%nat 1%nat b0 b1 ltac:(lia) eq_refl eq_refl) as Hlt.
  destruct (Hdone' 0%nat b0 ltac:(lia) eq_refl) as (Hr0 & Hc0 & c0 & _ & Hcl0).
  destruct (Hdone' 1%nat b1 ltac:(lia) eq_refl) as (Hr1 & Hc1 & c1 & _ & Hcl1).
  rewrite Hff1 in Hr0, Hr1.
  assert (parity_pos b0 = 0 /\ parity_pos b1 = 1) as [Hp0 Hp1].
  { assert (forall q, 0 <= q <= 1 -> q = parity_pos b0 \/ q = parity_pos b1) as Hq.
    { intros q Hq.
      destruct (Hclaimed q) as [(c & Hc & Hcf)|(j & f1 & bj & Hj & Hf1 & Hbj & Hpj)];
        [rewrite Hff1; lia|lia| |].
      - exfalso. destruct (decide (q = 0)) as [->|]; [|assert (q = 1) as -> by lia].
        + change (Z.to_nat 0) with 0%nat in Hc.
          rewrite Hcell0 in Hc. injection Hc as <-. discriminate.
        + change (Z.to_nat 1) with 1%nat in Hc.
          rewrite Hcell1 in Hc. injection Hc as <-. discriminate.
      - assert (f1 = f') as -> by congruence. rewrite Hbv in Hbj.
        destruct j as [|[|j]]; simpl in Hbj; [| |lia]; injection Hbj as <-; auto. }
    destruct (Hq 0 ltac:(lia)), (Hq 1 ltac:(lia)); lia. }
  rewrite Hp0 in Hc0, Hcl0. rewrite Hp1 in Hc1, Hcl1.
  change (Z.to_nat 0) with 0%nat in Hc0, Hcl0.
  change (Z.to_nat 1) with 1%nat in Hc1, Hcl1.
  rewrite Hcell0 in Hcl0. rewrite Hcell1 in Hcl1.
  destruct Hcl0 as (del0 & Hdel0 & Hst0 & Hh0). destruct Hcl1 as (del1 & Hdel1 & Hst1 & Hh1).
  rewrite Hdl1 in Hdel0, Hdel1.
  rewrite lookup_app_r in Hdel0, Hdel1 by lia.
  replace (length (deletedlist disk) - length (deletedlist disk))%nat with 0%nat
    in Hdel0 by lia.
  replace (length (deletedlist disk) + 1 - length (deletedlist disk))%nat with 1%nat
    in Hdel1 by lia.
  injection Hdel0 as <-. injection Hdel1 as <-. simpl in Hh0, Hh1.
  rewrite hash_copy_id in Hh0, Hh1 by done.
  eexists disk1, _, f'. split; [exact Hrun|]. split; [exact Hrun2|].
  split; [exact Hf'|]. rewrite Hbv. simpl.
  split; [by rewrite Hp0, Hp1|]. split; [by rewrite Hst0, Hst1|].
  split; [rewrite Hh0, Hh1; by destruct (clear_undeterminate_hash state)|].
  done.
Qed.

(** C1, amended: when scan_file_insert gives a block of the file a slot
    whose cell is a deleted block, the block gets the state [CHG], and its
    hash is the hash of the deleted block when [clear_undeterminate_hash] is
    set, and zeros when it is not set (the hash of the deleted block is
    zeroed before the copy).  So a file of two blocks at the slots 0 and 1,
    in state [BLK] with the hashes [H1] and [H2], that is removed and
    inserted again with two blocks, has its blocks at the slots 0 and 1, in
    state [CHG], with the hashes [H1] and [H2] when
    [clear_undeterminate_hash] is set and with zeros when it is not. *)
Theorem scan_file_insert_reused_hash (state : snapraid_state) :
  (forall disk file f,
     files disk !! file = Some (Some f) ->
     insert_ready disk f ->
     exists disk' f',
       scan_file_insert state disk file = Ok (set_need_write true state, disk') /\
       files disk' !! file = Some (Some f') /\
       blockmax f' = blockmax f /\
       forall i b' d del,
         blockvec f' !! i = Some b' ->
         blockarr disk !! Z.to_nat (parity_pos b') = Some (DeletedBlock d) ->
         deletedlist disk !! d = Some del ->
         blockarr disk' !! Z.to_nat (parity_pos b') = Some (FileBlock file i) /\
         state_of b' = BLOCK_STATE_CHG /\
         hash b' = (if clear_undeterminate_hash state
                    then hash_copy (hash del) else hash_zero)) /\
  (forall disk old new f_old f_new H1 H2,
     files disk !! old = Some (Some f_old) ->
     blockvec f_old = [mk_block 0 BLOCK_STATE_BLK H1; mk_block 1 BLOCK_STATE_BLK H2] ->
     length H1 = HASH_SIZE -> length H2 = HASH_SIZE ->
     file_blocks_mapped disk old f_old ->
     file_indexed disk old f_old ->
     files disk !! new = Some (Some f_new) ->
     new <> old ->
     blockmax f_new = 2%nat ->
     0 <= first_free_block disk ->
     Z.of_nat (length (blockarr disk)) + 2 < 2 ^ 32 ->
     (forall q d, blockarr disk !! q = Some (DeletedBlock d) ->
        (d < length (deletedlist disk))%nat) ->
     exists disk1 disk2 f',
       scan_file_remove state disk old = Ok (set_need_write true state, disk1) /\
       scan_file_insert (set_need_write true state) disk1 new
       = Ok (set_need_write true state, disk2) /\
       files disk2 !! new = Some (Some f') /\
       map parity_pos (blockvec f') = [0; 1] /\
       map state_of (blockvec f') = [BLOCK_STATE_CHG; BLOCK_STATE_CHG] /\
       map hash (blockvec f') =
         (if clear_undeterminate_hash state
          then [H1; H2] else [hash_zero; hash_zero]) /\
       blockarr disk2 !! 0%nat = Some (FileBlock new 0) /\
       blockarr disk2 !! 1%nat = Some (FileBlock new 1)).
Proof.
  split.
  - intros disk file f. apply scan_file_insert_deleted_cell.
  - intros disk old new f_old f_new H1 H2. apply remove_then_insert_two_blocks.
Qed.

Lemma scan_file_insert_reused_hash_witness :
  (files ex_changed_disk !! 1%nat = Some (Some ex_new_file) /\
   insert_ready ex_changed_disk ex_new_file /\
   exists disk' f',
     scan_file_insert (ex_state true) ex_changed_disk 1
     = Ok (set_need_write true (ex_state true), disk') /\
     files disk' !! 1%nat = Some (Some f') /\
     blockmax f' = blockmax ex_new_file /\
     forall i b' d del,
       blockvec f' !! i = Some b' ->
       blockarr ex_changed_disk !! Z.to_nat (parity_pos b') = Some (DeletedBlock d) ->
       deletedlist ex_changed_disk !! d = Some del ->
       blockarr disk' !! Z.to_nat (parity_pos b') = Some (FileBlock 1 i) /\
       state_of b' = BLOCK_STATE_CHG /\
       hash b' = hash_copy (hash del)) /\
  (exists disk1 disk2 f',
     scan_file_remove (ex_state true) ex_disk_two 0
     = Ok (set_need_write true (ex_state true), disk1) /\
     scan_file_insert (set_need_write true (ex_state true)) disk1 1
     = Ok (set_need_write true (ex_state true), disk2) /\
     files disk2 !! 1%nat = Some (Some f') /\
     map parity_pos (blockvec f') = [0; 1] /\
     map state_of (blockvec f') = [BLOCK_STATE_CHG; BLOCK_STATE_CHG] /\
     map hash (blockvec f') = [ex_H1; ex_H2] /\
     blockarr disk2 !! 0%nat = Some (FileBlock 1 0) /\
     blockarr disk2 !! 1%nat = Some (FileBlock 1 1)).
Proof.
  destruct (scan_file_insert_reused_hash (ex_state true)) as [Hrule Hscenario].
  split.
  - split; [reflexivity|]. split; [apply ex_changed_disk_insert_ready|].
    apply (Hrule ex_changed_disk 1%nat ex_new_file);
      [reflexivity|apply ex_changed_disk_insert_ready].
  - apply (Hscenario ex_disk_two 0%nat 1%nat ex_file ex_new_file ex_H1 ex_H2);
      try reflexivity; try lia.
    + intros [|[|i]] b Hb; simpl in Hb; [| |done]; injection Hb as <-; done.
    + split; [|split]; simpl; intros; apply list_elem_of_singleton; done.
    + vm_compute. discriminate.
    + intros [|[|q]] d Hc; simpl in Hc; discriminate.
Defined.

(** ** The empty-disk check of state_scan *)

Lemma all_missing_or_rewritten_spec (scan : snapraid_scan) :
  all_missing_or_rewritten scan = true <-> all_missing scan.
Proof.
  unfold all_missing_or_rewritten, all_missing.
  rewrite !andb_true_iff, orb_true_iff, !negb_true_iff, !Z.eqb_eq, !Z.eqb_neq.
  tauto.
Qed.

Lemma missing_disks_affected (disklist : list snapraid_disk)
    (scanlist : list snapraid_scan) :
  missing_disks disklist scanlist
  = map (fun ds => (disk_name ds.1, disk_dir ds.1)) (affected_disks disklist scanlist).
Proof.
  unfold affected_disks. revert scanlist.
  induction disklist as [|disk disklist IH]; intros [|scan scanlist]; try reflexivity.
  simpl. rewrite filter_cons. simpl.
  destruct (all_missing_or_rewritten scan) eqn:Hc.
  - rewrite decide_True by (by apply all_missing_or_rewritten_spec).
    simpl. by rewrite IH.
  - rewrite decide_False; [apply IH|].
    intros H. apply all_missing_or_rewritten_spec in H. congruence.
Qed.

(** C5: after the scans of the disks, when some disk has [count_equal],
    [count_move] and [count_restore] null and [count_remove] or
    [count_change] not null, and [force_empty] is not set, state_scan fails
    with the fatal error whose message lists, by name and dir and in the
    order of the disks, every disk in this condition; when [force_empty] is
    set, or no disk is in this condition, the check does not fail and
    state_scan returns the scanned disks. *)
Theorem state_scan_empty_disk_check (flt : snapraid_filter)
    (fs : string -> disk_view) (state state' : snapraid_state)
    (disklist disks : list snapraid_disk) (scanlist : list snapraid_scan) :
  state_scan_disks flt fs state disklist = Ok (state', disks, scanlist) ->
  (opt_force_empty state' = false -> affected_disks disks scanlist <> [] ->
   state_scan flt fs state disklist
   = Err (EXIT_FAILURE
            (EmptyDisks (map (fun ds => (disk_name ds.1, disk_dir ds.1))
                           (affected_disks disks scanlist))))) /\
  (opt_force_empty state' = true \/ affected_disks disks scanlist = [] ->
   state_scan flt fs state disklist = Ok (state', disks, scanlist)).
Proof.
  intros Hdisks. unfold state_scan. rewrite Hdisks. cbn [bind].
  unfold check_empty_disks. rewrite missing_disks_affected. split.
  - intros -> Hne. cbn [negb].
    rewrite bool_decide_eq_false_2; [reflexivity|].
    intros Hnil. apply fmap_nil_inv in Hnil. done.
  - intros [-> | ->]; [reflexivity|].
    destruct (negb (opt_force_empty state')); reflexivity.
Qed.

Lemma ex_disk_scanned :
  state_scan_disks ex_filter ex_fs (ex_state false) [ex_disk]
  = Ok (ex_scanned.1.2, [ex_scanned.2], [ex_scanned.1.1]).
Proof. vm_compute. reflexivity. Qed.

Lemma state_scan_empty_disk_check_witness :
  state_scan_disks ex_filter ex_fs (ex_state false) [ex_disk]
  = Ok (ex_scanned.1.2, [ex_scanned.2], [ex_scanned.1.1]) /\
  opt_force_empty ex_scanned.1.2 = false /\
  affected_disks [ex_scanned.2] [ex_scanned.1.1] <> [] /\
  state_scan ex_filter ex_fs (ex_state false) [ex_disk]
  = Err (EXIT_FAILURE
           (EmptyDisks (map (fun ds => (disk_name ds.1, disk_dir ds.1))
                          (affected_disks [ex_scanned.2] [ex_scanned.1.1])))).
Proof.
  split; [exact ex_disk_scanned|]. split; [reflexivity|].
  assert (affected_disks [ex_scanned.2] [ex_scanned.1.1] <> []) as Hne
    by (vm_compute; discriminate).
  split; [exact Hne|].
  apply (state_scan_empty_disk_check ex_filter ex_fs (ex_state false) _ [ex_disk] _ _
           ex_disk_scanned); [reflexivity|exact Hne].
Defined.

(** ** scan_link and scan_file *)

Lemma file_store_lookup (disk : snapraid_disk) (file : nat) (f : snapraid_file)
    (upd : snapraid_file -> snapraid_file) :
  files disk !! file = Some (Some f) ->
  file_store disk file upd
  = Ok (set_files (<[file := Some (upd f)]> (files disk)) disk).
Proof.
  intros Hf. unfold file_store. rewrite (heap_get_lookup _ _ _ Hf). cbn [bind].
  by rewrite (heap_set_lookup _ _ _ _ Hf).
Qed.

Lemma link_store_lookup (disk : snapraid_disk) (link : nat) (l : snapraid_link)
    (upd : snapraid_link -> snapraid_link) :
  links disk !! link = Some (Some l) ->
  link_store disk link upd
  = Ok (set_links (<[link := Some (upd l)]> (links disk)) disk).
Proof.
  intros Hl. unfold link_store. rewrite (heap_get_lookup _ _ _ Hl). cbn [bind].
  by rewrite (heap_set_lookup _ _ _ _ Hl).
Qed.

Lemma link_store_Ok (disk disk' : snapraid_disk) (link : nat)
    (upd : snapraid_link -> snapraid_link) :
  link_store disk link upd = Ok disk' ->
  exists l, links disk !! link = Some (Some l) /\
    disk' = set_links (<[link := Some (upd l)]> (links disk)) disk.
Proof.
  unfold link_store. intros H. apply bind_Ok in H as (l & Hl & H).
  apply heap_get_Ok in Hl. rewrite (heap_set_lookup _ _ _ _ Hl) in H.
  cbn [bind] in H. injection H as <-. eauto.
Qed.

(** What scan_link leaves as it is: it counts the entry in exactly one of
    [count_equal], [count_change] and [count_insert], and touches neither the
    other counters nor the files of the disk. *)
Lemma scan_link_frame (scan scan' : snapraid_scan) (state state' : snapraid_state)
    (disk disk' : snapraid_disk) (sub linkto : string) (link_flag : link_kind) :
  scan_link scan state disk sub linkto link_flag = Ok (scan', state', disk') ->
  (exists h, disk' = set_links h disk) /\
  count_move scan' = count_move scan /\
  count_restore scan' = count_restore scan /\
  count_remove scan' = count_remove scan /\
  file_insert_list scan' = file_insert_list scan /\
  dir_insert_list scan' = dir_insert_list scan /\
  ((count_equal scan' = incr (count_equal scan) /\
    count_change scan' = count_change scan /\ count_insert scan' = count_insert scan /\
    link_insert_list scan' = link_insert_list scan /\ state' = state) \/
   (count_equal scan' = count_equal scan /\
    count_change scan' = incr (count_change scan) /\
    count_insert scan' = count_insert scan /\
    link_insert_list scan' = link_insert_list scan /\
    state' = set_need_write true state) \/
   (count_equal scan' = count_equal scan /\
    count_change scan' = count_change scan /\
    count_insert scan' = incr (count_insert scan) /\
    link_insert_list scan' = link_insert_list scan ++ [length (links disk)] /\
    state' = state)).
Proof.
  unfold scan_link. intros H.
  apply bind_Ok in H as (found & Hfound & H). destruct found as [link|].
  - apply bind_Ok in H as (l & Hl & H).
    destruct (link_is_present l); [discriminate|].
    apply bind_Ok in H as (disk1 & Hdisk1 & H).
    apply link_store_Ok in Hdisk1 as (l1 & Hl1 & ->).
    destruct (bool_decide (link_linkto l = linkto) && bool_decide (link_flag = link_kind_of l)).
    + injection H as <- <- <-. split; [eauto|]. repeat (split; [done|]). left. done.
    + apply bind_Ok in H as (disk2 & Hdisk2 & H).
      apply link_store_Ok in Hdisk2 as (l2 & Hl2 & ->).
      apply bind_Ok in H as (disk3 & Hdisk3 & H).
      apply link_store_Ok in Hdisk3 as (l3 & Hl3 & ->).
      injection H as <- <- <-. split; [eauto|]. repeat (split; [done|]). right. left. done.
  - unfold heap_alloc in H. apply bind_Ok in H as (disk1 & Hdisk1 & H).
    apply link_store_Ok in Hdisk1 as (l1 & Hl1 & ->).
    injection H as <- <- <-. split; [eauto|]. repeat (split; [done|]). right. right. done.
Qed.

(** C3 fails as it is stated: the counters of the scan are shared by files,
    links and dirs.  On [ex_disk_present], where "f" is marked present, the
    entry "g" with the inode, the size and the times of "f" and a link count
    of two is found by inode, and scan_file returns with [count_insert]
    incremented. *)
Lemma scan_file_hardlink_counters_counterexample :
  exists file f scan' state' disk',
    tommy_hashdyn_search (files ex_disk_present)
      (fun f => file_inode f =? st_ino ex_stat_link) (inodeset ex_disk_present)
    = Ok (Some file) /\
    files ex_disk_present !! file = Some (Some f) /\
    file_not_changed f ex_stat_link = true /\
    file_is_present f = true /\
    st_nlink ex_stat_link > 1 /\
    scan_file scan_init (ex_state false) ex_disk_present "g" ex_stat_link 0
    = Ok (scan', state', disk') /\
    count_insert scan' = 1 /\
    count_insert scan' <> count_insert scan_init.
Proof.
  eexists 0%nat, _, _, _, _.
  split; [vm_compute; reflexivity|]. split; [reflexivity|].
  split; [reflexivity|]. split; [reflexivity|]. split; [reflexivity|].
  split; [vm_compute; reflexivity|]. split; [reflexivity|]. discriminate.
Qed.

(** C3, amended: when the search by inode finds a file whose size and times
    match the stat data and which is already marked present, then with
    [st_nlink > 1] scan_file is exactly scan_link on the path of the entry,
    with the path of the file found as target and the kind [HARDLINK]: it
    returns what scan_link returns, which counts the entry in exactly one of
    the counters [count_equal], [count_change] and [count_insert] that files
    and links share, and leaves [count_move], [count_restore],
    [count_remove], the insert list of the files and the files of the disk
    untouched; with [st_nlink <= 1] scan_file fails with the fatal error of
    an inode already present. *)
Theorem scan_file_hardlink (scan : snapraid_scan) (state : snapraid_state)
    (disk : snapraid_disk) (sub : string) (st : stat) (physical : Z)
    (file : nat) (f : snapraid_file) :
  tommy_hashdyn_search (files disk) (fun f => file_inode f =? st_ino st) (inodeset disk)
  = Ok (Some file) ->
  files disk !! file = Some (Some f) ->
  file_not_changed f st = true ->
  file_is_present f = true ->
  (st_nlink st > 1 ->
   scan_file scan state disk sub st physical
   = scan_link scan state disk sub (file_sub f) FILE_IS_HARDLINK /\
   forall scan' state' disk',
     scan_file scan state disk sub st physical = Ok (scan', state', disk') ->
     count_move scan' = count_move scan /\
     count_restore scan' = count_restore scan /\
     count_remove scan' = count_remove scan /\
     file_insert_list scan' = file_insert_list scan /\
     files disk' = files disk /\ filelist disk' = filelist disk /\
     inodeset disk' = inodeset disk /\ pathset disk' = pathset disk /\
     ((count_equal scan' = incr (count_equal scan) /\
       count_change scan' = count_change scan /\
       count_insert scan' = count_insert scan) \/
      (count_equal scan' = count_equal scan /\
       count_change scan' = incr (count_change scan) /\
       count_insert scan' = count_insert scan) \/
      (count_equal scan' = count_equal scan /\
       count_change scan' = count_change scan /\
       count_insert scan' = incr (count_insert scan)))) /\
  (st_nlink st <= 1 ->
   scan_file scan state disk sub st physical
   = Err (EXIT_FAILURE (InodeAlreadyPresent (st_ino st) sub))).
Proof.
  intros Hsearch Hfile Hmatch Hpresent.
  assert (scan_file_inode scan state disk sub st =
          if st_nlink st >? 1
          then do r <- scan_link scan state disk sub (file_sub f) FILE_IS_HARDLINK;
               Ok (Return r)
          else exit (InodeAlreadyPresent (st_ino st) sub)) as Hinode.
  { unfold scan_file_inode. rewrite Hsearch. cbn [bind].
    rewrite (heap_get_lookup _ _ _ Hfile). cbn [bind].
    by rewrite Hmatch, Hpresent. }
  unfold scan_file. rewrite Hinode. split.
  - intros Hnlink. rewrite (proj2 (Z.gtb_lt _ _)) by lia.
    destruct (scan_link scan state disk sub (file_sub f) FILE_IS_HARDLINK)
      as [[[scan1 state1] disk1]|e] eqn:Hrun; cbn [bind]; [|split; [done|discriminate]].
    split; [reflexivity|]. intros scan' state' disk' [= <- <- <-].
    destruct (scan_link_frame _ _ _ _ _ _ _ _ _ Hrun)
      as ((h & ->) & Hmove & Hrestore & Hremove & Hfiles & _ & Hcount).
    repeat (split; [done|]).
    destruct Hcount as [(? & ? & ? & _)|[(? & ? & ? & _)|(? & ? & ? & _)]]; auto.
  - intros Hnlink.
    assert ((st_nlink st >? 1) = false) as ->; [|reflexivity].
    destruct (st_nlink st >? 1) eqn:Hgt; [|done]. apply Z.gtb_lt in Hgt. lia.
Qed.

Lemma scan_file_hardlink_witness :
  tommy_hashdyn_search (files ex_disk_present)
    (fun f => file_inode f =? st_ino ex_stat_link) (inodeset ex_disk_present)
  = Ok (Some 0%nat) /\
  files ex_disk_present !! 0%nat = Some (Some (set_file_is_present true ex_file)) /\
  file_not_changed (set_file_is_present true ex_file) ex_stat_link = true /\
  file_is_present (set_file_is_present true ex_file) = true /\
  st_nlink ex_stat_link > 1 /\
  scan_file scan_init (ex_state false) ex_disk_present "g" ex_stat_link 0
  = scan_link scan_init (ex_state false) ex_disk_present "g" "f" FILE_IS_HARDLINK.
Proof.
  split; [vm_compute; reflexivity|]. split; [reflexivity|].
  split; [reflexivity|]. split; [reflexivity|]. split; [reflexivity|].
  apply (scan_file_hardlink scan_init (ex_state false) ex_disk_present "g"
           ex_stat_link 0 0%nat (set_file_is_present true ex_file));
    [vm_compute; reflexivity|reflexivity|reflexivity|reflexivity|reflexivity].
Defined.

Lemma file_store_Ok (disk disk' : snapraid_disk) (file : nat)
    (upd : snapraid_file -> snapraid_file) :
  file_store disk file upd = Ok disk' ->
  exists f, files disk !! file = Some (Some f) /\
    disk' = set_files (<[file := Some (upd f)]> (files disk)) disk.
Proof.
  unfold file_store. intros H. apply bind_Ok in H as (f & Hf & H).
  apply heap_get_Ok in Hf. rewrite (heap_set_lookup _ _ _ _ Hf) in H.
  cbn [bind] in H. injection H as <-. eauto.
Qed.

Lemma tommy_remove_existing_Ok_inv (l l' : list nat) (p : nat) :
  tommy_remove_existing l p = Ok l' -> remove_first p l = Some l'.
Proof.
  unfold tommy_remove_existing. destruct (remove_first p l); [congruence|discriminate].
Qed.

Lemma tommy_remove_existing_Some (l l' : list nat) (p : nat) :
  remove_first p l = Some l' -> tommy_remove_existing l p = Ok l'.
Proof. unfold tommy_remove_existing. by intros ->. Qed.

(** The two ways the search by inode of scan_file goes on to the search by
    name: no file has the inode, or the file that has it does not match the
    stat data, is not marked present, and loses its inode. *)
Lemma scan_file_inode_Continue (scan scan1 : snapraid_scan)
    (state state1 : snapraid_state) (disk disk1 : snapraid_disk) (sub : string)
    (st : stat) :
  scan_file_inode scan state disk sub st = Ok (Continue (scan1, state1, disk1)) ->
  scan1 = scan /\ state1 = state /\
  ((tommy_hashdyn_search (files disk) (fun f => file_inode f =? st_ino st)
      (inodeset disk) = Ok None /\ disk1 = disk) \/
   (exists file f ins,
      tommy_hashdyn_search (files disk) (fun f => file_inode f =? st_ino st)
        (inodeset disk) = Ok (Some file) /\
      files disk !! file = Some (Some f) /\
      file_not_changed f st = false /\
      file_is_present f = false /\
      remove_first file (inodeset disk) = Some ins /\
      disk1 = set_files
                (<[file := Some (set_file_is_without_inode true (set_file_inode 0 f))]>
                   (files disk))
                (set_inodeset ins disk))).
Proof.
  unfold scan_file_inode. intros H.
  apply bind_Ok in H as (found & Hfound & H). destruct found as [file|].
  - apply bind_Ok in H as (f & Hf & H). apply heap_get_Ok in Hf.
    destruct (file_not_changed f st) eqn:Hmatch.
    + destruct (file_is_present f).
      * destruct (st_nlink st >? 1); [|discriminate].
        apply bind_Ok in H as (r & _ & H). discriminate.
      * apply bind_Ok in H as (d1 & _ & H).
        apply bind_Ok in H as ([s2 d2] & _ & H).
        destruct (negb (bool_decide (file_sub f = sub))); [|discriminate].
        apply bind_Ok in H as (ps & _ & H).
        apply bind_Ok in H as (d3 & _ & H). discriminate.
    + destruct (file_is_present f) eqn:Hpresent; [discriminate|].
      apply bind_Ok in H as (ins & Hins & H).
      apply tommy_remove_existing_Ok_inv in Hins.
      apply bind_Ok in H as (d1 & Hd1 & H).
      apply file_store_Ok in Hd1 as (f1 & Hf1 & ->).
      apply bind_Ok in H as (d2 & Hd2 & H).
      apply file_store_Ok in Hd2 as (f2 & Hf2 & ->).
      injection H as <- <- <-. split; [done|]. split; [done|]. right.
      exists file, f, ins. repeat (split; [done|]).
      simpl in Hf1, Hf2. assert (f1 = f) as -> by congruence.
      rewrite list_lookup_insert_eq in Hf2 by (by eapply lookup_lt_Some).
      injection Hf2 as <-. simpl. by rewrite list_insert_insert_eq.
  - injection H as <- <- <-. auto.
Qed.

(** The inode of the file found by name, when the check returns. *)
Lemma scan_file_path_inode_Ok (disk disk' : snapraid_disk) (file : nat) (sub : string)
    (st : stat) (f : snapraid_file) :
  files disk !! file = Some (Some f) ->
  scan_file_path_inode disk file sub st = Ok disk' ->
  (file_is_without_inode f = true /\
   disk' = set_files
             (<[file := Some (set_file_is_without_inode false
                               (set_file_inode (st_ino st) f))]> (files disk))
             (set_inodeset (inodeset disk ++ [file]) disk)) \/
  (file_is_without_inode f = false /\ file_inode f <> st_ino st /\ disk' = disk).
Proof.
  intros Hf. unfold scan_file_path_inode.
  rewrite (heap_get_lookup _ _ _ Hf). cbn [bind].
  destruct (file_is_without_inode f) eqn:Hwi.
  - rewrite (file_store_lookup _ _ _ _ Hf). cbn [bind].
    erewrite file_store_lookup; [|simpl; by eapply heap_insert_lookup_eq].
    intros [= <-]. left. split; [done|]. simpl. by rewrite list_insert_insert_eq.
  - destruct (file_inode f =? st_ino st) eqn:Hino; [discriminate|].
    intros [= <-]. right. apply Z.eqb_neq in Hino. done.
Qed.

Lemma update_mtime_nsec_lookup (state : snapraid_state) (disk : snapraid_disk)
    (file : nat) (st : stat) (f : snapraid_file) :
  files disk !! file = Some (Some f) ->
  exists state' f',
    update_mtime_nsec state disk file st
    = Ok (state', set_files (<[file := Some f']> (files disk)) disk) /\
    (if (file_mtime_nsec f =? STAT_NSEC_INVALID)
        && negb (STAT_NSEC st =? STAT_NSEC_INVALID)
     then f' = set_file_mtime_nsec (STAT_NSEC st) f /\ state' = set_need_write true state
     else f' = f /\ state' = state).
Proof.
  intros Hf. unfold update_mtime_nsec. rewrite (heap_get_lookup _ _ _ Hf). cbn [bind].
  destruct ((file_mtime_nsec f =? STAT_NSEC_INVALID)
            && negb (STAT_NSEC st =? STAT_NSEC_INVALID)).
  - rewrite (file_store_lookup _ _ _ _ Hf). cbn [bind]. eauto.
  - exists state, f. split; [|done].
    rewrite list_insert_id by done. by destruct disk.
Qed.

(** scan_file_new always returns: the new file, marked present, gets the next
    handle, enters both indices and the insert list. *)
Lemma scan_file_new_spec (scan : snapraid_scan) (state : snapraid_state)
    (disk : snapraid_disk) (sub : string) (st : stat) (physical : Z) :
  scan_file_new scan state disk sub st physical
  = Ok (set_file_insert_list (file_insert_list scan ++ [length (files disk)]) scan,
        state,
        set_pathset (pathset disk ++ [length (files disk)])
          (set_inodeset (inodeset disk ++ [length (files disk)])
             (set_files
                (files disk ++
                   [Some (set_file_is_present true
                            (file_alloc (block_size state) sub (st_size st)
                               (st_mtime st) (STAT_NSEC st) (st_ino st) physical))])
                disk))).
Proof.
  unfold scan_file_new, heap_alloc.
  erewrite file_store_lookup;
    [|simpl; rewrite lookup_app_r by lia; by rewrite Nat.sub_diag].
  cbn. do 3 f_equal.
  rewrite insert_app_r_alt by lia. by rewrite Nat.sub_diag.
Qed.



(** The file found by name, with the size and the times of the stat data,
    after the check of its inode. *)
Lemma scan_file_path_match (scan scan1 : snapraid_scan)
    (state state1 : snapraid_state) (disk disk1 diskp : snapraid_disk) (sub : string)
    (st : stat) (physical : Z) (file : nat) (f : snapraid_file) :
  scan_file_inode scan state disk sub st = Ok (Continue (scan1, state1, disk1)) ->
  tommy_hashdyn_search (files disk1) (fun f => bool_decide (file_sub f = sub))
    (pathset disk1) = Ok (Some file) ->
  files disk1 !! file = Some (Some f) ->
  (file_is_without_inode f = false -> file ∈ inodeset disk1) ->
  scan_file_path_inode disk1 file sub st = Ok diskp ->
  file_is_present f = false ->
  file_not_changed f st = true ->
  (file_is_without_inode f = false -> file_inode f <> st_ino st) /\
  exists state' disk' f',
    scan_file scan state disk sub st physical
    = Ok (if has_not_persistent_inodes disk
          then set_count_equal (incr (count_equal scan)) scan
          else set_count_restore (incr (count_restore scan)) scan,
          state', disk') /\
    files disk' !! file = Some (Some f') /\
    file_is_present f' = true /\
    (has_not_persistent_inodes disk = false ->
     file_inode f' = st_ino st /\ file ∈ inodeset disk' /\ need_write state' = true).
Proof.
  intros Hinode Hsearch Hfile Hindexed Hfix Hpresent Hmatch.
  destruct (scan_file_inode_Continue _ _ _ _ _ _ _ _ Hinode) as (-> & -> & Hdisk1).
  assert (has_not_persistent_inodes disk1 = has_not_persistent_inodes disk) as Hpers1.
  { destruct Hdisk1 as [[_ ->]|(? & ? & ? & _ & _ & _ & _ & _ & ->)]; done. }
  assert (exists fp, files diskp !! file = Some (Some fp) /\
            file_is_present fp = false /\ file ∈ inodeset diskp /\
            has_not_persistent_inodes diskp = has_not_persistent_inodes disk /\
            (file_is_without_inode f = false -> file_inode f <> st_ino st))
    as (fp & Hfp & Hpresentp & Hinp & Hpersp & Hdiffers).
  { destruct (scan_file_path_inode_Ok _ _ _ _ _ _ Hfile Hfix)
      as [[Hwi ->]|(Hwi & Hne & ->)].
    - eexists. split; [simpl; by eapply heap_insert_lookup_eq|]. simpl.
      split; [done|]. split; [apply elem_of_app; right; by apply list_elem_of_singleton|].
      split; [done|]. congruence.
    - exists f. auto. }
  split; [done|].
  unfold scan_file. rewrite Hinode. cbn [bind]. unfold scan_file_path.
  rewrite Hsearch. cbn [bind]. rewrite (heap_get_lookup _ _ _ Hfile). cbn [bind].
  rewrite Hfix. cbn [bind]. rewrite Hpresent, Hmatch.
  rewrite (file_store_lookup _ _ _ _ Hfp). cbn [bind].
  edestruct (update_mtime_nsec_lookup state
               (set_files (<[file := Some (set_file_is_present true fp)]> (files diskp))
                  diskp) file st) as (state2 & f2 & Hupdate & Hf2).
  { simpl. by eapply heap_insert_lookup_eq. }
  rewrite Hupdate. cbn [bind]. cbn [has_not_persistent_inodes set_files].
  rewrite Hpersp.
  assert (file_is_present f2 = true) as Hpresent2.
  { destruct ((file_mtime_nsec (set_file_is_present true fp) =? STAT_NSEC_INVALID)
              && negb (STAT_NSEC st =? STAT_NSEC_INVALID)); by destruct Hf2 as [-> _]. }
  destruct (has_not_persistent_inodes disk) eqn:Hpers; cbn [negb].
  - cbn [bind]. eexists _, _, f2. split; [reflexivity|].
    split; [simpl; eapply heap_insert_lookup_eq; by eapply heap_insert_lookup_eq|].
    split; [done|]. discriminate.
  - destruct (tommy_remove_existing_Ok (inodeset diskp) file Hinp) as (ins & Hins & _).
    cbn [inodeset set_files]. rewrite Hins. cbn [bind].
    erewrite file_store_lookup;
      [|simpl; eapply heap_insert_lookup_eq; by eapply heap_insert_lookup_eq].
    cbn [bind]. eexists _, _, _. split; [reflexivity|].
    split; [simpl; do 2 eapply heap_insert_lookup_eq; by eapply heap_insert_lookup_eq|].
    split; [done|]. intros _. split; [done|]. simpl.
    split; [apply elem_of_app; right; by apply list_elem_of_singleton|done].
Qed.


Lemma scan_file_path_inode_total (disk : snapraid_disk) (file : nat) (sub : string)
    (st : stat) (f : snapraid_file) :
  files disk !! file = Some (Some f) ->
  file_is_without_inode f = true \/ file_inode f <> st_ino st ->
  exists diskp, scan_file_path_inode disk file sub st = Ok diskp.
Proof.
  intros Hf Hcase. unfold scan_file_path_inode.
  rewrite (heap_get_lookup _ _ _ Hf). cbn [bind].
  destruct (file_is_without_inode f) eqn:Hwi.
  - rewrite (file_store_lookup _ _ _ _ Hf). cbn [bind].
    erewrite file_store_lookup; [eauto|].
    simpl. apply list_lookup_insert_eq. by eapply lookup_lt_Some.
  - destruct Hcase as [?|Hne]; [done|].
    rewrite (proj2 (Z.eqb_neq _ _) Hne). eauto.
Qed.

(** C6 fails as it is stated.  On a disk with persistent inodes, the file
    "f" found by name with the size and the times of the entry, whose stored
    inode is the inode of the entry: when the file is flagged WITHOUT_INODE
    (the search by inode of an earlier entry cleared its inode to 0, and the
    entry has the inode 0) the entry is counted as a restore, not as equal;
    when the file has its inode and is missing from the inode index, the
    scan fails with the fatal error of an unexpected match, and nothing is
    counted. *)
Lemma scan_file_restore_or_equal_counterexample :
  (has_not_persistent_inodes ex_disk_detached = false /\
   scan_file_inode scan_init (ex_state false) ex_disk_detached "f" ex_stat_zero
   = Ok (Continue (scan_init, ex_state false, ex_disk_detached)) /\
   tommy_hashdyn_search (files ex_disk_detached)
     (fun f => bool_decide (file_sub f = "f")) (pathset ex_disk_detached)
   = Ok (Some 0%nat) /\
   files ex_disk_detached !! 0%nat = Some (Some ex_file_detached) /\
   file_not_changed ex_file_detached ex_stat_zero = true /\
   file_inode ex_file_detached = st_ino ex_stat_zero /\
   exists scan' state' disk',
     scan_file scan_init (ex_state false) ex_disk_detached "f" ex_stat_zero 0
     = Ok (scan', state', disk') /\
     count_restore scan' = 1 /\ count_equal scan' = 0) /\
  (has_not_persistent_inodes ex_disk_unindexed = false /\
   scan_file_inode scan_init (ex_state false) ex_disk_unindexed "f" ex_stat_same
   = Ok (Continue (scan_init, ex_state false, ex_disk_unindexed)) /\
   tommy_hashdyn_search (files ex_disk_unindexed)
     (fun f => bool_decide (file_sub f = "f")) (pathset ex_disk_unindexed)
   = Ok (Some 0%nat) /\
   files ex_disk_unindexed !! 0%nat = Some (Some ex_file) /\
   file_not_changed ex_file ex_stat_same = true /\
   file_inode ex_file = st_ino ex_stat_same /\
   scan_file scan_init (ex_state false) ex_disk_unindexed "f" ex_stat_same 0
   = Err (EXIT_FAILURE (InodeUnexpectedMatching 10 "f"))).
Proof.
  split.
  - do 6 (split; [vm_compute; reflexivity|]).
    eexists _, _, _. split; [vm_compute; reflexivity|]. by split.
  - do 6 (split; [vm_compute; reflexivity|]). vm_compute. reflexivity.
Qed.

(** C6, amended: when the file is found by name with the size and the times
    of the stat data (it was not found by inode and is not marked present):
    if the file has an inode (it is not flagged WITHOUT_INODE) and this
    inode is [st_ino], scan_file fails with the fatal error of an unexpected
    match, whether the disk has persistent inodes or not; otherwise (the
    file is flagged WITHOUT_INODE, or it has another inode and is in the
    inode index) scan_file returns, and counts the entry as a restore
    exactly when the disk has persistent inodes, whether the file had
    another inode or none, and then the file has the inode [st_ino], is in
    the inode index, and [need_write] is raised; it counts the entry as
    equal exactly when the disk has no persistent inodes.  The counter is
    one more, as an unsigned of 32 bits, and no other counter changes. *)
Theorem scan_file_restore_or_equal (scan scan1 : snapraid_scan)
    (state state1 : snapraid_state) (disk disk1 : snapraid_disk) (sub : string)
    (st : stat) (physical : Z) (file : nat) (f : snapraid_file) :
  scan_file_inode scan state disk sub st = Ok (Continue (scan1, state1, disk1)) ->
  tommy_hashdyn_search (files disk1) (fun f => bool_decide (file_sub f = sub))
    (pathset disk1) = Ok (Some file) ->
  files disk1 !! file = Some (Some f) ->
  file_is_present f = false ->
  file_not_changed f st = true ->
  (file_is_without_inode f = false -> file_inode f = st_ino st ->
   scan_file scan state disk sub st physical
   = Err (EXIT_FAILURE (InodeUnexpectedMatching (file_inode f) sub))) /\
  (file_is_without_inode f = true \/
   (file_inode f <> st_ino st /\ file ∈ inodeset disk1) ->
   exists scan' state' disk' f',
     scan_file scan state disk sub st physical = Ok (scan', state', disk') /\
     (if has_not_persistent_inodes disk
      then count_equal scan' = (count_equal scan + 1) mod 2 ^ 32 /\
           count_restore scan' = count_restore scan
      else count_restore scan' = (count_restore scan + 1) mod 2 ^ 32 /\
           count_equal scan' = count_equal scan) /\
     count_move scan' = count_move scan /\
     count_change scan' = count_change scan /\
     count_remove scan' = count_remove scan /\
     count_insert scan' = count_insert scan /\
     files disk' !! file = Some (Some f') /\
     file_is_present f' = true /\
     (has_not_persistent_inodes disk = false ->
      file_inode f' = st_ino st /\ file ∈ inodeset disk' /\ need_write state' = true)).
Proof.
  intros Hinode Hsearch Hfile Hpresent Hmatch. split.
  - intros Hwi Heq. unfold scan_file. rewrite Hinode. cbn [bind].
    destruct (scan_file_inode_Continue _ _ _ _ _ _ _ _ Hinode) as (-> & -> & _).
    unfold scan_file_path. rewrite Hsearch. cbn [bind].
    rewrite (heap_get_lookup _ _ _ Hfile). cbn [bind].
    unfold scan_file_path_inode. rewrite (heap_get_lookup _ _ _ Hfile). cbn [bind].
    rewrite Hwi, (proj2 (Z.eqb_eq _ _) Heq). reflexivity.
  - intros Hcase.
    assert (file_is_without_inode f = false -> file ∈ inodeset disk1) as Hindexed.
    { intros Hwi. destruct Hcase as [Hwo|[_ Hin]]; [congruence|exact Hin]. }
    assert (file_is_without_inode f = true \/ file_inode f <> st_ino st) as Hcase'.
    { destruct Hcase as [Hwo|[Hne _]]; [by left|by right]. }
    destruct (scan_file_path_inode_total disk1 file sub st f Hfile Hcase')
      as (diskp & Hfix).
    destruct (scan_file_path_match scan scan1 state state1 disk disk1 diskp sub st
                physical file f Hinode Hsearch Hfile Hindexed Hfix Hpresent Hmatch)
      as (_ & state' & disk' & f' & Hrun & Hf' & Hp' & Hrestore).
    eexists _, state', disk', f'. split; [exact Hrun|].
    split; [by destruct (has_not_persistent_inodes disk)|].
    by destruct (has_not_persistent_inodes disk).
Qed.

Lemma scan_file_restore_or_equal_witness :
  scan_file_inode scan_init (ex_state false) ex_disk "f" ex_stat_restored
  = Ok (Continue (scan_init, ex_state false, ex_disk)) /\
  tommy_hashdyn_search (files ex_disk) (fun f => bool_decide (file_sub f = "f"))
    (pathset ex_disk) = Ok (Some 0%nat) /\
  files ex_disk !! 0%nat = Some (Some ex_file) /\
  file_is_present ex_file = false /\
  file_not_changed ex_file ex_stat_restored = true /\
  file_inode ex_file = 10 /\ st_ino ex_stat_restored = 17 /\
  has_not_persistent_inodes ex_disk = false /\
  exists scan' state' disk' f',
    scan_file scan_init (ex_state false) ex_disk "f" ex_stat_restored 0
    = Ok (scan', state', disk') /\
    (count_restore scan' = 1 /\ count_equal scan' = 0) /\
    count_move scan' = 0 /\ count_change scan' = 0 /\
    count_remove scan' = 0 /\ count_insert scan' = 0 /\
    files disk' !! 0%nat = Some (Some f') /\
    file_is_present f' = true /\
    (has_not_persistent_inodes ex_disk = false ->
     file_inode f' = 17 /\ 0%nat ∈ inodeset disk' /\ need_write state' = true).
Proof.
  assert (scan_file_inode scan_init (ex_state false) ex_disk "f" ex_stat_restored
          = Ok (Continue (scan_init, ex_state false, ex_disk))) as H1
    by (vm_compute; reflexivity).
  assert (tommy_hashdyn_search (files ex_disk) (fun f => bool_decide (file_sub f = "f"))
            (pathset ex_disk) = Ok (Some 0%nat)) as H2 by (vm_compute; reflexivity).
  assert (0%nat ∈ inodeset ex_disk) as H3
    by (apply list_elem_of_singleton; reflexivity).
  split; [exact H1|]. split; [exact H2|]. do 6 (split; [reflexivity|]).
  destruct (scan_file_restore_or_equal scan_init scan_init (ex_state false)
              (ex_state false) ex_disk ex_disk "f" ex_stat_restored 0 0%nat
              ex_file H1 H2 eq_refl eq_refl eq_refl) as [_ Hrestore].
  apply Hrestore. right. split; [discriminate|exact H3].
Defined.


(** ** Searches, marks and steps *)

Section Search.
Context {A : Type}.
Implicit Types (h : heap A) (cmp : A -> bool) (set : list nat).

Lemma tommy_hashdyn_search_Some h cmp set p :
  tommy_hashdyn_search h cmp set = Ok (Some p) ->
  p ∈ set /\ exists a, h !! p = Some (Some a) /\ cmp a = true.
Proof.
  induction set as [|q set IH]; simpl; [discriminate|].
  intros H. apply bind_Ok in H as (a & Ha & H). apply heap_get_Ok in Ha.
  destruct (cmp a) eqn:Hcmp.
  - injection H as <-. split; [left|eauto].
  - destruct (IH H) as [Hin Hp]. split; [by right|done].
Qed.

Lemma tommy_hashdyn_search_None h cmp set :
  tommy_hashdyn_search h cmp set = Ok None ->
  forall q, q ∈ set -> exists a, h !! q = Some (Some a) /\ cmp a = false.
Proof.
  induction set as [|q' set IH]; simpl; intros H q Hq.
  - by apply elem_of_nil in Hq.
  - apply bind_Ok in H as (a & Ha & H). apply heap_get_Ok in Ha.
    destruct (cmp a) eqn:Hcmp; [discriminate|].
    apply elem_of_cons in Hq as [->|Hq]; eauto.
Qed.

(** The search returns when every node of the index is live. *)
Lemma tommy_hashdyn_search_live h cmp set :
  (forall q, q ∈ set -> exists a, h !! q = Some (Some a)) ->
  exists r, tommy_hashdyn_search h cmp set = Ok r.
Proof.
  induction set as [|q set IH]; simpl; intros Hlive; [eauto|].
  destruct (Hlive q) as (a & Ha); [left|].
  rewrite (heap_get_lookup _ _ _ Ha). cbn [bind].
  destruct (cmp a); [eauto|]. apply IH. intros q' Hq'. apply Hlive. by right.
Qed.

End Search.



(** Removing a node from a list without duplicates. *)
Lemma remove_first_NoDup (p : nat) (l l' : list nat) :
  remove_first p l = Some l' -> NoDup l ->
  NoDup l' /\ (forall q, q ∈ l' <-> q ∈ l /\ q <> p).
Proof.
  intros Hrem Hnd. apply remove_first_Some in Hrem.
  rewrite Hrem in Hnd. apply NoDup_cons in Hnd as [Hp Hnd]. split; [done|].
  intros q. rewrite Hrem, elem_of_cons. split.
  - intros Hq. split; [by right|]. by intros ->.
  - by intros [[->|Hq] Hne].
Qed.

Section ObjectLemmas.
Context {A : Type} (present : A -> bool).
Implicit Types (get : nat -> option A) (dom new marks : list nat).

Lemma obj_step_refl get dom : obj_step present get get dom dom [].
Proof.
  split; [done|done|auto|]. intros k Hk. by apply elem_of_nil in Hk.
Qed.

Lemma obj_step_trans get get1 get2 dom dom1 dom2 new1 new2 :
  obj_step present get get1 dom dom1 new1 ->
  obj_step present get1 get2 dom1 dom2 new2 ->
  obj_step present get get2 dom dom2 (new1 ++ new2).
Proof.
  intros [Hf1 Hd1 Hp1 Hn1] [Hf2 Hd2 Hp2 Hn2]. split.
  - eauto.
  - intros k Hk Hpk. apply Hd2; [by apply Hd1|].
    destruct Hpk as (a & Ha & Hpa). exists a. eauto.
  - intros k Hk Hpk. rewrite elem_of_app.
    destruct (Hp2 k Hk Hpk) as [Hnew|[Hk1 Hpk1]]; [auto|].
    destruct (Hp1 k Hk1 Hpk1) as [Hnew|[Hk0 Hpk0]]; auto.
  - intros k Hk Hpk. apply elem_of_app in Hk as [Hk|Hk].
    + by apply (Hn1 k).
    + apply (Hn2 k Hk). destruct Hpk as (a & Ha & Hpa). exists a. eauto.
Qed.

(** A step that may move the objects of [dom] around, and changes none. *)
Lemma obj_step_same get get' dom dom' :
  (forall k, get' k = get k) -> (forall k, k ∈ dom' <-> k ∈ dom) ->
  obj_step present get get' dom dom' [].
Proof.
  intros Hget Hdom. split.
  - intros k a. by rewrite Hget.
  - intros k Hk _. by apply Hdom.
  - intros k Hk Hpk. right. split; [by apply Hdom|].
    destruct Hpk as (a & Ha & Hpa). exists a. by rewrite <- Hget.
  - intros k Hk. by apply elem_of_nil in Hk.
Qed.

(** The marks after a step that marks the objects of [new]. *)
Lemma obj_marks_step get get' dom dom' new marks :
  obj_marks present get dom marks ->
  obj_step present get get' dom dom' new ->
  NoDup new ->
  (forall k, k ∈ new -> k ∈ dom' /\ is_present present get' k) ->
  obj_marks present get' dom' (marks ++ new).
Proof.
  intros [Hnd Hiff] [Hf Hd Hp Hn] Hndnew Hnew. split.
  - apply NoDup_app. split; [done|]. split; [|done].
    intros k Hk Hknew. apply Hiff in Hk as [_ Hk]. by apply (Hn k).
  - intros h. rewrite elem_of_app. split.
    + intros [Hh|Hh]; [|by apply Hnew].
      apply Hiff in Hh as [Hh Hph]. split; [by apply Hd|].
      destruct Hph as (a & Ha & Hpa). exists a. eauto.
    + intros [Hh Hph]. destruct (Hp h Hh Hph) as [Hhn|Hold]; [by right|].
      left. by apply Hiff.
Qed.

Lemma obj_marks_same get get' dom dom' marks :
  obj_marks present get dom marks ->
  obj_step present get get' dom dom' [] ->
  obj_marks present get' dom' marks.
Proof.
  intros Hm Hs. rewrite <- (app_nil_r marks).
  eapply obj_marks_step; [done..|apply NoDup_nil_2|].
  intros k Hk. by apply elem_of_nil in Hk.
Qed.

End ObjectLemmas.

(** The marks of a trace that grows. *)
Lemma mark_files_snoc (t : list mark) (mk : mark) :
  mark_files (t ++ [mk]) = mark_files t ++ from_option (fun h => [h]) [] (mark_file mk).
Proof. unfold mark_files. rewrite omap_app. simpl. by destruct (mark_file mk). Qed.

Lemma mark_links_snoc (t : list mark) (mk : mark) :
  mark_links (t ++ [mk]) = mark_links t ++ from_option (fun h => [h]) [] (mark_link mk).
Proof. unfold mark_links. rewrite omap_app. simpl. by destruct (mark_link mk). Qed.

Lemma mark_dirs_snoc (t : list mark) (mk : mark) :
  mark_dirs (t ++ [mk]) = mark_dirs t ++ from_option (fun h => [h]) [] (mark_dir mk).
Proof. unfold mark_dirs. rewrite omap_app. simpl. by destruct (mark_dir mk). Qed.

Lemma hard_after_nil : hard_after [].
Proof. intros t1 h l t2 H. by destruct t1. Qed.

Lemma hard_after_snoc (t : list mark) (mk : mark) :
  hard_after t ->
  (forall h l, mk = MHard h l -> h ∈ mark_files t) ->
  hard_after (t ++ [mk]).
Proof.
  intros Ht Hmk t1 h l t2 Heq.
  destruct t2 as [|x t2 _] using rev_ind.
  - apply app_inj_tail in Heq as [-> ->]. by eapply Hmk.
  - rewrite app_comm_cons, app_assoc in Heq.
    apply app_inj_tail in Heq as [-> _]. by eapply Ht.
Qed.

(** ** Reading the catalog *)

Lemma fget_Some (d : snapraid_disk) (h : nat) (m : snapraid_file) :
  fget d h = Some m <-> exists f, files d !! h = Some (Some f) /\ file_meta f = m.
Proof.
  unfold fget. destruct (files d !! h) as [[f|]|]; split;
    try discriminate; try (intros (f' & [=] & _); fail).
  - intros [= <-]. eauto.
  - intros (f' & [= <-] & <-). done.
Qed.

Lemma fget_lookup (d : snapraid_disk) (h : nat) (f : snapraid_file) :
  files d !! h = Some (Some f) -> fget d h = Some (file_meta f).
Proof. intros H. unfold fget. by rewrite H. Qed.

Lemma fget_same (d d' : snapraid_disk) :
  files d' = files d -> forall k, fget d' k = fget d k.
Proof. intros H k. unfold fget. by rewrite H. Qed.

Lemma fget_insert (d d' : snapraid_disk) (h : nat) (f : snapraid_file) :
  files d' = <[h := Some f]> (files d) -> (h < length (files d))%nat ->
  forall k, fget d' k = if decide (k = h) then Some (file_meta f) else fget d k.
Proof.
  intros H Hlt k. unfold fget. rewrite H. case_decide as Hk.
  - subst k. by rewrite list_lookup_insert_eq.
  - by rewrite list_lookup_insert_ne.
Qed.

Lemma fget_free (d d' : snapraid_disk) (h : nat) :
  files d' = <[h := None]> (files d) ->
  forall k, fget d' k = if decide (k = h) then None else fget d k.
Proof.
  intros H k. unfold fget. rewrite H. case_decide as Hk.
  - subst k. destruct (decide (h < length (files d))%nat).
    + by rewrite list_lookup_insert_eq.
    + rewrite list_insert_ge by lia. by rewrite lookup_ge_None_2 by lia.
  - by rewrite list_lookup_insert_ne.
Qed.

Lemma fget_alloc (d d' : snapraid_disk) (f : snapraid_file) :
  files d' = files d ++ [Some f] ->
  fget d (length (files d)) = None /\
  forall k, fget d' k
            = if decide (k = length (files d)) then Some (file_meta f) else fget d k.
Proof.
  intros H. split.
  - unfold fget. by rewrite lookup_ge_None_2 by lia.
  - intros k. unfold fget. rewrite H. case_decide as Hk.
    + subst k. rewrite lookup_app_r by lia. by rewrite Nat.sub_diag.
    + destruct (decide (k < length (files d))%nat).
      * by rewrite lookup_app_l by lia.
      * rewrite !lookup_ge_None_2; [done|lia|]. rewrite length_app. simpl. lia.
Qed.

Lemma lget_Some (d : snapraid_disk) (l : nat) (x : snapraid_link) :
  lget d l = Some x <-> links d !! l = Some (Some x).
Proof.
  unfold lget. destruct (links d !! l) as [[y|]|]; split; congruence.
Qed.

Lemma lget_same (d d' : snapraid_disk) :
  links d' = links d -> forall k, lget d' k = lget d k.
Proof. intros H k. unfold lget. by rewrite H. Qed.

Lemma lget_insert (d d' : snapraid_disk) (l : nat) (x : snapraid_link) :
  links d' = <[l := Some x]> (links d) -> (l < length (links d))%nat ->
  forall k, lget d' k = if decide (k = l) then Some x else lget d k.
Proof.
  intros H Hlt k. unfold lget. rewrite H. case_decide as Hk.
  - subst k. by rewrite list_lookup_insert_eq.
  - by rewrite list_lookup_insert_ne.
Qed.

Lemma lget_free (d d' : snapraid_disk) (l : nat) :
  links d' = <[l := None]> (links d) ->
  forall k, lget d' k = if decide (k = l) then None else lget d k.
Proof.
  intros H k. unfold lget. rewrite H. case_decide as Hk.
  - subst k. destruct (decide (l < length (links d))%nat).
    + by rewrite list_lookup_insert_eq.
    + rewrite list_insert_ge by lia. by rewrite lookup_ge_None_2 by lia.
  - by rewrite list_lookup_insert_ne.
Qed.

Lemma lget_alloc (d d' : snapraid_disk) (x : snapraid_link) :
  links d' = links d ++ [Some x] ->
  lget d (length (links d)) = None /\
  forall k, lget d' k = if decide (k = length (links d)) then Some x else lget d k.
Proof.
  intros H. split.
  - unfold lget. by rewrite lookup_ge_None_2 by lia.
  - intros k. unfold lget. rewrite H. case_decide as Hk.
    + subst k. rewrite lookup_app_r by lia. by rewrite Nat.sub_diag.
    + destruct (decide (k < length (links d))%nat).
      * by rewrite lookup_app_l by lia.
      * rewrite !lookup_ge_None_2; [done|lia|]. rewrite length_app. simpl. lia.
Qed.

Lemma dget_Some (d : snapraid_disk) (dh : nat) (x : snapraid_dir) :
  dget d dh = Some x <-> dirs d !! dh = Some (Some x).
Proof.
  unfold dget. destruct (dirs d !! dh) as [[y|]|]; split; congruence.
Qed.

Lemma dget_same (d d' : snapraid_disk) :
  dirs d' = dirs d -> forall k, dget d' k = dget d k.
Proof. intros H k. unfold dget. by rewrite H. Qed.

Lemma dget_insert (d d' : snapraid_disk) (dh : nat) (x : snapraid_dir) :
  dirs d' = <[dh := Some x]> (dirs d) -> (dh < length (dirs d))%nat ->
  forall k, dget d' k = if decide (k = dh) then Some x else dget d k.
Proof.
  intros H Hlt k. unfold dget. rewrite H. case_decide as Hk.
  - subst k. by rewrite list_lookup_insert_eq.
  - by rewrite list_lookup_insert_ne.
Qed.

Lemma dget_free (d d' : snapraid_disk) (dh : nat) :
  dirs d' = <[dh := None]> (dirs d) ->
  forall k, dget d' k = if decide (k = dh) then None else dget d k.
Proof.
  intros H k. unfold dget. rewrite H. case_decide as Hk.
  - subst k. destruct (decide (dh < length (dirs d))%nat).
    + by rewrite list_lookup_insert_eq.
    + rewrite list_insert_ge by lia. by rewrite lookup_ge_None_2 by lia.
  - by rewrite list_lookup_insert_ne.
Qed.

Lemma dget_alloc (d d' : snapraid_disk) (x : snapraid_dir) :
  dirs d' = dirs d ++ [Some x] ->
  dget d (length (dirs d)) = None /\
  forall k, dget d' k = if decide (k = length (dirs d)) then Some x else dget d k.
Proof.
  intros H. split.
  - unfold dget. by rewrite lookup_ge_None_2 by lia.
  - intros k. unfold dget. rewrite H. case_decide as Hk.
    + subst k. rewrite lookup_app_r by lia. by rewrite Nat.sub_diag.
    + destruct (decide (k < length (dirs d))%nat).
      * by rewrite lookup_app_l by lia.
      * rewrite !lookup_ge_None_2; [done|lia|]. rewrite length_app. simpl. lia.
Qed.

Section StepUpdate.
Context {A : Type} (present : A -> bool).

(** A step that writes the object [h] only, which was not marked present. *)
Lemma obj_step_update (get get' : nat -> option A) (dom dom' new : list nat)
    (h : nat) (x : option A) :
  (forall k, get' k = if decide (k = h) then x else get k) ->
  ~ is_present present get h ->
  (forall k, k ∈ dom -> k <> h -> k ∈ dom') ->
  (forall k, k ∈ dom' -> k <> h -> k ∈ dom) ->
  (h ∈ dom' -> is_present present get' h -> h ∈ new) ->
  (forall k, k ∈ new -> k = h) ->
  obj_step present get get' dom dom' new.
Proof.
  intros Hupd Hnp Hto Hfrom Hnew Honly. split.
  - intros k a Ha Hpa. rewrite Hupd. case_decide as Hk; [|done].
    subst k. destruct Hnp. by exists a.
  - intros k Hk Hpk. apply Hto; [done|]. by intros ->.
  - intros k Hk Hpk. destruct (decide (k = h)) as [->|Hne]; [left; auto|].
    right. split; [auto|]. destruct Hpk as (a & Ha & Hpa).
    rewrite Hupd in Ha. case_decide; [done|]. by exists a.
  - intros k Hk. by rewrite (Honly k Hk).
Qed.

(** A write to an object that is not marked present and stays so. *)
Lemma obj_step_write (get get' : nat -> option A) (dom : list nat) (h : nat)
    (a a' : A) :
  (forall k, get' k = if decide (k = h) then Some a' else get k) ->
  get h = Some a -> present a = false -> present a' = false ->
  obj_step present get get' dom dom [].
Proof.
  intros Hupd Ha Hpa Hpa'. eapply obj_step_update; [exact Hupd|..]; try done.
  - intros (b & Hb & Hpb). congruence.
  - intros _ (b & Hb & Hpb). rewrite Hupd, decide_True in Hb by done. congruence.
  - by intros k ?%elem_of_nil.
Qed.

End StepUpdate.

(** ** I1 through the writes of scan_file *)

Section FilesWf.
Context (d d' : snapraid_disk) (dom : list nat).
Implicit Types (h g k : nat) (m n : snapraid_file).

Lemma files_wf_perm (dom' : list nat) :
  dom ≡ₚ dom' -> files_wf d dom -> files_wf d dom'.
Proof.
  intros Hp [Hnd Hlive Hpath Hind Hin Huniq]. split.
  - by rewrite <- Hp.
  - intros h Hh. apply Hlive. by rewrite Hp.
  - by rewrite <- Hp.
  - done.
  - intros h. rewrite Hin. by rewrite Hp.
  - done.
Qed.

(** No other file of the index has the inode of a file of the index. *)
Lemma files_wf_others h m :
  files_wf d dom -> h ∈ inodeset d -> fget d h = Some m ->
  forall g n, g ∈ inodeset d -> g <> h -> fget d g = Some n ->
    file_inode n <> file_inode m.
Proof.
  intros Hwf Hh Hm g n Hg Hne Hn Heq. apply Hne.
  by apply (fw_unique d dom Hwf g h n m).
Qed.

Lemma files_wf_attached h :
  files_wf d dom -> h ∈ inodeset d ->
  h ∈ dom /\ exists m, fget d h = Some m /\ file_is_without_inode m = false.
Proof. intros Hwf. apply (fw_inode d dom Hwf). Qed.

Lemma files_wf_same :
  (forall k, fget d' k = fget d k) ->
  inodeset d' = inodeset d -> pathset d' = pathset d ->
  files_wf d dom -> files_wf d' dom.
Proof.
  intros Hget His Hps [Hnd Hlive Hpath Hind Hin Huniq]. split.
  - done.
  - intros h Hh. rewrite Hget. by apply Hlive.
  - by rewrite Hps.
  - by rewrite His.
  - intros h. rewrite His, Hget. apply Hin.
  - intros h g m n. rewrite His, !Hget. apply Huniq.
Qed.

(** A write to the file [h] that keeps it in or out of the index by inode;
    its inode, when it has one, is the one of no other file. *)
Lemma files_wf_change h m m' :
  files_wf d dom -> fget d h = Some m ->
  (forall k, fget d' k = if decide (k = h) then Some m' else fget d k) ->
  file_is_without_inode m' = file_is_without_inode m ->
  (forall g n, g ∈ inodeset d -> g <> h -> fget d g = Some n ->
     file_inode n <> file_inode m') ->
  inodeset d' ≡ₚ inodeset d -> pathset d' ≡ₚ pathset d ->
  files_wf d' dom.
Proof.
  intros [Hnd Hlive Hpath Hind Hin Huniq] Hm Hupd Hwi Hfresh His Hps. split.
  - done.
  - intros k Hk. rewrite Hupd. case_decide; [eauto|by apply Hlive].
  - by rewrite Hps.
  - by rewrite His.
  - intros k. rewrite His, Hin, Hupd. case_decide as Hk; [subst k|done].
    split; intros [Hh (n & Hn & Hwn)]; (split; [done|]).
    + exists m'. split; [done|]. rewrite Hwi. congruence.
    + exists m. split; [done|]. rewrite <- Hwi. congruence.
  - intros k g a b. rewrite !His, !Hupd. intros Hk Hg.
    repeat case_decide; subst; intros Ha Hb Heq; try done.
    + injection Ha as <-. exfalso. by eapply (Hfresh g b).
    + injection Hb as <-. exfalso. by eapply (Hfresh k a).
    + by eapply Huniq.
Qed.

(** The file [h] leaves the index by inode. *)
Lemma files_wf_detach h m m' :
  files_wf d dom -> fget d h = Some m ->
  (forall k, fget d' k = if decide (k = h) then Some m' else fget d k) ->
  file_is_without_inode m' = true ->
  remove_first h (inodeset d) = Some (inodeset d') ->
  pathset d' = pathset d ->
  files_wf d' dom.
Proof.
  intros [Hnd Hlive Hpath Hind Hin Huniq] Hm Hupd Hwi Hrem Hps.
  destruct (remove_first_NoDup _ _ _ Hrem Hind) as [Hind' Hmem]. split.
  - done.
  - intros k Hk. rewrite Hupd. case_decide; [eauto|by apply Hlive].
  - by rewrite Hps.
  - done.
  - intros k. rewrite Hmem, Hin, Hupd. case_decide as Hk; [subst k|].
    + split; [by intros [_ ?]|]. intros [_ (n & [= <-] & Hn)]. congruence.
    + split; [by intros [? _]|done].
  - intros k g a b. rewrite !Hmem, !Hupd. intros [Hk Hkh] [Hg Hgh].
    rewrite !decide_False by done. by apply Huniq.
Qed.

(** The file [h], which had no inode, takes one that no file of the index
    has and enters the index. *)
Lemma files_wf_attach h m m' :
  files_wf d dom -> h ∈ dom -> fget d h = Some m ->
  file_is_without_inode m = true ->
  (forall k, fget d' k = if decide (k = h) then Some m' else fget d k) ->
  file_is_without_inode m' = false ->
  (forall g n, g ∈ inodeset d -> fget d g = Some n -> file_inode n <> file_inode m') ->
  inodeset d' = inodeset d ++ [h] ->
  pathset d' = pathset d ->
  files_wf d' dom.
Proof.
  intros [Hnd Hlive Hpath Hind Hin Huniq] Hh Hm Hwi Hupd Hwi' Hfresh His Hps.
  assert (h ∉ inodeset d) as Hnotin.
  { intros Hc. apply Hin in Hc as [_ (n & Hn & Hwn)]. congruence. }
  split.
  - done.
  - intros k Hk. rewrite Hupd. case_decide; [eauto|by apply Hlive].
  - by rewrite Hps.
  - rewrite His. apply NoDup_app. split; [done|]. split; [|apply NoDup_singleton].
    intros k Hk Hk'. apply list_elem_of_singleton in Hk'. by subst k.
  - intros k. rewrite His, elem_of_app, list_elem_of_singleton, Hin, Hupd.
    case_decide as Hk; [subst k|].
    + split; [|auto]. intros _. eauto.
    + split; [by intros [?|?]|auto].
  - intros k g a b. rewrite His, !elem_of_app, !list_elem_of_singleton, !Hupd.
    intros Hk Hg. repeat case_decide; subst; intros Ha Hb Heq; try done.
    + injection Ha as <-. destruct Hg as [Hg|?]; [|done].
      exfalso. by eapply (Hfresh g b).
    + injection Hb as <-. destruct Hk as [Hk|?]; [|done].
      exfalso. by eapply (Hfresh k a).
    + destruct Hk as [Hk|?]; [|done]. destruct Hg as [Hg|?]; [|done].
      by eapply Huniq.
Qed.

(** The file [h] leaves the catalog. *)
Lemma files_wf_remove (dom' : list nat) h m :
  files_wf d dom -> fget d h = Some m ->
  (forall k, fget d' k = if decide (k = h) then None else fget d k) ->
  dom ≡ₚ h :: dom' ->
  remove_first h (pathset d) = Some (pathset d') ->
  (if file_is_without_inode m then inodeset d' = inodeset d
   else remove_first h (inodeset d) = Some (inodeset d')) ->
  files_wf d' dom'.
Proof.
  intros [Hnd Hlive Hpath Hind Hin Huniq] Hm Hupd Hdom Hps His.
  assert (NoDup (h :: dom')) as Hnd' by by rewrite <- Hdom.
  apply NoDup_cons in Hnd' as [Hnotin Hnd'].
  assert (forall k, k ∈ dom' <-> k ∈ dom /\ k <> h) as Hmem.
  { intros k. rewrite Hdom, elem_of_cons. split.
    - intros Hk. split; [by right|]. by intros ->.
    - by intros [[->|Hk] Hne]. }
  assert (NoDup (inodeset d') /\
          forall k, k ∈ inodeset d' <-> k ∈ inodeset d /\ k <> h) as [Hind' Hmem'].
  { destruct (file_is_without_inode m) eqn:Hwi.
    - rewrite His. split; [done|]. intros k. split; [|by intros [? _]].
      intros Hk. split; [done|]. intros ->.
      apply Hin in Hk as [_ (n & Hn & Hwn)]. congruence.
    - by apply remove_first_NoDup. }
  split.
  - done.
  - intros k Hk. apply Hmem in Hk as [Hk Hne]. rewrite Hupd.
    rewrite decide_False by done. by apply Hlive.
  - apply remove_first_Some in Hps. rewrite Hps, Hdom in Hpath.
    by apply (inj (cons h)) in Hpath.
  - done.
  - intros k. rewrite Hmem', Hmem, Hin, Hupd. case_decide as Hk; [subst k|].
    + split; [by intros [_ ?]|by intros [[_ ?] _]].
    + split; [by intros [[? ?] _]|by intros [[? _] ?]].
  - intros k g a b. rewrite !Hmem', !Hupd. intros [Hk Hkh] [Hg Hgh].
    rewrite !decide_False by done. by apply Huniq.
Qed.

(** A new file [h], with an inode that no file of the index has. *)
Lemma files_wf_new h m' :
  files_wf d dom -> fget d h = None ->
  (forall k, fget d' k = if decide (k = h) then Some m' else fget d k) ->
  file_is_without_inode m' = false ->
  (forall g n, g ∈ inodeset d -> fget d g = Some n -> file_inode n <> file_inode m') ->
  inodeset d' = inodeset d ++ [h] ->
  pathset d' = pathset d ++ [h] ->
  files_wf d' (dom ++ [h]).
Proof.
  intros [Hnd Hlive Hpath Hind Hin Huniq] Hnone Hupd Hwi' Hfresh His Hps.
  assert (h ∉ dom) as Hnotin.
  { intros Hc. apply Hlive in Hc as [n Hn]. congruence. }
  assert (h ∉ inodeset d) as Hnotin'.
  { intros Hc. apply Hin in Hc as [Hc _]. done. }
  split.
  - apply NoDup_app. split; [done|]. split; [|apply NoDup_singleton].
    intros k Hk Hk'. apply list_elem_of_singleton in Hk'. by subst k.
  - intros k. rewrite elem_of_app, list_elem_of_singleton, Hupd.
    case_decide; [eauto|]. intros [Hk|?]; [by apply Hlive|done].
  - by rewrite Hps, Hpath.
  - rewrite His. apply NoDup_app. split; [done|]. split; [|apply NoDup_singleton].
    intros k Hk Hk'. apply list_elem_of_singleton in Hk'. by subst k.
  - intros k. rewrite His, !elem_of_app, !list_elem_of_singleton, Hin, Hupd.
    case_decide as Hk; [subst k|].
    + split; [|auto]. intros _. eauto.
    + split; [intros [[? ?]|?]; [auto|done]|intros [[?|?] ?]; [auto|done]].
  - intros k g a b. rewrite His, !elem_of_app, !list_elem_of_singleton, !Hupd.
    intros Hk Hg. repeat case_decide; subst; intros Ha Hb Heq; try done.
    + injection Ha as <-. destruct Hg as [Hg|?]; [|done].
      exfalso. by eapply (Hfresh g b).
    + injection Hb as <-. destruct Hk as [Hk|?]; [|done].
      exfalso. by eapply (Hfresh k a).
    + destruct Hk as [Hk|?]; [|done]. destruct Hg as [Hg|?]; [|done].
      by eapply Huniq.
Qed.

End FilesWf.

(** ** scan_link and scan_emptydir on the catalog *)

(** scan_link writes one link, [l]: the one it finds in the index, which was
    not marked present, or a new one, which waits in the insert list.  After
    it the link holds the path, the target and the kind of the entry and is
    marked present. *)
Lemma scan_link_Ok (scan scan' : snapraid_scan) (state state' : snapraid_state)
    (d d' : snapraid_disk) (sub linkto : string) (flag : link_kind) :
  scan_link scan state d sub linkto flag = Ok (scan', state', d') ->
  exists l,
    (forall k, lget d' k
               = if decide (k = l) then Some (mk_link sub linkto flag true)
                 else lget d k) /\
    ((lget d l = None /\
      link_insert_list scan' = link_insert_list scan ++ [l]) \/
     (l ∈ linkset d /\
      (exists x, lget d l = Some x /\ link_is_present x = false) /\
      link_insert_list scan' = link_insert_list scan)) /\
    file_insert_list scan' = file_insert_list scan /\
    dir_insert_list scan' = dir_insert_list scan /\
    d' = set_links (links d') d /\
    state_rest state' = state_rest state.
Proof.
  unfold scan_link. intros H.
  apply bind_Ok in H as (found & Hfound & H). destruct found as [l|].
  - apply tommy_hashdyn_search_Some in Hfound as (Hin & x & Hx & Hsub).
    apply bool_decide_eq_true in Hsub.
    rewrite (heap_get_lookup _ _ _ Hx) in H. cbn [bind] in H.
    destruct (link_is_present x) eqn:Hpx; [discriminate|].
    rewrite (link_store_lookup _ _ _ _ Hx) in H. cbn [bind] in H.
    pose proof (lookup_lt_Some _ _ _ Hx) as Hlt.
    exists l.
    destruct (bool_decide (link_linkto x = linkto)
              && bool_decide (flag = link_kind_of x)) eqn:Heq.
    + injection H as <- <- <-.
      apply andb_true_iff in Heq as [Hto Hkind].
      apply bool_decide_eq_true in Hto, Hkind.
      assert (set_link_is_present true x = mk_link sub linkto flag true) as Hx'
        by (destruct x; simpl in *; by subst).
      split.
      { intros k. erewrite lget_insert; [|reflexivity|done]. by rewrite Hx'. }
      split. { right. split; [done|]. split; [|done]. exists x.
               split; [by apply lget_Some|done]. }
      done.
    + erewrite link_store_lookup in H; [|simpl; by eapply heap_insert_lookup_eq].
      cbn [bind] in H.
      erewrite link_store_lookup in H;
        [|simpl; rewrite list_lookup_insert_eq; [done|by rewrite length_insert]].
      cbn [bind] in H. injection H as <- <- <-. cbn.
      rewrite !list_insert_insert_eq.
      split.
      { intros k. erewrite lget_insert; [|reflexivity|done].
        destruct (decide (k = l)); [|done]. destruct x; simpl in *; by subst. }
      split. { right. split; [done|]. split; [|done]. exists x.
               split; [by apply lget_Some|done]. }
      done.
  - unfold heap_alloc in H.
    erewrite link_store_lookup in H;
      [|simpl; rewrite lookup_app_r by lia; by rewrite Nat.sub_diag].
    cbn [bind] in H. injection H as <- <- <-. cbn.
    rewrite insert_app_r_alt by lia. rewrite Nat.sub_diag. simpl.
    exists (length (links d)).
    edestruct (lget_alloc d
      (set_links (links d ++ [Some (mk_link sub linkto flag true)]) d))
      as [Hnone Hget]; [reflexivity|].
    split; [done|]. split; [by left|]. done.
Qed.

(** The same for scan_emptydir and the dir [dh]. *)
Lemma scan_emptydir_Ok (scan scan' : snapraid_scan) (state state' : snapraid_state)
    (d d' : snapraid_disk) (sub : string) :
  scan_emptydir scan state d sub = Ok (scan', state', d') ->
  exists dh,
    (forall k, dget d' k = if decide (k = dh) then Some (mk_dir sub true) else dget d k) /\
    ((dget d dh = None /\
      dir_insert_list scan' = dir_insert_list scan ++ [dh]) \/
     (dh ∈ dirset d /\
      (exists x, dget d dh = Some x /\ dir_is_present x = false) /\
      dir_insert_list scan' = dir_insert_list scan)) /\
    file_insert_list scan' = file_insert_list scan /\
    link_insert_list scan' = link_insert_list scan /\
    d' = set_dirs (dirs d') d /\
    state' = state.
Proof.
  unfold scan_emptydir. intros H.
  apply bind_Ok in H as (found & Hfound & H). destruct found as [dh|].
  - apply tommy_hashdyn_search_Some in Hfound as (Hin & x & Hx & Hsub).
    apply bool_decide_eq_true in Hsub.
    rewrite (heap_get_lookup _ _ _ Hx) in H. cbn [bind] in H.
    destruct (dir_is_present x) eqn:Hpx; [discriminate|].
    unfold dir_store in H. rewrite (heap_get_lookup _ _ _ Hx) in H. cbn [bind] in H.
    rewrite (heap_set_lookup _ _ _ _ Hx) in H. cbn [bind] in H.
    injection H as <- <- <-.
    pose proof (lookup_lt_Some _ _ _ Hx) as Hlt.
    assert (set_dir_is_present true x = mk_dir sub true) as Hx'
      by (destruct x; simpl in *; by subst).
    exists dh. split.
    { intros k. erewrite dget_insert; [|reflexivity|done]. by rewrite Hx'. }
    split. { right. split; [done|]. split; [|done]. exists x.
             split; [by apply dget_Some|done]. }
    done.
  - unfold heap_alloc, dir_store in H. cbn [dirs set_dirs] in H.
    rewrite (heap_get_lookup _ (length (dirs d)) (dir_alloc sub)) in H
      by (rewrite lookup_app_r by lia; by rewrite Nat.sub_diag).
    cbn [bind] in H.
    rewrite (heap_set_lookup _ (length (dirs d)) _ (dir_alloc sub)) in H
      by (rewrite lookup_app_r by lia; by rewrite Nat.sub_diag).
    cbn [bind] in H. injection H as <- <- <-. cbn.
    rewrite insert_app_r_alt by lia. rewrite Nat.sub_diag. simpl.
    exists (length (dirs d)).
    edestruct (dget_alloc d (set_dirs (dirs d ++ [Some (mk_dir sub true)]) d))
      as [Hnone Hget]; [reflexivity|].
    split; [done|]. split; [by left|]. done.
Qed.

(** ** The invariant of the walk through an event *)

Lemma mark_ok_frozen (d d' : snapraid_disk) (ev : event) (mk : mark) :
  (forall k a, fget d k = Some a -> file_is_present a = true -> fget d' k = Some a) ->
  (forall k a, lget d k = Some a -> link_is_present a = true -> lget d' k = Some a) ->
  (forall k a, dget d k = Some a -> dir_is_present a = true -> dget d' k = Some a) ->
  mark_ok true d ev mk -> mark_ok true d' ev mk.
Proof.
  intros Hf Hl Hd. destruct ev, mk; simpl; try done.
  - intros (m & Hm & Hp & H). exists m. split; [by apply Hf|done].
  - intros (m & Hm & Hp & Hwi & Hino & Hnc & Hn & Hlk). exists m.
    split; [by apply Hf|]. repeat (split; [done|]). by apply Hl.
  - intros H. by apply Hl.
  - intros H. by apply Hd.
Qed.

Lemma mark_ok_present (d : snapraid_disk) (ev : event) (mk : mark) :
  mark_ok true d ev mk ->
  (forall h, mark_file mk = Some h -> is_present file_is_present (fget d) h) /\
  (forall l, mark_link mk = Some l -> is_present link_is_present (lget d) l) /\
  (forall dh, mark_dir mk = Some dh -> is_present dir_is_present (dget d) dh).
Proof.
  destruct ev, mk; simpl; try done.
  - intros (m & Hm & Hp & H). split; [|done]. intros ? [= <-]. by exists m.
  - intros (m & Hm & Hp & Hwi & Hino & Hnc & Hn & Hlk).
    split; [done|]. split; [|done]. intros ? [= <-]. eexists. by split.
  - intros H. split; [done|]. split; [|done]. intros ? [= <-]. eexists. by split.
  - intros H. split; [done|]. split; [done|]. intros ? [= <-]. eexists. by split.
Qed.

Lemma NoDup_from_option (o : option nat) : NoDup (from_option (fun h => [h]) [] o).
Proof. destruct o; simpl; [apply NoDup_singleton|apply NoDup_nil_2]. Qed.

Lemma elem_of_from_option (o : option nat) (h : nat) :
  h ∈ from_option (fun h => [h]) [] o <-> o = Some h.
Proof.
  destruct o; simpl.
  - rewrite list_elem_of_singleton. split; congruence.
  - split; [by intros ?%elem_of_nil|done].
Qed.

(** An event that keeps I1, writes no object that was marked present and
    marks the object [mk] extends the invariant of the walk. *)
Lemma scanned_step (d d' : snapraid_disk) (fp lp dp fp' lp' dp' : list nat)
    (evs : list event) (t : list mark) (ev : event) (mk : mark) :
  scanned d fp lp dp evs t ->
  files_wf d' (filelist d' ++ fp') -> links_wf d' lp' -> dirs_wf d' dp' ->
  obj_step file_is_present (fget d) (fget d') (filelist d ++ fp) (filelist d' ++ fp')
    (from_option (fun h => [h]) [] (mark_file mk)) ->
  obj_step link_is_present (lget d) (lget d') (linklist d ++ lp) (linklist d' ++ lp')
    (from_option (fun h => [h]) [] (mark_link mk)) ->
  obj_step dir_is_present (dget d) (dget d') (dirlist d ++ dp) (dirlist d' ++ dp')
    (from_option (fun h => [h]) [] (mark_dir mk)) ->
  mark_ok true d' ev mk ->
  (forall h, mark_file mk = Some h -> h ∈ filelist d' ++ fp') ->
  (forall l, mark_link mk = Some l -> l ∈ linklist d' ++ lp') ->
  (forall dh, mark_dir mk = Some dh -> dh ∈ dirlist d' ++ dp') ->
  (forall h, h ∈ fp' -> h ∈ fp \/ mark_file mk = Some h) ->
  (forall l, l ∈ lp' -> l ∈ lp \/ mark_link mk = Some l) ->
  (forall dh, dh ∈ dp' -> dh ∈ dp \/ mark_dir mk = Some dh) ->
  (forall h l, mk = MHard h l -> h ∈ mark_files t) ->
  (has_not_persistent_inodes d' = true -> forall h, h ∈ inodeset d' ->
     (has_not_persistent_inodes d = true /\ h ∈ inodeset d) \/ mark_file mk = Some h) ->
  scanned d' fp' lp' dp' (evs ++ [ev]) (t ++ [mk]).
Proof.
  intros [Hwf Hlw Hdw Hmarks Hhard Hmf Hml Hmd Hfp Hlp Hdp Hnp]
    Hwf' Hlw' Hdw' Hsf Hsl Hsd Hok Hinf Hinl Hind Hfp' Hlp' Hdp' Hmk Hnp'.
  destruct (mark_ok_present _ _ _ Hok) as (Hpf & Hpl & Hpd).
  split; try done.
  - apply Forall2_app; [|by constructor].
    eapply Forall2_impl; [exact Hmarks|]. intros e m.
    apply mark_ok_frozen; [apply Hsf|apply Hsl|apply Hsd].
  - by apply hard_after_snoc.
  - rewrite mark_files_snoc.
    eapply obj_marks_step; [done..|apply NoDup_from_option|].
    intros k Hk%elem_of_from_option. auto.
  - rewrite mark_links_snoc.
    eapply obj_marks_step; [done..|apply NoDup_from_option|].
    intros k Hk%elem_of_from_option. auto.
  - rewrite mark_dirs_snoc.
    eapply obj_marks_step; [done..|apply NoDup_from_option|].
    intros k Hk%elem_of_from_option. auto.
  - intros h Hh. rewrite mark_files_snoc, elem_of_app, elem_of_from_option.
    destruct (Hfp' h Hh); auto.
  - intros h Hh. rewrite mark_links_snoc, elem_of_app, elem_of_from_option.
    destruct (Hlp' h Hh); auto.
  - intros h Hh. rewrite mark_dirs_snoc, elem_of_app, elem_of_from_option.
    destruct (Hdp' h Hh); auto.
  - intros Hflag h Hh. rewrite mark_files_snoc, elem_of_app, elem_of_from_option.
    destruct (Hnp' Hflag h Hh) as [[Hflag0 Hh0]|?]; auto.
Qed.

(** The steps of the events that write no file, no link or no dir. *)
Lemma file_step_same (d d' : snapraid_disk) (fp : list nat) :
  files d' = files d -> filelist d' = filelist d ->
  obj_step file_is_present (fget d) (fget d') (filelist d ++ fp) (filelist d' ++ fp) [].
Proof.
  intros Hfiles Hlist. apply obj_step_same; [by apply fget_same|].
  intros k. by rewrite Hlist.
Qed.

Lemma link_step_same (d d' : snapraid_disk) (lp : list nat) :
  links d' = links d -> linklist d' = linklist d ->
  obj_step link_is_present (lget d) (lget d') (linklist d ++ lp) (linklist d' ++ lp) [].
Proof.
  intros Hlinks Hlist. apply obj_step_same; [by apply lget_same|].
  intros k. by rewrite Hlist.
Qed.

Lemma dir_step_same (d d' : snapraid_disk) (dp : list nat) :
  dirs d' = dirs d -> dirlist d' = dirlist d ->
  obj_step dir_is_present (dget d) (dget d') (dirlist d ++ dp) (dirlist d' ++ dp) [].
Proof.
  intros Hdirs Hlist. apply obj_step_same; [by apply dget_same|].
  intros k. by rewrite Hlist.
Qed.

Lemma links_wf_same (d d' : snapraid_disk) (lp : list nat) :
  links d' = links d -> linklist d' = linklist d -> linkset d' = linkset d ->
  links_wf d lp -> links_wf d' lp.
Proof.
  intros Hlinks Hlist Hset [Hnd Hlive Hperm]. split.
  - by rewrite Hlist.
  - intros l. rewrite Hlist, (lget_same _ _ Hlinks). apply Hlive.
  - by rewrite Hset, Hlist.
Qed.

Lemma dirs_wf_same (d d' : snapraid_disk) (dp : list nat) :
  dirs d' = dirs d -> dirlist d' = dirlist d -> dirset d' = dirset d ->
  dirs_wf d dp -> dirs_wf d' dp.
Proof.
  intros Hdirs Hlist Hset [Hnd Hlive Hperm]. split.
  - by rewrite Hlist.
  - intros l. rewrite Hlist, (dget_same _ _ Hdirs). apply Hlive.
  - by rewrite Hset, Hlist.
Qed.

(** What scan_link does to the links: I1 is kept and the link [l] is the
    only one written and marked. *)
Lemma scan_link_links (scan scan' : snapraid_scan) (state state' : snapraid_state)
    (d d' : snapraid_disk) (sub linkto : string) (flag : link_kind) :
  scan_link scan state d sub linkto flag = Ok (scan', state', d') ->
  links_wf d (link_insert_list scan) ->
  exists l,
    link_has true d' l sub linkto flag /\
    links_wf d' (link_insert_list scan') /\
    obj_step link_is_present (lget d) (lget d')
      (linklist d ++ link_insert_list scan) (linklist d' ++ link_insert_list scan') [l] /\
    l ∈ linklist d' ++ link_insert_list scan' /\
    (forall k, k ∈ link_insert_list scan' -> k ∈ link_insert_list scan \/ k = l) /\
    file_insert_list scan' = file_insert_list scan /\
    dir_insert_list scan' = dir_insert_list scan /\
    d' = set_links (links d') d /\
    state_rest state' = state_rest state.
Proof.
  intros H [Hnd Hlive Hperm].
  apply scan_link_Ok in H as (l & Hget & Hcase & Hfl & Hdl & Hd' & Hst).
  exists l.
  assert (linklist d' = linklist d) as Hlist by (rewrite Hd'; by destruct d).
  assert (linkset d' = linkset d) as Hset by (rewrite Hd'; by destruct d).
  assert (link_has true d' l sub linkto flag) as Hhas.
  { unfold link_has. rewrite Hget. by rewrite decide_True. }
  split; [done|]. rewrite Hlist.
  destruct Hcase as [[Hnone ->]|(Hin & (x & Hx & Hpx) & ->)].
  - assert (l ∉ linklist d ++ link_insert_list scan) as Hnotin.
    { intros Hc. apply Hlive in Hc as [? ?]. congruence. }
    split; [|split; [|split; [|split]]]; try done.
    + split.
      * rewrite Hlist, app_assoc. apply NoDup_app. split; [done|].
        split; [|apply NoDup_singleton].
        intros k Hk ->%list_elem_of_singleton. done.
      * intros k. rewrite Hlist, app_assoc, elem_of_app, list_elem_of_singleton, Hget.
        case_decide; [eauto|]. intros [Hk|?]; [by apply Hlive|done].
      * by rewrite Hset, Hlist.
    + eapply obj_step_update; [exact Hget|..].
      * intros (a & Ha & _). congruence.
      * intros k Hk _. rewrite app_assoc, elem_of_app. by left.
      * intros k. rewrite app_assoc, elem_of_app, list_elem_of_singleton.
        by intros [?|?].
      * intros _ _. left.
      * by intros k ->%list_elem_of_singleton.
    + rewrite app_assoc, elem_of_app, list_elem_of_singleton. by right.
    + intros k. rewrite elem_of_app, list_elem_of_singleton. tauto.
  - assert (l ∈ linklist d) as Hinl by by rewrite <- Hperm.
    split; [|split; [|split; [|split]]]; try done.
    + split.
      * by rewrite Hlist.
      * intros k. rewrite Hlist, Hget. case_decide; [eauto|]. apply Hlive.
      * by rewrite Hset, Hlist.
    + eapply obj_step_update; [exact Hget|..]; try done.
      * intros (a & Ha & Hpa). congruence.
      * intros _ _. left.
      * by intros k ->%list_elem_of_singleton.
    + rewrite elem_of_app. by left.
    + auto.
Qed.

Lemma scan_emptydir_dirs (scan scan' : snapraid_scan) (state state' : snapraid_state)
    (d d' : snapraid_disk) (sub : string) :
  scan_emptydir scan state d sub = Ok (scan', state', d') ->
  dirs_wf d (dir_insert_list scan) ->
  exists dh,
    dir_has true d' dh sub /\
    dirs_wf d' (dir_insert_list scan') /\
    obj_step dir_is_present (dget d) (dget d')
      (dirlist d ++ dir_insert_list scan) (dirlist d' ++ dir_insert_list scan') [dh] /\
    dh ∈ dirlist d' ++ dir_insert_list scan' /\
    (forall k, k ∈ dir_insert_list scan' -> k ∈ dir_insert_list scan \/ k = dh) /\
    file_insert_list scan' = file_insert_list scan /\
    link_insert_list scan' = link_insert_list scan /\
    d' = set_dirs (dirs d') d /\
    state' = state.
Proof.
  intros H [Hnd Hlive Hperm].
  apply scan_emptydir_Ok in H as (l & Hget & Hcase & Hfl & Hdl & Hd' & Hst).
  exists l.
  assert (dirlist d' = dirlist d) as Hlist by (rewrite Hd'; by destruct d).
  assert (dirset d' = dirset d) as Hset by (rewrite Hd'; by destruct d).
  assert (dir_has true d' l sub) as Hhas.
  { unfold dir_has. rewrite Hget. by rewrite decide_True. }
  split; [done|]. rewrite Hlist.
  destruct Hcase as [[Hnone ->]|(Hin & (x & Hx & Hpx) & ->)].
  - assert (l ∉ dirlist d ++ dir_insert_list scan) as Hnotin.
    { intros Hc. apply Hlive in Hc as [? ?]. congruence. }
    split; [|split; [|split; [|split]]]; try done.
    + split.
      * rewrite Hlist, app_assoc. apply NoDup_app. split; [done|].
        split; [|apply NoDup_singleton].
        intros k Hk ->%list_elem_of_singleton. done.
      * intros k. rewrite Hlist, app_assoc, elem_of_app, list_elem_of_singleton, Hget.
        case_decide; [eauto|]. intros [Hk|?]; [by apply Hlive|done].
      * by rewrite Hset, Hlist.
    + eapply obj_step_update; [exact Hget|..].
      * intros (a & Ha & _). congruence.
      * intros k Hk _. rewrite app_assoc, elem_of_app. by left.
      * intros k. rewrite app_assoc, elem_of_app, list_elem_of_singleton.
        by intros [?|?].
      * intros _ _. left.
      * by intros k ->%list_elem_of_singleton.
    + rewrite app_assoc, elem_of_app, list_elem_of_singleton. by right.
    + intros k. rewrite elem_of_app, list_elem_of_singleton. tauto.
  - assert (l ∈ dirlist d) as Hinl by by rewrite <- Hperm.
    split; [|split; [|split; [|split]]]; try done.
    + split.
      * by rewrite Hlist.
      * intros k. rewrite Hlist, Hget. case_decide; [eauto|]. apply Hlive.
      * by rewrite Hset, Hlist.
    + eapply obj_step_update; [exact Hget|..]; try done.
      * intros (a & Ha & Hpa). congruence.
      * intros _ _. left.
      * by intros k ->%list_elem_of_singleton.
    + rewrite elem_of_app. by left.
    + auto.
Qed.

(** ** The events of links and dirs *)

Lemma env_of_eq (state state' : snapraid_state) (d d' : snapraid_disk) :
  state_rest state' = state_rest state ->
  disk_name d' = disk_name d -> disk_dir d' = disk_dir d ->
  disk_device d' = disk_device d ->
  has_not_persistent_inodes d' = has_not_persistent_inodes d ->
  env_of state' d' = env_of state d.
Proof.
  unfold state_rest, env_of. intros Hst -> -> -> ->.
  injection Hst as _ _ _ Horder _. by rewrite Horder.
Qed.

(** scan_link on an entry whose mark is [mkf l], for the link [l] it
    writes. *)
Lemma scan_link_scanning (scan scan' : snapraid_scan) (state state' : snapraid_state)
    (d d' : snapraid_disk) (sub linkto : string) (flag : link_kind)
    (evs : list event) (t : list mark) (ev : event) (mkf : nat -> mark) :
  scanning scan d evs t ->
  scan_link scan state d sub linkto flag = Ok (scan', state', d') ->
  (forall l, mark_file (mkf l) = None /\ mark_link (mkf l) = Some l /\
             mark_dir (mkf l) = None) ->
  (forall l, (forall k, fget d' k = fget d k) ->
     link_has true d' l sub linkto flag -> mark_ok true d' ev (mkf l)) ->
  (forall l h l', mkf l = MHard h l' -> h ∈ mark_files t) ->
  (exists l, scanning scan' d' (evs ++ [ev]) (t ++ [mkf l])) /\
  env_of state' d' = env_of state d.
Proof.
  intros Hsc H Hmkf Hok Hhard. pose proof Hsc as [Hwf Hlw Hdw _ _ _ _ _ _ _ _ Hnp].
  apply scan_link_links in H
    as (l & Hhas & Hlw' & Hstep & Hin & Hpend & Hfl & Hdl & Hd' & Hst); [|done].
  assert (files d' = files d) as Hfiles by (rewrite Hd'; by destruct d).
  assert (filelist d' = filelist d) as Hfilelist by (rewrite Hd'; by destruct d).
  assert (dirs d' = dirs d) as Hdirs by (rewrite Hd'; by destruct d).
  assert (dirlist d' = dirlist d) as Hdirlist by (rewrite Hd'; by destruct d).
  split; [|apply env_of_eq; [done|rewrite Hd'; by destruct d..]].
  exists l. destruct (Hmkf l) as (Hmf & Hml & Hmd).
  unfold scanning. rewrite Hfl, Hdl.
  eapply scanned_step; [exact Hsc|..]; rewrite ?Hmf, ?Hml, ?Hmd; simpl.
  - rewrite Hfilelist. eapply files_wf_same; [by apply fget_same|..|done];
      rewrite Hd'; by destruct d.
  - done.
  - eapply dirs_wf_same; [done..| |done]. rewrite Hd'; by destruct d.
  - by apply file_step_same.
  - done.
  - by apply dir_step_same.
  - apply Hok; [by apply fget_same|done].
  - done.
  - by intros ? [= <-].
  - done.
  - auto.
  - intros k Hk. destruct (Hpend k Hk) as [?| ->]; auto.
  - auto.
  - intros h l' Heq. by eapply Hhard.
  - intros Hflag h Hh. left. rewrite Hd' in Hflag, Hh. by destruct d.
Qed.

Lemma scan_emptydir_scanning (scan scan' : snapraid_scan)
    (state state' : snapraid_state) (d d' : snapraid_disk) (sub : string)
    (evs : list event) (t : list mark) :
  scanning scan d evs t ->
  scan_emptydir scan state d sub = Ok (scan', state', d') ->
  (exists dh, scanning scan' d' (evs ++ [EvDir sub]) (t ++ [MDir dh])) /\
  env_of state' d' = env_of state d.
Proof.
  intros Hsc H. pose proof Hsc as [Hwf Hlw Hdw _ _ _ _ _ _ _ _ Hnp].
  apply scan_emptydir_dirs in H
    as (dh & Hhas & Hdw' & Hstep & Hin & Hpend & Hfl & Hll & Hd' & ->); [|done].
  assert (files d' = files d) as Hfiles by (rewrite Hd'; by destruct d).
  assert (filelist d' = filelist d) as Hfilelist by (rewrite Hd'; by destruct d).
  assert (links d' = links d) as Hlinks by (rewrite Hd'; by destruct d).
  assert (linklist d' = linklist d) as Hlinklist by (rewrite Hd'; by destruct d).
  split; [|apply env_of_eq; [done|rewrite Hd'; by destruct d..]].
  exists dh. unfold scanning. rewrite Hfl, Hll.
  eapply scanned_step; [exact Hsc|..]; simpl.
  - rewrite Hfilelist. eapply files_wf_same; [by apply fget_same|..|done];
      rewrite Hd'; by destruct d.
  - eapply links_wf_same; [done..| |done]. rewrite Hd'; by destruct d.
  - done.
  - by apply file_step_same.
  - by apply link_step_same.
  - done.
  - done.
  - done.
  - done.
  - by intros ? [= <-].
  - auto.
  - auto.
  - intros k Hk. destruct (Hpend k Hk) as [?| ->]; auto.
  - done.
  - intros Hflag h Hh. left. rewrite Hd' in Hflag, Hh. by destruct d.
Qed.

(** ** The blocks apart: scan_file_remove and scan_file_insert on the catalog *)

Lemma fget_catalog (d d' : snapraid_disk) :
  catalog_of d' = catalog_of d -> forall k, fget d' k = fget d k.
Proof.
  intros H k. injection H as _ _ _ _ Hfiles _ _ _ _ _ _ _ _ _.
  apply (f_equal (fun l => l !! k)) in Hfiles. rewrite !list_lookup_fmap in Hfiles.
  unfold fget.
  destruct (files d' !! k) as [[f'|]|], (files d !! k) as [[f|]|];
    simpl in Hfiles; congruence.
Qed.

Lemma catalog_rest (d d' : snapraid_disk) :
  catalog_of d' = catalog_of d ->
  filelist d' = filelist d /\ inodeset d' = inodeset d /\ pathset d' = pathset d /\
  disk_rest d' = disk_rest d.
Proof. unfold catalog_of, disk_rest. intros [= -> -> -> -> _ -> -> -> -> -> -> -> -> ->]. done. Qed.

Lemma block_store_catalog (d d' : snapraid_disk) (p : block_ptr)
    (upd : snapraid_block -> snapraid_block) :
  block_store d p upd = Ok d' -> catalog_of d' = catalog_of d.
Proof.
  unfold block_store. destruct p as [|f i|dl]; [discriminate| |].
  - intros H. apply bind_Ok in H as (file & Hfile & H). apply heap_get_Ok in Hfile.
    destruct (blockvec file !! i) as [b|]; [|discriminate].
    rewrite (heap_set_lookup _ _ _ _ Hfile) in H. cbn [bind] in H.
    injection H as <-. unfold catalog_of. cbn.
    rewrite list_fmap_insert. simpl.
    rewrite list_insert_id; [done|].
    rewrite list_lookup_fmap, Hfile. done.
  - destruct (deletedlist d !! dl); [|discriminate]. by intros [= <-].
Qed.

Lemma scan_file_remove_block_catalog (state : snapraid_state) (file i : nat)
    (d d' : snapraid_disk) :
  scan_file_remove_block state file i d = Ok d' -> catalog_of d' = catalog_of d.
Proof.
  unfold scan_file_remove_block. intros H.
  apply bind_Ok in H as (b & _ & H).
  apply bind_Ok in H as (d1 & Hd1 & H).
  apply bind_Ok in H as (b' & _ & H).
  apply bind_Ok in H as (arr & _ & H). injection H as <-.
  transitivity (catalog_of d1); [done|].
  set (d0 := if first_free_block d >? parity_pos b
             then set_first_free_block (parity_pos b) d else d) in Hd1.
  assert (catalog_of d0 = catalog_of d) as <-.
  { unfold d0. by destruct (first_free_block d >? parity_pos b). }
  destruct (block_state_get b); try discriminate.
  - by injection Hd1 as <-.
  - destruct (negb (clear_undeterminate_hash state)).
    + by eapply block_store_catalog.
    + by injection Hd1 as <-.
  - destruct (negb (clear_undeterminate_hash state)).
    + by eapply block_store_catalog.
    + by injection Hd1 as <-.
Qed.

Lemma scan_file_insert_block_catalog (state : snapraid_state) (file i : nat)
    (d d' : snapraid_disk) (block_max block_pos block_max' block_pos' : Z) :
  scan_file_insert_block state file i (d, block_max, block_pos)
  = Ok (d', block_max', block_pos') ->
  catalog_of d' = catalog_of d.
Proof.
  unfold scan_file_insert_block. intros H.
  apply bind_Ok in H as (pos & _ & H).
  set (d0 := if pos =? block_max
             then set_blockarr (tommy_arrayblk_grow (blockarr d)
                                  (wrap32 (block_max + 1))) d
             else d).
  assert (catalog_of d0 = catalog_of d) as <-.
  { unfold d0. by destruct (pos =? block_max). }
  destruct (pos =? block_max).
  all: apply bind_Ok in H as (d1 & Hd1 & H); apply block_store_catalog in Hd1.
  all: apply bind_Ok in H as (block & _ & H).
  all: apply bind_Ok in H as (d2 & Hd2 & H).
  all: apply bind_Ok in H as (arr & _ & H); injection H as <- _ _.
  all: transitivity (catalog_of d2); [done|].
  all: transitivity (catalog_of d1); [|done].
  all: destruct (decide (block = BLOCK_EMPTY)); [by eapply block_store_catalog|].
  all: apply bind_Ok in Hd2 as (d3 & Hd3 & Hd2).
  all: apply bind_Ok in Hd2 as (d4 & Hd4 & Hd2).
  all: apply bind_Ok in Hd2 as (old & _ & Hd2).
  all: apply block_store_catalog in Hd2, Hd4.
  all: rewrite Hd2, Hd4.
  all: destruct (negb (clear_undeterminate_hash state));
    [by eapply block_store_catalog|by injection Hd3 as <-].
Qed.

(** scan_file_remove on the catalog: the file leaves the heap, the list and
    the indices. *)
Lemma scan_file_remove_catalog (state state' : snapraid_state) (d d' : snapraid_disk)
    (q : nat) :
  scan_file_remove state d q = Ok (state', d') ->
  exists m,
    fget d q = Some m /\
    (forall k, fget d' k = if decide (k = q) then None else fget d k) /\
    remove_first q (filelist d) = Some (filelist d') /\
    remove_first q (pathset d) = Some (pathset d') /\
    (if file_is_without_inode m then inodeset d' = inodeset d
     else remove_first q (inodeset d) = Some (inodeset d')) /\
    disk_rest d' = disk_rest d /\
    state' = set_need_write true state.
Proof.
  unfold scan_file_remove. intros H.
  apply bind_Ok in H as (f & Hf & H). apply heap_get_Ok in Hf.
  apply bind_Ok in H as (dL & Hloop & H).
  assert (catalog_of dL = catalog_of d) as Hcat.
  { change (scan_file_remove_block (set_need_write true state) q)
      with (scan_file_remove_block state q) in Hloop.
    apply (for_loop_Ok_invariant (fun _ dk => catalog_of dk = catalog_of d)
             _ _ _ _ _ Hloop); [done|].
    intros j dk dk' _ Hdk Hbody. rewrite <- Hdk.
    by eapply scan_file_remove_block_catalog. }
  pose proof (fget_catalog _ _ Hcat) as Hget.
  destruct (catalog_rest _ _ Hcat) as (Hfl & His & Hps & Hrest).
  apply bind_Ok in H as (f' & Hf' & H). apply heap_get_Ok in Hf'.
  assert (file_meta f' = file_meta f) as Hmeta.
  { pose proof (Hget q) as Hq. rewrite (fget_lookup _ _ _ Hf'), (fget_lookup _ _ _ Hf) in Hq.
    congruence. }
  assert (file_is_without_inode f' = file_is_without_inode f) as Hwi
    by apply (f_equal file_is_without_inode Hmeta).
  apply bind_Ok in H as (d1 & Hd1 & H).
  apply bind_Ok in H as (ps & Hps' & H). apply tommy_remove_existing_Ok_inv in Hps'.
  apply bind_Ok in H as (fl & Hfl' & H). apply tommy_remove_existing_Ok_inv in Hfl'.
  apply bind_Ok in H as (h & Hh & H). injection H as <- <-.
  unfold heap_free in Hh. apply bind_Ok in Hh as (? & _ & Hh). injection Hh as <-.
  cbn in Hfl', Hps'.
  assert (exists ins, d1 = set_inodeset ins dL /\
            (if file_is_without_inode f then ins = inodeset d
             else remove_first q (inodeset d) = Some ins)) as (ins & -> & Hins).
  { rewrite Hwi in Hd1. destruct (file_is_without_inode f); simpl in Hd1.
    - injection Hd1 as <-. exists (inodeset d). split; [|done].
      rewrite <- His. by destruct dL.
    - apply bind_Ok in Hd1 as (ins & Hins & Hd1). injection Hd1 as <-.
      exists ins. split; [done|]. rewrite His in Hins.
      by apply tommy_remove_existing_Ok_inv. }
  cbn in Hfl', Hps'. rewrite Hps in Hps'. rewrite Hfl in Hfl'.
  exists (file_meta f). split; [by apply fget_lookup|].
  split.
  { intros k. erewrite fget_free; [|reflexivity]. cbn.
    case_decide; [done|]. apply Hget. }
  cbn. repeat split; try done; rewrite <- Hrest; by destruct dL.
Qed.

(** scan_file_insert on the catalog: the file enters the list. *)
Lemma scan_file_insert_catalog (state state' : snapraid_state) (d d' : snapraid_disk)
    (h : nat) :
  scan_file_insert state d h = Ok (state', d') ->
  (forall k, fget d' k = fget d k) /\
  filelist d' = filelist d ++ [h] /\
  inodeset d' = inodeset d /\ pathset d' = pathset d /\
  disk_rest d' = disk_rest d /\
  state' = set_need_write true state.
Proof.
  unfold scan_file_insert. intros H.
  apply bind_Ok in H as (f & Hf & H).
  apply bind_Ok in H as ([[dL bm] bp] & Hloop & H). injection H as <- <-.
  assert (catalog_of dL = catalog_of d) as Hcat.
  { change (scan_file_insert_block (set_need_write true state) h)
      with (scan_file_insert_block state h) in Hloop.
    apply (for_loop_Ok_invariant (fun _ s => catalog_of s.1.1 = catalog_of d)
             _ _ _ _ _ Hloop); [done|].
    intros j [[dk bmk] bpk] [[dk' bmk'] bpk'] _ Hdk Hbody. simpl in *.
    rewrite <- Hdk. by eapply scan_file_insert_block_catalog. }
  set (d2 := if decide (blockmax f = 0%nat) then dL
             else set_first_free_block (wrap32 (bp + 1)) dL).
  assert (catalog_of d2 = catalog_of d) as Hcat2.
  { unfold d2. by destruct (decide (blockmax f = 0%nat)). }
  pose proof (fget_catalog _ _ Hcat2) as Hget.
  destruct (catalog_rest _ _ Hcat2) as (Hfl & His & Hps & Hrest).
  split. { intros k. rewrite <- Hget. by apply fget_same. }
  cbn. unfold tommy_insert_tail. rewrite Hfl.
  repeat split; try done; rewrite <- Hrest; by destruct d2.
Qed.

(** ** The ways of scan_file *)

Lemma marked_fields (st : stat) (f : snapraid_file) :
  file_sub (marked st f) = file_sub f /\
  file_size (marked st f) = file_size f /\
  file_mtime_sec (marked st f) = file_mtime_sec f /\
  file_inode (marked st f) = file_inode f /\
  file_is_present (marked st f) = true /\
  file_is_without_inode (marked st f) = file_is_without_inode f /\
  blockvec (marked st f) = blockvec f.
Proof.
  unfold marked. simpl.
  by destruct ((file_mtime_nsec f =? STAT_NSEC_INVALID)
               && negb (STAT_NSEC st =? STAT_NSEC_INVALID)).
Qed.

(** After the mark the stored nanoseconds are the ones of the entry. *)
Lemma marked_nsec (st : stat) (f : snapraid_file) :
  file_not_changed f st = true -> file_mtime_nsec (marked st f) = STAT_NSEC st.
Proof.
  unfold file_not_changed, marked. simpl. intros H.
  apply andb_true_iff in H as [_ H]. apply orb_true_iff in H.
  destruct (file_mtime_nsec f =? STAT_NSEC_INVALID) eqn:Hinv;
    destruct (STAT_NSEC st =? STAT_NSEC_INVALID) eqn:Hst; simpl.
  - apply Z.eqb_eq in Hinv, Hst. congruence.
  - done.
  - destruct H as [H|H]; [by apply Z.eqb_eq in H|done].
  - destruct H as [H|H]; [by apply Z.eqb_eq in H|done].
Qed.

Lemma file_not_changed_fields (f : snapraid_file) (st : stat) :
  file_not_changed f st = true ->
  file_size f = st_size st /\ file_mtime_sec f = st_mtime st.
Proof.
  unfold file_not_changed. intros H.
  apply andb_true_iff in H as [H _]. apply andb_true_iff in H as [H1 H2].
  by apply Z.eqb_eq in H1, H2.
Qed.

Lemma set_file_sub_id (f : snapraid_file) : set_file_sub (file_sub f) f = f.
Proof. by destruct f. Qed.

Lemma update_mtime_nsec_marked (state : snapraid_state) (disk : snapraid_disk)
    (file : nat) (st : stat) (f : snapraid_file) :
  files disk !! file = Some (Some (set_file_is_present true f)) ->
  exists state',
    update_mtime_nsec state disk file st
    = Ok (state', set_files (<[file := Some (marked st f)]> (files disk)) disk) /\
    state_rest state' = state_rest state.
Proof.
  intros Hf. destruct (update_mtime_nsec_lookup state _ _ st _ Hf)
    as (state' & f' & Hrun & Hcase).
  exists state'. unfold marked.
  destruct ((file_mtime_nsec (set_file_is_present true f) =? STAT_NSEC_INVALID)
            && negb (STAT_NSEC st =? STAT_NSEC_INVALID));
    destruct Hcase as [-> ->]; done.
Qed.

(** The search by inode returns: the entry is a hardlink to a file that is
    marked present, or the file found, which matches, is marked and takes
    the path of the entry. *)
Lemma scan_file_inode_Return (scan scan' : snapraid_scan)
    (state state' : snapraid_state) (d d' : snapraid_disk) (sub : string) (st : stat) :
  scan_file_inode scan state d sub st = Ok (Return (scan', state', d')) ->
  exists h f,
    h ∈ inodeset d /\ files d !! h = Some (Some f) /\
    file_inode f = st_ino st /\ file_not_changed f st = true /\
    ((file_is_present f = true /\ 1 < st_nlink st /\
      scan_link scan state d sub (file_sub f) FILE_IS_HARDLINK
      = Ok (scan', state', d')) \/
     (file_is_present f = false /\
      files d' = <[h := Some (set_file_sub sub (marked st f))]> (files d) /\
      pathset d' ≡ₚ pathset d /\ inodeset d' = inodeset d /\
      filelist d' = filelist d /\ disk_rest d' = disk_rest d /\
      file_insert_list scan' = file_insert_list scan /\
      link_insert_list scan' = link_insert_list scan /\
      dir_insert_list scan' = dir_insert_list scan /\
      state_rest state' = state_rest state)).
Proof.
  unfold scan_file_inode. intros H.
  apply bind_Ok in H as (found & Hfound & H). destruct found as [h|]; [|discriminate].
  apply tommy_hashdyn_search_Some in Hfound as (Hin & f0 & Hf0 & Hino).
  apply Z.eqb_eq in Hino.
  apply bind_Ok in H as (f & Hf & H). apply heap_get_Ok in Hf.
  assert (f0 = f) as -> by congruence. clear Hf0.
  exists h, f. do 3 (split; [done|]).
  destruct (file_not_changed f st) eqn:Hmatch.
  - split; [done|]. destruct (file_is_present f) eqn:Hpresent.
    + left. destruct (st_nlink st >? 1) eqn:Hn; [|discriminate].
      apply bind_Ok in H as (r & Hr & H). injection H as ->.
      split; [done|]. split; [lia|done].
    + right. split; [done|].
      rewrite (file_store_lookup _ _ _ _ Hf) in H. cbn [bind] in H.
      pose proof (lookup_lt_Some _ _ _ Hf) as Hlt.
      edestruct (update_mtime_nsec_marked state
                   (set_files (<[h := Some (set_file_is_present true f)]> (files d)) d)
                   h st f) as (state2 & Hupd & Hst2).
      { simpl. by rewrite list_lookup_insert_eq. }
      rewrite Hupd in H. cbn [bind] in H. cbn [files set_files] in H.
      rewrite list_insert_insert_eq in H.
      destruct (bool_decide (file_sub f = sub)) eqn:Hsub; simpl in H.
      * apply bool_decide_eq_true in Hsub. injection H as <- <- <-.
        cbn. rewrite <- Hsub.
        replace (file_sub f) with (file_sub (marked st f))
          by apply marked_fields.
        rewrite set_file_sub_id. by destruct d.
      * apply bind_Ok in H as (ps & Hps & H).
        apply tommy_remove_existing_Ok_inv in Hps. cbn in Hps.
        erewrite file_store_lookup in H;
          [|simpl; by rewrite list_lookup_insert_eq].
        cbn [bind] in H. injection H as <- <- <-. cbn.
        rewrite list_insert_insert_eq.
        apply remove_first_Some in Hps.
        split; [done|]. split.
        { unfold tommy_insert_tail. rewrite Hps.
          by rewrite <- Permutation_cons_append. }
        by destruct d.
  - destruct (file_is_present f); [discriminate|].
    apply bind_Ok in H as (? & _ & H). apply bind_Ok in H as (? & _ & H).
    apply bind_Ok in H as (? & _ & H). discriminate.
Qed.

(** The search by name. *)
Lemma scan_file_path_Ok (scan : snapraid_scan) (state : snapraid_state)
    (d : snapraid_disk) (sub : string) (st : stat) (fl : flow scan_ctx) :
  scan_file_path scan state d sub st = Ok fl ->
  (tommy_hashdyn_search (files d) (fun f => bool_decide (file_sub f = sub)) (pathset d)
   = Ok None /\
   fl = Continue (set_count_insert (incr (count_insert scan)) scan, state, d)) \/
  (exists q f dp fp,
     q ∈ pathset d /\ files d !! q = Some (Some f) /\ file_sub f = sub /\
     file_is_present f = false /\
     scan_file_path_inode d q sub st = Ok dp /\
     files dp !! q = Some (Some fp) /\
     ((file_not_changed f st = true /\
       exists scan' state' d',
         fl = Return (scan', state', d') /\
         files d'
         = <[q := Some (if has_not_persistent_inodes dp then marked st fp
                        else set_file_inode (st_ino st) (marked st fp))]> (files dp) /\
         inodeset d' ≡ₚ inodeset dp /\ pathset d' = pathset dp /\
         filelist d' = filelist dp /\ disk_rest d' = disk_rest dp /\
         file_insert_list scan' = file_insert_list scan /\
         link_insert_list scan' = link_insert_list scan /\
         dir_insert_list scan' = dir_insert_list scan /\
         state_rest state' = state_rest state) \/
      (file_not_changed f st = false /\
       exists state2 d2,
         scan_file_remove state dp q = Ok (state2, d2) /\
         fl = Continue (set_count_change (incr (count_change scan)) scan, state2, d2)))).
Proof.
  unfold scan_file_path. intros H.
  apply bind_Ok in H as (found & Hfound & H). destruct found as [q|].
  2:{ left. injection H as <-. done. }
  right.
  apply tommy_hashdyn_search_Some in Hfound as (Hin & f0 & Hf0 & Hsub).
  apply bool_decide_eq_true in Hsub.
  apply bind_Ok in H as (f & Hf & H). apply heap_get_Ok in Hf.
  assert (f0 = f) as -> by congruence. clear Hf0.
  apply bind_Ok in H as (dp & Hdp & H).
  destruct (file_is_present f) eqn:Hpresent; [discriminate|].
  assert (exists fp, files dp !! q = Some (Some fp) /\
            file_is_present fp = false) as (fp & Hfp & Hpfp).
  { destruct (scan_file_path_inode_Ok _ _ _ _ _ _ Hf Hdp) as [[_ ->]|(_ & _ & ->)].
    - eexists. split; [simpl; apply list_lookup_insert_eq; by eapply lookup_lt_Some|].
      done.
    - eauto. }
  exists q, f, dp, fp. do 6 (split; [done|]).
  destruct (file_not_changed f st) eqn:Hmatch.
  - left. split; [done|].
    rewrite (file_store_lookup _ _ _ _ Hfp) in H. cbn [bind] in H.
    pose proof (lookup_lt_Some _ _ _ Hfp) as Hlt.
    edestruct (update_mtime_nsec_marked state
                 (set_files (<[q := Some (set_file_is_present true fp)]> (files dp)) dp)
                 q st fp) as (state2 & Hupd & Hst2).
    { simpl. by rewrite list_lookup_insert_eq. }
    rewrite Hupd in H. cbn [bind] in H. cbn [files set_files] in H.
    rewrite list_insert_insert_eq in H.
    change (has_not_persistent_inodes (set_files _ (set_files _ dp)))
      with (has_not_persistent_inodes dp) in H.
    destruct (has_not_persistent_inodes dp) eqn:Hnp; simpl in H.
    + injection H as <-. do 3 eexists. split; [done|]. cbn. by destruct dp.
    + apply bind_Ok in H as (ins & Hins & H).
      apply tommy_remove_existing_Ok_inv in Hins. cbn in Hins.
      erewrite file_store_lookup in H;
        [|simpl; by rewrite list_lookup_insert_eq].
      cbn [bind] in H. injection H as <-. do 3 eexists. split; [done|]. cbn.
      rewrite list_insert_insert_eq. apply remove_first_Some in Hins.
      split; [done|]. split.
      { unfold tommy_insert_tail. rewrite Hins.
        by rewrite <- Permutation_cons_append. }
      by destruct dp.
  - right. split; [done|].
    destruct (negb (file_size f =? 0) && (st_size st =? 0) && negb (opt_force_zero state));
      [discriminate|].
    apply bind_Ok in H as ([state2 d2] & Hrem & H). injection H as <-. eauto.
Qed.

(** ** The invariant of the walk through scan_file *)

Lemma disk_rest_fields (d d' : snapraid_disk) :
  disk_rest d' = disk_rest d ->
  disk_name d' = disk_name d /\ disk_device d' = disk_device d /\
  has_not_persistent_inodes d' = has_not_persistent_inodes d /\
  links d' = links d /\ linklist d' = linklist d /\ linkset d' = linkset d /\
  dirs d' = dirs d /\ dirlist d' = dirlist d /\ dirset d' = dirset d.
Proof. unfold disk_rest. intros [= -> _ -> -> -> -> -> -> -> ->]. done. Qed.

Lemma disk_rest_dir (d d' : snapraid_disk) :
  disk_rest d' = disk_rest d -> disk_dir d' = disk_dir d.
Proof. unfold disk_rest. by intros [= _ -> _]. Qed.

(** An event that writes files only and marks the file [h]. *)
Lemma scanned_file_step (d d' : snapraid_disk) (scan scan' : snapraid_scan)
    (evs : list event) (t : list mark) (sub : string) (st : stat) (ph : Z) (h : nat) :
  scanning scan d evs t ->
  disk_rest d' = disk_rest d ->
  link_insert_list scan' = link_insert_list scan ->
  dir_insert_list scan' = dir_insert_list scan ->
  files_wf d' (filelist d' ++ file_insert_list scan') ->
  obj_step file_is_present (fget d) (fget d')
    (filelist d ++ file_insert_list scan) (filelist d' ++ file_insert_list scan') [h] ->
  file_has true d' h sub st ->
  h ∈ filelist d' ++ file_insert_list scan' ->
  (forall k, k ∈ file_insert_list scan' -> k ∈ file_insert_list scan \/ k = h) ->
  (forall k, k ∈ inodeset d' -> k ∈ inodeset d \/ k = h) ->
  scanning scan' d' (evs ++ [EvFile sub st ph]) (t ++ [MFile h]).
Proof.
  intros Hsc Hrest Hll Hdl Hwf Hstep Hhas Hin Hpend Hinodes.
  pose proof Hsc as [_ Hlw Hdw _ _ _ _ _ _ _ _ _].
  destruct (disk_rest_fields _ _ Hrest)
    as (_ & _ & Hnp & Hlinks & Hlinklist & Hlinkset & Hdirs & Hdirlist & Hdirset).
  unfold scanning. rewrite Hll, Hdl.
  eapply scanned_step; [exact Hsc|..]; simpl; try done.
  - by eapply links_wf_same.
  - by eapply dirs_wf_same.
  - by apply link_step_same.
  - by apply dir_step_same.
  - by intros ? [= <-].
  - intros k Hk. destruct (Hpend k Hk) as [?| ->]; auto.
  - auto.
  - auto.
  - intros Hflag k Hk. rewrite Hnp in Hflag.
    destruct (Hinodes k Hk) as [?| ->]; auto.
Qed.

(** The search by inode goes on to the search by name. *)
Lemma scan_file_inode_Continue_mid (scan scan1 : snapraid_scan)
    (state state1 : snapraid_state) (d d1 : snapraid_disk) (sub : string) (st : stat)
    (dom : list nat) :
  scan_file_inode scan state d sub st = Ok (Continue (scan1, state1, d1)) ->
  files_wf d dom ->
  scan1 = scan /\ state1 = state /\ filelist d1 = filelist d /\
  file_mid d d1 dom dom (st_ino st).
Proof.
  intros H Hwf. apply scan_file_inode_Continue in H as (-> & -> & H).
  do 2 (split; [done|]).
  destruct H as [[Hnone ->]|(p & f & ins & Hsome & Hf & Hmatch & Hpresent & Hins & ->)].
  - split; [done|]. split; [done|apply obj_step_refl| |done|done].
    intros g n Hg Hn.
    destruct (tommy_hashdyn_search_None _ _ _ Hnone g Hg) as (a & Ha & Hino).
    rewrite (fget_lookup _ _ _ Ha) in Hn. injection Hn as <-.
    by apply Z.eqb_neq in Hino.
  - split; [done|].
    apply tommy_hashdyn_search_Some in Hsome as (Hp & a & Ha & Hino).
    assert (a = f) as -> by congruence. apply Z.eqb_eq in Hino.
    pose proof (lookup_lt_Some _ _ _ Hf) as Hlt.
    pose proof (fw_inode_nodup _ _ Hwf) as Hnd.
    destruct (remove_first_NoDup _ _ _ Hins Hnd) as [_ Hmem].
    match goal with
    | |- file_mid _ ?d1 _ _ _ => epose proof (fget_insert d d1 p _ eq_refl Hlt) as Hget
    end.
    split.
    + eapply files_wf_detach;
        [exact Hwf|by apply fget_lookup|exact Hget|done|exact Hins|done].
    + eapply obj_step_write; [exact Hget|by apply fget_lookup|done..].
    + intros g n [Hg Hne]%Hmem. rewrite Hget, decide_False by done. intros Hn Heq.
      apply Hne. eapply (fw_unique _ _ Hwf g p); [done..|by apply fget_lookup|].
      simpl. congruence.
    + by intros g [Hg _]%Hmem.
    + done.
Qed.

(** The file found by name takes the inode of the entry if it has none. *)
Lemma scan_file_path_inode_mid (d d1 dp : snapraid_disk) (dom dom1 : list nat)
    (q : nat) (f : snapraid_file) (sub : string) (st : stat) :
  file_mid d d1 dom dom1 (st_ino st) ->
  q ∈ pathset d1 -> files d1 !! q = Some (Some f) -> file_is_present f = false ->
  scan_file_path_inode d1 q sub st = Ok dp ->
  files_wf dp dom1 /\
  obj_step file_is_present (fget d) (fget dp) dom dom1 [] /\
  filelist dp = filelist d1 /\ pathset dp = pathset d1 /\
  disk_rest dp = disk_rest d /\
  q ∈ inodeset dp /\
  files dp !! q
  = Some (Some (if file_is_without_inode f
                then set_file_is_without_inode false (set_file_inode (st_ino st) f)
                else f)) /\
  (forall g n, g ∈ inodeset dp -> g <> q -> fget dp g = Some n ->
     file_inode n <> st_ino st) /\
  (forall g, g ∈ inodeset dp -> g <> q -> g ∈ inodeset d) /\
  (file_is_without_inode f = false -> q ∈ inodeset d1).
Proof.
  intros [Hwf Hstep Hfresh Hinodes Hrest] Hq Hf Hpresent Hdp.
  assert (q ∈ dom1) as Hqdom by by rewrite <- (fw_path _ _ Hwf).
  pose proof (lookup_lt_Some _ _ _ Hf) as Hlt.
  destruct (scan_file_path_inode_Ok _ _ _ _ _ _ Hf Hdp)
    as [[Hwi ->]|(Hwi & Hne & ->)]; rewrite Hwi.
  - match goal with
    | |- files_wf ?dp _ /\ _ => epose proof (fget_insert d1 dp q _ eq_refl Hlt) as Hget
    end.
    split; [|split; [|split; [done|split; [done|split; [done|split; [|split]]]]]].
    + eapply files_wf_attach;
        [exact Hwf|done|by apply fget_lookup|done|exact Hget|done| |done|done].
      simpl. intros g n. apply Hfresh.
    + rewrite <- (app_nil_r []). eapply obj_step_trans; [exact Hstep|].
      eapply obj_step_write; [exact Hget|by apply fget_lookup|done..].
    + simpl. rewrite elem_of_app, list_elem_of_singleton. by right.
    + simpl. by apply list_lookup_insert_eq.
    + split; [|split].
      * simpl. intros g n [Hg| ->%list_elem_of_singleton]%elem_of_app Hgq; [|done].
        rewrite Hget, decide_False by done. by apply Hfresh.
      * simpl. intros g [Hg| ->%list_elem_of_singleton]%elem_of_app Hgq; [auto|done].
      * done.
  - assert (q ∈ inodeset d1) as Hqin.
    { apply (fw_inode _ _ Hwf). split; [done|]. eexists.
      split; [by apply fget_lookup|done]. }
    do 7 (split; [done|]). split; [|split; [|done]].
    + intros g n Hg _. by apply Hfresh.
    + intros g Hg _. by apply Hinodes.
Qed.

(** The file [h], which was not marked present, is marked and holds what the
    entry shows. *)
Lemma scan_file_mark_scanning (scan scan' : snapraid_scan) (d dx d' : snapraid_disk)
    (evs : list event) (t : list mark) (sub : string) (st : stat) (ph : Z)
    (h : nat) (fx f' : snapraid_file) :
  scanning scan d evs t ->
  files_wf dx (filelist dx ++ file_insert_list scan) ->
  obj_step file_is_present (fget d) (fget dx)
    (filelist d ++ file_insert_list scan) (filelist dx ++ file_insert_list scan) [] ->
  disk_rest dx = disk_rest d ->
  (forall g, g ∈ inodeset dx -> g <> h -> g ∈ inodeset d) ->
  (forall g n, g ∈ inodeset dx -> g <> h -> fget dx g = Some n ->
     file_inode n <> st_ino st) ->
  h ∈ inodeset dx -> files dx !! h = Some (Some fx) -> file_is_present fx = false ->
  files d' = <[h := Some f']> (files dx) ->
  inodeset d' ≡ₚ inodeset dx -> pathset d' ≡ₚ pathset dx ->
  filelist d' = filelist dx -> disk_rest d' = disk_rest dx ->
  file_insert_list scan' = file_insert_list scan ->
  link_insert_list scan' = link_insert_list scan ->
  dir_insert_list scan' = dir_insert_list scan ->
  file_has true d' h sub st ->
  scanning scan' d' (evs ++ [EvFile sub st ph]) (t ++ [MFile h]).
Proof.
  intros Hsc Hwf Hstep Hrest Hinodes Hfresh Hh Hfx Hpx Hfiles His Hps Hfl Hrest'
    Hfil Hlil Hdil Hhas.
  pose proof (lookup_lt_Some _ _ _ Hfx) as Hlt.
  pose proof (fget_insert dx d' h f' Hfiles Hlt) as Hget.
  destruct (files_wf_attached _ _ _ Hwf Hh) as (Hdom & mx & Hmx & Hwx).
  destruct Hhas as (m' & Hm' & Hp' & Hwi' & Hsub' & Hino' & Hrest'').
  assert (m' = file_meta f') as ->.
  { rewrite Hget, decide_True in Hm' by done. congruence. }
  eapply scanned_file_step; [exact Hsc|congruence|done|done|..].
  - rewrite Hfil, Hfl.
    eapply files_wf_change; [exact Hwf|exact Hmx|exact Hget|..|done|done].
    + congruence.
    + intros g n Hg Hne Hn. rewrite Hino'. by eapply Hfresh.
  - rewrite Hfil, Hfl. change [h] with ([] ++ [h]).
    eapply obj_step_trans; [exact Hstep|].
    eapply obj_step_update; [exact Hget|..]; try done.
    + intros (a & Ha & Hpa). rewrite (fget_lookup _ _ _ Hfx) in Ha.
      injection Ha as <-. simpl in Hpa. congruence.
    + intros _ _. left.
    + by intros k ->%list_elem_of_singleton.
  - exists (file_meta f'). rewrite Hget, decide_True by done. done.
  - by rewrite Hfil, Hfl.
  - rewrite Hfil. auto.
  - intros k. rewrite His. intros Hk.
    destruct (decide (k = h)); [by right|left; auto].
Qed.

(** The new file of an entry. *)
Lemma scan_file_new_scanning (scan scanx scan' : snapraid_scan)
    (statex state' : snapraid_state) (d dx d' : snapraid_disk)
    (evs : list event) (t : list mark) (sub : string) (st : stat) (ph : Z) :
  scanning scan d evs t ->
  file_mid d dx (filelist d ++ file_insert_list scan)
    (filelist dx ++ file_insert_list scan) (st_ino st) ->
  file_insert_list scanx = file_insert_list scan ->
  link_insert_list scanx = link_insert_list scan ->
  dir_insert_list scanx = dir_insert_list scan ->
  scan_file_new scanx statex dx sub st ph = Ok (scan', state', d') ->
  (exists h, scanning scan' d' (evs ++ [EvFile sub st ph]) (t ++ [MFile h])) /\
  disk_rest d' = disk_rest d /\ state' = statex.
Proof.
  intros Hsc [Hwf Hstep Hfresh Hinodes Hrest] Hfil Hlil Hdil Hnew.
  rewrite scan_file_new_spec in Hnew. injection Hnew as <- <- <-.
  set (h := length (files dx)).
  set (f' := set_file_is_present true
               (file_alloc (block_size statex) sub (st_size st) (st_mtime st)
                  (STAT_NSEC st) (st_ino st) ph)).
  set (d' := set_pathset _ _).
  destruct (fget_alloc dx d' f' eq_refl) as [Hnone Hget]. fold h in Hnone, Hget.
  split; [|split; [|done]].
  2:{ rewrite <- Hrest. by destruct dx. }
  exists h.
  eapply scanned_file_step; [exact Hsc|..]; cbn [d' file_insert_list
    set_file_insert_list link_insert_list dir_insert_list filelist set_pathset
    set_inodeset set_files inodeset]; rewrite ?Hfil; try done.
  - rewrite app_assoc.
    eapply files_wf_new; [exact Hwf|exact Hnone|exact Hget|done| |done|done].
    intros g n Hg Hn. simpl. by eapply Hfresh.
  - rewrite app_assoc. change [h] with ([] ++ [h]).
    eapply obj_step_trans; [exact Hstep|].
    eapply obj_step_update; [exact Hget|..].
    + intros (a & Ha & _). congruence.
    + intros k Hk _. apply elem_of_app. by left.
    + by intros k [Hk|Hk%list_elem_of_singleton]%elem_of_app Hne.
    + intros _ _. left.
    + by intros k ->%list_elem_of_singleton.
  - exists (file_meta f'). rewrite Hget, decide_True by done. done.
  - rewrite !elem_of_app, list_elem_of_singleton. auto.
  - intros k. rewrite elem_of_app, list_elem_of_singleton. tauto.
  - intros k. rewrite elem_of_app, list_elem_of_singleton.
    intros [Hk|Hk]; auto.
Qed.

(** The file found by name, which does not match, is removed. *)
Lemma scan_file_remove_mid (state state2 : snapraid_state) (d dp d2 : snapraid_disk)
    (fp : list nat) (q : nat) (f : snapraid_file) (ino : Z) :
  files_wf dp (filelist dp ++ fp) ->
  obj_step file_is_present (fget d) (fget dp) (filelist d ++ fp) (filelist dp ++ fp) [] ->
  disk_rest dp = disk_rest d ->
  (forall g, g ∈ inodeset dp -> g <> q -> g ∈ inodeset d) ->
  (forall g n, g ∈ inodeset dp -> g <> q -> fget dp g = Some n -> file_inode n <> ino) ->
  q ∈ inodeset dp -> files dp !! q = Some (Some f) -> file_is_present f = false ->
  scan_file_remove state dp q = Ok (state2, d2) ->
  file_mid d d2 (filelist d ++ fp) (filelist d2 ++ fp) ino /\
  state2 = set_need_write true state.
Proof.
  intros Hwf Hstep Hrest Hinodes Hfresh Hq Hf Hpf Hrem.
  apply scan_file_remove_catalog in Hrem
    as (m & Hm & Hget & Hfl & Hps & His & Hrest2 & ->).
  split; [|done].
  destruct (files_wf_attached _ _ _ Hwf Hq) as (Hdom & m' & Hm' & Hwi).
  assert (m' = m) as -> by congruence. rewrite Hwi in His.
  pose proof (remove_first_Some _ _ _ Hfl) as Hperm.
  assert (filelist dp ++ fp ≡ₚ q :: (filelist d2 ++ fp)) as Hdomperm
    by by rewrite Hperm.
  pose proof (fw_nodup _ _ Hwf) as Hnd. rewrite Hdomperm in Hnd.
  apply NoDup_cons in Hnd as [Hqnot _].
  destruct (remove_first_NoDup _ _ _ His (fw_inode_nodup _ _ Hwf)) as [_ Hmem].
  split.
  - eapply files_wf_remove; [exact Hwf|exact Hm|exact Hget|done|done|].
    by rewrite Hwi.
  - rewrite <- (app_nil_r []). eapply obj_step_trans; [exact Hstep|].
    eapply obj_step_update; [exact Hget|..].
    + intros (a & Ha & Hpa). rewrite (fget_lookup _ _ _ Hf) in Ha.
      injection Ha as <-. simpl in Hpa. congruence.
    + intros k. rewrite Hdomperm, elem_of_cons. by intros [?|?].
    + intros k Hk _. rewrite Hdomperm. by right.
    + by intros Hc.
    + by intros k ?%elem_of_nil.
  - intros g n [Hg Hne]%Hmem. rewrite Hget, decide_False by done. by apply Hfresh.
  - intros g [Hg Hne]%Hmem. by apply Hinodes.
  - congruence.
Qed.

Lemma env_of_rest (state state' : snapraid_state) (d d' : snapraid_disk) :
  state_rest state' = state_rest state -> disk_rest d' = disk_rest d ->
  env_of state' d' = env_of state d.
Proof.
  intros Hst Hrest. destruct (disk_rest_fields _ _ Hrest) as (? & ? & ? & _).
  apply env_of_eq; [done..|by apply disk_rest_dir|done|done].
Qed.


(** scan_file keeps the invariant of the walk: it marks one file, or the
    link of a hardlink. *)
Lemma scan_file_scanning (scan scan' : snapraid_scan) (state state' : snapraid_state)
    (d d' : snapraid_disk) (sub : string) (st : stat) (ph : Z)
    (evs : list event) (t : list mark) :
  scanning scan d evs t ->
  scan_file scan state d sub st ph = Ok (scan', state', d') ->
  (exists mk, scanning scan' d' (evs ++ [EvFile sub st ph]) (t ++ [mk])) /\
  env_of state' d' = env_of state d.
Proof.
  intros Hsc H. pose proof Hsc as [Hwf _ _ _ _ Hmf _ _ _ _ _ Hnp].
  unfold scan_file in H. apply bind_Ok in H as (by_inode & Hinode & H).
  destruct by_inode as [[[scan1 state1] d1]|[[scan1 state1] d1]].
  - injection H as -> -> ->.
    apply scan_file_inode_Return in Hinode
      as (h & f & Hh & Hf & Hino & Hmatch &
          [(Hp & Hn & Hlink)|(Hp & Hfiles & Hps & His & Hfl & Hrest & Hfil & Hlil &
                               Hdil & Hst)]).
    + (* a hardlink *)
      destruct (files_wf_attached _ _ _ Hwf Hh) as (Hdom & m & Hm & Hwi).
      rewrite (fget_lookup _ _ _ Hf) in Hm. injection Hm as <-.
      edestruct (scan_link_scanning scan scan' state state' d d' sub (file_sub f)
                   FILE_IS_HARDLINK evs t (EvFile sub st ph) (MHard h))
        as [(l & Hsc') Henv]; [exact Hsc|exact Hlink|done|..|eauto].
      * intros l Hget Hhas. simpl. exists (file_meta f).
        rewrite Hget. split; [by apply fget_lookup|]. done.
      * intros l h' l' [= <- _]. apply (om_iff _ _ _ _ Hmf). split; [done|].
        exists (file_meta f). split; [by apply fget_lookup|done].
    + (* the file found by inode *)
      split; [|by apply env_of_rest].
      destruct (files_wf_attached _ _ _ Hwf Hh) as (Hdom & m & Hm & Hwi).
      rewrite (fget_lookup _ _ _ Hf) in Hm. injection Hm as <-.
      exists (MFile h).
      eapply (scan_file_mark_scanning scan scan' d d d');
        [exact Hsc|exact Hwf|apply obj_step_refl|done|auto| |exact Hh|exact Hf|
         exact Hp|exact Hfiles|by rewrite His|done..|].
      * rewrite <- Hino. intros g n Hg Hne Hn.
        eapply (files_wf_others _ _ h (file_meta f));
          [exact Hwf|done|by apply fget_lookup|done..].
      * exists (file_meta (set_file_sub sub (marked st f))).
        split.
        { erewrite fget_insert; [|exact Hfiles|by eapply lookup_lt_Some].
          by rewrite decide_True. }
        destruct (marked_fields st f) as (_ & Hsz & Hmt & Hi & Hpr & Hw & _).
        destruct (file_not_changed_fields _ _ Hmatch) as [Hsize Hmtime].
        pose proof (marked_nsec _ _ Hmatch) as Hnsec.
        simpl in *. repeat split; congruence.
  - apply scan_file_inode_Continue_mid with (dom := filelist d ++ file_insert_list scan)
      in Hinode as (-> & -> & Hfl1 & Hmid); [|exact Hwf].
    apply bind_Ok in H as (by_path & Hpath & H).
    apply scan_file_path_Ok in Hpath
      as [[Hnone ->]|(q & f & dp & fp & Hq & Hf & Hsub & Hpf & Hdp & Hfp & Hcase)].
    + (* a new file *)
      rewrite <- Hfl1 in Hmid at 2.
      eapply scan_file_new_scanning in H as ((h & Hex) & Hrest & ->);
        [|exact Hsc|exact Hmid|done..].
      split; [eauto|]. by apply env_of_rest.
    + pose proof Hmid as [_ Hstep1 _ Hinodes1 _].
      rewrite <- Hfl1 in Hmid at 2.
      destruct (scan_file_path_inode_mid _ _ _ _ _ _ _ _ _ Hmid Hq Hf Hpf Hdp)
        as (Hwfp & Hstepp & Hflp & Hpsp & Hrestp & Hqp & Hfp' & Hfreshp & Hinodesp & Hwas).
      rewrite <- Hflp in Hwfp, Hstepp.
      assert (file_is_present fp = false /\ file_sub fp = sub /\
              file_size fp = file_size f /\ file_mtime_sec fp = file_mtime_sec f /\
              file_not_changed fp st = file_not_changed f st /\
              file_is_without_inode fp = false /\
              (file_is_without_inode f = true -> file_inode fp = st_ino st))
        as (Hpfp & Hsubp & Hszp & Hmtp & Hncp & Hwip & Hinop).
      { rewrite Hfp in Hfp'. injection Hfp' as ->.
        destruct (file_is_without_inode f) eqn:Hwif; done. }
      destruct Hcase as [(Hmatch & scan2 & state2 & d2 & -> & Hfiles & His & Hps &
                          Hfl & Hrest & Hfil & Hlil & Hdil & Hst)
                        |(Hmatch & state2 & d2 & Hrem & ->)].
      * (* the file found by name matches *)
        injection H as -> -> ->.
        split; [|apply env_of_rest; congruence].
        exists (MFile q).
        eapply (scan_file_mark_scanning scan scan' d dp d');
          [exact Hsc|exact Hwfp|exact Hstepp|done|exact Hinodesp|exact Hfreshp|
           exact Hqp|exact Hfp|exact Hpfp|exact Hfiles|done|by rewrite Hps|done..|].
        eexists. split.
        { erewrite fget_insert; [|exact Hfiles|by eapply lookup_lt_Some].
          by rewrite decide_True. }
        rewrite <- Hncp in Hmatch.
        destruct (marked_fields st fp) as (Hsb & Hsz & Hmt & Hi & Hpr & Hw & _).
        destruct (file_not_changed_fields _ _ Hmatch) as [Hsize Hmtime].
        pose proof (marked_nsec _ _ Hmatch) as Hnsec.
        destruct (has_not_persistent_inodes dp) eqn:Hnpp.
        -- assert (file_inode fp = st_ino st) as Hinofp.
           { destruct (file_is_without_inode f) eqn:Hwif; [auto|]. exfalso.
             specialize (Hwas eq_refl). apply Hinodes1 in Hwas.
             destruct (disk_rest_fields _ _ Hrestp) as (_ & _ & Hnpd & _).
             rewrite Hnpp in Hnpd. symmetry in Hnpd.
             apply (Hnp Hnpd) in Hwas.
             apply (om_iff _ _ _ _ Hmf) in Hwas as [_ (a & Ha & Hpa)].
             pose proof (os_frozen _ _ _ _ _ _ Hstep1 _ _ Ha Hpa) as Ha1.
             rewrite (fget_lookup _ _ _ Hf) in Ha1. injection Ha1 as <-.
             simpl in Hpa. congruence. }
           simpl in *. repeat split; congruence.
        -- simpl in *. repeat split; congruence.
      * (* the file found by name is replaced *)
        eapply scan_file_remove_mid in Hrem as [Hmid2 ->];
          [|exact Hwfp|exact Hstepp|done|exact Hinodesp|exact Hfreshp|exact Hqp|
           exact Hfp|exact Hpfp].
        eapply scan_file_new_scanning in H as ((h & Hex) & Hrest & ->);
          [|exact Hsc|exact Hmid2|done..].
        split; [eauto|]. by apply env_of_rest.
Qed.

(** ** The invariant of the walk through the events *)

Lemma scan_event_scanning (ev : event) (scan scan' : snapraid_scan)
    (state state' : snapraid_state) (d d' : snapraid_disk)
    (evs : list event) (t : list mark) :
  scanning scan d evs t ->
  scan_event ev (scan, state, d) = Ok (scan', state', d') ->
  (exists mk, scanning scan' d' (evs ++ [ev]) (t ++ [mk])) /\
  env_of state' d' = env_of state d.
Proof.
  intros Hsc H. destruct ev as [sub st ph|sub linkto|sub]; simpl in H.
  - by eapply scan_file_scanning.
  - edestruct (scan_link_scanning scan scan' state state' d d' sub linkto
                 FILE_IS_SYMLINK evs t (EvLink sub linkto) MSym)
      as [(l & Hsc') Henv]; [exact Hsc|exact H|done|done|done|eauto].
  - destruct (scan_emptydir_scanning _ _ _ _ _ _ _ _ _ Hsc H) as [(dh & Hsc') Henv].
    eauto.
Qed.

Lemma scan_events_scanning (evs : list event) :
  forall (scan scan' : snapraid_scan) (state state' : snapraid_state)
    (d d' : snapraid_disk) (evs0 : list event) (t0 : list mark),
  scanning scan d evs0 t0 ->
  scan_events evs (scan, state, d) = Ok (scan', state', d') ->
  (exists t, scanning scan' d' (evs0 ++ evs) (t0 ++ t)) /\
  env_of state' d' = env_of state d.
Proof.
  induction evs as [|ev evs IH]; intros scan scan' state state' d d' evs0 t0 Hsc H.
  - injection H as <- <- <-. split; [|done]. exists []. by rewrite !app_nil_r.
  - simpl in H. apply bind_Ok in H as ([[scan1 state1] d1] & Hev & H).
    destruct (scan_event_scanning _ _ _ _ _ _ _ _ _ Hsc Hev) as [(mk & Hsc1) Henv1].
    destruct (IH _ _ _ _ _ _ _ _ Hsc1 H) as [(t & Hsc') Henv].
    split; [|congruence]. exists (mk :: t).
    by rewrite (cons_middle ev), (cons_middle mk), !app_assoc.
Qed.

Lemma scan_events_app (evs1 evs2 : list event) (ctx : scan_ctx) :
  scan_events (evs1 ++ evs2) ctx = (do ctx <- scan_events evs1 ctx; scan_events evs2 ctx).
Proof.
  revert ctx. induction evs1 as [|ev evs1 IH]; intros ctx; simpl; [done|].
  destruct (scan_event ev ctx) as [ctx1|e]; simpl; [apply IH|done].
Qed.

(** The events leave what the walk reads as it is. *)
Lemma scan_events_env (evs : list event) :
  forall (scan scan' : snapraid_scan) (state state' : snapraid_state)
    (d d' : snapraid_disk) (evs0 : list event) (t0 : list mark),
  scanning scan d evs0 t0 ->
  scan_events evs (scan, state, d) = Ok (scan', state', d') ->
  env_of state' d' = env_of state d.
Proof. intros. by eapply scan_events_scanning. Qed.

(** ** scan_dir is the walk followed by its events *)

Lemma dirent_nested_ind (P : dirent -> Prop) :
  (forall name ino ty lst phy tgt es,
     (forall l, es = Some l -> Forall P l) ->
     P (Dirent name ino ty lst phy tgt es)) ->
  forall dd, P dd.
Proof.
  intros H. fix IH 1. intros [name ino ty lst phy tgt es].
  apply H. destruct es as [l|]; intros l' Heq; [|discriminate].
  injection Heq as <-. induction l as [|e l IHl]; constructor; [apply IH|apply IHl].
Qed.

Section ReadSort.
Context (flt : snapraid_filter) (dir : string).

(** The entries scan_dir_read keeps do not depend on what they carry. *)
Lemma scan_dir_read_map (l : list dirent) :
  (exists e, forall A (F : dirent -> A),
      scan_dir_read flt dir (map (fun x => (x, F x)) l) = Err e) \/
  (exists l', (forall x, x ∈ l' -> x ∈ l) /\
     forall A (F : dirent -> A),
       scan_dir_read flt dir (map (fun x => (x, F x)) l)
       = Ok (map (fun x => (x, F x)) l')).
Proof.
  induction l as [|dd l IH]; simpl.
  - right. exists []. split; [done|]. done.
  - destruct (bool_decide (d_name dd = ".") || bool_decide (d_name dd = "..")).
    { destruct IH as [(e & He)|(l' & Hsub & Hl')]; [left; eauto|right].
      exists l'. split; [|done]. intros x Hx. right. auto. }
    destruct (bool_decide (d_name dd = "")).
    { left. eexists. done. }
    destruct (filter_hidden flt (d_name dd)).
    { destruct IH as [(e & He)|(l' & Hsub & Hl')]; [left; eauto|right].
      exists l'. split; [|done]. intros x Hx. right. auto. }
    destruct (filter_content flt (dir +:+ d_name dd)).
    { destruct IH as [(e & He)|(l' & Hsub & Hl')]; [left; eauto|right].
      exists l'. split; [|done]. intros x Hx. right. auto. }
    destruct IH as [(e & He)|(l' & Hsub & Hl')].
    + left. exists e. intros A F. by rewrite He.
    + right. exists (dd :: l'). split.
      * intros x [->|Hx]%elem_of_cons; [left|right; auto].
      * intros A F. by rewrite Hl'.
Qed.

End ReadSort.

Lemma insert_sorted_map {A B} (f : A -> B) (le : A -> A -> bool) (le' : B -> B -> bool)
    (x : A) (l : list A) :
  (forall a b, le' (f a) (f b) = le a b) ->
  insert_sorted le' (f x) (map f l) = map f (insert_sorted le x l).
Proof.
  intros Hle. induction l as [|y l IH]; simpl; [done|].
  rewrite Hle. destruct (le x y); simpl; [done|]. by rewrite IH.
Qed.

Lemma tommy_list_sort_map {A B} (f : A -> B) (le : A -> A -> bool)
    (le' : B -> B -> bool) (l : list A) :
  (forall a b, le' (f a) (f b) = le a b) ->
  tommy_list_sort le' (map f l) = map f (tommy_list_sort le l).
Proof.
  intros Hle. unfold tommy_list_sort. induction l as [|y l IH]; simpl; [done|].
  rewrite IH. by apply insert_sorted_map.
Qed.

Lemma insert_sorted_perm {A} (le : A -> A -> bool) (x : A) (l : list A) :
  insert_sorted le x l ≡ₚ x :: l.
Proof.
  induction l as [|y l IH]; simpl; [done|].
  destruct (le x y); [done|]. rewrite IH. apply Permutation_swap.
Qed.

Lemma tommy_list_sort_perm {A} (le : A -> A -> bool) (l : list A) :
  tommy_list_sort le l ≡ₚ l.
Proof.
  unfold tommy_list_sort. induction l as [|y l IH]; simpl; [done|].
  by rewrite insert_sorted_perm, IH.
Qed.

Section Follows.
Context (flt : snapraid_filter) (env : walk_env).

Lemma follows_skip (scan : snapraid_scan) (state : snapraid_state) (d : snapraid_disk)
    (ctx' : scan_ctx) (p : bool) :
  @Ok (scan_ctx * bool) (scan, state, d, false) = Ok (ctx', p) <->
  exists evs, @Ok (list event * bool) ([], false) = Ok (evs, p) /\
    scan_events evs (scan, state, d) = Ok ctx'.
Proof.
  split.
  - intros [= <- <-]. by exists [].
  - by intros (evs & [= <- <-] & [= <-]).
Qed.

Lemma follows_err (e : error) (ctx ctx' : scan_ctx) (p : bool) :
  @Err (scan_ctx * bool) e = Ok (ctx', p) <->
  exists evs, @Err (list event * bool) e = Ok (evs, p) /\ scan_events evs ctx = Ok ctx'.
Proof. split; [discriminate|]. by intros (evs & [=] & _). Qed.

Lemma follows_leaf (ev : event) (ctx ctx' : scan_ctx) (p : bool) :
  (do r <- scan_event ev ctx; Ok (r, true)) = Ok (ctx', p) <->
  exists evs, @Ok (list event * bool) ([ev], true) = Ok (evs, p) /\
    scan_events evs ctx = Ok ctx'.
Proof.
  split.
  - intros H. apply bind_Ok in H as (r & Hr & [= <- <-]). exists [ev].
    split; [done|]. simpl. by rewrite Hr.
  - intros (evs & [= <- <-] & Hev). simpl in Hev.
    apply bind_Ok in Hev as (r & Hr & [= <-]). by rewrite Hr.
Qed.

(** The second loop of scan_dir. *)
Lemma scan_dir_process_follows (sa : dirent -> scan_action) (wa : dirent -> walk_action)
    (l : list dirent) :
  (forall e, e ∈ l -> follows env (sa e) (wa e)) ->
  forall processed scan state d dir sub evs0 t0 ctx' p,
    scanning scan d evs0 t0 -> env_of state d = env ->
    scan_dir_process (map (fun e => (e, sa e)) l) scan state d dir sub processed
    = Ok (ctx', p) <->
    exists evs,
      walk_process (map (fun e => (e, wa e)) l) dir sub processed = Ok (evs, p) /\
      scan_events evs (scan, state, d) = Ok ctx'.
Proof.
  induction l as [|e l IH]; intros Hall processed scan state d dir sub evs0 t0 ctx' p
    Hsc Henv; simpl.
  - split.
    + intros [= <- <-]. by exists [].
    + by intros (evs & [= <- <-] & [= <-]).
  - assert (follows env (sa e) (wa e)) as He by (apply Hall; left).
    assert (forall e', e' ∈ l -> follows env (sa e') (wa e')) as Hl
      by (intros e' He'; apply Hall; by right).
    split.
    + intros H. apply bind_Ok in H as ([[[scan1 state1] d1] p1] & Ha & H).
      apply (He _ _ _ _ _ _ _ _ _ Hsc Henv) in Ha as (evs1 & Hw1 & Hev1).
      destruct (scan_events_scanning _ _ _ _ _ _ _ _ _ Hsc Hev1) as [(t1 & Hsc1) Henv1].
      apply (IH Hl _ _ _ _ _ _ _ _ _ _ Hsc1) in H as (evs2 & Hw2 & Hev2); [|congruence].
      exists (evs1 ++ evs2). rewrite Hw1. cbn [bind]. rewrite Hw2. cbn [bind].
      split; [done|]. rewrite scan_events_app, Hev1. done.
    + intros (evs & Hw & Hev).
      apply bind_Ok in Hw as ([evs1 p1] & Hw1 & Hw).
      apply bind_Ok in Hw as ([evs2 p2] & Hw2 & [= <- <-]).
      rewrite scan_events_app in Hev.
      apply bind_Ok in Hev as ([[scan1 state1] d1] & Hev1 & Hev2).
      assert (sa e scan state d dir sub = Ok (scan1, state1, d1, p1)) as Ha.
      { apply (He _ _ _ _ _ _ _ _ _ Hsc Henv). eauto. }
      rewrite Ha. cbn [bind].
      destruct (scan_events_scanning _ _ _ _ _ _ _ _ _ Hsc Hev1) as [(t1 & Hsc1) Henv1].
      apply (IH Hl _ _ _ _ _ _ _ _ _ _ Hsc1); [congruence|]. eauto.
Qed.

(** scan_dir on the entries of a directory. *)
Lemma scan_dir_follows (sa : dirent -> scan_action) (wa : dirent -> walk_action)
    (es : option (list dirent)) :
  (forall l, es = Some l -> forall e, e ∈ l -> follows env (sa e) (wa e)) ->
  follows env
    (scan_dir flt match es with
                  | Some es => Some (map (fun e => (e, sa e)) es)
                  | None => None
                  end)
    (walk_dir flt env match es with
                      | Some es => Some (map (fun e => (e, wa e)) es)
                      | None => None
                      end).
Proof.
  intros Hall scan state d dir sub evs0 t0 ctx' p Hsc Henv.
  unfold scan_dir, walk_dir. destruct es as [l|]; [|apply follows_err].
  destruct (scan_dir_read_map flt dir l) as [(e & He)|(l' & Hsub & Hl')].
  - rewrite !He. apply follows_err.
  - rewrite !Hl'. cbn [bind].
    replace (we_not_persistent env) with (has_not_persistent_inodes d)
      by by rewrite <- Henv.
    destruct (negb (has_not_persistent_inodes d)).
    + rewrite !(tommy_list_sort_map _ (fun a b => d_ino a <=? d_ino b)) by done.
      eapply scan_dir_process_follows; [|done..].
      intros e' He'. apply (Hall l eq_refl), Hsub.
      by rewrite <- (tommy_list_sort_perm (fun a b => d_ino a <=? d_ino b) l').
    + eapply scan_dir_process_follows; [|done..].
      intros e' He'. by apply (Hall l eq_refl), Hsub.
Qed.

End Follows.

(** The body of the second loop follows the walk of the entry. *)
Lemma scan_dir_entry_follows (flt : snapraid_filter) (dd : dirent) :
  forall env, follows env (scan_dir_entry flt dd) (walk_entry flt env dd).
Proof.
  induction dd as [name ino ty lst phy tgt es IH] using dirent_nested_ind.
  intros env scan state d dir sub evs0 t0 ctx' p Hsc Henv.
  assert (follows env
            (scan_dir flt match es with
                          | Some es => Some (map (fun e => (e, scan_dir_entry flt e)) es)
                          | None => None
                          end)
            (walk_dir flt env
               match es with
               | Some es => Some (map (fun e => (e, walk_entry flt env e)) es)
               | None => None
               end)) as Hdir.
  { apply (scan_dir_follows flt env (scan_dir_entry flt) (walk_entry flt env)).
    intros l Hl e He. specialize (IH l Hl). rewrite Forall_forall in IH.
    by apply IH. }
  cbn [scan_dir_entry walk_entry].
  rewrite <- Henv. cbn [env_of we_name we_device we_order]. rewrite Henv.
  set (sub_next := sub +:+ name). set (path_next := dir +:+ name).
  match goal with
  | |- bind ?t ?k = _ <-> (exists evs, bind ?t ?k' = _ /\ _) =>
      assert (forall type, k type = Ok (ctx', p) <->
                exists evs, k' type = Ok (evs, p) /\
                  scan_events evs (scan, state, d) = Ok ctx') as Hinner
  end.
  { intros [| | |].
    - (* a regular file *)
      destruct (negb (filter_path flt (disk_name d) sub_next)); [|apply follows_skip].
      destruct lst as [st|]; [|apply follows_err]. cbn [bind].
      destruct (opt_force_order state), phy as [ph|]; cbn [bind];
        try apply follows_err;
        apply (follows_leaf (EvFile sub_next st _) (scan, state, d)).
    - (* a symbolic link *)
      destruct (negb (filter_path flt (disk_name d) sub_next)); [|apply follows_skip].
      destruct tgt as [target|]; [|apply follows_err]. cbn [bind].
      apply (follows_leaf (EvLink sub_next target) (scan, state, d)).
    - (* a directory *)
      destruct (negb (filter_dir flt (disk_name d) sub_next)); [|apply follows_skip].
      destruct lst as [st|]; [|apply follows_err]. cbn [bind].
      destruct (negb (st_dev st =? disk_device d)); [apply follows_skip|].
      split.
      + intros H. apply bind_Ok in H as ([[[scan1 state1] d1] p1] & Hx & H).
        apply (Hdir _ _ _ _ _ _ _ _ _ Hsc Henv) in Hx as (evs1 & Hw & Hev1).
        apply bind_Ok in H as (r & Hr & [= <- <-]).
        exists (if negb p1 then evs1 ++ [EvDir sub_next] else evs1).
        rewrite Hw. cbn [bind]. split; [done|].
        destruct p1; cbn [negb] in Hr |- *.
        * by injection Hr as <-.
        * rewrite scan_events_app, Hev1. cbn [bind scan_events scan_event].
          by rewrite Hr.
      + intros (evs & Hw & Hev).
        apply bind_Ok in Hw as ([evs1 p1] & Hw1 & [= <- <-]).
        destruct p1; cbn [negb] in Hev.
        * assert (scan_dir flt
                    match es with
                    | Some es => Some (map (fun e => (e, scan_dir_entry flt e)) es)
                    | None => None
                    end scan state d (path_next +:+ "/") (sub_next +:+ "/")
                  = Ok (ctx', true)) as Hx
            by (apply (Hdir _ _ _ _ _ _ _ _ _ Hsc Henv); eauto).
          rewrite Hx. cbn [bind]. by destruct ctx' as [[? ?] ?].
        * rewrite scan_events_app in Hev.
          apply bind_Ok in Hev as (ctx1 & Hev1 & Hlast).
          destruct ctx1 as [[scan1 state1] d1].
          cbn [bind scan_events scan_event] in Hlast.
          apply bind_Ok in Hlast as (r & Hr & [= <-]).
          assert (scan_dir flt
                    match es with
                    | Some es => Some (map (fun e => (e, scan_dir_entry flt e)) es)
                    | None => None
                    end scan state d (path_next +:+ "/") (sub_next +:+ "/")
                  = Ok (scan1, state1, d1, false)) as Hx
            by (apply (Hdir _ _ _ _ _ _ _ _ _ Hsc Henv); eauto).
          rewrite Hx. cbn [bind negb]. by rewrite Hr.
    - (* another entry *)
      destruct (negb (filter_path flt (disk_name d) sub_next)); [|apply follows_skip].
      destruct lst as [st|]; [|apply follows_err]. cbn [bind]. apply follows_skip. }
  destruct ty; cbn [bind];
    [|exact (Hinner S_IFREG)|exact (Hinner S_IFLNK)|exact (Hinner S_IFDIR)
     |exact (Hinner S_IFOTHER)].
  destruct lst as [st|]; cbn [bind]; [exact (Hinner (st_mode st))|apply follows_err].
Qed.

(** ** The invariant of the walk through the removals and the insertions *)

(** A step that marks nothing keeps the invariant of the walk. *)
Lemma scanned_frame (d d' : snapraid_disk) (fp lp dp fp' lp' dp' : list nat)
    (evs : list event) (t : list mark) :
  scanned d fp lp dp evs t ->
  files_wf d' (filelist d' ++ fp') -> links_wf d' lp' -> dirs_wf d' dp' ->
  obj_step file_is_present (fget d) (fget d') (filelist d ++ fp) (filelist d' ++ fp') [] ->
  obj_step link_is_present (lget d) (lget d') (linklist d ++ lp) (linklist d' ++ lp') [] ->
  obj_step dir_is_present (dget d) (dget d') (dirlist d ++ dp) (dirlist d' ++ dp') [] ->
  (forall h, h ∈ fp' -> h ∈ fp) ->
  (forall l, l ∈ lp' -> l ∈ lp) ->
  (forall dh, dh ∈ dp' -> dh ∈ dp) ->
  (has_not_persistent_inodes d' = true -> forall h, h ∈ inodeset d' ->
     has_not_persistent_inodes d = true /\ h ∈ inodeset d) ->
  scanned d' fp' lp' dp' evs t.
Proof.
  intros [Hwf Hlw Hdw Hmarks Hhard Hmf Hml Hmd Hfp Hlp Hdp Hnp]
    Hwf' Hlw' Hdw' Hsf Hsl Hsd Hfp' Hlp' Hdp' Hnp'.
  split; try done.
  - eapply Forall2_impl; [exact Hmarks|]. intros e m.
    apply mark_ok_frozen; [apply Hsf|apply Hsl|apply Hsd].
  - by eapply obj_marks_same.
  - by eapply obj_marks_same.
  - by eapply obj_marks_same.
  - auto.
  - auto.
  - auto.
  - intros Hflag h Hh. destruct (Hnp' Hflag h Hh). auto.
Qed.

(** A file that is not marked present leaves the catalog. *)
Lemma scan_file_remove_scanned (state state' : snapraid_state) (d d' : snapraid_disk)
    (fp lp dp : list nat) (evs : list event) (t : list mark) (h : nat)
    (f : snapraid_file) :
  scanned d fp lp dp evs t ->
  files d !! h = Some (Some f) -> file_is_present f = false ->
  scan_file_remove state d h = Ok (state', d') ->
  scanned d' fp lp dp evs t /\
  (forall k, k ∈ filelist d' <-> k ∈ filelist d /\ k <> h) /\
  disk_rest d' = disk_rest d /\ state' = set_need_write true state.
Proof.
  intros Hsc Hf Hpf Hrem. pose proof Hsc as [Hwf Hlw Hdw _ _ _ _ _ _ _ _ _].
  apply scan_file_remove_catalog in Hrem
    as (m & Hm & Hget & Hfl & Hps & His & Hrest & ->).
  destruct (disk_rest_fields _ _ Hrest)
    as (_ & _ & Hnp & Hlinks & Hlinklist & Hlinkset & Hdirs & Hdirlist & Hdirset).
  pose proof (remove_first_Some _ _ _ Hfl) as Hperm.
  assert (filelist d ++ fp ≡ₚ h :: (filelist d' ++ fp)) as Hdomperm
    by by rewrite Hperm.
  pose proof (fw_nodup _ _ Hwf) as Hnd.
  assert (NoDup (filelist d)) as Hndl by by apply NoDup_app in Hnd as [? _].
  destruct (remove_first_NoDup _ _ _ Hfl Hndl) as [_ Hmem].
  split; [|done].
  eapply scanned_frame; [exact Hsc|..]; try done.
  - eapply files_wf_remove; [exact Hwf|exact Hm|exact Hget|done|done|done].
  - by eapply links_wf_same.
  - by eapply dirs_wf_same.
  - eapply obj_step_update; [exact Hget|..].
    + intros (a & Ha & Hpa). rewrite (fget_lookup _ _ _ Hf) in Ha.
      injection Ha as <-. simpl in Hpa. congruence.
    + intros k. rewrite Hdomperm, elem_of_cons. by intros [?|?].
    + intros k Hk _. rewrite Hdomperm. by right.
    + intros _ (a & Ha & _). rewrite Hget, decide_True in Ha by done. done.
    + by intros k ?%elem_of_nil.
  - by apply link_step_same.
  - by apply dir_step_same.
  - intros Hflag k Hk. rewrite Hnp in Hflag. split; [done|].
    destruct (file_is_without_inode m); [by rewrite <- His|].
    apply (remove_first_NoDup _ _ _ His (fw_inode_nodup _ _ Hwf)) in Hk as [? _].
    done.
Qed.

(** "check for removed files": the files that stay in the list are marked
    present. *)
Lemma remove_missing_files_scanned (nodes : list nat) :
  forall (scan scan' : snapraid_scan) (state state' : snapraid_state)
    (d d' : snapraid_disk) (fp lp dp : list nat) (evs : list event) (t : list mark),
  scanned d fp lp dp evs t ->
  remove_missing_files nodes scan state d = Ok (scan', state', d') ->
  scanned d' fp lp dp evs t /\
  (forall k, k ∈ filelist d' -> k ∈ filelist d) /\
  (forall k, k ∈ filelist d' -> k ∈ nodes -> k ∈ mark_files t) /\
  disk_rest d' = disk_rest d /\ state_rest state' = state_rest state /\
  file_insert_list scan' = file_insert_list scan /\
  link_insert_list scan' = link_insert_list scan /\
  dir_insert_list scan' = dir_insert_list scan.
Proof.
  induction nodes as [|h nodes IH];
    intros scan scan' state state' d d' fp lp dp evs t Hsc H; simpl in H.
  - injection H as <- <- <-. split; [done|]. split; [done|].
    split; [by intros k _ ?%elem_of_nil|done].
  - apply bind_Ok in H as (f & Hf & H). apply heap_get_Ok in Hf.
    destruct (file_is_present f) eqn:Hpf; simpl in H.
    + destruct (IH _ _ _ _ _ _ _ _ _ _ _ Hsc H)
        as (Hsc' & Hsub & Hmarked & Hrest & Hst & Hlists).
      split; [done|]. split; [done|]. split; [|done].
      intros k Hk [->|Hkn]%elem_of_cons; [|auto].
      apply (om_iff _ _ _ _ (sc_mfiles _ _ _ _ _ _ Hsc)). split.
      * apply elem_of_app. left. auto.
      * exists (file_meta f). split; [by apply fget_lookup|done].
    + apply bind_Ok in H as ([state1 d1] & Hrem & H).
      destruct (scan_file_remove_scanned _ _ _ _ _ _ _ _ _ _ _ Hsc Hf Hpf Hrem)
        as (Hsc1 & Hmem & Hrest1 & ->).
      destruct (IH _ _ _ _ _ _ _ _ _ _ _ Hsc1 H)
        as (Hsc' & Hsub & Hmarked & Hrest & Hst & Hlists).
      split; [done|]. split; [|split; [|split; [congruence|done]]].
      * intros k Hk. by apply Hsub, Hmem in Hk as [? _].
      * intros k Hk [->|Hkn]%elem_of_cons; [|auto].
        by apply Hsub, Hmem in Hk as [_ ?].
Qed.

(** A link that is not marked present leaves the catalog. *)
Lemma scan_link_remove_scanned (state state' : snapraid_state) (d d' : snapraid_disk)
    (fp lp dp : list nat) (evs : list event) (t : list mark) (l : nat)
    (x : snapraid_link) :
  scanned d fp lp dp evs t ->
  links d !! l = Some (Some x) -> link_is_present x = false ->
  scan_link_remove state d l = Ok (state', d') ->
  scanned d' fp lp dp evs t /\
  (forall k, k ∈ linklist d' <-> k ∈ linklist d /\ k <> l) /\
  links_rest d' = links_rest d /\
  state' = set_need_write true state.
Proof.
  intros Hsc Hx Hpx Hrem. pose proof Hsc as [Hwf [Hnd Hlive Hset] Hdw _ _ _ _ _ _ _ _ _].
  unfold scan_link_remove in Hrem.
  apply bind_Ok in Hrem as (s & Hs & Hrem). apply tommy_remove_existing_Ok_inv in Hs.
  apply bind_Ok in Hrem as (ll & Hll & Hrem). apply tommy_remove_existing_Ok_inv in Hll.
  apply bind_Ok in Hrem as (h & Hh & Hrem). injection Hrem as <- <-.
  unfold heap_free in Hh. apply bind_Ok in Hh as (? & _ & Hh). injection Hh as <-.
  cbn in Hll |- *.
  set (d' := set_links _ _).
  pose proof (lget_free d d' l eq_refl) as Hget.
  pose proof (remove_first_Some _ _ _ Hs) as Hsperm.
  pose proof (remove_first_Some _ _ _ Hll) as Hlperm.
  assert (linklist d ++ lp ≡ₚ l :: (ll ++ lp)) as Hdomperm by by rewrite Hlperm.
  assert (NoDup (l :: (ll ++ lp))) as Hnd' by by rewrite <- Hdomperm.
  apply NoDup_cons in Hnd' as [Hnotin Hnd'].
  assert (NoDup (linklist d)) as Hndl by by apply NoDup_app in Hnd as [? _].
  destruct (remove_first_NoDup _ _ _ Hll Hndl) as [_ Hmem].
  split; [|done].
  eapply scanned_frame; [exact Hsc|..]; try done.
  - eapply (files_wf_same d d'); [by apply fget_same|done|done|exact Hwf].
  - split.
    + done.
    + intros k Hk. rewrite Hget. case_decide as Hkl; [by subst k|].
      apply Hlive. rewrite Hdomperm. by right.
    + cbn. rewrite Hsperm, Hlperm in Hset. by apply (inj (cons l)) in Hset.
  - eapply (dirs_wf_same d d'); [done..|exact Hdw].
  - apply obj_step_same; [by apply fget_same|done].
  - eapply obj_step_update; [exact Hget|..].
    + intros (a & Ha & Hpa). apply lget_Some in Ha. congruence.
    + intros k. cbn. rewrite Hdomperm, elem_of_cons. by intros [?|?].
    + intros k Hk _. cbn in Hk. rewrite Hdomperm. by right.
    + intros _ (a & Ha & _). rewrite Hget, decide_True in Ha by done. done.
    + by intros k ?%elem_of_nil.
  - apply obj_step_same; [by apply dget_same|done].
Qed.

(** "check for removed links": the links that stay in the list are marked
    present. *)
Lemma remove_missing_links_scanned (nodes : list nat) :
  forall (scan scan' : snapraid_scan) (state state' : snapraid_state)
    (d d' : snapraid_disk) (fp lp dp : list nat) (evs : list event) (t : list mark),
  scanned d fp lp dp evs t ->
  remove_missing_links nodes scan state d = Ok (scan', state', d') ->
  scanned d' fp lp dp evs t /\
  (forall k, k ∈ linklist d' -> k ∈ linklist d) /\
  (forall k, k ∈ linklist d' -> k ∈ nodes -> k ∈ mark_links t) /\
  links_rest d' = links_rest d /\
  state_rest state' = state_rest state /\
  file_insert_list scan' = file_insert_list scan /\
  link_insert_list scan' = link_insert_list scan /\
  dir_insert_list scan' = dir_insert_list scan.
Proof.
  induction nodes as [|l nodes IH];
    intros scan scan' state state' d d' fp lp dp evs t Hsc H; simpl in H.
  - injection H as <- <- <-. split; [done|]. split; [done|].
    split; [by intros k _ ?%elem_of_nil|done].
  - apply bind_Ok in H as (x & Hx & H). apply heap_get_Ok in Hx.
    destruct (link_is_present x) eqn:Hpx; simpl in H.
    + destruct (IH _ _ _ _ _ _ _ _ _ _ _ Hsc H)
        as (Hsc' & Hsub & Hmarked & Hrest & Hst & Hlists).
      split; [done|]. split; [done|]. split; [|done].
      intros k Hk [->|Hkn]%elem_of_cons; [|auto].
      apply (om_iff _ _ _ _ (sc_mlinks _ _ _ _ _ _ Hsc)). split.
      * apply elem_of_app. left. auto.
      * exists x. split; [by apply lget_Some|done].
    + apply bind_Ok in H as ([state1 d1] & Hrem & H).
      destruct (scan_link_remove_scanned _ _ _ _ _ _ _ _ _ _ _ Hsc Hx Hpx Hrem)
        as (Hsc1 & Hmem & Hrest1 & ->).
      destruct (IH _ _ _ _ _ _ _ _ _ _ _ Hsc1 H)
        as (Hsc' & Hsub & Hmarked & Hrest & Hst & Hlists).
      split; [done|]. split; [|split; [|split; [congruence|done]]].
      * intros k Hk. by apply Hsub, Hmem in Hk as [? _].
      * intros k Hk [->|Hkn]%elem_of_cons; [|auto].
        by apply Hsub, Hmem in Hk as [_ ?].
Qed.

(** A dir that is not marked present leaves the catalog. *)
Lemma scan_emptydir_remove_scanned (state state' : snapraid_state) (d d' : snapraid_disk)
    (fp lp dp : list nat) (evs : list event) (t : list mark) (l : nat)
    (x : snapraid_dir) :
  scanned d fp lp dp evs t ->
  dirs d !! l = Some (Some x) -> dir_is_present x = false ->
  scan_emptydir_remove state d l = Ok (state', d') ->
  scanned d' fp lp dp evs t /\
  (forall k, k ∈ dirlist d' <-> k ∈ dirlist d /\ k <> l) /\
  dirs_rest d' = dirs_rest d /\
  state' = set_need_write true state.
Proof.
  intros Hsc Hx Hpx Hrem. pose proof Hsc as [Hwf Hlw [Hnd Hlive Hset] _ _ _ _ _ _ _ _ _].
  unfold scan_emptydir_remove in Hrem.
  apply bind_Ok in Hrem as (s & Hs & Hrem). apply tommy_remove_existing_Ok_inv in Hs.
  apply bind_Ok in Hrem as (ll & Hll & Hrem). apply tommy_remove_existing_Ok_inv in Hll.
  apply bind_Ok in Hrem as (h & Hh & Hrem). injection Hrem as <- <-.
  unfold heap_free in Hh. apply bind_Ok in Hh as (? & _ & Hh). injection Hh as <-.
  cbn in Hll |- *.
  set (d' := set_dirs _ _).
  pose proof (dget_free d d' l eq_refl) as Hget.
  pose proof (remove_first_Some _ _ _ Hs) as Hsperm.
  pose proof (remove_first_Some _ _ _ Hll) as Hlperm.
  assert (dirlist d ++ dp ≡ₚ l :: (ll ++ dp)) as Hdomperm by by rewrite Hlperm.
  assert (NoDup (l :: (ll ++ dp))) as Hnd' by by rewrite <- Hdomperm.
  apply NoDup_cons in Hnd' as [Hnotin Hnd'].
  assert (NoDup (dirlist d)) as Hndl by by apply NoDup_app in Hnd as [? _].
  destruct (remove_first_NoDup _ _ _ Hll Hndl) as [_ Hmem].
  split; [|done].
  eapply scanned_frame; [exact Hsc|..]; try done.
  - eapply (files_wf_same d d'); [by apply fget_same|done|done|exact Hwf].
  - eapply (links_wf_same d d'); [done..|exact Hlw].
  - split.
    + done.
    + intros k Hk. rewrite Hget. case_decide as Hkl; [by subst k|].
      apply Hlive. rewrite Hdomperm. by right.
    + cbn. rewrite Hsperm, Hlperm in Hset. by apply (inj (cons l)) in Hset.
  - apply obj_step_same; [by apply fget_same|done].
  - apply obj_step_same; [by apply lget_same|done].
  - eapply obj_step_update; [exact Hget|..].
    + intros (a & Ha & Hpa). apply dget_Some in Ha. congruence.
    + intros k. cbn. rewrite Hdomperm, elem_of_cons. by intros [?|?].
    + intros k Hk _. cbn in Hk. rewrite Hdomperm. by right.
    + intros _ (a & Ha & _). rewrite Hget, decide_True in Ha by done. done.
    + by intros k ?%elem_of_nil.
Qed.

(** "check for removed dirs": the dirs that stay in the list are marked
    present. *)
Lemma remove_missing_dirs_scanned (nodes : list nat) :
  forall (scan scan' : snapraid_scan) (state state' : snapraid_state)
    (d d' : snapraid_disk) (fp lp dp : list nat) (evs : list event) (t : list mark),
  scanned d fp lp dp evs t ->
  remove_missing_dirs nodes scan state d = Ok (scan', state', d') ->
  scanned d' fp lp dp evs t /\
  (forall k, k ∈ dirlist d' -> k ∈ dirlist d) /\
  (forall k, k ∈ dirlist d' -> k ∈ nodes -> k ∈ mark_dirs t) /\
  dirs_rest d' = dirs_rest d /\
  state_rest state' = state_rest state /\
  file_insert_list scan' = file_insert_list scan /\
  link_insert_list scan' = link_insert_list scan /\
  dir_insert_list scan' = dir_insert_list scan.
Proof.
  induction nodes as [|l nodes IH];
    intros scan scan' state state' d d' fp lp dp evs t Hsc H; simpl in H.
  - injection H as <- <- <-. split; [done|]. split; [done|].
    split; [by intros k _ ?%elem_of_nil|done].
  - apply bind_Ok in H as (x & Hx & H). apply heap_get_Ok in Hx.
    destruct (dir_is_present x) eqn:Hpx; simpl in H.
    + destruct (IH _ _ _ _ _ _ _ _ _ _ _ Hsc H)
        as (Hsc' & Hsub & Hmarked & Hrest & Hst & Hlists).
      split; [done|]. split; [done|]. split; [|done].
      intros k Hk [->|Hkn]%elem_of_cons; [|auto].
      apply (om_iff _ _ _ _ (sc_mdirs _ _ _ _ _ _ Hsc)). split.
      * apply elem_of_app. left. auto.
      * exists x. split; [by apply dget_Some|done].
    + apply bind_Ok in H as ([state1 d1] & Hrem & H).
      destruct (scan_emptydir_remove_scanned _ _ _ _ _ _ _ _ _ _ _ Hsc Hx Hpx Hrem)
        as (Hsc1 & Hmem & Hrest1 & ->).
      destruct (IH _ _ _ _ _ _ _ _ _ _ _ Hsc1 H)
        as (Hsc' & Hsub & Hmarked & Hrest & Hst & Hlists).
      split; [done|]. split; [|split; [|split; [congruence|done]]].
      * intros k Hk. by apply Hsub, Hmem in Hk as [? _].
      * intros k Hk [->|Hkn]%elem_of_cons; [|auto].
        by apply Hsub, Hmem in Hk as [_ ?].
Qed.

(** ** The insertions at the end of the scan of a disk *)

(** The invariant of the walk reads the catalog only. *)
Lemma scanned_insert_file (d d' : snapraid_disk) (h : nat) (fp lp dp : list nat)
    (evs : list event) (t : list mark) :
  scanned d (h :: fp) lp dp evs t ->
  (forall k, fget d' k = fget d k) ->
  filelist d' = filelist d ++ [h] ->
  inodeset d' = inodeset d -> pathset d' = pathset d ->
  disk_rest d' = disk_rest d ->
  scanned d' fp lp dp evs t.
Proof.
  intros Hsc Hget Hfl His Hps Hrest.
  pose proof Hsc as [Hwf Hlw Hdw _ _ _ _ _ _ _ _ _].
  destruct (disk_rest_fields _ _ Hrest)
    as (_ & _ & Hnp & Hlinks & Hlinklist & Hlinkset & Hdirs & Hdirlist & Hdirset).
  assert (filelist d' ++ fp = filelist d ++ h :: fp) as Hdom
    by (rewrite Hfl, <- app_assoc; done).
  eapply scanned_frame; [exact Hsc|..].
  - rewrite Hdom. by eapply (files_wf_same d d').
  - by eapply (links_wf_same d d').
  - by eapply (dirs_wf_same d d').
  - rewrite Hdom. by apply obj_step_same.
  - by apply link_step_same.
  - by apply dir_step_same.
  - intros k Hk. by right.
  - done.
  - done.
  - intros Hflag k Hk. by rewrite <- His, <- Hnp.
Qed.

Lemma scanned_catalog (d d' : snapraid_disk) (fp lp dp : list nat)
    (evs : list event) (t : list mark) :
  catalog_of d' = catalog_of d ->
  scanned d fp lp dp evs t -> scanned d' fp lp dp evs t.
Proof.
  intros Hcat Hsc. pose proof Hsc as [Hwf Hlw Hdw _ _ _ _ _ _ _ _ _].
  pose proof (fget_catalog _ _ Hcat) as Hget.
  destruct (catalog_rest _ _ Hcat) as (Hfl & His & Hps & Hrest).
  destruct (disk_rest_fields _ _ Hrest)
    as (_ & _ & Hnp & Hlinks & Hlinklist & Hlinkset & Hdirs & Hdirlist & Hdirset).
  eapply scanned_frame; [exact Hsc|..]; try done.
  - rewrite Hfl. by eapply (files_wf_same d d').
  - by eapply (links_wf_same d d').
  - by eapply (dirs_wf_same d d').
  - rewrite Hfl. by apply obj_step_same.
  - by apply link_step_same.
  - by apply dir_step_same.
  - intros Hflag k Hk. by rewrite <- His, <- Hnp.
Qed.

Lemma node_data_fst (h : heap snapraid_file) (nodes : list nat)
    (l : list (nat * snapraid_file)) :
  node_data h nodes = Ok l -> l.*1 = nodes.
Proof.
  revert l. induction nodes as [|n nodes IH]; intros l H; simpl in H.
  - by injection H as <-.
  - apply bind_Ok in H as (f & _ & H). apply bind_Ok in H as (l' & Hl' & H).
    injection H as <-. cbn. f_equal. by apply IH.
Qed.

(** "sort the files before inserting them" gives the same files. *)
Lemma sort_file_insert_list_perm (state : snapraid_state) (d : snapraid_disk)
    (nodes nodes' : list nat) :
  sort_file_insert_list state d nodes = Ok nodes' -> nodes' ≡ₚ nodes.
Proof.
  unfold sort_file_insert_list. intros H.
  apply bind_Ok in H as (l & Hl & H). injection H as <-.
  apply node_data_fst in Hl.
  destruct (opt_force_order state); [| | |done];
    by rewrite tommy_list_sort_perm, Hl.
Qed.

Lemma insert_new_files_scanned (nodes : list nat) :
  forall (state state' : snapraid_state) (d d' : snapraid_disk) (pc pd pl dup : Z)
    (lp dp : list nat) (evs : list event) (t : list mark),
  scanned d nodes lp dp evs t ->
  insert_new_files nodes state d pc pd pl = Ok (state', d', dup) ->
  scanned d' [] lp dp evs t /\
  (forall k, k ∈ filelist d' -> k ∈ filelist d \/ k ∈ nodes) /\
  disk_rest d' = disk_rest d /\ state_rest state' = state_rest state.
Proof.
  induction nodes as [|h nodes IH];
    intros state state' d d' pc pd pl dup lp dp evs t Hsc H; simpl in H.
  - injection H as <- <- <-. split; [done|]. split; [auto|done].
  - apply bind_Ok in H as (f & _ & H).
    destruct (if bool_decide (opt_force_order state = SORT_PHYSICAL)
                 && negb (file_size f =? 0)
              then (incr pc,
                    if (pc >? 0) && (file_physical f =? pl)
                       && negb (pl =? FILEPHY_WITHOUT_OFFSET)
                    then incr pd else pd, file_physical f)
              else (pc, pd, pl)) as [[pc' pd'] pl'].
    apply bind_Ok in H as ([state1 d1] & Hins & H).
    apply scan_file_insert_catalog in Hins as (Hget & Hfl & His & Hps & Hrest1 & ->).
    pose proof (scanned_insert_file _ _ _ _ _ _ _ _ Hsc Hget Hfl His Hps Hrest1) as Hsc1.
    destruct (IH _ _ _ _ _ _ _ _ _ _ _ _ Hsc1 H) as (Hsc' & Hmem & Hrest & Hst).
    split; [done|]. split; [|split; [congruence|done]].
    intros k Hk. destruct (Hmem k Hk) as [Hk1|Hk1].
    + rewrite Hfl in Hk1.
      apply elem_of_app in Hk1 as [?| ->%list_elem_of_singleton]; [by left|].
      right. left.
    + right. by right.
Qed.

Lemma insert_new_links_scanned (nodes : list nat) :
  forall (state state' : snapraid_state) (d d' : snapraid_disk)
    (fp dp : list nat) (evs : list event) (t : list mark),
  scanned d fp nodes dp evs t ->
  insert_new_links nodes state d = Ok (state', d') ->
  scanned d' fp [] dp evs t /\
  (forall k, k ∈ linklist d' -> k ∈ linklist d \/ k ∈ nodes) /\
  links_rest d' = links_rest d /\ state_rest state' = state_rest state.
Proof.
  induction nodes as [|l nodes IH];
    intros state state' d d' fp dp evs t Hsc H; simpl in H.
  - injection H as <- <-. split; [done|]. split; [auto|done].
  - set (d1 := set_linklist (tommy_insert_tail (linklist d) l)
                 (set_linkset (tommy_insert_tail (linkset d) l) d)) in H.
    pose proof Hsc as [Hwf [Hnd Hlive Hset] Hdw _ _ _ _ _ _ _ _ _].
    assert (linklist d1 ++ nodes = linklist d ++ l :: nodes) as Hdom
      by (cbn; unfold tommy_insert_tail; rewrite <- app_assoc; done).
    assert (scanned d1 fp nodes dp evs t) as Hsc1.
    { eapply scanned_frame; [exact Hsc|..]; try done.
      - by eapply (files_wf_same d d1).
      - split.
        + by rewrite Hdom.
        + intros k. rewrite Hdom. apply Hlive.
        + cbn. unfold tommy_insert_tail. by rewrite Hset.
      - by eapply (dirs_wf_same d d1).
      - by apply obj_step_same.
      - rewrite Hdom. by apply obj_step_same.
      - by apply obj_step_same.
      - intros k Hk. by right. }
    destruct (IH _ _ _ _ _ _ _ _ Hsc1 H) as (Hsc' & Hmem & Hrest & Hst).
    split; [done|]. split; [|done].
    intros k Hk. destruct (Hmem k Hk) as [Hk1|Hk1].
    + cbn in Hk1.
      apply elem_of_app in Hk1 as [?| ->%list_elem_of_singleton]; [by left|].
      right. left.
    + right. by right.
Qed.

Lemma insert_new_dirs_scanned (nodes : list nat) :
  forall (state state' : snapraid_state) (d d' : snapraid_disk)
    (fp lp : list nat) (evs : list event) (t : list mark),
  scanned d fp lp nodes evs t ->
  insert_new_dirs nodes state d = Ok (state', d') ->
  scanned d' fp lp [] evs t /\
  (forall k, k ∈ dirlist d' -> k ∈ dirlist d \/ k ∈ nodes) /\
  dirs_rest d' = dirs_rest d /\ state_rest state' = state_rest state.
Proof.
  induction nodes as [|l nodes IH];
    intros state state' d d' fp lp evs t Hsc H; simpl in H.
  - injection H as <- <-. split; [done|]. split; [auto|done].
  - set (d1 := set_dirlist (tommy_insert_tail (dirlist d) l)
                 (set_dirset (tommy_insert_tail (dirset d) l) d)) in H.
    pose proof Hsc as [Hwf Hlw [Hnd Hlive Hset] _ _ _ _ _ _ _ _ _].
    assert (dirlist d1 ++ nodes = dirlist d ++ l :: nodes) as Hdom
      by (cbn; unfold tommy_insert_tail; rewrite <- app_assoc; done).
    assert (scanned d1 fp lp nodes evs t) as Hsc1.
    { eapply scanned_frame; [exact Hsc|..]; try done.
      - by eapply (files_wf_same d d1).
      - by eapply (links_wf_same d d1).
      - split.
        + by rewrite Hdom.
        + intros k. rewrite Hdom. apply Hlive.
        + cbn. unfold tommy_insert_tail. by rewrite Hset.
      - by apply obj_step_same.
      - by apply obj_step_same.
      - rewrite Hdom. by apply obj_step_same.
      - intros k Hk. by right. }
    destruct (IH _ _ _ _ _ _ _ _ Hsc1 H) as (Hsc' & Hmem & Hrest & Hst).
    split; [done|]. split; [|done].
    intros k Hk. destruct (Hmem k Hk) as [Hk1|Hk1].
    + cbn in Hk1.
      apply elem_of_app in Hk1 as [?| ->%list_elem_of_singleton]; [by left|].
      right. left.
    + right. by right.
Qed.

(** ** The start of the scan of a disk *)

Lemma detached_idem (f : snapraid_file) : detached (detached f) = detached f.
Proof. done. Qed.

Lemma clear_inodes_Ok (nodes : list nat) :
  forall d d', clear_inodes nodes d = Ok d' -> NoDup (inodeset d) ->
    (forall k, fget d' k
               = if decide (k ∈ nodes) then detached <$> fget d k else fget d k) /\
    NoDup (inodeset d') /\
    (forall h, h ∈ inodeset d' <-> h ∈ inodeset d /\ h ∉ nodes) /\
    filelist d' = filelist d /\ pathset d' = pathset d /\
    disk_rest d' = disk_rest d.
Proof.
  induction nodes as [|h nodes IH]; intros d d' H Hnd; simpl in H.
  - injection H as <-. split; [|split; [done|split; [|done]]].
    + intros k. rewrite decide_False; [done|apply not_elem_of_nil].
    + intros h. split; [|by intros [? _]]. intros ?. split; [done|apply not_elem_of_nil].
  - apply bind_Ok in H as (s & Hs & H). apply tommy_remove_existing_Ok_inv in Hs.
    apply bind_Ok in H as (d1 & Hd1 & H).
    apply file_store_Ok in Hd1 as (f & Hf & ->). cbn in Hf.
    pose proof (lookup_lt_Some _ _ _ Hf) as Hlt.
    erewrite file_store_lookup in H; [|cbn; by apply list_lookup_insert_eq].
    cbn [bind] in H. cbn in H. rewrite list_insert_insert_eq in H.
    destruct (remove_first_NoDup _ _ _ Hs Hnd) as [Hnd1 Hmem1].
    apply IH in H as (Hget & Hnd' & Hmem & Hfl & Hps & Hrest); [|done].
    match type of Hget with
    | forall k, _ = if _ then detached <$> fget ?d1 k else _ =>
        pose proof (fget_insert d d1 h _ eq_refl Hlt) as Hget1
    end.
    split; [|split; [done|split; [|split; [done|split; [done|]]]]].
    + intros k. rewrite Hget, !Hget1.
      destruct (decide (k = h)) as [->|Hne].
      * rewrite (fget_lookup _ _ _ Hf).
        rewrite (decide_True (P := h ∈ h :: nodes)) by left.
        by destruct (decide (h ∈ nodes)).
      * destruct (decide (k ∈ nodes)) as [Hin|Hnin].
        -- rewrite decide_True; [done|by right].
        -- rewrite decide_False; [done|]. by intros [?|?]%elem_of_cons.
    + intros k. rewrite Hmem. cbn. rewrite Hmem1, not_elem_of_cons. tauto.
    + rewrite Hrest. by destruct d.
Qed.

(** The walk starts with its invariant. *)
Lemma scanning_start (d0 d : snapraid_disk) (np : bool) :
  catalog_wf d0 ->
  (has_not_persistent_inodes d0 = true -> np = true) ->
  (if np then
     clear_inodes (filelist (set_has_not_persistent_inodes true d0))
       (set_has_not_persistent_inodes true d0)
   else Ok d0) = Ok d ->
  scanning scan_init d [] [] /\
  has_not_persistent_inodes d = np /\
  disk_name d = disk_name d0 /\ disk_dir d = disk_dir d0 /\
  disk_device d = disk_device d0.
Proof.
  intros [Hwf Hlw Hdw Hff Hlf Hdf] Hflag H.
  assert (forall (A : Type) (present : A -> bool) (get : nat -> option A) dom,
            (forall h, h ∈ dom -> ~ is_present present get h) ->
            obj_marks present get (dom ++ []) []) as Hnomarks.
  { intros A present get dom Hnone. split; [apply NoDup_nil_2|].
    intros h. rewrite app_nil_r. split; [by intros ?%elem_of_nil|].
    intros [Hh Hp]. by destruct (Hnone h Hh). }
  destruct np.
  - apply clear_inodes_Ok in H as (Hget & Hnd & Hmem & Hfl & Hps & Hrest);
      [|apply (fw_inode_nodup _ _ Hwf)].
    assert (forall k, fget d k
                      = if decide (k ∈ filelist d0) then detached <$> fget d0 k
                        else fget d0 k) as Hget' by exact Hget.
    clear Hget. rename Hget' into Hget.
    change (filelist (set_has_not_persistent_inodes true d0)) with (filelist d0) in *.
    change (inodeset (set_has_not_persistent_inodes true d0)) with (inodeset d0) in *.
    change (pathset (set_has_not_persistent_inodes true d0)) with (pathset d0) in *.
    destruct (disk_rest_fields _ _ Hrest)
      as (Hname & Hdev & Hnp & Hlinks & Hlinklist & Hlinkset & Hdirs & Hdirlist &
          Hdirset).
    cbn in Hname, Hdev, Hnp, Hlinks, Hlinklist, Hlinkset, Hdirs, Hdirlist, Hdirset.
    assert (forall h, h ∉ inodeset d) as Hempty.
    { intros h [Hin Hnot]%Hmem. apply (fw_inode _ _ Hwf) in Hin as [? _]. done. }
    assert (forall k, is_present file_is_present (fget d) k ->
                      is_present file_is_present (fget d0) k) as Hpres.
    { intros k (a & Ha & Hpa). rewrite Hget in Ha.
      destruct (decide (k ∈ filelist d0)); [|by exists a].
      destruct (fget d0 k) as [m|] eqn:Hm; [|done]. injection Ha as <-.
      by exists m. }
    split; [|split; [done|split; [done|split; [|done]]]].
    2:{ injection Hrest as _ ->. done. }
    split; simpl.
    + rewrite app_nil_r, Hfl. split.
      * apply (fw_nodup _ _ Hwf).
      * intros k Hk. rewrite Hget, decide_True by done.
        destruct (fw_live _ _ Hwf k Hk) as [m ->]. by eexists.
      * rewrite Hps. apply (fw_path _ _ Hwf).
      * done.
      * intros k. split; [by intros ?%Hempty|].
        intros [Hk (m & Hm & Hwi)]. rewrite Hget, decide_True in Hm by done.
        destruct (fget d0 k); [|done]. injection Hm as <-. done.
      * intros k g m n Hk. by apply Hempty in Hk.
    + eapply (links_wf_same d0 d); [done..|]. exact Hlw.
    + eapply (dirs_wf_same d0 d); [done..|]. exact Hdw.
    + constructor.
    + apply hard_after_nil.
    + apply Hnomarks. rewrite Hfl. intros h Hh Hp. by apply (Hff h Hh), Hpres.
    + apply Hnomarks. rewrite Hlinklist. intros h Hh (a & Ha & Hpa).
      apply (Hlf h Hh). exists a. split; [|done].
      by rewrite <- (lget_same d0 d Hlinks).
    + apply Hnomarks. rewrite Hdirlist. intros h Hh (a & Ha & Hpa).
      apply (Hdf h Hh). exists a. split; [|done].
      by rewrite <- (dget_same d0 d Hdirs).
    + by intros h ?%elem_of_nil.
    + by intros h ?%elem_of_nil.
    + by intros h ?%elem_of_nil.
    + intros _ h Hh. by apply Hempty in Hh.
  - injection H as <-. split.
    2:{ split; [|done]. destruct (has_not_persistent_inodes d0); [|done].
        by specialize (Hflag eq_refl). }
    split; simpl.
    + by rewrite app_nil_r.
    + done.
    + done.
    + constructor.
    + apply hard_after_nil.
    + by apply Hnomarks.
    + by apply Hnomarks.
    + by apply Hnomarks.
    + by intros h ?%elem_of_nil.
    + by intros h ?%elem_of_nil.
    + by intros h ?%elem_of_nil.
    + intros Hnp. by specialize (Hflag Hnp).
Qed.

(** ** The catalog after the scan of a disk *)

Lemma scanned_perm (d : snapraid_disk) (fp fp' lp dp : list nat)
    (evs : list event) (t : list mark) :
  fp ≡ₚ fp' -> scanned d fp lp dp evs t -> scanned d fp' lp dp evs t.
Proof.
  intros Hperm Hsc. pose proof Hsc as [Hwf Hlw Hdw _ _ _ _ _ _ _ _ _].
  eapply scanned_frame; [exact Hsc|..]; try done.
  - eapply files_wf_perm; [|exact Hwf]. by rewrite Hperm.
  - apply obj_step_same; [done|]. intros k. by rewrite Hperm.
  - by apply obj_step_same.
  - by apply obj_step_same.
  - intros h. by rewrite Hperm.
Qed.

(** Every mark of a file is the one of an entry that is a regular file. *)
Lemma mark_files_has (p : bool) (d : snapraid_disk) (evs : list event)
    (t : list mark) (h : nat) :
  Forall2 (mark_ok p d) evs t -> h ∈ mark_files t ->
  exists i sub st ph,
    t !! i = Some (MFile h) /\ evs !! i = Some (EvFile sub st ph) /\
    file_has p d h sub st.
Proof.
  intros Hall Hh. apply list_elem_of_omap in Hh as (mk & Hmk & Hfile).
  destruct mk; try discriminate. injection Hfile as ->.
  apply list_elem_of_lookup in Hmk as (i & Hi).
  destruct (Forall2_lookup_r _ _ _ _ _ Hall Hi) as (ev & Hev & Hok).
  destruct ev as [sub st ph| |]; try done. by exists i, sub, st, ph.
Qed.

Lemma synced_of_scanned (d : snapraid_disk) (evs : list event) (t : list mark) :
  scanned d [] [] [] evs t ->
  (forall k, k ∈ filelist d -> k ∈ mark_files t) ->
  (forall k, k ∈ linklist d -> k ∈ mark_links t) ->
  (forall k, k ∈ dirlist d -> k ∈ mark_dirs t) ->
  synced true d evs t.
Proof.
  intros [Hwf [Hlnd Hllive Hlset] [Hdnd Hdlive Hdset] Hmarks Hhard
          [Hmfnd Hmf] [Hmlnd Hml] [Hmdnd Hmd] _ _ _ _] Hfiles Hlinks Hdirs.
  rewrite app_nil_r in *.
  assert (filelist d ≡ₚ mark_files t) as Hfl.
  { apply NoDup_Permutation; [apply (fw_nodup _ _ Hwf)|done|].
    intros k. split; [auto|]. by intros [? _]%Hmf. }
  assert (forall k, k ∈ inodeset d <-> k ∈ mark_files t) as Hins.
  { intros k. split.
    - intros [Hk _]%(fw_inode _ _ Hwf). auto.
    - intros Hk. apply (fw_inode _ _ Hwf). split; [by rewrite Hfl|].
      destruct (mark_files_has _ _ _ _ _ Hmarks Hk)
        as (i & sub & st & ph & _ & _ & m & Hm & _ & Hwi & _).
      eauto. }
  split; try done.
  - by rewrite (fw_path _ _ Hwf).
  - apply NoDup_Permutation; [apply (fw_inode_nodup _ _ Hwf)|done|done].
  - intros h g m n Hh%Hins Hg%Hins. by apply (fw_unique _ _ Hwf).
  - apply NoDup_Permutation; [done|done|].
    intros k. split; [auto|]. by intros [? _]%Hml.
  - rewrite Hlset. apply NoDup_Permutation; [done|done|].
    intros k. split; [auto|]. by intros [? _]%Hml.
  - apply NoDup_Permutation; [done|done|].
    intros k. split; [auto|]. by intros [? _]%Hmd.
  - rewrite Hdset. apply NoDup_Permutation; [done|done|].
    intros k. split; [auto|]. by intros [? _]%Hmd.
Qed.

Lemma links_rest_fields (d d' : snapraid_disk) :
  links_rest d' = links_rest d ->
  disk_name d' = disk_name d /\ disk_dir d' = disk_dir d /\
  disk_device d' = disk_device d /\
  has_not_persistent_inodes d' = has_not_persistent_inodes d /\
  filelist d' = filelist d /\ dirlist d' = dirlist d.
Proof. unfold links_rest. intros [= -> -> -> -> _ -> _ _ _ -> _]. done. Qed.

Lemma dirs_rest_fields (d d' : snapraid_disk) :
  dirs_rest d' = dirs_rest d ->
  disk_name d' = disk_name d /\ disk_dir d' = disk_dir d /\
  disk_device d' = disk_device d /\
  has_not_persistent_inodes d' = has_not_persistent_inodes d /\
  filelist d' = filelist d /\ linklist d' = linklist d.
Proof. unfold dirs_rest. intros [= -> -> -> -> _ -> _ _ _ -> _]. done. Qed.

Lemma state_rest_order (state state' : snapraid_state) :
  state_rest state' = state_rest state -> opt_force_order state' = opt_force_order state.
Proof. unfold state_rest. by intros [= _ _ _ -> _]. Qed.

(** After the scan of a disk the catalog is the one of the events of its
    walk. *)
Lemma state_scan_disk_synced (flt : snapraid_filter) (state state1 : snapraid_state)
    (d0 d1 : snapraid_disk) (fs : disk_view) (scan : snapraid_scan) :
  catalog_wf d0 ->
  (has_not_persistent_inodes d0 = true -> fs_fsinfo fs = Some false) ->
  state_scan_disk flt state d0 fs = Ok (scan, state1, d1) ->
  exists evs t,
    disk_events flt state d0 fs = Ok evs /\
    synced true d1 evs t /\
    env_of state1 d1 = walk_env_of state d0 fs.
Proof.
  unfold state_scan_disk. intros Hcw Hflag H.
  destruct (fs_fsinfo fs) as [b|] eqn:Hinfo; [|discriminate]. cbn [bind] in H.
  apply bind_Ok in H as (d & Hd & H).
  destruct (scanning_start d0 d (negb b) Hcw) as (Hsc0 & Hnp & Hname & Hdir & Hdev).
  { intros Hf. specialize (Hflag Hf). by injection Hflag as ->. }
  { exact Hd. }
  assert (env_of state d = walk_env_of state d0 fs) as Henv.
  { unfold env_of, walk_env_of. by rewrite Hinfo, Hname, Hdir, Hdev, Hnp. }
  apply bind_Ok in H as ([[[scan2 state2] d2] p] & Hwalk & H).
  apply (scan_dir_follows flt (env_of state d) (scan_dir_entry flt)
           (walk_entry flt (env_of state d)) (fs_root fs)) with (evs0 := []) (t0 := [])
    in Hwalk as (evs & Hw & Hev);
    [|intros; apply scan_dir_entry_follows|exact Hsc0|done].
  destruct (scan_events_scanning _ _ _ _ _ _ _ _ _ Hsc0 Hev) as [(t & Hsc2) Henv2].
  cbn [app] in Hsc2. unfold scanning in Hsc2.
  (* the removals *)
  apply bind_Ok in H as ([[scan3 state3] d3] & Hrf & H).
  destruct (remove_missing_files_scanned _ _ _ _ _ _ _ _ _ _ _ _ Hsc2 Hrf)
    as (Hsc3 & Hsub3 & Hmk3 & Hrest3 & Hst3 & Hfil3 & Hlil3 & Hdil3).
  apply bind_Ok in H as ([[scan4 state4] d4] & Hrl & H).
  destruct (remove_missing_links_scanned _ _ _ _ _ _ _ _ _ _ _ _ Hsc3 Hrl)
    as (Hsc4 & Hsub4 & Hmk4 & Hrest4 & Hst4 & Hfil4 & Hlil4 & Hdil4).
  apply bind_Ok in H as ([[scan5 state5] d5] & Hrd & H).
  destruct (remove_missing_dirs_scanned _ _ _ _ _ _ _ _ _ _ _ _ Hsc4 Hrd)
    as (Hsc5 & Hsub5 & Hmk5 & Hrest5 & Hst5 & Hfil5 & Hlil5 & Hdil5).
  (* the insertions *)
  apply bind_Ok in H as (nodes & Hsort & H).
  apply sort_file_insert_list_perm in Hsort.
  rewrite Hfil5, Hfil4, Hfil3 in Hsort.
  apply (scanned_perm _ _ nodes) in Hsc5; [|done].
  apply bind_Ok in H as ([[state6 d6] dup] & Hif & H). cbn in Hif.
  destruct (insert_new_files_scanned _ _ _ _ _ _ _ _ _ _ _ _ _ Hsc5 Hif)
    as (Hsc6 & Hmem6 & Hrest6 & Hst6).
  set (d6' := if bool_decide (opt_force_order state6 = SORT_PHYSICAL) && (dup >? 0)
              then set_has_not_reliable_physical true d6 else d6) in H.
  assert (catalog_of d6' = catalog_of d6) as Hcat6.
  { unfold d6'. by destruct (bool_decide _ && _). }
  apply (scanned_catalog _ _ _ _ _ _ _ Hcat6) in Hsc6.
  destruct (catalog_rest _ _ Hcat6) as (Hfl6 & _ & _ & Hrest6').
  apply bind_Ok in H as ([state7 d7] & Hil & H). cbn in Hil.
  rewrite Hlil5, Hlil4, Hlil3 in Hil.
  destruct (insert_new_links_scanned _ _ _ _ _ _ _ _ _ Hsc6 Hil)
    as (Hsc7 & Hmem7 & Hrest7 & Hst7).
  apply bind_Ok in H as ([state8 d8] & Hid & H). cbn in Hid.
  rewrite Hdil5, Hdil4, Hdil3 in Hid.
  destruct (insert_new_dirs_scanned _ _ _ _ _ _ _ _ _ Hsc7 Hid)
    as (Hsc8 & Hmem8 & Hrest8 & Hst8).
  injection H as <- <- <-.
  (* the fields that stay *)
  destruct (disk_rest_fields _ _ Hrest3)
    as (Hn3 & Hdv3 & Hnp3 & _ & Hll3 & _ & _ & Hdl3 & _).
  destruct (links_rest_fields _ _ Hrest4) as (Hn4 & Hdr4 & Hdv4 & Hnp4 & Hfl4 & Hdl4).
  destruct (dirs_rest_fields _ _ Hrest5) as (Hn5 & Hdr5 & Hdv5 & Hnp5 & Hfl5 & Hll5).
  destruct (disk_rest_fields _ _ Hrest6)
    as (Hn6 & Hdv6 & Hnp6 & _ & Hll6 & _ & _ & Hdl6 & _).
  destruct (disk_rest_fields _ _ Hrest6')
    as (Hn6' & Hdv6' & Hnp6' & _ & Hll6' & _ & _ & Hdl6' & _).
  destruct (links_rest_fields _ _ Hrest7) as (Hn7 & Hdr7 & Hdv7 & Hnp7 & Hfl7 & Hdl7).
  destruct (dirs_rest_fields _ _ Hrest8) as (Hn8 & Hdr8 & Hdv8 & Hnp8 & Hfl8 & Hll8).
  pose proof (disk_rest_dir _ _ Hrest3) as Hdr3.
  pose proof (disk_rest_dir _ _ Hrest6) as Hdr6.
  pose proof (disk_rest_dir _ _ Hrest6') as Hdr6'.
  exists evs, t. split; [|split].
  - unfold disk_events, walk_disk. rewrite <- Henv, <- Hdir. by rewrite Hw.
  - apply synced_of_scanned; [done|..].
    + intros k. rewrite Hfl8, Hfl7, Hfl6. intros [Hk|Hk]%Hmem6.
      * rewrite Hfl5, Hfl4 in Hk. apply Hmk3; auto.
      * rewrite Hsort in Hk. by apply (sc_fp _ _ _ _ _ _ Hsc2).
    + intros k. rewrite Hll8. intros [Hk|Hk]%Hmem7.
      * rewrite Hll6', Hll6, Hll5 in Hk. apply Hmk4; auto.
      * by apply (sc_lp _ _ _ _ _ _ Hsc2).
    + intros k. intros [Hk|Hk]%Hmem8.
      * rewrite Hdl7, Hdl6', Hdl6 in Hk. apply Hmk5; auto.
      * by apply (sc_dp _ _ _ _ _ _ Hsc2).
  - rewrite <- Henv, <- Henv2. unfold env_of.
    rewrite Hn8, Hn7, Hn6', Hn6, Hn5, Hn4, Hn3.
    rewrite Hdv8, Hdv7, Hdv6', Hdv6, Hdv5, Hdv4, Hdv3.
    rewrite Hnp8, Hnp7, Hnp6', Hnp6, Hnp5, Hnp4, Hnp3.
    rewrite Hdr8, Hdr7, Hdr6', Hdr6, Hdr5, Hdr4, Hdr3.
    f_equal. apply state_rest_order. congruence.
Qed.

(** ** The catalog with its PRESENT flags cleared *)

Lemma fget_clear_present (d : snapraid_disk) (k : nat) :
  fget (clear_present d) k = set_file_is_present false <$> fget d k.
Proof.
  unfold fget, clear_present. cbn. rewrite list_lookup_fmap.
  by destruct (files d !! k) as [[f|]|].
Qed.

Lemma lget_clear_present (d : snapraid_disk) (k : nat) :
  lget (clear_present d) k = set_link_is_present false <$> lget d k.
Proof.
  unfold lget, clear_present. cbn. rewrite list_lookup_fmap.
  by destruct (links d !! k) as [[f|]|].
Qed.

Lemma dget_clear_present (d : snapraid_disk) (k : nat) :
  dget (clear_present d) k = set_dir_is_present false <$> dget d k.
Proof.
  unfold dget, clear_present. cbn. rewrite list_lookup_fmap.
  by destruct (dirs d !! k) as [[f|]|].
Qed.

Lemma mark_ok_clear_present (d : snapraid_disk) (ev : event) (mk : mark) :
  mark_ok true d ev mk -> mark_ok false (clear_present d) ev mk.
Proof.
  destruct ev, mk; simpl; try done.
  - intros (m & Hm & Hp & H). exists (set_file_is_present false m).
    rewrite fget_clear_present, Hm. done.
  - intros (m & Hm & Hp & Hwi & Hino & Hnc & Hn & Hlk).
    exists (set_file_is_present false m).
    rewrite fget_clear_present, Hm. repeat (split; [done|]).
    unfold link_has in *. by rewrite lget_clear_present, Hlk.
  - unfold link_has. intros H. by rewrite lget_clear_present, H.
  - unfold dir_has. intros H. by rewrite dget_clear_present, H.
Qed.

(** The catalog a scan leaves, with its flags cleared, is still the one of
    the events. *)
Lemma synced_clear_present (d : snapraid_disk) (evs : list event) (t : list mark) :
  synced true d evs t -> synced false (clear_present d) evs t.
Proof.
  intros [Hmarks Hhard Hnd Hfl Hps His Huniq Hlnd Hll Hls Hdnd Hdl Hds].
  split; try done.
  - eapply Forall2_impl; [exact Hmarks|]. apply mark_ok_clear_present.
  - intros h g m n Hh Hg. rewrite !fget_clear_present.
    destruct (fget d h) as [m0|] eqn:Hm0; [|done].
    destruct (fget d g) as [n0|] eqn:Hn0; [|done].
    intros [= <-] [= <-]. simpl. by apply Huniq.
Qed.

Lemma mark_links_has (p : bool) (d : snapraid_disk) (evs : list event)
    (t : list mark) (l : nat) :
  Forall2 (mark_ok p d) evs t -> l ∈ mark_links t ->
  exists i sub linkto kind ev mk,
    t !! i = Some mk /\ mark_link mk = Some l /\ evs !! i = Some ev /\
    event_sub ev = sub /\ link_has p d l sub linkto kind.
Proof.
  intros Hall Hl. apply list_elem_of_omap in Hl as (mk & Hmk & Hlink).
  apply list_elem_of_lookup in Hmk as (i & Hi).
  destruct (Forall2_lookup_r _ _ _ _ _ Hall Hi) as (ev & Hev & Hok).
  destruct mk as [h|h l'|l'|dh]; try discriminate; injection Hlink as ->;
    destruct ev as [sub st ph|sub linkto|sub]; try done; simpl in Hok.
  - destruct Hok as (m & _ & _ & _ & _ & _ & _ & Hlk).
    exists i, sub, (file_sub m), FILE_IS_HARDLINK, (EvFile sub st ph), (MHard h l).
    done.
  - by exists i, sub, linkto, FILE_IS_SYMLINK, (EvLink sub linkto), (MSym l).
Qed.

Lemma mark_dirs_has (p : bool) (d : snapraid_disk) (evs : list event)
    (t : list mark) (dh : nat) :
  Forall2 (mark_ok p d) evs t -> dh ∈ mark_dirs t ->
  exists i sub,
    t !! i = Some (MDir dh) /\ evs !! i = Some (EvDir sub) /\ dir_has p d dh sub.
Proof.
  intros Hall Hl. apply list_elem_of_omap in Hl as (mk & Hmk & Hdir).
  destruct mk; try discriminate. injection Hdir as ->.
  apply list_elem_of_lookup in Hmk as (i & Hi).
  destruct (Forall2_lookup_r _ _ _ _ _ Hall Hi) as (ev & Hev & Hok).
  destruct ev as [| |sub]; try done. by exists i, sub.
Qed.

(** A catalog whose flags are cleared after a scan is ready for a scan. *)
Lemma synced_catalog_wf (d : snapraid_disk) (evs : list event) (t : list mark) :
  synced false d evs t -> catalog_wf d.
Proof.
  intros [Hmarks Hhard Hnd Hfl Hps His Huniq Hlnd Hll Hls Hdnd Hdl Hds].
  split.
  - split.
    + by rewrite Hfl.
    + intros h Hh. rewrite Hfl in Hh.
      destruct (mark_files_has _ _ _ _ _ Hmarks Hh)
        as (i & sub & st & ph & _ & _ & m & Hm & _). by exists m.
    + by rewrite Hps, Hfl.
    + by rewrite His.
    + intros h. rewrite His, Hfl. split; [|by intros [? _]].
      intros Hh. split; [done|].
      destruct (mark_files_has _ _ _ _ _ Hmarks Hh)
        as (i & sub & st & ph & _ & _ & m & Hm & _ & Hwi & _). eauto.
    + intros h g m n. rewrite !His. apply Huniq.
  - split.
    + by rewrite app_nil_r, Hll.
    + intros l. rewrite app_nil_r, Hll. intros Hl.
      destruct (mark_links_has _ _ _ _ _ Hmarks Hl)
        as (i & sub & linkto & kind & ev & mk & _ & _ & _ & _ & Hlk).
      by eexists.
    + by rewrite Hls, Hll.
  - split.
    + by rewrite app_nil_r, Hdl.
    + intros l. rewrite app_nil_r, Hdl. intros Hl.
      destruct (mark_dirs_has _ _ _ _ _ Hmarks Hl) as (i & sub & _ & _ & Hdh).
      by eexists.
    + by rewrite Hds, Hdl.
  - intros h Hh (a & Ha & Hpa). rewrite Hfl in Hh.
    destruct (mark_files_has _ _ _ _ _ Hmarks Hh)
      as (i & sub & st & ph & _ & _ & m & Hm & Hp & _). congruence.
  - intros l Hl (a & Ha & Hpa). rewrite Hll in Hl.
    destruct (mark_links_has _ _ _ _ _ Hmarks Hl)
      as (i & sub & linkto & kind & ev & mk & _ & _ & _ & _ & Hlk).
    unfold link_has in Hlk. rewrite Hlk in Ha. by injection Ha as <-.
  - intros l Hl (a & Ha & Hpa). rewrite Hdl in Hl.
    destruct (mark_dirs_has _ _ _ _ _ Hmarks Hl) as (i & sub & _ & _ & Hdh).
    unfold dir_has in Hdh. rewrite Hdh in Ha. by injection Ha as <-.
Qed.

(** ** The entries that are equal *)

Section SearchForward.
Context {A : Type}.
Implicit Types (h : heap A) (cmp : A -> bool) (set : list nat).

Lemma tommy_hashdyn_search_found h cmp set p a :
  (forall q, q ∈ set -> exists b, h !! q = Some (Some b)) ->
  p ∈ set -> h !! p = Some (Some a) -> cmp a = true ->
  (forall g b, g ∈ set -> h !! g = Some (Some b) -> cmp b = true -> g = p) ->
  tommy_hashdyn_search h cmp set = Ok (Some p).
Proof.
  intros Hlive Hp Ha Hcmp Huniq.
  destruct (tommy_hashdyn_search_live h cmp set Hlive) as [[q|] Hr].
  - destruct (tommy_hashdyn_search_Some _ _ _ _ Hr) as (Hq & b & Hb & Hcb).
    by rewrite Hr, (Huniq q b Hq Hb Hcb).
  - destruct (tommy_hashdyn_search_None _ _ _ Hr p Hp) as (b & Hb & Hcb). congruence.
Qed.


End SearchForward.





(** The entry is a hardlink to the file found by inode. *)
Lemma scan_file_hardlink_eval (scan : snapraid_scan) (state : snapraid_state)
    (d : snapraid_disk) (sub : string) (st : stat) (ph : Z) (h : nat)
    (f : snapraid_file) (r : scan_ctx) :
  tommy_hashdyn_search (files d) (fun f => file_inode f =? st_ino st) (inodeset d)
  = Ok (Some h) ->
  files d !! h = Some (Some f) ->
  file_not_changed f st = true -> file_is_present f = true -> 1 < st_nlink st ->
  scan_link scan state d sub (file_sub f) FILE_IS_HARDLINK = Ok r ->
  scan_file scan state d sub st ph = Ok r.
Proof.
  intros Hsearch Hf Hmatch Hpresent Hn Hlink.
  unfold scan_file, scan_file_inode. rewrite Hsearch. cbn [bind].
  rewrite (heap_get_lookup _ _ _ Hf). cbn [bind]. rewrite Hmatch, Hpresent.
  replace (st_nlink st >? 1) with true by lia. by rewrite Hlink.
Qed.


(** ** What the second scan knows of the catalog *)





Section ReplayFacts.
Context (D : snapraid_disk) (evs : list event) (t : list mark).
Context (Hsy : synced false D evs t) (Hsubs : NoDup (event_sub <$> evs)).







Lemma sy_mark_elem (i : nat) (mk : mark) :
  t !! i = Some mk ->
  (forall h, mark_file mk = Some h -> h ∈ mark_files t) /\
  (forall l, mark_link mk = Some l -> l ∈ mark_links t) /\
  (forall dh, mark_dir mk = Some dh -> dh ∈ mark_dirs t).
Proof.
  intros Hi. apply list_elem_of_lookup_2 in Hi.
  repeat split; intros h Hh; apply list_elem_of_omap; eauto.
Qed.





End ReplayFacts.

(** ** The second scan, entry by entry *)



Lemma mark_files_take (t : list mark) (i : nat) (h : nat) :
  h ∈ mark_files (take i t) -> h ∈ mark_files t.
Proof.
  intros (mk & Hmk & Hh)%list_elem_of_omap. apply list_elem_of_omap.
  exists mk. split; [|done]. rewrite <- (take_drop i t). apply elem_of_app. by left.
Qed.

Section ReplayStep.
Context (D : snapraid_disk) (evs : list event) (t : list mark) (np : bool).
Context (Hsy : synced false D evs t) (Hsubs : NoDup (event_sub <$> evs)).














End ReplayStep.

(** ** The second scan of a disk *)




(** With nothing to insert, the end of the scan of a disk leaves the state
    and the disk as they are. *)
Lemma sort_file_insert_list_nil (state : snapraid_state) (d : snapraid_disk) :
  sort_file_insert_list state d [] = Ok [].
Proof. unfold sort_file_insert_list. simpl. by destruct (opt_force_order state). Qed.





(** ** The second scan of every disk *)



Lemma state_scan_disk_fsinfo (flt : snapraid_filter) (state : snapraid_state)
    (d : snapraid_disk) (fs : disk_view) (r : scan_ctx) :
  state_scan_disk flt state d fs = Ok r -> exists hp, fs_fsinfo fs = Some hp.
Proof.
  unfold state_scan_disk. destruct (fs_fsinfo fs) as [hp|]; [eauto|discriminate].
Qed.


Section SecondScan.
Context (flt : snapraid_filter) (fs : string -> disk_view) (state0 : snapraid_state).


End SecondScan.

(** ** Two scans in a row (C9) *)

Lemma ex_disk_new_wf : catalog_wf ex_disk_new.
Proof.
  assert (forall h : nat, h ∉ @nil nat) as Hnil by (intros h; apply not_elem_of_nil).
  split; [split|split|split|..]; simpl; try done; try apply NoDup_nil_2;
    try (intros h Hh; by destruct (Hnil h)).
  intros h. split; [intros Hh|intros [Hh _]]; by destruct (Hnil h).
Qed.


Lemma ex_first_scan_eq :
  state_scan ex_filter ex_fs_link (ex_state false) [ex_disk_new] = Ok ex_first_scan.
Proof. vm_compute. reflexivity. Qed.




(** ** The catalog after the scan of a disk *)

Lemma ex_disk_wf : catalog_wf ex_disk.
Proof.
  assert (forall h : nat, h ∈ [0%nat] -> h = 0%nat) as Hone.
  { intros h Hh. by apply list_elem_of_singleton in Hh. }
  assert (forall h : nat, h ∉ @nil nat) as Hnil by (intros h; apply not_elem_of_nil).
  split; [split|split|split|..]; simpl; try done; try apply NoDup_nil_2;
    try apply NoDup_singleton; try (intros h Hh; by destruct (Hnil h)).
  - intros h ->%Hone. by eexists.
  - intros h. split.
    + intros Hh. split; [done|]. apply Hone in Hh as ->. by eexists.
    + by intros [Hh _].
  - intros h g m n ->%Hone ->%Hone. done.
  - intros h ->%Hone (a & Ha & Hp). by injection Ha as <-.
Qed.

Lemma synced_file_at (d : snapraid_disk) (h : nat) (sub : string) (st : stat) :
  file_has true d h sub st ->
  exists f, files d !! h = Some (Some f) /\
    file_is_present f = true /\ file_is_without_inode f = false /\
    file_sub f = sub /\ file_inode f = st_ino st /\
    file_size f = st_size st /\ file_mtime_sec f = st_mtime st /\
    file_mtime_nsec f = STAT_NSEC st.
Proof.
  intros (m & Hm & Hfields). apply fget_Some in Hm as (f & Hf & <-). by exists f.
Qed.

(** The entries of the walk are in the catalog of a synced disk. *)
Lemma synced_entry (d : snapraid_disk) (evs : list event) (t : list mark)
    (ev : event) :
  synced true d evs t -> ev ∈ evs -> catalog_entry d ev.
Proof.
  intros Hsy (i & Hev)%list_elem_of_lookup.
  destruct (Forall2_lookup_l _ _ _ _ _ (sy_marks _ _ _ _ Hsy) Hev) as (mk & Hmk & Hok).
  destruct (sy_mark_elem t _ _ Hmk) as (Helf & Hell & Held).
  destruct ev as [sub st ph|sub linkto|sub], mk as [h|h l|l|dh]; try done; simpl in *.
  - left. destruct (synced_file_at _ _ _ _ Hok) as (f & Hf & Hrest).
    exists h, f. split; [|done]. rewrite (sy_filelist _ _ _ _ Hsy). by apply Helf.
  - right. destruct Hok as (m & Hm & Hp & Hwi & Hino & Hnc & Hn & Hlk).
    apply fget_Some in Hm as (f & Hf & <-).
    exists h, f. split.
    { rewrite (sy_filelist _ _ _ _ Hsy).
      apply (mark_files_take t i), (sy_hard _ _ _ _ Hsy _ h l (drop (S i) t)).
      by rewrite take_drop_middle. }
    do 5 (split; [done|]). exists l. split.
    + rewrite (sy_linklist _ _ _ _ Hsy). by apply Hell.
    + by apply lget_Some.
  - exists l. split; [|by apply lget_Some].
    rewrite (sy_linklist _ _ _ _ Hsy). by apply Hell.
  - exists dh. split; [|by apply dget_Some].
    rewrite (sy_dirlist _ _ _ _ Hsy). by apply Held.
Qed.

(** X1: after the scan of a disk whose catalog satisfies I1 with no PRESENT
    flag set, and whose flag for inodes that are not persistent is set only
    if the filesystem reports such inodes, the catalog holds every entry the
    walk of the disk met: each
    regular file as a file with the path, the inode, the size and the times
    of its stat data, or as a hardlink to such a file; each symbolic link
    with its target; each directory in which nothing was processed as an
    empty dir. *)
Theorem state_scan_disk_complete (flt : snapraid_filter) (state state1 : snapraid_state)
    (d0 d1 : snapraid_disk) (fs : disk_view) (scan : snapraid_scan) :
  catalog_wf d0 ->
  (has_not_persistent_inodes d0 = true -> fs_fsinfo fs = Some false) ->
  state_scan_disk flt state d0 fs = Ok (scan, state1, d1) ->
  exists evs,
    disk_events flt state d0 fs = Ok evs /\
    forall ev, ev ∈ evs -> catalog_entry d1 ev.
Proof.
  intros Hcw Hflag Hrun.
  destruct (state_scan_disk_synced _ _ _ _ _ _ _ Hcw Hflag Hrun)
    as (evs & t & Hevs & Hsy & _).
  exists evs. split; [done|]. intros ev Hev. by eapply synced_entry.
Qed.

Lemma state_scan_disk_complete_witness :
  catalog_wf ex_disk /\
  state_scan_disk ex_filter (ex_state false) ex_disk (ex_fs "/mnt/d1/") = Ok ex_scanned /\
  exists evs,
    disk_events ex_filter (ex_state false) ex_disk (ex_fs "/mnt/d1/") = Ok evs /\
    forall ev, ev ∈ evs -> catalog_entry ex_scanned.2 ev.
Proof.
  assert (state_scan_disk ex_filter (ex_state false) ex_disk (ex_fs "/mnt/d1/")
          = Ok ex_scanned) as Hrun by (vm_compute; reflexivity).
  split; [exact ex_disk_wf|]. split; [exact Hrun|].
  apply (state_scan_disk_complete ex_filter (ex_state false) ex_scanned.1.2 ex_disk
           ex_scanned.2 (ex_fs "/mnt/d1/") ex_scanned.1.1 ex_disk_wf).
  - intros H. discriminate H.
  - exact Hrun.
Defined.

(** X2: after the scan of a disk whose catalog satisfies I1 with no PRESENT
    flag set, and whose flag for inodes that are not persistent is set only
    if the filesystem reports such inodes, nothing stale is left: every file
    of the file list is marked
    present and has the path and the stat data of a regular file the walk
    met; every link of the link list is a symbolic link the walk met, or a
    hardlink at the path of a regular file with more than one link; every
    dir of the dir list is a directory the walk met. *)
Theorem state_scan_disk_sound (flt : snapraid_filter) (state state1 : snapraid_state)
    (d0 d1 : snapraid_disk) (fs : disk_view) (scan : snapraid_scan) :
  catalog_wf d0 ->
  (has_not_persistent_inodes d0 = true -> fs_fsinfo fs = Some false) ->
  state_scan_disk flt state d0 fs = Ok (scan, state1, d1) ->
  exists evs,
    disk_events flt state d0 fs = Ok evs /\
    (forall h, h ∈ filelist d1 ->
       exists f st ph,
         files d1 !! h = Some (Some f) /\ file_is_present f = true /\
         EvFile (file_sub f) st ph ∈ evs /\
         file_inode f = st_ino st /\ file_size f = st_size st /\
         file_mtime_sec f = st_mtime st /\ file_mtime_nsec f = STAT_NSEC st) /\
    (forall l, l ∈ linklist d1 ->
       exists x,
         links d1 !! l = Some (Some x) /\ link_is_present x = true /\
         match link_kind_of x with
         | FILE_IS_SYMLINK => EvLink (link_sub x) (link_linkto x) ∈ evs
         | FILE_IS_HARDLINK =>
             exists st ph, EvFile (link_sub x) st ph ∈ evs /\ 1 < st_nlink st
         end) /\
    (forall dh, dh ∈ dirlist d1 ->
       exists x,
         dirs d1 !! dh = Some (Some x) /\ dir_is_present x = true /\
         EvDir (dir_sub x) ∈ evs).
Proof.
  intros Hcw Hflag Hrun.
  destruct (state_scan_disk_synced _ _ _ _ _ _ _ Hcw Hflag Hrun)
    as (evs & t & Hevs & Hsy & _).
  exists evs. split; [done|]. split; [|split].
  - intros h Hh. rewrite (sy_filelist _ _ _ _ Hsy) in Hh.
    destruct (mark_files_has _ _ _ _ _ (sy_marks _ _ _ _ Hsy) Hh)
      as (i & sub & st & ph & _ & Hev & Hhas).
    destruct (synced_file_at _ _ _ _ Hhas)
      as (f & Hf & Hp & _ & Hsub & Hino & Hsz & Hmt & Hns).
    exists f, st, ph. split; [done|]. split; [done|]. split; [|done].
    rewrite Hsub. by eapply list_elem_of_lookup_2.
  - intros l Hl. rewrite (sy_linklist _ _ _ _ Hsy) in Hl.
    apply list_elem_of_omap in Hl as (mk & Hmk & Hlink).
    apply list_elem_of_lookup in Hmk as (i & Hi).
    destruct (Forall2_lookup_r _ _ _ _ _ (sy_marks _ _ _ _ Hsy) Hi) as (ev & Hev & Hok).
    apply list_elem_of_lookup_2 in Hev.
    destruct ev as [sub st ph|sub linkto|sub], mk as [h|h l'|l'|dh]; try done;
      simpl in *; injection Hlink as ->.
    + destruct Hok as (m & _ & _ & _ & _ & _ & Hn & Hlk). apply lget_Some in Hlk.
      eexists. split; [exact Hlk|]. split; [done|]. simpl. eauto.
    + apply lget_Some in Hok. eexists. split; [exact Hok|]. by split.
  - intros dh Hdh. rewrite (sy_dirlist _ _ _ _ Hsy) in Hdh.
    destruct (mark_dirs_has _ _ _ _ _ (sy_marks _ _ _ _ Hsy) Hdh)
      as (i & sub & _ & Hev & Hhas).
    apply dget_Some in Hhas. eexists. split; [exact Hhas|]. split; [done|].
    by eapply list_elem_of_lookup_2.
Qed.

Lemma state_scan_disk_sound_witness :
  catalog_wf ex_disk /\
  state_scan_disk ex_filter (ex_state false) ex_disk (ex_fs "/mnt/d1/") = Ok ex_scanned /\
  exists evs,
    disk_events ex_filter (ex_state false) ex_disk (ex_fs "/mnt/d1/") = Ok evs /\
    (forall h, h ∈ filelist ex_scanned.2 ->
       exists f st ph,
         files ex_scanned.2 !! h = Some (Some f) /\ file_is_present f = true /\
         EvFile (file_sub f) st ph ∈ evs /\
         file_inode f = st_ino st /\ file_size f = st_size st /\
         file_mtime_sec f = st_mtime st /\ file_mtime_nsec f = STAT_NSEC st) /\
    (forall l, l ∈ linklist ex_scanned.2 ->
       exists x,
         links ex_scanned.2 !! l = Some (Some x) /\ link_is_present x = true /\
         match link_kind_of x with
         | FILE_IS_SYMLINK => EvLink (link_sub x) (link_linkto x) ∈ evs
         | FILE_IS_HARDLINK =>
             exists st ph, EvFile (link_sub x) st ph ∈ evs /\ 1 < st_nlink st
         end) /\
    (forall dh, dh ∈ dirlist ex_scanned.2 ->
       exists x,
         dirs ex_scanned.2 !! dh = Some (Some x) /\ dir_is_present x = true /\
         EvDir (dir_sub x) ∈ evs).
Proof.
  assert (state_scan_disk ex_filter (ex_state false) ex_disk (ex_fs "/mnt/d1/")
          = Ok ex_scanned) as Hrun by (vm_compute; reflexivity).
  split; [exact ex_disk_wf|]. split; [exact Hrun|].
  apply (state_scan_disk_sound ex_filter (ex_state false) ex_scanned.1.2 ex_disk
           ex_scanned.2 (ex_fs "/mnt/d1/") ex_scanned.1.1 ex_disk_wf).
  - intros H. discriminate H.
  - exact Hrun.
Defined.

(** ** The invariants of the catalog across state_scan *)

Lemma state_scan_disk_reloaded (flt : snapraid_filter) (fs : string -> disk_view)
    (state state1 : snapraid_state) (d0 d1 : snapraid_disk) (scan : snapraid_scan) :
  catalog_wf d0 -> flag_consistent fs d0 ->
  state_scan_disk flt state d0 (fs (disk_dir d0)) = Ok (scan, state1, d1) ->
  catalog_wf (clear_present d1) /\ flag_consistent fs d1 /\
  disk_name d1 = disk_name d0 /\ disk_dir d1 = disk_dir d0 /\
  disk_device d1 = disk_device d0.
Proof.
  intros Hcw Hflag Hrun.
  destruct (state_scan_disk_fsinfo _ _ _ _ _ Hrun) as [hp Hinfo].
  destruct (state_scan_disk_synced _ _ _ _ _ _ _ Hcw Hflag Hrun)
    as (evs & t & Hevs & Hsy & Henv).
  unfold env_of, walk_env_of in Henv. rewrite Hinfo in Henv.
  injection Henv as Hname Hdir Hdev Hnp Hord.
  split; [|split; [|done]].
  - eapply synced_catalog_wf. by apply synced_clear_present.
  - unfold flag_consistent. rewrite Hdir, Hinfo, Hnp. by destruct hp.
Qed.

Lemma state_scan_disks_reloaded (flt : snapraid_filter) (fs : string -> disk_view)
    (disklist : list snapraid_disk) :
  forall (state state1 : snapraid_state) (disks1 : list snapraid_disk)
    (scans1 : list snapraid_scan),
    Forall catalog_wf disklist -> Forall (flag_consistent fs) disklist ->
    state_scan_disks flt fs state disklist = Ok (state1, disks1, scans1) ->
    Forall (fun d => catalog_wf (clear_present d)) disks1 /\
    Forall (flag_consistent fs) disks1 /\
    Forall2 (fun d0 d1 => disk_name d1 = disk_name d0 /\ disk_dir d1 = disk_dir d0 /\
                          disk_device d1 = disk_device d0) disklist disks1 /\
    length scans1 = length disklist.
Proof.
  induction disklist as [|d0 disklist IH]; intros state state1 disks1 scans1 Hcw Hflag H;
    simpl in H.
  - injection H as <- <- <-. by repeat split.
  - apply bind_Ok in H as ([[scan sA] dA] & Hd & H).
    apply bind_Ok in H as ([[sB disksB] scansB] & Hrest & H).
    injection H as <- <- <-.
    apply Forall_cons in Hcw as [Hcw0 Hcw].
    apply Forall_cons in Hflag as [Hflag0 Hflag].
    destruct (state_scan_disk_reloaded _ _ _ _ _ _ _ Hcw0 Hflag0 Hd)
      as (Hwf1 & Hfc1 & Hsame).
    destruct (IH _ _ _ _ Hcw Hflag Hrest) as (Hwf & Hfc & Hall & Hlen).
    split; [by apply Forall_cons|]. split; [by apply Forall_cons|].
    split; [by apply Forall2_cons|]. simpl. by rewrite Hlen.
Qed.

(** X3: state_scan re-establishes what it needs of the catalogs.  If the
    catalog of every disk satisfies I1 with no PRESENT flag set, and the flag
    for inodes that are not persistent is set only on disks whose filesystem
    reports them so, then the catalogs state_scan leaves satisfy I1 again
    once their PRESENT flags are cleared, and the flag is again set only on
    disks of such a filesystem. *)
Theorem state_scan_keeps_invariants (flt : snapraid_filter) (fs : string -> disk_view)
    (state state1 : snapraid_state) (disklist disks1 : list snapraid_disk)
    (scans1 : list snapraid_scan) :
  Forall catalog_wf disklist ->
  Forall (flag_consistent fs) disklist ->
  state_scan flt fs state disklist = Ok (state1, disks1, scans1) ->
  Forall (fun d => catalog_wf (clear_present d)) disks1 /\
  Forall (flag_consistent fs) disks1.
Proof.
  intros Hcw Hflag H. unfold state_scan in H.
  apply bind_Ok in H as ([[sA disksA] scansA] & Hrun & H).
  apply bind_Ok in H as (u & _ & H). injection H as <- <- <-.
  by destruct (state_scan_disks_reloaded _ _ _ _ _ _ _ Hcw Hflag Hrun) as (? & ? & _).
Qed.

Lemma state_scan_keeps_invariants_witness :
  Forall catalog_wf [ex_disk_new] /\
  Forall (flag_consistent ex_fs_link) [ex_disk_new] /\
  state_scan ex_filter ex_fs_link (ex_state false) [ex_disk_new] = Ok ex_first_scan /\
  Forall (fun d => catalog_wf (clear_present d)) ex_first_scan.1.2 /\
  Forall (flag_consistent ex_fs_link) ex_first_scan.1.2.
Proof.
  assert (Forall catalog_wf [ex_disk_new]) as H1.
  { constructor; [exact ex_disk_new_wf|constructor]. }
  assert (Forall (flag_consistent ex_fs_link) [ex_disk_new]) as H2.
  { constructor; [|constructor]. intros H. discriminate H. }
  split; [exact H1|]. split; [exact H2|]. split; [exact ex_first_scan_eq|].
  exact (state_scan_keeps_invariants ex_filter ex_fs_link (ex_state false)
           ex_first_scan.1.1 [ex_disk_new] ex_first_scan.1.2 ex_first_scan.2 H1 H2
           ex_first_scan_eq).
Defined.



(** ** The state across a scan: options, need_write, differences *)

Lemma state_le_refl (s : snapraid_state) : state_le s s.
Proof. by split. Qed.

Lemma state_le_trans (s1 s2 s3 : snapraid_state) :
  state_le s1 s2 -> state_le s2 s3 -> state_le s1 s3.
Proof. intros [H1 H1'] [H2 H2']. split; [congruence|auto]. Qed.

Lemma state_le_set (s : snapraid_state) : state_le s (set_need_write true s).
Proof. by split. Qed.

Lemma scan_step_refl (ctx : scan_ctx) : scan_step ctx ctx.
Proof. split; [apply state_le_refl|by split]. Qed.

Lemma scan_step_trans (c1 c2 c3 : scan_ctx) :
  scan_step c1 c2 -> scan_step c2 c3 -> scan_step c1 c3.
Proof.
  intros (H1 & H1' & H1'') (H2 & H2' & H2'').
  split; [by eapply state_le_trans|]. split; [auto|congruence].
Qed.

(** Symbolic execution of a run that returned: the binds are split and the
    tests are analysed; the last equation is left. *)
Ltac run_inv H :=
  repeat first
    [ progress cbn [bind] in H
    | match type of H with
      | bind _ _ = Ok _ => apply bind_Ok in H as (? & ? & H)
      | exit _ = Ok _ => discriminate H
      | Err _ = Ok _ => discriminate H
      | (if ?b then _ else _) = Ok _ => destruct b eqn:?
      | match ?x with _ => _ end = Ok _ => destruct x eqn:?
      end ].

Lemma file_store_ident (d d' : snapraid_disk) (h : nat)
    (upd : snapraid_file -> snapraid_file) :
  file_store d h upd = Ok d' -> disk_ident d' = disk_ident d.
Proof. by intros (f & _ & ->)%file_store_Ok. Qed.

Lemma link_store_ident (d d' : snapraid_disk) (l : nat)
    (upd : snapraid_link -> snapraid_link) :
  link_store d l upd = Ok d' -> disk_ident d' = disk_ident d.
Proof. by intros (f & _ & ->)%link_store_Ok. Qed.

Lemma update_mtime_nsec_step (state state' : snapraid_state) (d d' : snapraid_disk)
    (h : nat) (st : stat) :
  update_mtime_nsec state d h st = Ok (state', d') ->
  state_le state state' /\ disk_ident d' = disk_ident d.
Proof.
  unfold update_mtime_nsec. intros H. run_inv H; simplify_eq.
  - split; [apply state_le_set|by eapply file_store_ident].
  - split; [apply state_le_refl|done].
Qed.

Lemma scan_link_step (scan scan' : snapraid_scan) (state state' : snapraid_state)
    (d d' : snapraid_disk) (sub linkto : string) (flag : link_kind) :
  scan_link scan state d sub linkto flag = Ok (scan', state', d') ->
  scan_step (scan, state, d) (scan', state', d').
Proof.
  unfold scan_link, scan_step, heap_alloc. intros H. run_inv H; simplify_eq;
    cbn [fst snd];
    repeat match goal with
    | H : link_store _ _ _ = Ok _ |- _ => apply link_store_ident in H
    end.
  - split; [apply state_le_refl|]. split; [by intros [?|?]; [left|right]|done].
  - split; [apply state_le_set|]. split; [by left|congruence].
  - split; [apply state_le_refl|]. split; [|done].
    intros [?|(? & ? & ? & ? & _)]; [by left|right].
    repeat (split; [done|]). intros _. right. left. simpl.
    by intros [_ ?]%app_eq_nil.
Qed.

Lemma dir_store_ident (d d' : snapraid_disk) (dh : nat)
    (upd : snapraid_dir -> snapraid_dir) :
  dir_store d dh upd = Ok d' -> disk_ident d' = disk_ident d.
Proof. unfold dir_store. intros H. run_inv H. by simplify_eq. Qed.

Lemma scan_emptydir_step (scan scan' : snapraid_scan) (state state' : snapraid_state)
    (d d' : snapraid_disk) (sub : string) :
  scan_emptydir scan state d sub = Ok (scan', state', d') ->
  scan_step (scan, state, d) (scan', state', d').
Proof.
  unfold scan_emptydir, scan_step, heap_alloc. intros H.
  run_inv H; simplify_eq; cbn [fst snd];
    repeat match goal with
    | H : dir_store _ _ _ = Ok _ |- _ => apply dir_store_ident in H
    end.
  - split; [apply state_le_refl|]. split; [by intros [?|?]; [left|right]|done].
  - split; [apply state_le_refl|]. split; [|done].
    intros [?|(? & ? & ? & ? & _)]; [by left|right].
    repeat (split; [done|]). intros _. right. right. simpl.
    by intros [_ ?]%app_eq_nil.
Qed.

Ltac ident_steps :=
  repeat match goal with
  | H : file_store _ _ _ = Ok _ |- _ => apply file_store_ident in H
  | H : update_mtime_nsec _ _ _ _ = Ok _ |- _ =>
      apply update_mtime_nsec_step in H as [? ?]
  end.

Ltac ident_solve := unfold disk_ident in *; simpl in *; congruence.

Lemma scan_file_inode_step (scan : snapraid_scan) (state : snapraid_state)
    (d : snapraid_disk) (sub : string) (st : stat) (fl : flow scan_ctx) :
  scan_file_inode scan state d sub st = Ok fl ->
  match fl with
  | Return ctx' => scan_step (scan, state, d) ctx'
  | Continue (scan1, state1, d1) =>
      scan1 = scan /\ state1 = state /\ disk_ident d1 = disk_ident d
  end.
Proof.
  unfold scan_file_inode. intros H. run_inv H; simplify_eq; ident_steps.
  - (* a hardlink *)
    destruct x1 as [[scan' state'] d']. by eapply scan_link_step.
  - (* moved *)
    unfold scan_step. cbn [fst snd]. split; [|split; [by left|ident_solve]].
    eapply state_le_trans; [done|apply state_le_set].
  - (* equal *)
    unfold scan_step. cbn [fst snd]. split; [done|]. split; [|ident_solve].
    match goal with Hle : state_le _ _ |- _ => destruct Hle as [_ Hnw] end.
    intros [?|?]; [left; auto|by right].
  - (* the inode is the one of another file *)
    split; [done|]. split; [done|]. ident_solve.
  - done.
Qed.

Lemma disk_rest_ident (d d' : snapraid_disk) :
  disk_rest d' = disk_rest d -> disk_ident d' = disk_ident d.
Proof. unfold disk_rest, disk_ident. by intros [= -> -> -> -> _]. Qed.

Lemma scan_file_path_inode_ident (d d' : snapraid_disk) (h : nat) (sub : string)
    (st : stat) :
  scan_file_path_inode d h sub st = Ok d' -> disk_ident d' = disk_ident d.
Proof.
  unfold scan_file_path_inode. intros H. run_inv H; simplify_eq; ident_steps;
    ident_solve.
Qed.

Lemma scan_file_path_step (scan : snapraid_scan) (state : snapraid_state)
    (d : snapraid_disk) (sub : string) (st : stat) (fl : flow scan_ctx) :
  scan_file_path scan state d sub st = Ok fl ->
  match fl with
  | Return ctx' => scan_step (scan, state, d) ctx'
  | Continue (scan1, state1, d1) =>
      state_le state state1 /\ disk_ident d1 = disk_ident d /\
      ((scan1 = set_count_insert (incr (count_insert scan)) scan /\ state1 = state) \/
       (scan1 = set_count_change (incr (count_change scan)) scan /\
        need_write state1 = true))
  end.
Proof.
  unfold scan_file_path. intros H. run_inv H; simplify_eq; ident_steps;
    repeat match goal with
    | H : scan_file_path_inode _ _ _ _ = Ok _ |- _ =>
        apply scan_file_path_inode_ident in H
    | H : scan_file_remove _ _ _ = Ok _ |- _ =>
        apply scan_file_remove_catalog in H as (? & _ & _ & _ & _ & _ & ?%disk_rest_ident & ->)
    end.
  - (* restored *)
    unfold scan_step. cbn [fst snd]. split; [|split; [by left|ident_solve]].
    eapply state_le_trans; [done|apply state_le_set].
  - (* equal, the inodes are not persistent *)
    unfold scan_step. cbn [fst snd]. split; [done|]. split; [|ident_solve].
    match goal with Hle : state_le _ _ |- _ => destruct Hle as [_ Hnw] end.
    intros [?|?]; [left; auto|by right].
  - (* changed *)
    split; [apply state_le_set|]. split; [ident_solve|]. right. by split.
  - (* new *)
    split; [apply state_le_refl|]. split; [done|]. left. by split.
Qed.

(** scan_file is a step of the scan. *)
Lemma scan_file_step (scan scan' : snapraid_scan) (state state' : snapraid_state)
    (d d' : snapraid_disk) (sub : string) (st : stat) (ph : Z) :
  scan_file scan state d sub st ph = Ok (scan', state', d') ->
  scan_step (scan, state, d) (scan', state', d').
Proof.
  unfold scan_file. intros H. apply bind_Ok in H as (fl & Hino & H).
  apply scan_file_inode_step in Hino.
  destruct fl as [r|[[scan1 state1] d1]]; [by injection H as <-|].
  destruct Hino as (-> & -> & Hid1).
  apply bind_Ok in H as (fl & Hpath & H). apply scan_file_path_step in Hpath.
  destruct fl as [r|[[scan2 state2] d2]].
  { injection H as <-. eapply scan_step_trans; [|exact Hpath].
    split; [apply state_le_refl|]. split; [done|]. cbn [fst snd]. congruence. }
  destruct Hpath as (Hle & Hid2 & Hcase).
  rewrite scan_file_new_spec in H. injection H as <- <- <-.
  unfold scan_step. cbn [fst snd]. split; [done|]. split; [|ident_solve].
  destruct Hcase as [[-> ->]|[-> Hnw]]; [|by left].
  intros [?|(? & ? & ? & ? & _)]; [by left|right].
  repeat (split; [done|]). intros _. left. simpl. by intros [_ ?]%app_eq_nil.
Qed.

Lemma scan_event_step (ev : event) (ctx ctx' : scan_ctx) :
  scan_event ev ctx = Ok ctx' -> scan_step ctx ctx'.
Proof.
  destruct ctx as [[scan state] d], ctx' as [[scan' state'] d'], ev; simpl.
  - apply scan_file_step.
  - apply scan_link_step.
  - apply scan_emptydir_step.
Qed.

(** ** What every step of scan_dir keeps *)

Lemma scan_dir_read_elem {A} (flt : snapraid_filter) (dir : string)
    (es : list (dirent * A)) :
  forall l, scan_dir_read flt dir es = Ok l -> forall x, x ∈ l -> x ∈ es.
Proof.
  induction es as [|[dd a] es IH]; intros l H x Hx; simpl in H.
  - injection H as <-. done.
  - run_inv H; try (right; by eapply IH).
    injection H as <-. apply elem_of_cons in Hx as [->|Hx]; [left|right; by eapply IH].
Qed.

Section StepRel.
Context (R : scan_ctx -> scan_ctx -> Prop).
Context (Hrefl : forall ctx, R ctx ctx).
Context (Htrans : forall c1 c2 c3, R c1 c2 -> R c2 c3 -> R c1 c3).
Context (Hev : forall ev ctx ctx', scan_event ev ctx = Ok ctx' -> R ctx ctx').

Lemma scan_dir_process_keeps (l : list (dirent * scan_action)) :
  (forall x, x ∈ l -> action_keeps R x.2) ->
  forall scan state d dir sub processed ctx' p,
    scan_dir_process l scan state d dir sub processed = Ok (ctx', p) ->
    R (scan, state, d) ctx'.
Proof.
  induction l as [|[dd a] l IH]; intros Hall scan state d dir sub processed ctx' p H;
    simpl in H.
  - injection H as <- _. apply Hrefl.
  - apply bind_Ok in H as ([[[scan1 state1] d1] p1] & Ha & H).
    eapply Htrans.
    + eapply (Hall (dd, a)); [left|exact Ha].
    + eapply IH; [|exact H]. intros x Hx. apply Hall. by right.
Qed.

Lemma scan_dir_keeps (flt : snapraid_filter)
    (es : option (list (dirent * scan_action))) :
  (forall l, es = Some l -> forall x, x ∈ l -> action_keeps R x.2) ->
  action_keeps R (scan_dir flt es).
Proof.
  intros Hall scan state d dir sub ctx' p H. unfold scan_dir in H.
  destruct es as [l|]; [|discriminate]. apply bind_Ok in H as (l' & Hread & H).
  eapply scan_dir_process_keeps; [|exact H].
  intros x Hx. apply (Hall l eq_refl). eapply scan_dir_read_elem; [exact Hread|].
  destruct (negb (has_not_persistent_inodes d)); [|done].
  by rewrite <- (tommy_list_sort_perm (fun a b => d_ino a.1 <=? d_ino b.1) l').
Qed.

(** The body of the second loop of scan_dir, with the directories below the
    entry. *)
Lemma scan_dir_entry_keeps (flt : snapraid_filter) (dd : dirent) :
  action_keeps R (scan_dir_entry flt dd).
Proof.
  induction dd as [name ino ty lst phy tgt es IH] using dirent_nested_ind.
  intros scan state d dir sub ctx' p H. cbn [scan_dir_entry] in H.
  assert (action_keeps R
            (scan_dir flt match es with
                          | Some es => Some (map (fun e => (e, scan_dir_entry flt e)) es)
                          | None => None
                          end)) as Hdir.
  { apply scan_dir_keeps. intros l Hl x Hx. destruct es as [es|]; [|discriminate].
    injection Hl as <-. apply list_elem_of_fmap in Hx as (e & -> & He).
    specialize (IH es eq_refl). rewrite Forall_forall in IH. by apply IH. }
  apply bind_Ok in H as (type & _ & H).
  destruct type; run_inv H; simplify_eq; try apply Hrefl.
  - match goal with
    | H : scan_file _ _ _ ?s ?st ?ph = Ok _ |- _ =>
        exact (Hev (EvFile s st ph) (scan, state, d) _ H)
    end.
  - match goal with
    | H : scan_link _ _ _ ?s ?t _ = Ok _ |- _ =>
        exact (Hev (EvLink s t) (scan, state, d) _ H)
    end.
  - eapply Htrans; [by eapply Hdir|].
    match goal with
    | H : (if negb ?b then _ else _) = Ok _ |- _ => destruct b; cbn [negb] in H
    end.
    + match goal with H : Ok _ = Ok _ |- _ => injection H as <- end. apply Hrefl.
    + match goal with
      | H : scan_emptydir ?sc ?st ?dk ?s = Ok _ |- _ =>
          exact (Hev (EvDir s) (sc, st, dk) _ H)
      end.
Qed.

End StepRel.

(** ** The scan of a disk: need_write and the differences *)

Lemma clear_inodes_ident (nodes : list nat) :
  forall d d', clear_inodes nodes d = Ok d' -> disk_ident d' = disk_ident d.
Proof.
  induction nodes as [|h nodes IH]; intros d d' H; simpl in H.
  - by injection H as <-.
  - run_inv H. apply IH in H. ident_steps. ident_solve.
Qed.

Lemma remove_missing_files_step (nodes : list nat) :
  forall scan state d scan' state' d',
    remove_missing_files nodes scan state d = Ok (scan', state', d') ->
    scan_step (scan, state, d) (scan', state', d').
Proof.
  induction nodes as [|h nodes IH]; intros scan state d scan' state' d' H; simpl in H.
  - injection H as <- <- <-. apply scan_step_refl.
  - run_inv H; apply IH in H; [|done].
    match goal with
    | H : scan_file_remove _ _ _ = Ok _ |- _ =>
        apply scan_file_remove_catalog in H
          as (? & _ & _ & _ & _ & _ & ?%disk_rest_ident & ->)
    end.
    eapply scan_step_trans; [|exact H].
    split; [apply state_le_set|]. split; [by left|done].
Qed.

Lemma scan_link_remove_state (state state' : snapraid_state) (d d' : snapraid_disk)
    (l : nat) :
  scan_link_remove state d l = Ok (state', d') ->
  state' = set_need_write true state /\ disk_ident d' = disk_ident d.
Proof. unfold scan_link_remove. intros H. run_inv H. by simplify_eq. Qed.

Lemma scan_emptydir_remove_state (state state' : snapraid_state) (d d' : snapraid_disk)
    (dh : nat) :
  scan_emptydir_remove state d dh = Ok (state', d') ->
  state' = set_need_write true state /\ disk_ident d' = disk_ident d.
Proof. unfold scan_emptydir_remove. intros H. run_inv H. by simplify_eq. Qed.

Lemma remove_missing_links_step (nodes : list nat) :
  forall scan state d scan' state' d',
    remove_missing_links nodes scan state d = Ok (scan', state', d') ->
    scan_step (scan, state, d) (scan', state', d').
Proof.
  induction nodes as [|h nodes IH]; intros scan state d scan' state' d' H; simpl in H.
  - injection H as <- <- <-. apply scan_step_refl.
  - run_inv H; apply IH in H; [|done].
    match goal with
    | H : scan_link_remove _ _ _ = Ok _ |- _ =>
        apply scan_link_remove_state in H as [-> ?]
    end.
    eapply scan_step_trans; [|exact H].
    split; [apply state_le_set|]. split; [by left|done].
Qed.

Lemma remove_missing_dirs_step (nodes : list nat) :
  forall scan state d scan' state' d',
    remove_missing_dirs nodes scan state d = Ok (scan', state', d') ->
    scan_step (scan, state, d) (scan', state', d').
Proof.
  induction nodes as [|h nodes IH]; intros scan state d scan' state' d' H; simpl in H.
  - injection H as <- <- <-. apply scan_step_refl.
  - run_inv H; apply IH in H; [|done].
    match goal with
    | H : scan_emptydir_remove _ _ _ = Ok _ |- _ =>
        apply scan_emptydir_remove_state in H as [-> ?]
    end.
    eapply scan_step_trans; [|exact H].
    split; [apply state_le_set|]. split; [by left|done].
Qed.

(** The insertions set need_write as soon as there is one. *)
Lemma insert_new_files_state (nodes : list nat) :
  forall state d c dup last state' d' dup',
    insert_new_files nodes state d c dup last = Ok (state', d', dup') ->
    state_le state state' /\ disk_ident d' = disk_ident d /\
    (nodes <> [] -> need_write state' = true).
Proof.
  induction nodes as [|h nodes IH]; intros state d c dup last state' d' dup' H;
    simpl in H.
  - injection H as <- <- <-. split; [apply state_le_refl|done].
  - apply bind_Ok in H as (f & _ & H).
    destruct (bool_decide _ && _) in H;
      apply bind_Ok in H as ([state1 d1] & Hins & H);
      apply scan_file_insert_catalog in Hins
        as (_ & _ & _ & _ & Hid%disk_rest_ident & ->);
      apply IH in H as ([Hrest Hnw] & Hid' & _);
      (split; [split; [done|by intros _; apply Hnw]|]);
      (split; [congruence|by intros _; apply Hnw]).
Qed.

Lemma insert_new_links_state (nodes : list nat) :
  forall state d state' d',
    insert_new_links nodes state d = Ok (state', d') ->
    state_le state state' /\ disk_ident d' = disk_ident d /\
    (nodes <> [] -> need_write state' = true).
Proof.
  induction nodes as [|h nodes IH]; intros state d state' d' H; simpl in H.
  - injection H as <- <-. split; [apply state_le_refl|done].
  - apply IH in H as ([Hrest Hnw] & Hid' & _).
    split; [split; [done|by intros _; apply Hnw]|].
    split; [done|by intros _; apply Hnw].
Qed.

Lemma insert_new_dirs_state (nodes : list nat) :
  forall state d state' d',
    insert_new_dirs nodes state d = Ok (state', d') ->
    state_le state state' /\ disk_ident d' = disk_ident d /\
    (nodes <> [] -> need_write state' = true).
Proof.
  induction nodes as [|h nodes IH]; intros state d state' d' H; simpl in H.
  - injection H as <- <-. split; [apply state_le_refl|done].
  - apply IH in H as ([Hrest Hnw] & Hid' & _).
    split; [split; [done|by intros _; apply Hnw]|].
    split; [done|by intros _; apply Hnw].
Qed.

(** The scan of a disk: the options stay, need_write is not cleared, the
    disk keeps its name, dir and device, and need_write is set unless the
    scan found no difference. *)
Lemma state_scan_disk_state (flt : snapraid_filter) (state state' : snapraid_state)
    (d d' : snapraid_disk) (fs : disk_view) (scan' : snapraid_scan) :
  state_scan_disk flt state d fs = Ok (scan', state', d') ->
  state_le state state' /\
  (exists hp, fs_fsinfo fs = Some hp /\
     disk_ident d' = (disk_name d, disk_dir d, disk_device d,
                      has_not_persistent_inodes d || negb hp)) /\
  (no_differences scan' \/ need_write state' = true).
Proof.
  unfold state_scan_disk. intros H.
  apply bind_Ok in H as (hp & Hinfo & H).
  apply bind_Ok in H as (d0 & Hd0 & H).
  assert (disk_ident d0 = (disk_name d, disk_dir d, disk_device d,
                           has_not_persistent_inodes d || negb hp)) as Hid0.
  { destruct (negb hp).
    - apply clear_inodes_ident in Hd0. rewrite Hd0. unfold disk_ident. cbn.
      by rewrite orb_true_r.
    - injection Hd0 as <-. unfold disk_ident. by rewrite orb_false_r. }
  apply bind_Ok in H as ([[[scan1 state1] d1] p] & Hwalk & H).
  assert (scan_step (scan_init, state, d0) (scan1, state1, d1)) as Hs1.
  { apply (scan_dir_keeps scan_step scan_step_refl scan_step_trans flt
             match fs_root fs with
             | Some es => Some (map (fun e => (e, scan_dir_entry flt e)) es)
             | None => None
             end) in Hwalk; [done|].
    intros l Hl x Hx. destruct (fs_root fs) as [es|]; [|discriminate].
    injection Hl as <-. apply list_elem_of_fmap in Hx as (e & -> & He).
    apply (scan_dir_entry_keeps scan_step scan_step_refl scan_step_trans).
    apply scan_event_step. }
  apply bind_Ok in H as ([[scan2 state2] d2] & Hrf & H).
  apply remove_missing_files_step in Hrf.
  apply bind_Ok in H as ([[scan3 state3] d3] & Hrl & H).
  apply remove_missing_links_step in Hrl.
  apply bind_Ok in H as ([[scan4 state4] d4] & Hrd & H).
  apply remove_missing_dirs_step in Hrd.
  pose proof (scan_step_trans _ _ _ Hs1
                (scan_step_trans _ _ _ Hrf (scan_step_trans _ _ _ Hrl Hrd)))
    as (Hle4 & Hacc4 & Hid4). cbn [fst snd] in Hle4, Hacc4, Hid4.
  apply bind_Ok in H as (nodes & Hsort & H).
  apply sort_file_insert_list_perm in Hsort.
  apply bind_Ok in H as ([[state5 d5] dup] & Hif & H). cbn in Hif.
  apply insert_new_files_state in Hif as (Hle5 & Hid5 & Hnw5).
  apply bind_Ok in H as ([state6 d6] & Hil & H). cbn in Hil.
  apply insert_new_links_state in Hil as (Hle6 & Hid6 & Hnw6).
  apply bind_Ok in H as ([state7 d7] & Hidr & H). cbn in Hidr.
  apply insert_new_dirs_state in Hidr as (Hle7 & Hid7 & Hnw7).
  injection H as <- <- <-.
  split; [|split].
  - eauto using state_le_trans.
  - exists hp. split; [by destruct (fs_fsinfo fs); simplify_eq|].
    assert (disk_ident d6 = disk_ident d5) as Hid6'.
    { rewrite Hid6. by destruct (bool_decide _ && _). }
    congruence.
  - assert (accounted scan_init state) as Hacc0 by (right; by repeat split).
    destruct Hle5 as [_ Hle5], Hle6 as [_ Hle6], Hle7 as [_ Hle7].
    destruct (Hacc4 Hacc0) as [Hnw|(Hmv & Hrs & Hch & Hrm & Hins)]; [by auto|].
    destruct (decide (count_insert scan4 = 0)) as [Hz|Hnz]; [by left|].
    right. destruct (Hins Hnz) as [Hl|[Hl|Hl]]; [|by auto..].
    apply Hle7, Hle6, Hnw5. intros ->. apply Hl.
    by apply Permutation_nil_l in Hsort.
Qed.

Lemma state_scan_disks_state (flt : snapraid_filter) (fs : string -> disk_view)
    (disklist : list snapraid_disk) :
  forall (state state' : snapraid_state) (disks' : list snapraid_disk)
    (scans : list snapraid_scan),
    state_scan_disks flt fs state disklist = Ok (state', disks', scans) ->
    state_le state state' /\
    Forall2 (fun d d' =>
               exists hp, fs_fsinfo (fs (disk_dir d)) = Some hp /\
                 disk_ident d' = (disk_name d, disk_dir d, disk_device d,
                                  has_not_persistent_inodes d || negb hp))
      disklist disks' /\
    length scans = length disklist /\
    (Forall no_differences scans \/ need_write state' = true).
Proof.
  induction disklist as [|d disklist IH]; intros state state' disks' scans H; simpl in H.
  - injection H as <- <- <-. split; [apply state_le_refl|]. by repeat split; [|left].
  - apply bind_Ok in H as ([[scan sA] dA] & Hd & H).
    apply bind_Ok in H as ([[sB disksB] scansB] & Hrest & H).
    injection H as <- <- <-.
    apply state_scan_disk_state in Hd as (Hle & Hid & Hdiff).
    apply IH in Hrest as (Hle' & Hids & Hlen & Hdiffs).
    split; [by eapply state_le_trans|]. split; [by constructor|].
    split; [simpl; by rewrite Hlen|].
    destruct Hdiffs as [Hall|Hnw]; [|by right].
    destruct Hdiff as [Hno|Hnw]; [left; by constructor|].
    right. by apply Hle'.
Qed.

(** X5: a scan that finds a difference marks the catalog to be written.
    When state_scan returns, either the scan of every disk counted no move,
    restore, change, removal or insertion, or [need_write] is set. *)
Theorem state_scan_differences_need_write (flt : snapraid_filter)
    (fs : string -> disk_view) (state state' : snapraid_state)
    (disklist disks' : list snapraid_disk) (scans : list snapraid_scan) :
  state_scan flt fs state disklist = Ok (state', disks', scans) ->
  Forall no_differences scans \/ need_write state' = true.
Proof.
  unfold state_scan. intros H.
  apply bind_Ok in H as ([[sA disksA] scansA] & Hrun & H).
  apply bind_Ok in H as (u & _ & H). injection H as <- <- <-.
  by apply state_scan_disks_state in Hrun as (_ & _ & _ & ?).
Qed.

Lemma state_scan_differences_need_write_witness :
  state_scan ex_filter ex_fs_link (ex_state false) [ex_disk_new] = Ok ex_first_scan /\
  need_write (ex_state false) = false /\
  count_insert <$> ex_first_scan.2 = [1] /\
  (Forall no_differences ex_first_scan.2 \/ need_write ex_first_scan.1.1 = true).
Proof.
  split; [exact ex_first_scan_eq|]. split; [reflexivity|]. split; [reflexivity|].
  exact (state_scan_differences_need_write ex_filter ex_fs_link (ex_state false)
           ex_first_scan.1.1 [ex_disk_new] ex_first_scan.1.2 ex_first_scan.2
           ex_first_scan_eq).
Defined.

(** X6: state_scan never changes an option of the state, never clears
    [need_write], and never changes the name, the dir or the device of a
    disk; it returns one scan for each disk. *)
Theorem state_scan_keeps_options (flt : snapraid_filter) (fs : string -> disk_view)
    (state state' : snapraid_state) (disklist disks' : list snapraid_disk)
    (scans : list snapraid_scan) :
  state_scan flt fs state disklist = Ok (state', disks', scans) ->
  clear_undeterminate_hash state' = clear_undeterminate_hash state /\
  opt_force_zero state' = opt_force_zero state /\
  opt_force_empty state' = opt_force_empty state /\
  opt_force_order state' = opt_force_order state /\
  block_size state' = block_size state /\
  (need_write state = true -> need_write state' = true) /\
  Forall2 (fun d d' => disk_name d' = disk_name d /\ disk_dir d' = disk_dir d /\
                       disk_device d' = disk_device d) disklist disks' /\
  length scans = length disklist.
Proof.
  unfold state_scan. intros H.
  apply bind_Ok in H as ([[sA disksA] scansA] & Hrun & H).
  apply bind_Ok in H as (u & _ & H). injection H as <- <- <-.
  apply state_scan_disks_state in Hrun as ([Hrest Hnw] & Hids & Hlen & _).
  unfold state_rest in Hrest. injection Hrest as -> -> -> -> ->.
  do 6 (split; [done|]). split; [|done].
  eapply Forall2_impl; [exact Hids|]. intros d d' (hp & _ & Hid).
  unfold disk_ident in Hid. by injection Hid as -> -> -> _.
Qed.

Lemma state_scan_keeps_options_witness :
  state_scan ex_filter ex_fs_link (ex_state true) [ex_disk_new]
  = Ok (set_need_write true (ex_state true), ex_first_scan.1.2, ex_first_scan.2) /\
  clear_undeterminate_hash (set_need_write true (ex_state true))
  = clear_undeterminate_hash (ex_state true) /\
  opt_force_zero (set_need_write true (ex_state true)) = opt_force_zero (ex_state true) /\
  opt_force_empty (set_need_write true (ex_state true))
  = opt_force_empty (ex_state true) /\
  opt_force_order (set_need_write true (ex_state true))
  = opt_force_order (ex_state true) /\
  block_size (set_need_write true (ex_state true)) = block_size (ex_state true) /\
  (need_write (ex_state true) = true ->
   need_write (set_need_write true (ex_state true)) = true) /\
  Forall2 (fun d d' => disk_name d' = disk_name d /\ disk_dir d' = disk_dir d /\
                       disk_device d' = disk_device d) [ex_disk_new] ex_first_scan.1.2 /\
  length ex_first_scan.2 = length [ex_disk_new].
Proof.
  assert (state_scan ex_filter ex_fs_link (ex_state true) [ex_disk_new]
          = Ok (set_need_write true (ex_state true), ex_first_scan.1.2,
                ex_first_scan.2)) as Hrun by (vm_compute; reflexivity).
  split; [exact Hrun|].
  exact (state_scan_keeps_options ex_filter ex_fs_link (ex_state true) _ [ex_disk_new]
           _ _ Hrun).
Defined.

(** ** The counters and the summary *)

Ltac range_solve :=
  unfold range_step, counters_in_range, incr in *; cbn [fst snd] in *; simpl in *;
  intros; repeat split; try apply wrap32_range; try tauto; try lia.

Lemma scan_link_range (scan scan' : snapraid_scan) (state state' : snapraid_state)
    (d d' : snapraid_disk) (sub linkto : string) (flag : link_kind) :
  scan_link scan state d sub linkto flag = Ok (scan', state', d') ->
  range_step (scan, state, d) (scan', state', d').
Proof.
  unfold scan_link, heap_alloc. intros H. run_inv H; simplify_eq; range_solve.
Qed.

Lemma scan_emptydir_range (scan scan' : snapraid_scan) (state state' : snapraid_state)
    (d d' : snapraid_disk) (sub : string) :
  scan_emptydir scan state d sub = Ok (scan', state', d') ->
  range_step (scan, state, d) (scan', state', d').
Proof.
  unfold scan_emptydir, heap_alloc. intros H. run_inv H; simplify_eq; range_solve.
Qed.

Lemma scan_file_inode_range (scan : snapraid_scan) (state : snapraid_state)
    (d : snapraid_disk) (sub : string) (st : stat) (ctx' : scan_ctx) :
  scan_file_inode scan state d sub st = Ok (Return ctx') ->
  range_step (scan, state, d) ctx'.
Proof.
  unfold scan_file_inode. intros H. run_inv H; simplify_eq; try solve [range_solve].
  destruct ctx' as [[scan' state'] d']. by eapply scan_link_range.
Qed.

Lemma scan_file_path_range (scan : snapraid_scan) (state : snapraid_state)
    (d : snapraid_disk) (sub : string) (st : stat) (ctx' : scan_ctx) :
  scan_file_path scan state d sub st = Ok (Return ctx') ->
  range_step (scan, state, d) ctx'.
Proof.
  unfold scan_file_path. intros H. run_inv H; simplify_eq; solve [range_solve].
Qed.

Lemma scan_file_range (scan scan' : snapraid_scan) (state state' : snapraid_state)
    (d d' : snapraid_disk) (sub : string) (st : stat) (ph : Z) :
  scan_file scan state d sub st ph = Ok (scan', state', d') ->
  range_step (scan, state, d) (scan', state', d').
Proof.
  unfold scan_file. intros H. apply bind_Ok in H as (fl & Hino & H).
  destruct fl as [r|[[scan1 state1] d1]].
  { simplify_eq. exact (scan_file_inode_range _ _ _ _ _ _ Hino). }
  apply scan_file_inode_step in Hino as (-> & -> & _).
  apply bind_Ok in H as (fl & Hpath & H).
  destruct fl as [r|[[scan2 state2] d2]].
  { simplify_eq. exact (scan_file_path_range _ _ _ _ _ _ Hpath). }
  apply scan_file_path_step in Hpath as (_ & _ & Hcase).
  rewrite scan_file_new_spec in H. injection H as <- <- <-.
  destruct Hcase as [[-> ->]|[-> _]]; range_solve.
Qed.

Lemma scan_event_range (ev : event) (ctx ctx' : scan_ctx) :
  scan_event ev ctx = Ok ctx' -> range_step ctx ctx'.
Proof.
  destruct ctx as [[scan state] d], ctx' as [[scan' state'] d'], ev; simpl.
  - apply scan_file_range.
  - apply scan_link_range.
  - apply scan_emptydir_range.
Qed.

Lemma range_step_refl (ctx : scan_ctx) : range_step ctx ctx.
Proof. by intros ?. Qed.

Lemma range_step_trans (c1 c2 c3 : scan_ctx) :
  range_step c1 c2 -> range_step c2 c3 -> range_step c1 c3.
Proof. unfold range_step. auto. Qed.

Lemma remove_missing_files_range (nodes : list nat) :
  forall scan state d scan' state' d',
    remove_missing_files nodes scan state d = Ok (scan', state', d') ->
    range_step (scan, state, d) (scan', state', d').
Proof.
  induction nodes as [|h nodes IH]; intros scan state d scan' state' d' H; simpl in H.
  - injection H as <- <- <-. apply range_step_refl.
  - run_inv H; apply IH in H; [|done].
    eapply range_step_trans; [|exact H]. range_solve.
Qed.

Lemma remove_missing_links_range (nodes : list nat) :
  forall scan state d scan' state' d',
    remove_missing_links nodes scan state d = Ok (scan', state', d') ->
    range_step (scan, state, d) (scan', state', d').
Proof.
  induction nodes as [|h nodes IH]; intros scan state d scan' state' d' H; simpl in H.
  - injection H as <- <- <-. apply range_step_refl.
  - run_inv H; apply IH in H; [|done].
    eapply range_step_trans; [|exact H]. range_solve.
Qed.

Lemma remove_missing_dirs_range (nodes : list nat) :
  forall scan state d scan' state' d',
    remove_missing_dirs nodes scan state d = Ok (scan', state', d') ->
    range_step (scan, state, d) (scan', state', d').
Proof.
  induction nodes as [|h nodes IH]; intros scan state d scan' state' d' H; simpl in H.
  - injection H as <- <- <-. apply range_step_refl.
  - run_inv H; apply IH in H; [|done].
    eapply range_step_trans; [|exact H]. range_solve.
Qed.

(** The counters of the scan of a disk are values of an unsigned. *)
Lemma state_scan_disk_range (flt : snapraid_filter) (state state' : snapraid_state)
    (d d' : snapraid_disk) (fs : disk_view) (scan' : snapraid_scan) :
  state_scan_disk flt state d fs = Ok (scan', state', d') -> counters_in_range scan'.
Proof.
  unfold state_scan_disk. intros H.
  apply bind_Ok in H as (hp & _ & H).
  apply bind_Ok in H as (d0 & Hd0 & H).
  apply bind_Ok in H as ([[[scan1 state1] d1] p] & Hwalk & H).
  assert (range_step (scan_init, state, d0) (scan1, state1, d1)) as Hs1.
  { apply (scan_dir_keeps range_step range_step_refl range_step_trans flt
             match fs_root fs with
             | Some es => Some (map (fun e => (e, scan_dir_entry flt e)) es)
             | None => None
             end) in Hwalk; [done|].
    intros l Hl x Hx. destruct (fs_root fs) as [es|]; [|discriminate].
    injection Hl as <-. apply list_elem_of_fmap in Hx as (e & -> & He).
    apply (scan_dir_entry_keeps range_step range_step_refl range_step_trans).
    apply scan_event_range. }
  apply bind_Ok in H as ([[scan2 state2] d2] & Hrf & H).
  apply remove_missing_files_range in Hrf.
  apply bind_Ok in H as ([[scan3 state3] d3] & Hrl & H).
  apply remove_missing_links_range in Hrl.
  apply bind_Ok in H as ([[scan4 state4] d4] & Hrd & H).
  apply remove_missing_dirs_range in Hrd.
  run_inv H. simplify_eq.
  assert (counters_in_range scan_init) as Hinit
    by (unfold counters_in_range; simpl; lia).
  apply Hs1, Hrf, Hrl, Hrd in Hinit. exact Hinit.
Qed.

Lemma state_scan_disks_range (flt : snapraid_filter) (fs : string -> disk_view)
    (disklist : list snapraid_disk) :
  forall (state state' : snapraid_state) (disks' : list snapraid_disk)
    (scans : list snapraid_scan),
    state_scan_disks flt fs state disklist = Ok (state', disks', scans) ->
    Forall counters_in_range scans.
Proof.
  induction disklist as [|d disklist IH]; intros state state' disks' scans H; simpl in H.
  - by injection H as <- <- <-.
  - apply bind_Ok in H as ([[scan sA] dA] & Hd & H).
    apply bind_Ok in H as ([[sB disksB] scansB] & Hrest & H).
    injection H as <- <- <-. constructor; [by eapply state_scan_disk_range|by eapply IH].
Qed.

(** A total of the summary is the sum of the counters, modulo [2^32]. *)
Lemma scan_total_counter (c : snapraid_scan -> Z) (scanlist : list snapraid_scan) :
  (forall total scan, c (scan_add total scan) = wrap32 (c total + c scan)) ->
  forall acc, 0 <= c acc < 2 ^ 32 ->
    c (fold_left scan_add scanlist acc) = wrap32 (c acc + foldr Z.add 0 (c <$> scanlist)).
Proof.
  intros Hadd. induction scanlist as [|s scanlist IH]; intros acc Hacc;
    [simpl|rewrite fmap_cons; cbn [foldr fold_left]].
  - by rewrite Z.add_0_r, wrap32_small.
  - rewrite IH by (rewrite Hadd; apply wrap32_range).
    rewrite Hadd. unfold wrap32. rewrite Zplus_mod_idemp_l. by rewrite Z.add_assoc.
Qed.

Lemma counter_sum_bounds (c : snapraid_scan -> Z) (scanlist : list snapraid_scan) :
  Forall counters_in_range scanlist ->
  (forall scan, counters_in_range scan -> 0 <= c scan <= count_differences scan) ->
  0 <= foldr Z.add 0 (c <$> scanlist) <= total_differences scanlist /\
  (foldr Z.add 0 (c <$> scanlist) = 0 -> Forall (fun scan => c scan = 0) scanlist).
Proof.
  intros Hall Hc. unfold total_differences.
  induction Hall as [|s l Hs Hl IH]; [by split|].
  rewrite !fmap_cons. cbn [foldr].
  specialize (Hc s Hs). destruct IH as [IH IH0]. split; [lia|].
  intros Hz. constructor; [lia|]. apply IH0. lia.
Qed.

Lemma no_difference_total (scanlist : list snapraid_scan) :
  Forall no_differences scanlist -> no_difference (scan_total scanlist) = true.
Proof.
  intros Hall. unfold scan_total.
  assert (forall acc, no_differences acc ->
            no_differences (fold_left scan_add scanlist acc)) as Hfold.
  { induction Hall as [|s l Hs Hl IH]; intros acc Hacc; simpl; [done|].
    apply IH. destruct Hs as (Hs1 & Hs2 & Hs3 & Hs4 & Hs5).
    destruct Hacc as (Ha1 & Ha2 & Ha3 & Ha4 & Ha5).
    unfold no_differences, scan_add. cbn [count_move count_restore count_change
      count_remove count_insert].
    rewrite Hs1, Hs2, Hs3, Hs4, Hs5, Ha1, Ha2, Ha3, Ha4, Ha5. by repeat split. }
  destruct (Hfold scan_init) as (Hmv & Hrs & Hch & Hrm & Hin); [by repeat split|].
  unfold no_difference. by rewrite Hmv, Hrs, Hch, Hrm, Hin.
Qed.

Lemma no_difference_total_inv (scanlist : list snapraid_scan) :
  Forall counters_in_range scanlist -> total_differences scanlist < 2 ^ 32 ->
  no_difference (scan_total scanlist) = true -> Forall no_differences scanlist.
Proof.
  intros Hall Hbound Hno. unfold no_difference in Hno.
  repeat (apply andb_true_iff in Hno as [Hno ?]).
  assert (forall c : snapraid_scan -> Z,
            (forall total scan, c (scan_add total scan) = wrap32 (c total + c scan)) ->
            c scan_init = 0 ->
            (forall scan, counters_in_range scan ->
               0 <= c scan <= count_differences scan) ->
            c (scan_total scanlist) = 0 -> Forall (fun scan => c scan = 0) scanlist)
    as Hzero.
  { intros c Hadd Hinit Hc Hz. unfold scan_total in Hz.
    rewrite (scan_total_counter c scanlist Hadd) in Hz by (rewrite Hinit; lia).
    destruct (counter_sum_bounds c scanlist Hall Hc) as [Hb Hb0].
    apply Hb0. rewrite Hinit, wrap32_small in Hz; lia. }
  assert (Forall (fun scan => count_move scan = 0) scanlist) as Hmv.
  { apply Hzero; [done|done| |lia].
    unfold counters_in_range, count_differences. intros scan. lia. }
  assert (Forall (fun scan => count_restore scan = 0) scanlist) as Hrs.
  { apply Hzero; [done|done| |lia].
    unfold counters_in_range, count_differences. intros scan. lia. }
  assert (Forall (fun scan => count_change scan = 0) scanlist) as Hch.
  { apply Hzero; [done|done| |lia].
    unfold counters_in_range, count_differences. intros scan. lia. }
  assert (Forall (fun scan => count_remove scan = 0) scanlist) as Hrm.
  { apply Hzero; [done|done| |lia].
    unfold counters_in_range, count_differences. intros scan. lia. }
  assert (Forall (fun scan => count_insert scan = 0) scanlist) as Hin.
  { apply Hzero; [done|done| |lia].
    unfold counters_in_range, count_differences. intros scan. lia. }
  rewrite Forall_forall in Hmv, Hrs, Hch, Hrm, Hin. apply Forall_forall.
  intros scan Hscan. repeat split; auto.
Qed.

(** X7: the summary of state_scan.  With [output] set, state_scan prints
    "No difference" when the scan of every disk counted no move, restore,
    change, removal or insertion; if the differences of all the scans
    together are less than [2^32], so that the unsigned totals do not wrap,
    it prints "No difference" only then; and when it prints "There are
    differences", [need_write] is set.  Without [output] neither line is
    printed. *)
Theorem state_scan_summary (flt : snapraid_filter) (fs : string -> disk_view)
    (state state' : snapraid_state) (disklist disks' : list snapraid_disk)
    (scans : list snapraid_scan) :
  state_scan flt fs state disklist = Ok (state', disks', scans) ->
  (Forall no_differences scans -> scan_summary true scans = Some No_difference) /\
  (total_differences scans < 2 ^ 32 ->
   scan_summary true scans = Some No_difference -> Forall no_differences scans) /\
  (scan_summary true scans = Some There_are_differences -> need_write state' = true) /\
  scan_summary false scans = None.
Proof.
  unfold state_scan. intros H.
  apply bind_Ok in H as ([[sA disksA] scansA] & Hrun & H).
  apply bind_Ok in H as (u & _ & H). injection H as <- <- <-.
  pose proof (state_scan_disks_range _ _ _ _ _ _ _ Hrun) as Hrange.
  apply state_scan_disks_state in Hrun as (_ & _ & _ & Hdiff).
  unfold scan_summary. split; [|split; [|split; [|done]]].
  - intros Hall. by rewrite no_difference_total.
  - intros Hbound Hsum. apply no_difference_total_inv; [done..|].
    by destruct (no_difference (scan_total scansA)).
  - intros Hsum. destruct Hdiff as [Hall|Hnw]; [|done].
    by rewrite no_difference_total in Hsum.
Qed.

Lemma state_scan_summary_witness :
  state_scan ex_filter ex_fs_link (ex_state false) [ex_disk_new] = Ok ex_first_scan /\
  scan_summary true ex_first_scan.2 = Some There_are_differences /\
  (Forall no_differences ex_first_scan.2 ->
   scan_summary true ex_first_scan.2 = Some No_difference) /\
  (total_differences ex_first_scan.2 < 2 ^ 32 ->
   scan_summary true ex_first_scan.2 = Some No_difference ->
   Forall no_differences ex_first_scan.2) /\
  (scan_summary true ex_first_scan.2 = Some There_are_differences ->
   need_write ex_first_scan.1.1 = true) /\
  scan_summary false ex_first_scan.2 = None.
Proof.
  split; [exact ex_first_scan_eq|]. split; [reflexivity|].
  exact (state_scan_summary ex_filter ex_fs_link (ex_state false) ex_first_scan.1.1
           [ex_disk_new] ex_first_scan.1.2 ex_first_scan.2 ex_first_scan_eq).
Defined.

(** ** scan_file: the file found by inode *)

Lemma remove_first_app_new (p : nat) (l : list nat) :
  p ∉ l -> remove_first p (l ++ [p]) = Some l.
Proof.
  induction l as [|q l IH]; intros Hp; simpl.
  - by rewrite decide_True.
  - apply not_elem_of_cons in Hp as [Hne Hp].
    rewrite decide_False by done. by rewrite IH.
Qed.

(** X8: a moved file.  When the search by inode finds a file of the catalog
    that is not marked present, with the size and the times of the entry
    and another path, scan_file counts a move ([count_move] is one more, as
    an unsigned of 32 bits, and no other counter changes), sets
    [need_write], gives the file the path of the entry and moves it to the
    end of the path index;
    the file keeps its inode and its blocks, it stays where it is in the
    file list and in the inode index, and the block array is not touched. *)
Theorem scan_file_move (scan : snapraid_scan) (state : snapraid_state)
    (d : snapraid_disk) (sub : string) (st : stat) (ph : Z) (h : nat)
    (f : snapraid_file) (ps : list nat) :
  tommy_hashdyn_search (files d) (fun f => file_inode f =? st_ino st) (inodeset d)
  = Ok (Some h) ->
  files d !! h = Some (Some f) ->
  file_not_changed f st = true -> file_is_present f = false ->
  file_sub f <> sub ->
  remove_first h (pathset d) = Some ps ->
  exists f',
    scan_file scan state d sub st ph
    = Ok (set_count_move ((count_move scan + 1) mod 2 ^ 32) scan,
          set_need_write true state,
          set_pathset (ps ++ [h]) (set_files (<[h := Some f']> (files d)) d)) /\
    file_sub f' = sub /\ file_is_present f' = true /\
    file_inode f' = file_inode f /\ file_size f' = file_size f /\
    file_mtime_sec f' = file_mtime_sec f /\ file_mtime_nsec f' = STAT_NSEC st /\
    file_is_without_inode f' = file_is_without_inode f /\
    blockvec f' = blockvec f.
Proof.
  intros Hsearch Hf Hmatch Hpresent Hsub Hps.
  pose proof (lookup_lt_Some _ _ _ Hf) as Hlt.
  exists (set_file_sub sub (marked st f)).
  destruct (marked_fields st f) as (_ & Hsz & Hmt & Hino & Hp & Hwi & Hbv).
  split; [|by rewrite <- (marked_nsec st f Hmatch)].
  unfold scan_file, scan_file_inode. rewrite Hsearch. cbn [bind].
  rewrite (heap_get_lookup _ _ _ Hf). cbn [bind]. rewrite Hmatch, Hpresent.
  rewrite (file_store_lookup _ _ _ _ Hf). cbn [bind].
  edestruct (update_mtime_nsec_marked state
               (set_files (<[h := Some (set_file_is_present true f)]> (files d)) d)
               h st f) as (state' & Hrun & Hrest).
  { cbn. by apply list_lookup_insert_eq. }
  rewrite Hrun. cbn [bind]. rewrite bool_decide_eq_false_2 by done. cbn [negb].
  unfold tommy_remove_existing. cbn [pathset set_files]. rewrite Hps. cbn [bind].
  erewrite file_store_lookup; [|cbn; apply list_lookup_insert_eq; by rewrite length_insert].
  cbn [bind]. cbn. rewrite !list_insert_insert_eq. unfold tommy_insert_tail.
  do 3 f_equal. unfold state_rest in Hrest. destruct state, state'. simpl in *.
  by injection Hrest as -> -> -> -> ->.
Qed.

Lemma scan_file_move_witness :
  exists f',
    scan_file scan_init (ex_state false) ex_disk "g" ex_stat_link 0
    = Ok (set_count_move 1 scan_init,
          set_need_write true (ex_state false),
          set_pathset ([] ++ [0%nat])
            (set_files (<[0%nat := Some f']> (files ex_disk)) ex_disk)) /\
    file_sub f' = "g" /\ file_is_present f' = true /\
    file_inode f' = file_inode ex_file /\ file_size f' = file_size ex_file /\
    file_mtime_sec f' = file_mtime_sec ex_file /\
    file_mtime_nsec f' = STAT_NSEC ex_stat_link /\
    file_is_without_inode f' = file_is_without_inode ex_file /\
    blockvec f' = blockvec ex_file.
Proof.
  apply (scan_file_move scan_init (ex_state false) ex_disk "g" ex_stat_link 0 0%nat
           ex_file []); try reflexivity.
  discriminate.
Defined.

(** X9: an unchanged file.  When the search by inode finds a file of the
    catalog that is not marked present, with the path, the size and the
    times of the entry, scan_file counts it equal ([count_equal] is one
    more, as an unsigned of 32 bits) and marks it present.  Nothing else
    changes, except that stored nanoseconds that are INVALID
    are replaced by the nanoseconds of the entry when these are valid; only
    then [need_write] is set. *)
Theorem scan_file_equal (scan : snapraid_scan) (state : snapraid_state)
    (d : snapraid_disk) (sub : string) (st : stat) (ph : Z) (h : nat)
    (f : snapraid_file) :
  tommy_hashdyn_search (files d) (fun f => file_inode f =? st_ino st) (inodeset d)
  = Ok (Some h) ->
  files d !! h = Some (Some f) ->
  file_not_changed f st = true -> file_is_present f = false ->
  file_sub f = sub ->
  let upgrade := (file_mtime_nsec f =? STAT_NSEC_INVALID)
                 && negb (STAT_NSEC st =? STAT_NSEC_INVALID) in
  scan_file scan state d sub st ph
  = Ok (set_count_equal ((count_equal scan + 1) mod 2 ^ 32) scan,
        (if upgrade then set_need_write true state else state),
        set_files
          (<[h := Some (set_file_is_present true
                          (if upgrade then set_file_mtime_nsec (STAT_NSEC st) f
                           else f))]> (files d)) d).
Proof.
  intros Hsearch Hf Hmatch Hpresent Hsub upgrade.
  pose proof (lookup_lt_Some _ _ _ Hf) as Hlt.
  unfold scan_file, scan_file_inode. rewrite Hsearch. cbn [bind].
  rewrite (heap_get_lookup _ _ _ Hf). cbn [bind]. rewrite Hmatch, Hpresent.
  rewrite (file_store_lookup _ _ _ _ Hf). cbn [bind].
  edestruct (update_mtime_nsec_lookup state
               (set_files (<[h := Some (set_file_is_present true f)]> (files d)) d)
               h st (set_file_is_present true f)) as (state' & f' & Hrun & Hcase).
  { cbn. by apply list_lookup_insert_eq. }
  rewrite Hrun. cbn [bind]. rewrite bool_decide_eq_true_2 by done. cbn [negb].
  cbn. rewrite list_insert_insert_eq. cbn in Hcase. fold upgrade in Hcase.
  by destruct upgrade; destruct Hcase as [-> ->].
Qed.

Lemma scan_file_equal_witness :
  scan_file scan_init (ex_state false) ex_disk_nsec "f" ex_stat_nsec 0
  = Ok (set_count_equal 1 scan_init,
        set_need_write true (ex_state false),
        set_files
          [Some (set_file_is_present true
                   (set_file_mtime_nsec 7 (set_file_mtime_nsec STAT_NSEC_INVALID ex_file)))]
          ex_disk_nsec).
Proof.
  exact (scan_file_equal scan_init (ex_state false) ex_disk_nsec "f" ex_stat_nsec 0
           0%nat (set_file_mtime_nsec STAT_NSEC_INVALID ex_file)
           eq_refl eq_refl eq_refl eq_refl eq_refl).
Defined.

(** The search in an index that got a new node at its end. *)
Lemma tommy_hashdyn_search_new {A} (h : heap A) (cmp : A -> bool) (set : list nat)
    (a : A) :
  tommy_hashdyn_search h cmp set = Ok None -> cmp a = true ->
  tommy_hashdyn_search (h ++ [Some a]) cmp (set ++ [length h]) = Ok (Some (length h)).
Proof.
  intros Hnone Ha. induction set as [|q set IH]; simpl in *.
  - unfold heap_get. rewrite lookup_app_r by done. rewrite Nat.sub_diag. simpl.
    by rewrite Ha.
  - apply bind_Ok in Hnone as (b & Hb & Hnone). apply heap_get_Ok in Hb.
    rewrite (heap_get_lookup _ _ b) by (by apply lookup_app_l_Some). cbn [bind].
    destruct (cmp b); [discriminate|]. by apply IH.
Qed.

(** X10: two entries with the same inode in one scan.  When neither the
    inode nor the path of an entry with more than one link is in the
    catalog, scan_file allocates a new file, marked present, and puts it in
    the indexes at once; for a later entry of the same scan with the same
    stat data, at a path [sub2] of no link of the catalog, scan_file then
    finds the new file by inode and queues a hardlink from [sub2] to the
    path of the first entry, instead of a second file. *)
Theorem scan_file_twice_hardlink (scan : snapraid_scan) (state : snapraid_state)
    (d : snapraid_disk) (sub1 sub2 : string) (st : stat) (ph1 ph2 : Z) :
  tommy_hashdyn_search (files d) (fun f => file_inode f =? st_ino st) (inodeset d)
  = Ok None ->
  tommy_hashdyn_search (files d) (fun f => bool_decide (file_sub f = sub1)) (pathset d)
  = Ok None ->
  tommy_hashdyn_search (links d) (fun l => bool_decide (link_sub l = sub2)) (linkset d)
  = Ok None ->
  1 < st_nlink st ->
  exists scan1 d1 scan2 d2,
    scan_file scan state d sub1 st ph1 = Ok (scan1, state, d1) /\
    scan_file scan1 state d1 sub2 st ph2 = Ok (scan2, state, d2) /\
    file_insert_list scan2 = file_insert_list scan ++ [length (files d)] /\
    link_insert_list scan2 = link_insert_list scan ++ [length (links d)] /\
    count_insert scan2 = incr (incr (count_insert scan)) /\
    files d2 = files d1 /\
    (exists f, files d1 !! length (files d) = Some (Some f) /\
       file_sub f = sub1 /\ file_inode f = st_ino st /\ file_is_present f = true) /\
    links d2 = links d ++ [Some (mk_link sub2 sub1 FILE_IS_HARDLINK true)] /\
    filelist d2 = filelist d /\ linklist d2 = linklist d /\ linkset d2 = linkset d /\
    blockarr d2 = blockarr d.
Proof.
  intros Hino Hpath Hlink Hn.
  set (newf := set_file_is_present true
                 (file_alloc (block_size state) sub1 (st_size st) (st_mtime st)
                    (STAT_NSEC st) (st_ino st) ph1)).
  assert (scan_file scan state d sub1 st ph1
          = Ok (set_file_insert_list (file_insert_list scan ++ [length (files d)])
                  (set_count_insert (incr (count_insert scan)) scan), state,
                set_pathset (pathset d ++ [length (files d)])
                  (set_inodeset (inodeset d ++ [length (files d)])
                     (set_files (files d ++ [Some newf]) d)))) as Hrun1.
  { unfold scan_file, scan_file_inode, scan_file_path. rewrite Hino. cbn [bind].
    rewrite Hpath. cbn [bind]. by rewrite scan_file_new_spec. }
  eexists _, _. eexists _, _. split; [exact Hrun1|].
  match type of Hrun1 with _ = Ok (?s, _, ?dd) => set (scan1 := s); set (d1 := dd) end.
  assert (files d1 !! length (files d) = Some (Some newf)) as Hnew.
  { cbn. rewrite lookup_app_r by done. by rewrite Nat.sub_diag. }
  assert (scan_link scan1 state d1 sub2 (file_sub newf) FILE_IS_HARDLINK
          = Ok (set_link_insert_list (link_insert_list scan ++ [length (links d)])
                  (set_count_insert (incr (incr (count_insert scan))) scan1), state,
                set_links (links d ++ [Some (mk_link sub2 sub1 FILE_IS_HARDLINK true)])
                  d1)) as Hrun2.
  { unfold scan_link. cbn [links d1 set_pathset set_inodeset set_files linkset].
    rewrite Hlink. cbn [bind]. unfold heap_alloc, link_alloc.
    erewrite link_store_lookup;
      [|cbn; rewrite lookup_app_r by done; by rewrite Nat.sub_diag].
    cbn [bind]. cbn. rewrite insert_app_r_alt by done.
    by rewrite Nat.sub_diag. }
  split.
  - eapply scan_file_hardlink_eval; [|exact Hnew| | | |exact Hrun2].
    + cbn [files inodeset d1 set_pathset set_inodeset set_files].
      apply tommy_hashdyn_search_new; [done|]. cbn. apply Z.eqb_refl.
    + unfold file_not_changed. cbn. by rewrite !Z.eqb_refl.
    + done.
    + done.
  - cbn. repeat split; try done. by exists newf.
Qed.

Lemma scan_file_twice_hardlink_witness :
  exists scan1 d1 scan2 d2,
    scan_file scan_init (ex_state false) ex_disk_new "a" ex_stat_link 0
    = Ok (scan1, ex_state false, d1) /\
    scan_file scan1 (ex_state false) d1 "b" ex_stat_link 0
    = Ok (scan2, ex_state false, d2) /\
    file_insert_list scan2 = file_insert_list scan_init ++ [length (files ex_disk_new)] /\
    link_insert_list scan2 = link_insert_list scan_init ++ [length (links ex_disk_new)] /\
    count_insert scan2 = incr (incr (count_insert scan_init)) /\
    files d2 = files d1 /\
    (exists f, files d1 !! length (files ex_disk_new) = Some (Some f) /\
       file_sub f = "a" /\ file_inode f = st_ino ex_stat_link /\
       file_is_present f = true) /\
    links d2 = links ex_disk_new ++ [Some (mk_link "b" "a" FILE_IS_HARDLINK true)] /\
    filelist d2 = filelist ex_disk_new /\ linklist d2 = linklist ex_disk_new /\
    linkset d2 = linkset ex_disk_new /\
    blockarr d2 = blockarr ex_disk_new.
Proof.
  apply (scan_file_twice_hardlink scan_init (ex_state false) ex_disk_new "a" "b"
           ex_stat_link 0 0); reflexivity.
Defined.

(** ** A disk whose filesystem is empty *)

Lemma set_count_remove_same (scan : snapraid_scan) :
  set_count_remove (count_remove scan) scan = scan.
Proof. by destruct scan. Qed.

Lemma wrap32_incr_add (c : Z) (n : nat) :
  wrap32 (incr c + Z.of_nat n) = wrap32 (c + Z.of_nat (S n)).
Proof.
  unfold incr, wrap32. rewrite Zplus_mod_idemp_l. f_equal. lia.
Qed.

(** The sweep of the files removes every file when none is marked. *)
Lemma remove_missing_files_all (nodes : list nat) :
  forall scan state d scan' state' d',
    0 <= count_remove scan < 2 ^ 32 ->
    (forall h m, h ∈ nodes -> fget d h = Some m -> file_is_present m = false) ->
    remove_missing_files nodes scan state d = Ok (scan', state', d') ->
    scan' = set_count_remove (wrap32 (count_remove scan + Z.of_nat (length nodes))) scan /\
    disk_rest d' = disk_rest d.
Proof.
  induction nodes as [|h nodes IH]; intros scan state d scan' state' d' Hc Hflags H;
    simpl in H.
  - injection H as <- <- <-. split; [|done]. simpl.
    by rewrite Z.add_0_r, wrap32_small, set_count_remove_same.
  - apply bind_Ok in H as (f & Hf & H). apply heap_get_Ok in Hf.
    assert (file_is_present f = false) as Hp.
    { change (file_is_present (file_meta f) = false).
      apply (Hflags h); [left|by apply fget_lookup]. }
    rewrite Hp in H.
    cbn [negb] in H. apply bind_Ok in H as ([state1 d1] & Hrem & H).
    apply scan_file_remove_catalog in Hrem as (m & _ & Hget & _ & _ & _ & Hrest & _).
    apply IH in H as [-> Hrest'].
    + split; [|congruence]. cbn [count_remove set_count_remove].
      rewrite wrap32_incr_add. by destruct scan.
    + cbn. apply wrap32_range.
    + intros k m' Hk Hm'. rewrite Hget in Hm'. case_decide; [done|].
      apply (Hflags k m'); [by right|done].
Qed.

Lemma remove_missing_links_all (nodes : list nat) :
  forall scan state d scan' state' d',
    0 <= count_remove scan < 2 ^ 32 ->
    (forall l x, l ∈ nodes -> lget d l = Some x -> link_is_present x = false) ->
    remove_missing_links nodes scan state d = Ok (scan', state', d') ->
    scan' = set_count_remove (wrap32 (count_remove scan + Z.of_nat (length nodes))) scan /\
    dirs d' = dirs d /\ dirlist d' = dirlist d.
Proof.
  induction nodes as [|h nodes IH]; intros scan state d scan' state' d' Hc Hflags H;
    simpl in H.
  - injection H as <- <- <-. split; [|done]. simpl.
    by rewrite Z.add_0_r, wrap32_small, set_count_remove_same.
  - apply bind_Ok in H as (x & Hx & H). apply heap_get_Ok in Hx.
    rewrite (Hflags h x) in H; [|left|by apply lget_Some].
    cbn [negb] in H. apply bind_Ok in H as ([state1 d1] & Hrem & H).
    unfold scan_link_remove in Hrem. run_inv Hrem. injection Hrem as <- <-.
    match goal with
    | Hfree : heap_free _ _ = Ok _ |- _ =>
        unfold heap_free in Hfree; run_inv Hfree; injection Hfree as <-
    end.
    apply IH in H as (-> & Hd & Hdl).
    + split; [|done]. cbn [count_remove set_count_remove].
      rewrite wrap32_incr_add. by destruct scan.
    + cbn. apply wrap32_range.
    + intros k x' Hk Hx'.
      erewrite lget_free in Hx'; [|reflexivity]. case_decide; [done|].
      apply (Hflags k x'); [by right|done].
Qed.

Lemma remove_missing_dirs_all (nodes : list nat) :
  forall scan state d scan' state' d',
    0 <= count_remove scan < 2 ^ 32 ->
    (forall dh x, dh ∈ nodes -> dget d dh = Some x -> dir_is_present x = false) ->
    remove_missing_dirs nodes scan state d = Ok (scan', state', d') ->
    scan' = set_count_remove (wrap32 (count_remove scan + Z.of_nat (length nodes))) scan.
Proof.
  induction nodes as [|h nodes IH]; intros scan state d scan' state' d' Hc Hflags H;
    simpl in H.
  - injection H as <- <- <-. simpl.
    by rewrite Z.add_0_r, wrap32_small, set_count_remove_same.
  - apply bind_Ok in H as (x & Hx & H). apply heap_get_Ok in Hx.
    rewrite (Hflags h x) in H; [|left|by apply dget_Some].
    cbn [negb] in H. apply bind_Ok in H as ([state1 d1] & Hrem & H).
    unfold scan_emptydir_remove in Hrem. run_inv Hrem. injection Hrem as <- <-.
    match goal with
    | Hfree : heap_free _ _ = Ok _ |- _ =>
        unfold heap_free in Hfree; run_inv Hfree; injection Hfree as <-
    end.
    apply IH in H as ->.
    + cbn [count_remove set_count_remove].
      rewrite wrap32_incr_add. by destruct scan.
    + cbn. apply wrap32_range.
    + intros k x' Hk Hx'.
      erewrite dget_free in Hx'; [|reflexivity]. case_decide; [done|].
      apply (Hflags k x'); [by right|done].
Qed.

(** The scan of a disk whose root directory is empty: every file, link and
    dir of the catalog is counted as removed, and nothing else is counted. *)
Lemma state_scan_disk_empty_root (flt : snapraid_filter) (state state' : snapraid_state)
    (d d' : snapraid_disk) (fs : disk_view) (scan' : snapraid_scan) :
  catalog_wf d -> fs_root fs = Some [] ->
  state_scan_disk flt state d fs = Ok (scan', state', d') ->
  scan' = set_count_remove
            (wrap32 (Z.of_nat (length (filelist d) + length (linklist d)
                               + length (dirlist d)))) scan_init.
Proof.
  intros Hcw Hroot H. unfold state_scan_disk in H. rewrite Hroot in H.
  apply bind_Ok in H as (hp & _ & H).
  apply bind_Ok in H as (d0 & Hd0 & H).
  assert (filelist d0 = filelist d /\
          (links d0 = links d /\ linklist d0 = linklist d /\
           dirs d0 = dirs d /\ dirlist d0 = dirlist d) /\
          forall h m, h ∈ filelist d0 -> fget d0 h = Some m ->
                      file_is_present m = false)
    as (Hfl0 & (Hl0 & Hll0 & Hdd0 & Hdl0) & Hflags0).
  { assert (forall h m, h ∈ filelist d -> fget d h = Some m ->
                        file_is_present m = false) as Hflags.
    { intros h m Hh Hm. destruct (file_is_present m) eqn:Hp; [|done].
      destruct (cw_file_flags _ Hcw h Hh). by exists m. }
    destruct (negb hp); [|injection Hd0 as <-; by repeat split].
    apply clear_inodes_Ok in Hd0 as (Hget & _ & _ & Hfl & _ & Hrest);
      [|apply (fw_inode_nodup _ _ (cw_files _ Hcw))].
    destruct (disk_rest_fields _ _ Hrest) as (_ & _ & _ & ? & ? & _ & ? & ? & _).
    split; [done|]. split; [done|]. intros h m Hh Hm. rewrite Hfl in Hh.
    rewrite Hget in Hm. rewrite decide_True in Hm by done.
    change (fget (set_has_not_persistent_inodes true d) h) with (fget d h) in Hm.
    destruct (fget d h) as [m0|] eqn:Hm0; [|done]. injection Hm as <-.
    apply (Hflags h m0 Hh Hm0). }
  cbn [map scan_dir scan_dir_read bind] in H.
  destruct (negb (has_not_persistent_inodes d0)) in H;
    cbn [tommy_list_sort foldr scan_dir_process bind] in H.
  all: apply bind_Ok in H as ([[scan2 state2] d2] & Hrf & H);
    apply remove_missing_files_all in Hrf as [-> Hrest2]; [|done|done];
    destruct (disk_rest_fields _ _ Hrest2)
      as (_ & _ & _ & Hl2 & Hll2 & _ & Hdd2 & Hdl2 & _);
    apply bind_Ok in H as ([[scan3 state3] d3] & Hrl & H);
    apply remove_missing_links_all in Hrl as (-> & Hdd3 & Hdl3);
    [|cbn; apply wrap32_range
     |intros l x Hl Hx; rewrite Hll2, Hll0 in Hl;
      rewrite (lget_same d d2) in Hx by congruence;
      destruct (link_is_present x) eqn:Hp; [|done];
      destruct (cw_link_flags _ Hcw l Hl); by exists x];
    apply bind_Ok in H as ([[scan4 state4] d4] & Hrd & H);
    apply remove_missing_dirs_all in Hrd as ->;
    [|cbn; apply wrap32_range
     |intros dh x Hdh Hx; rewrite Hdl3, Hdl2, Hdl0 in Hdh;
      rewrite (dget_same d d3) in Hx by congruence;
      destruct (dir_is_present x) eqn:Hp; [|done];
      destruct (cw_dir_flags _ Hcw dh Hdh); by exists x];
    cbn [file_insert_list set_count_remove scan_init] in H;
    rewrite sort_file_insert_list_nil in H; cbn in H; injection H as <- _ _;
    rewrite Hll2, Hll0, Hdl3, Hdl2, Hdl0, Hfl0;
    unfold set_file_insert_list, set_count_remove; cbn; f_equal;
    unfold wrap32; rewrite !Zplus_mod_idemp_l;
    rewrite <- !Z.add_assoc, !Zplus_mod_idemp_l; f_equal; lia.
Qed.

(** The scan of the [i]-th disk within the scan of the disks. *)
Lemma state_scan_disks_lookup (flt : snapraid_filter) (fs : string -> disk_view)
    (disklist : list snapraid_disk) :
  forall (state state' : snapraid_state) (disks' : list snapraid_disk)
    (scans : list snapraid_scan) (i : nat) (d : snapraid_disk),
    state_scan_disks flt fs state disklist = Ok (state', disks', scans) ->
    disklist !! i = Some d ->
    exists si si' d' scan',
      state_scan_disk flt si d (fs (disk_dir d)) = Ok (scan', si', d') /\
      disks' !! i = Some d' /\ scans !! i = Some scan'.
Proof.
  induction disklist as [|d0 disklist IH]; intros state state' disks' scans i d H Hi;
    [done|]. simpl in H.
  apply bind_Ok in H as ([[scan sA] dA] & Hd & H).
  apply bind_Ok in H as ([[sB disksB] scansB] & Hrest & H).
  injection H as <- <- <-. destruct i as [|i]; simpl in *.
  - injection Hi as <-. by exists state, sA, dA, scan.
  - by eapply IH.
Qed.

Lemma missing_disks_lookup (disks : list snapraid_disk) :
  forall (scans : list snapraid_scan) (i : nat) (d : snapraid_disk)
    (scan : snapraid_scan),
    disks !! i = Some d -> scans !! i = Some scan ->
    all_missing_or_rewritten scan = true ->
    (disk_name d, disk_dir d) ∈ missing_disks disks scans.
Proof.
  induction disks as [|d0 disks IH]; intros scans i d scan Hd Hs Hall; [done|].
  destruct scans as [|s0 scans]; [done|]. destruct i as [|i]; simpl in *.
  - injection Hd as <-. injection Hs as <-. rewrite Hall. left.
  - destruct (all_missing_or_rewritten s0); [right|]; by eapply IH.
Qed.

(** X11: a disk that is not mounted.  If the root directory of a disk is
    empty while its catalog, which satisfies I1 with no PRESENT flag set,
    holds at least one file, link or dir (and fewer than [2^32]), and the
    flag of the disk for inodes that are not persistent is set only if the
    filesystem reports such inodes, then the
    scan of the disk counts each of them as removed and nothing else, and
    leaves the catalog of the disk empty; when the scans of all the disks
    return, state_scan fails with the message of the empty-disk check, which
    names the disk, unless [force_empty] is set. *)
Theorem state_scan_unmounted_disk (flt : snapraid_filter) (fs : string -> disk_view)
    (state state' : snapraid_state) (disklist disks' : list snapraid_disk)
    (scans : list snapraid_scan) (i : nat) (d : snapraid_disk) :
  disklist !! i = Some d ->
  catalog_wf d -> flag_consistent fs d ->
  fs_root (fs (disk_dir d)) = Some [] ->
  (0 < length (filelist d) + length (linklist d) + length (dirlist d))%nat ->
  Z.of_nat (length (filelist d) + length (linklist d) + length (dirlist d)) < 2 ^ 32 ->
  state_scan_disks flt fs state disklist = Ok (state', disks', scans) ->
  (exists d' scan',
     disks' !! i = Some d' /\ scans !! i = Some scan' /\
     scan' = set_count_remove
               (Z.of_nat (length (filelist d) + length (linklist d)
                          + length (dirlist d))) scan_init /\
     filelist d' = [] /\ linklist d' = [] /\ dirlist d' = []) /\
  (opt_force_empty state = false ->
   exists printed,
     (disk_name d, disk_dir d) ∈ printed /\
     state_scan flt fs state disklist = Err (EXIT_FAILURE (EmptyDisks printed))) /\
  (opt_force_empty state = true ->
   state_scan flt fs state disklist = Ok (state', disks', scans)).
Proof.
  intros Hi Hcw Hflag Hroot Hpos Hbound Hrun.
  destruct (state_scan_disks_lookup _ _ _ _ _ _ _ _ _ Hrun Hi)
    as (si & si' & d' & scan' & Hd & Hd' & Hs').
  pose proof (state_scan_disk_empty_root _ _ _ _ _ _ _ Hcw Hroot Hd) as Hscan.
  rewrite wrap32_small in Hscan by lia.
  destruct (state_scan_disk_synced _ _ _ _ _ _ _ Hcw Hflag Hd)
    as (evs & t & Hevs & Hsy & _).
  assert (evs = []) as ->.
  { unfold disk_events, walk_disk, walk_dir in Hevs. rewrite Hroot in Hevs.
    cbn [map scan_dir_read bind] in Hevs.
    destruct (negb _) in Hevs; cbn in Hevs; by injection Hevs as <-. }
  assert (t = []) as ->.
  { pose proof (sy_marks _ _ _ _ Hsy) as Hmarks. by apply Forall2_nil_inv_l in Hmarks. }
  apply state_scan_disk_state in Hd as (_ & (hp & _ & Hid) & _).
  apply state_scan_disks_state in Hrun as Hstate.
  destruct Hstate as ([Hrest _] & _ & _ & _).
  assert (opt_force_empty state' = opt_force_empty state) as Hfe.
  { unfold state_rest in Hrest. by injection Hrest as _ _ -> _ _. }
  split; [|split].
  - exists d', scan'. do 3 (split; [done|]).
    pose proof (sy_filelist _ _ _ _ Hsy) as Hfl.
    pose proof (sy_linklist _ _ _ _ Hsy) as Hll.
    pose proof (sy_dirlist _ _ _ _ Hsy) as Hdl.
    by apply Permutation_nil_r in Hfl, Hll, Hdl.
  - intros Hforce. exists (missing_disks disks' scans). split.
    + unfold disk_ident in Hid. injection Hid as <- <- _ _.
      eapply missing_disks_lookup; [done..|]. rewrite Hscan.
      unfold all_missing_or_rewritten. cbn.
      destruct (Z.eqb_spec (Z.of_nat (length (filelist d) + length (linklist d)
                                      + length (dirlist d))) 0); [lia|done].
    + unfold state_scan. rewrite Hrun. cbn [bind]. unfold check_empty_disks.
      rewrite Hfe, Hforce. cbn [negb]. rewrite bool_decide_eq_false_2; [done|].
      intros Hnil. eapply (not_elem_of_nil (disk_name d', disk_dir d')).
      rewrite <- Hnil. eapply missing_disks_lookup; [done..|]. rewrite Hscan.
      unfold all_missing_or_rewritten. cbn.
      destruct (Z.eqb_spec (Z.of_nat (length (filelist d) + length (linklist d)
                                      + length (dirlist d))) 0); [lia|done].
  - intros Hforce. unfold state_scan. rewrite Hrun. cbn [bind].
    unfold check_empty_disks. by rewrite Hfe, Hforce.
Qed.

Lemma ex_unmounted_eq :
  state_scan_disks ex_filter ex_fs_empty (ex_state false) [ex_disk] = Ok ex_unmounted.
Proof. vm_compute. reflexivity. Qed.

Lemma state_scan_unmounted_disk_witness :
  [ex_disk] !! 0%nat = Some ex_disk /\
  catalog_wf ex_disk /\
  state_scan_disks ex_filter ex_fs_empty (ex_state false) [ex_disk] = Ok ex_unmounted /\
  (exists d' scan',
     ex_unmounted.1.2 !! 0%nat = Some d' /\ ex_unmounted.2 !! 0%nat = Some scan' /\
     scan' = set_count_remove
               (Z.of_nat (length (filelist ex_disk) + length (linklist ex_disk)
                          + length (dirlist ex_disk))) scan_init /\
     filelist d' = [] /\ linklist d' = [] /\ dirlist d' = []) /\
  (opt_force_empty (ex_state false) = false ->
   exists printed,
     (disk_name ex_disk, disk_dir ex_disk) ∈ printed /\
     state_scan ex_filter ex_fs_empty (ex_state false) [ex_disk]
     = Err (EXIT_FAILURE (EmptyDisks printed))) /\
  (opt_force_empty (ex_state false) = true ->
   state_scan ex_filter ex_fs_empty (ex_state false) [ex_disk]
   = Ok (ex_unmounted.1.1, ex_unmounted.1.2, ex_unmounted.2)).
Proof.
  split; [reflexivity|]. split; [exact ex_disk_wf|]. split; [exact ex_unmounted_eq|].
  apply (state_scan_unmounted_disk ex_filter ex_fs_empty (ex_state false)
           ex_unmounted.1.1 [ex_disk] ex_unmounted.1.2 ex_unmounted.2 0%nat ex_disk).
  - reflexivity.
  - exact ex_disk_wf.
  - intros H. discriminate H.
  - reflexivity.
  - simpl. lia.
  - reflexivity.
  - exact ex_unmounted_eq.
Defined.

(** ** The warning for inodes that are not persistent *)

(** X12: the warning of state_scan for inodes that are not persistent names
    exactly the disks whose filesystem reports them so in this scan or whose
    flag was set before, in the order of the disk list; no precondition on
    the catalogs is needed. *)
Theorem state_scan_inode_warning (flt : snapraid_filter) (fs : string -> disk_view)
    (state state' : snapraid_state) (disklist disks' : list snapraid_disk)
    (scans : list snapraid_scan) :
  state_scan flt fs state disklist = Ok (state', disks', scans) ->
  inode_warning disks'
  = disk_name <$> filter (fun d => has_not_persistent_inodes d = true \/
                                   fs_fsinfo (fs (disk_dir d)) = Some false) disklist.
Proof.
  unfold state_scan. intros H.
  apply bind_Ok in H as ([[sA disksA] scansA] & Hrun & H).
  apply bind_Ok in H as (u & _ & H). injection H as <- <- <-.
  apply state_scan_disks_state in Hrun as (_ & Hids & _).
  unfold inode_warning. induction Hids as [|d d' l l' (hp & Hinfo & Hid) Hl IH]; [done|].
  unfold disk_ident in Hid. injection Hid as Hname _ _ Hflag.
  rewrite !filter_cons, Hflag, Hinfo.
  destruct (has_not_persistent_inodes d) eqn:Hd, hp; cbn [orb negb].
  - rewrite !decide_True by auto. rewrite !fmap_cons. by rewrite IH, Hname.
  - rewrite !decide_True by auto. rewrite !fmap_cons. by rewrite IH, Hname.
  - rewrite !decide_False; [done| |done]. by intros [?|?].
  - rewrite !decide_True by auto. rewrite !fmap_cons. by rewrite IH, Hname.
Qed.

Lemma state_scan_inode_warning_witness :
  state_scan ex_filter ex_fs_fat (ex_state false) [ex_disk] = Ok ex_fat_scan /\
  inode_warning ex_fat_scan.1.2 = ["d1"] /\
  inode_warning ex_fat_scan.1.2
  = disk_name <$> filter (fun d => has_not_persistent_inodes d = true \/
                                   fs_fsinfo (ex_fs_fat (disk_dir d)) = Some false)
                   [ex_disk].
Proof.
  assert (state_scan ex_filter ex_fs_fat (ex_state false) [ex_disk] = Ok ex_fat_scan)
    as Hrun by (vm_compute; reflexivity).
  split; [exact Hrun|]. split; [reflexivity|].
  exact (state_scan_inode_warning ex_filter ex_fs_fat (ex_state false) ex_fat_scan.1.1
           [ex_disk] ex_fat_scan.1.2 ex_fat_scan.2 Hrun).
Defined.

(** ** The summary of a second scan *)



(** ** The paths of the walk are pairwise distinct *)

Lemma string_app_cons (c : ascii) (s t : string) :
  String c s +:+ t = String c (s +:+ t).
Proof. done. Qed.

Lemma string_app_nil_r (s : string) : s +:+ "" = s.
Proof. induction s as [|c s IH]; [done|]. by rewrite string_app_cons, IH. Qed.

Lemma string_app_assoc (s1 s2 s3 : string) : (s1 +:+ s2) +:+ s3 = s1 +:+ (s2 +:+ s3).
Proof. induction s1 as [|c s1 IH]; [done|]. by rewrite !string_app_cons, IH. Qed.

Lemma string_app_inj (s x y : string) : s +:+ x = s +:+ y -> x = y.
Proof. apply String.app_inj. Qed.

(** Two names without "/", each followed by nothing or by a "/": when the
    paths are the same, the names are. *)
Lemma name_tail_inj (n1 : string) :
  forall n2 r1 r2,
    no_slash n1 = true -> no_slash n2 = true -> tail_ok r1 -> tail_ok r2 ->
    n1 +:+ r1 = n2 +:+ r2 -> n1 = n2.
Proof.
  induction n1 as [|a n1 IH]; intros [|c n2] r1 r2 H1 H2 Ht1 Ht2 Heq;
    rewrite ?string_app_cons in Heq; change ("" +:+ ?x) with x in Heq;
    cbn [no_slash] in H1, H2.
  - done.
  - change ("" +:+ r1) with r1 in Heq.
    destruct Ht1 as [->|(r & ->)]; [done|]. injection Heq as <- _.
    by rewrite Ascii.eqb_refl in H2.
  - change ("" +:+ r2) with r2 in Heq.
    destruct Ht2 as [->|(r & ->)]; [done|]. injection Heq as -> _.
    by rewrite Ascii.eqb_refl in H1.
  - injection Heq as -> Heq. f_equal.
    apply andb_true_iff in H1 as [_ H1]. apply andb_true_iff in H2 as [_ H2].
    exact (IH n2 r1 r2 H1 H2 Ht1 Ht2 Heq).
Qed.

Lemma dirent_names_ok_unfold (name : string) (ino : Z) (ty : dirent_type)
    (lst : option stat) (phy : option Z) (tgt : option string)
    (es : option (list dirent)) :
  dirent_names_ok (Dirent name ino ty lst phy tgt es) <->
  no_slash name = true /\
  match es with
  | Some l => NoDup (d_name <$> l) /\ Forall dirent_names_ok l
  | None => True
  end.
Proof.
  simpl. destruct es as [l|]; [|done].
  assert ((fix all (l : list dirent) : Prop :=
             match l with
             | [] => True
             | e :: l' => dirent_names_ok e /\ all l'
             end) l <-> Forall dirent_names_ok l) as ->; [|done].
  induction l as [|e l IH]; [by split|]. rewrite Forall_cons, IH. done.
Qed.

Lemma scan_dir_read_sublist {A} (flt : snapraid_filter) (dir : string)
    (es : list (dirent * A)) :
  forall l, scan_dir_read flt dir es = Ok l -> l `sublist_of` es.
Proof.
  induction es as [|[dd a] es IH]; intros l H; simpl in H.
  - by injection H as <-.
  - run_inv H; try (apply sublist_cons; by apply IH).
    injection H as <-. apply sublist_skip. by apply IH.
Qed.

(** The entries of a directory, processed one after the other. *)
Lemma walk_process_paths (l : list (dirent * walk_action)) :
  (forall x dir sub evs p, x ∈ l -> x.2 dir sub = Ok (evs, p) ->
     paths_under (sub +:+ d_name x.1) evs) ->
  NoDup ((fun x => d_name x.1) <$> l) ->
  (forall x, x ∈ l -> no_slash (d_name x.1) = true) ->
  forall dir sub p0 evs p,
    walk_process l dir sub p0 = Ok (evs, p) ->
    NoDup (event_sub <$> evs) /\
    forall ev, ev ∈ evs ->
      exists x rest, x ∈ l /\ event_sub ev = (sub +:+ d_name x.1) +:+ rest /\
        tail_ok rest.
Proof.
  induction l as [|[dd a] l IH]; intros Hact Hnd Hns dir sub p0 evs p H; simpl in H.
  - injection H as <- _. split; [constructor|]. by intros ev ?%elem_of_nil.
  - apply bind_Ok in H as ([evs1 p1] & Ha & H).
    apply bind_Ok in H as ([evs2 p2] & Hrest & H). injection H as <- <-.
    apply NoDup_cons in Hnd as [Hnotin Hnd]. cbn [fmap list_fmap] in Hnotin.
    destruct (Hact (dd, a) dir sub evs1 p1) as [Hnd1 Hsub1]; [left|done|].
    destruct (IH ltac:(intros; eapply Hact; [by right|done]) Hnd
                ltac:(intros; apply Hns; by right) dir sub _ evs2 p2 Hrest)
      as [Hnd2 Hsub2].
    split.
    + rewrite fmap_app. apply NoDup_app. split; [done|]. split; [|done].
      intros s (ev1 & -> & Hev1)%list_elem_of_fmap (ev2 & Heq & Hev2)%list_elem_of_fmap.
      destruct (Hsub1 ev1 Hev1) as (r1 & Hr1 & Ht1).
      destruct (Hsub2 ev2 Hev2) as (x & r2 & Hx & Hr2 & Ht2).
      rewrite Hr1, Hr2 in Heq. cbn [fst] in Heq.
      rewrite !string_app_assoc in Heq. apply string_app_inj in Heq.
      apply name_tail_inj in Heq;
        [|exact (Hns (dd, a) ltac:(left))|by apply Hns; right|done..].
      apply Hnotin. apply list_elem_of_fmap. exists x. split; [exact Heq|done].
    + intros ev [Hev|Hev]%elem_of_app.
      * destruct (Hsub1 ev Hev) as (r1 & Hr1 & Ht1).
        exists (dd, a), r1. split; [left|done].
      * destruct (Hsub2 ev Hev) as (x & r2 & Hx & Hr2 & Ht2).
        exists x, r2. split; [by right|done].
Qed.

(** What a path below the directory [sub] looks like: a name without "/"
    after [sub], followed by nothing or by a "/". *)
Lemma walk_dir_paths (flt : snapraid_filter) (env : walk_env) (l : list dirent) :
  Forall (fun e => dirent_names_ok e ->
            forall dir sub evs p, walk_entry flt env e dir sub = Ok (evs, p) ->
              paths_under (sub +:+ d_name e) evs) l ->
  NoDup (d_name <$> l) -> Forall dirent_names_ok l ->
  forall dir sub evs p,
    walk_dir flt env (Some (map (fun e => (e, walk_entry flt env e)) l)) dir sub
    = Ok (evs, p) ->
    NoDup (event_sub <$> evs) /\
    forall ev, ev ∈ evs ->
      exists name rest, no_slash name = true /\
        event_sub ev = (sub +:+ name) +:+ rest /\ tail_ok rest.
Proof.
  intros IH Hnd Hok dir sub evs p H. unfold walk_dir in H.
  apply bind_Ok in H as (l' & Hread & H).
  apply scan_dir_read_sublist in Hread.
  set (L := if negb (we_not_persistent env)
            then tommy_list_sort (fun a b => d_ino a.1 <=? d_ino b.1) l'
            else l') in H.
  assert (L ≡ₚ l') as Hperm.
  { unfold L. destruct (negb (we_not_persistent env)); [|done].
    apply tommy_list_sort_perm. }
  assert (forall x, x ∈ L -> exists e, e ∈ l /\ x = (e, walk_entry flt env e)) as Hin.
  { intros x Hx. rewrite Hperm in Hx.
    apply (elem_of_sublist _ _ _ Hx) in Hread.
    apply list_elem_of_fmap in Hread as (e & -> & He).
    eauto. }
  rewrite Forall_forall in IH. rewrite Forall_forall in Hok.
  destruct (walk_process_paths L) with (dir := dir) (sub := sub) (p0 := false)
    (evs := evs) (p := p) as [Hnd' Hsub]; [| | |exact H|].
  - intros x dir0 sub0 evs0 p0 Hx Hw. destruct (Hin x Hx) as (e & He & ->).
    apply (IH e He (Hok e He) dir0 sub0 evs0 p0 Hw).
  - rewrite Hperm. eapply sublist_NoDup; [|by apply fmap_sublist].
    rewrite <- list_fmap_compose. exact Hnd.
  - intros x Hx. destruct (Hin x Hx) as (e & He & ->). simpl.
    specialize (Hok e He). destruct e. by apply dirent_names_ok_unfold in Hok as [? _].
  - split; [done|]. intros ev Hev.
    destruct (Hsub ev Hev) as (x & rest & Hx & Heq & Ht).
    exists (d_name x.1), rest. split; [|done].
    destruct (Hin x Hx) as (e & He & ->). simpl.
    specialize (Hok e He). destruct e. by apply dirent_names_ok_unfold in Hok as [? _].
Qed.

(** The paths of the events of an entry start with the path of the entry,
    and are pairwise distinct. *)
Lemma walk_entry_paths (flt : snapraid_filter) (env : walk_env) (dd : dirent) :
  dirent_names_ok dd ->
  forall dir sub evs p,
    walk_entry flt env dd dir sub = Ok (evs, p) ->
    paths_under (sub +:+ d_name dd) evs.
Proof.
  induction dd as [name ino ty lst phy tgt es IH] using dirent_nested_ind.
  intros Hok dir sub evs p H. apply dirent_names_ok_unfold in Hok as [Hname Hes].
  cbn [walk_entry] in H. cbn [d_name].
  assert (paths_under (sub +:+ name) []) as Hnil.
  { split; [constructor|]. by intros ev ?%elem_of_nil. }
  assert (forall ev, event_sub ev = sub +:+ name -> paths_under (sub +:+ name) [ev])
    as Hone.
  { intros ev Hev. split; [apply NoDup_singleton|].
    intros ev' ->%list_elem_of_singleton. exists "".
    rewrite string_app_nil_r. split; [done|by left]. }
  apply bind_Ok in H as (type & _ & H).
  destruct type; run_inv H; simplify_eq; try exact Hnil; try by apply Hone.
  destruct es as [children|]; [|discriminate]. destruct Hes as [Hnd Hall].
  match goal with
  | H : walk_dir _ _ _ _ _ = Ok (?evs1, ?p1) |- _ =>
      destruct (walk_dir_paths flt env children (IH children eq_refl) Hnd Hall
                  _ _ evs1 p1 H) as [Hnd1 Hsub1];
      rename evs1 into evs', p1 into p'
  end.
  assert (forall ev, ev ∈ evs' ->
            exists rest, event_sub ev = (sub +:+ name) +:+ String "/"%char rest)
    as Hbelow.
  { intros ev Hev. destruct (Hsub1 ev Hev) as (n & rest & _ & Heq & _).
    exists (n +:+ rest). by rewrite Heq, !string_app_assoc. }
  assert (paths_under (sub +:+ name) evs') as Hunder.
  { split; [done|]. intros ev Hev. destruct (Hbelow ev Hev) as (rest & Heq).
    exists (String "/"%char rest). split; [done|]. right. by exists rest. }
  destruct p'; cbn [negb]; [done|].
  destruct Hunder as [_ Hunder]. split.
  - rewrite fmap_app. apply NoDup_app. split; [done|]. split; [|apply NoDup_singleton].
    intros s (ev & -> & Hev)%list_elem_of_fmap Hs. cbn in Hs.
    apply list_elem_of_singleton in Hs. destruct (Hbelow ev Hev) as (rest & Heq).
    rewrite Heq in Hs. rewrite <- (string_app_nil_r (sub +:+ name)) in Hs at 2.
    by apply string_app_inj in Hs.
  - intros ev [Hev|Hev]%elem_of_app; [by apply Hunder|].
    apply list_elem_of_singleton in Hev as ->. exists "". rewrite string_app_nil_r. split; [done|by left].
Qed.

Lemma ex_fs_tree_names_ok : fs_names_ok ex_fs_tree.
Proof.
  split; [by apply (bool_decide_unpack _)|].
  repeat constructor; by apply (bool_decide_unpack _).
Qed.

(** X14: scan_dir meets no path twice.  When no name of the tree of the disk
    holds a "/" and the names of every directory are pairwise distinct, the
    relative paths scan_dir passes to scan_file, scan_link and scan_emptydir
    during the walk of the disk are pairwise distinct, whatever the filter
    excludes and in whatever order the entries are sorted. *)
Theorem scan_dir_distinct_paths (flt : snapraid_filter) (state : snapraid_state)
    (d : snapraid_disk) (fs : disk_view) (evs : list event) :
  fs_names_ok fs ->
  disk_events flt state d fs = Ok evs ->
  NoDup (event_sub <$> evs).
Proof.
  intros Hok H. unfold disk_events, walk_disk in H.
  apply bind_Ok in H as ([evs' p] & Hw & H). injection H as <-.
  unfold fs_names_ok in Hok. destruct (fs_root fs) as [l|]; [|discriminate].
  destruct Hok as [Hnd Hall].
  eapply (walk_dir_paths flt _ l); [|exact Hnd|exact Hall|exact Hw].
  apply Forall_forall. intros e _ He. by apply walk_entry_paths.
Qed.

Lemma scan_dir_distinct_paths_witness :
  fs_names_ok ex_fs_tree /\
  disk_events ex_filter (ex_state false) ex_disk_new ex_fs_tree
  = Ok [EvFile "f" ex_stat_other 0; EvFile "a/f" ex_stat 0; EvLink "a/l" "f"; EvDir "e"] /\
  NoDup ["f"; "a/f"; "a/l"; "e"].
Proof.
  split; [exact ex_fs_tree_names_ok|]. split; [reflexivity|].
  exact (scan_dir_distinct_paths ex_filter (ex_state false) ex_disk_new ex_fs_tree
           _ ex_fs_tree_names_ok eq_refl).
Defined.

(** X15: after the scan of a disk every path of the catalog belongs to one
    object.  When no name of the tree of the disk holds a "/" and the names
    of every directory are pairwise distinct, then after a scan that started
    from a catalog satisfying I1 with no PRESENT flag set, on a disk whose
    flag for inodes that are not persistent is set only if the filesystem
    reports such inodes, no file of the file list has the path of a link of
    the link list or of a dir of the dir list, and no link has the path of a
    dir. *)
Theorem state_scan_disk_one_object (flt : snapraid_filter)
    (state state1 : snapraid_state) (d0 d1 : snapraid_disk) (fs : disk_view)
    (scan : snapraid_scan) :
  fs_names_ok fs ->
  catalog_wf d0 ->
  (has_not_persistent_inodes d0 = true -> fs_fsinfo fs = Some false) ->
  state_scan_disk flt state d0 fs = Ok (scan, state1, d1) ->
  (forall h l f x, h ∈ filelist d1 -> l ∈ linklist d1 ->
     files d1 !! h = Some (Some f) -> links d1 !! l = Some (Some x) ->
     file_sub f <> link_sub x) /\
  (forall h a f y, h ∈ filelist d1 -> a ∈ dirlist d1 ->
     files d1 !! h = Some (Some f) -> dirs d1 !! a = Some (Some y) ->
     file_sub f <> dir_sub y) /\
  (forall l a x y, l ∈ linklist d1 -> a ∈ dirlist d1 ->
     links d1 !! l = Some (Some x) -> dirs d1 !! a = Some (Some y) ->
     link_sub x <> dir_sub y).
Proof.
  intros Hok Hcw Hflag Hrun.
  destruct (state_scan_disk_synced _ _ _ _ _ _ _ Hcw Hflag Hrun)
    as (evs & t & Hevs & Hsy & _).
  assert (NoDup (event_sub <$> evs)) as Hpaths.
  { unfold disk_events, walk_disk in Hevs.
    apply bind_Ok in Hevs as ([evs' p] & Hw & Hevs). injection Hevs as <-.
    unfold fs_names_ok in Hok. destruct (fs_root fs) as [l|]; [|discriminate].
    destruct Hok as [Hnd Hall].
    eapply (walk_dir_paths flt _ l); [|exact Hnd|exact Hall|exact Hw].
    apply Forall_forall. intros e _ He. by apply walk_entry_paths. }
  pose proof (sy_marks _ _ _ _ Hsy) as Hmarks.
  assert (forall i j ev ev', evs !! i = Some ev -> evs !! j = Some ev' ->
            event_sub ev = event_sub ev' -> i = j) as Hsame.
  { intros i j ev ev' Hi Hj Heq. eapply NoDup_lookup; [exact Hpaths|..].
    - by rewrite list_lookup_fmap, Hi.
    - rewrite list_lookup_fmap, Hj. simpl. by rewrite Heq. }
  split; [|split].
  - intros h l f x Hh Hl Hf Hx Heq.
    rewrite (sy_filelist _ _ _ _ Hsy) in Hh. rewrite (sy_linklist _ _ _ _ Hsy) in Hl.
    destruct (mark_files_has _ _ _ _ _ Hmarks Hh)
      as (i & sub & st & ph & Hi & Hev & m & Hm & _ & _ & Hsub & _).
    rewrite (fget_lookup _ _ _ Hf) in Hm. injection Hm as <-. simpl in Hsub.
    destruct (mark_links_has _ _ _ _ _ Hmarks Hl)
      as (j & sub' & linkto & kind & ev & mk & Hj & Hml & Hev' & Hsub' & Hlk).
    unfold link_has in Hlk. apply lget_Some in Hlk. rewrite Hx in Hlk.
    injection Hlk as ->. simpl in Heq.
    assert (i = j) as <- by (eapply Hsame; [done..|]; simpl; congruence).
    rewrite Hi in Hj. injection Hj as <-. discriminate Hml.
  - intros h a f y Hh Ha Hf Hy Heq.
    rewrite (sy_filelist _ _ _ _ Hsy) in Hh. rewrite (sy_dirlist _ _ _ _ Hsy) in Ha.
    destruct (mark_files_has _ _ _ _ _ Hmarks Hh)
      as (i & sub & st & ph & Hi & Hev & m & Hm & _ & _ & Hsub & _).
    rewrite (fget_lookup _ _ _ Hf) in Hm. injection Hm as <-. simpl in Hsub.
    destruct (mark_dirs_has _ _ _ _ _ Hmarks Ha) as (j & sub' & Hj & Hev' & Hdh).
    unfold dir_has in Hdh. apply dget_Some in Hdh. rewrite Hy in Hdh.
    injection Hdh as ->. simpl in Heq.
    assert (i = j) as <- by (eapply Hsame; [done..|]; simpl; congruence).
    rewrite Hi in Hj. discriminate Hj.
  - intros l a x y Hl Ha Hx Hy Heq.
    rewrite (sy_linklist _ _ _ _ Hsy) in Hl. rewrite (sy_dirlist _ _ _ _ Hsy) in Ha.
    destruct (mark_links_has _ _ _ _ _ Hmarks Hl)
      as (i & sub & linkto & kind & ev & mk & Hi & Hml & Hev & Hsub & Hlk).
    unfold link_has in Hlk. apply lget_Some in Hlk. rewrite Hx in Hlk.
    injection Hlk as ->. simpl in Heq.
    destruct (mark_dirs_has _ _ _ _ _ Hmarks Ha) as (j & sub' & Hj & Hev' & Hdh).
    unfold dir_has in Hdh. apply dget_Some in Hdh. rewrite Hy in Hdh.
    injection Hdh as ->. simpl in Heq.
    assert (i = j) as <- by (eapply Hsame; [done..|]; simpl; congruence).
    rewrite Hi in Hj. injection Hj as ->. discriminate Hml.
Qed.

Lemma state_scan_disk_one_object_witness :
  fs_names_ok ex_fs_tree /\ catalog_wf ex_disk_new /\
  state_scan_disk ex_filter (ex_state false) ex_disk_new ex_fs_tree = Ok ex_tree_scan /\
  filelist ex_tree_scan.2 = [0; 1]%nat /\ linklist ex_tree_scan.2 = [0%nat] /\
  dirlist ex_tree_scan.2 = [0%nat] /\
  (forall h l f x, h ∈ filelist ex_tree_scan.2 -> l ∈ linklist ex_tree_scan.2 ->
     files ex_tree_scan.2 !! h = Some (Some f) ->
     links ex_tree_scan.2 !! l = Some (Some x) ->
     file_sub f <> link_sub x) /\
  (forall h a f y, h ∈ filelist ex_tree_scan.2 -> a ∈ dirlist ex_tree_scan.2 ->
     files ex_tree_scan.2 !! h = Some (Some f) ->
     dirs ex_tree_scan.2 !! a = Some (Some y) ->
     file_sub f <> dir_sub y) /\
  (forall l a x y, l ∈ linklist ex_tree_scan.2 -> a ∈ dirlist ex_tree_scan.2 ->
     links ex_tree_scan.2 !! l = Some (Some x) ->
     dirs ex_tree_scan.2 !! a = Some (Some y) ->
     link_sub x <> dir_sub y).
Proof.
  assert (state_scan_disk ex_filter (ex_state false) ex_disk_new ex_fs_tree
          = Ok ex_tree_scan) as Hrun by (vm_compute; reflexivity).
  split; [exact ex_fs_tree_names_ok|]. split; [exact ex_disk_new_wf|].
  split; [exact Hrun|]. do 3 (split; [reflexivity|]).
  apply (state_scan_disk_one_object ex_filter (ex_state false) ex_tree_scan.1.2
           ex_disk_new ex_tree_scan.2 ex_fs_tree ex_tree_scan.1.1
           ex_fs_tree_names_ok ex_disk_new_wf).
  - intros H. discriminate H.
  - exact Hrun.
Defined.

(** ** The size of the catalog across a scan *)

Ltac wrap_solve :=
  unfold incr, wrap32 in *; change (2 ^ 32) with 4294967296 in *;
  Z.to_euclidean_division_equations; lia.

Lemma file_store_lists (d d' : snapraid_disk) (h : nat)
    (upd : snapraid_file -> snapraid_file) :
  file_store d h upd = Ok d' -> disk_lists d' = disk_lists d.
Proof. by intros (f & _ & ->)%file_store_Ok. Qed.

Lemma link_store_lists (d d' : snapraid_disk) (l : nat)
    (upd : snapraid_link -> snapraid_link) :
  link_store d l upd = Ok d' -> disk_lists d' = disk_lists d.
Proof. by intros (f & _ & ->)%link_store_Ok. Qed.

Lemma dir_store_lists (d d' : snapraid_disk) (dh : nat)
    (upd : snapraid_dir -> snapraid_dir) :
  dir_store d dh upd = Ok d' -> disk_lists d' = disk_lists d.
Proof. unfold dir_store. intros H. run_inv H. by simplify_eq. Qed.

Lemma update_mtime_nsec_lists (state state' : snapraid_state) (d d' : snapraid_disk)
    (h : nat) (st : stat) :
  update_mtime_nsec state d h st = Ok (state', d') -> disk_lists d' = disk_lists d.
Proof.
  unfold update_mtime_nsec. intros H. run_inv H; simplify_eq; [|done].
  by eapply file_store_lists.
Qed.

Lemma catalog_size_lists (d d' : snapraid_disk) :
  disk_lists d' = disk_lists d -> catalog_size d' = catalog_size d.
Proof. unfold disk_lists, catalog_size. by intros [= -> -> ->]. Qed.

(** The stores of the hypotheses, as equations on the lists. *)
Ltac lists_steps :=
  repeat match goal with
  | H : file_store _ _ _ = Ok _ |- _ => apply file_store_lists in H
  | H : link_store _ _ _ = Ok _ |- _ => apply link_store_lists in H
  | H : dir_store _ _ _ = Ok _ |- _ => apply dir_store_lists in H
  | H : update_mtime_nsec _ _ _ _ = Ok _ |- _ => apply update_mtime_nsec_lists in H
  end.

Ltac balance_solve :=
  unfold balance_step, balance, catalog_size, waiting, disk_lists,
    tommy_insert_tail in *;
  cbn [fst snd] in *; simpl in *; simplify_eq;
  repeat match goal with
  | H : ?a = ?b :> list nat |- _ => apply (f_equal length) in H
  end;
  rewrite ?length_app in *; simpl in *; wrap_solve.

Lemma scan_link_balance (scan scan' : snapraid_scan) (state state' : snapraid_state)
    (d d' : snapraid_disk) (sub linkto : string) (flag : link_kind) :
  scan_link scan state d sub linkto flag = Ok (scan', state', d') ->
  balance_step (scan, state, d) (scan', state', d').
Proof.
  unfold scan_link, heap_alloc. intros H. run_inv H; simplify_eq; lists_steps;
    balance_solve.
Qed.

Lemma scan_emptydir_balance (scan scan' : snapraid_scan) (state state' : snapraid_state)
    (d d' : snapraid_disk) (sub : string) :
  scan_emptydir scan state d sub = Ok (scan', state', d') ->
  balance_step (scan, state, d) (scan', state', d').
Proof.
  unfold scan_emptydir, heap_alloc. intros H. run_inv H; simplify_eq; lists_steps;
    balance_solve.
Qed.

Lemma scan_file_path_inode_lists (d d' : snapraid_disk) (h : nat) (sub : string)
    (st : stat) :
  scan_file_path_inode d h sub st = Ok d' -> disk_lists d' = disk_lists d.
Proof.
  unfold scan_file_path_inode. intros H. run_inv H; simplify_eq; lists_steps;
    unfold disk_lists in *; simpl in *; congruence.
Qed.

Lemma scan_file_remove_lists (state state' : snapraid_state) (d d' : snapraid_disk)
    (h : nat) :
  scan_file_remove state d h = Ok (state', d') ->
  length (filelist d) = S (length (filelist d')) /\
  linklist d' = linklist d /\ dirlist d' = dirlist d.
Proof.
  intros (m & _ & _ & Hfl & _ & _ & Hrest & _)%scan_file_remove_catalog.
  apply remove_first_Some, Permutation_length in Hfl.
  by destruct (disk_rest_fields _ _ Hrest) as (_ & _ & _ & _ & ? & _ & _ & ? & _).
Qed.

Lemma scan_file_inode_balance (scan : snapraid_scan) (state : snapraid_state)
    (d : snapraid_disk) (sub : string) (st : stat) (fl : flow scan_ctx) :
  scan_file_inode scan state d sub st = Ok fl ->
  match fl with
  | Return ctx' => balance_step (scan, state, d) ctx'
  | Continue (scan1, _, d1) => scan1 = scan /\ disk_lists d1 = disk_lists d
  end.
Proof.
  unfold scan_file_inode. intros H. run_inv H; simplify_eq; lists_steps;
    try solve [balance_solve];
    try solve [split; [done|unfold disk_lists in *; simpl in *; congruence]].
  match goal with
  | H : scan_link _ _ _ _ _ _ = Ok ?r |- _ =>
      destruct r as [[scan' state'] d']; by apply scan_link_balance in H
  end.
Qed.

Lemma scan_file_path_balance (scan : snapraid_scan) (state : snapraid_state)
    (d : snapraid_disk) (sub : string) (st : stat) (fl : flow scan_ctx) :
  scan_file_path scan state d sub st = Ok fl ->
  match fl with
  | Return ctx' => balance_step (scan, state, d) ctx'
  | Continue (scan1, _, d1) =>
      (scan1 = set_count_change (incr (count_change scan)) scan /\
       length (filelist d) = S (length (filelist d1)) /\
       linklist d1 = linklist d /\ dirlist d1 = dirlist d) \/
      (scan1 = set_count_insert (incr (count_insert scan)) scan /\
       disk_lists d1 = disk_lists d)
  end.
Proof.
  unfold scan_file_path. intros H. run_inv H; simplify_eq;
    repeat match goal with
    | H : scan_file_path_inode _ _ _ _ = Ok _ |- _ =>
        apply scan_file_path_inode_lists in H
    | H : scan_file_remove _ _ _ = Ok _ |- _ =>
        apply scan_file_remove_lists in H as (? & ? & ?)
    end; lists_steps;
    try solve [balance_solve]; try solve [by right].
  left. unfold disk_lists in *. simplify_eq. split; [done|]. split; [|split]; congruence.
Qed.

Lemma scan_file_balance (scan scan' : snapraid_scan) (state state' : snapraid_state)
    (d d' : snapraid_disk) (sub : string) (st : stat) (ph : Z) :
  scan_file scan state d sub st ph = Ok (scan', state', d') ->
  balance_step (scan, state, d) (scan', state', d').
Proof.
  unfold scan_file. intros H. apply bind_Ok in H as (fl & Hino & H).
  apply scan_file_inode_balance in Hino.
  destruct fl as [r|[[scan1 state1] d1]]; [by simplify_eq|].
  destruct Hino as [-> Hl1]. pose proof (catalog_size_lists _ _ Hl1) as Hsz.
  apply bind_Ok in H as (fl & Hpath & H).
  apply scan_file_path_balance in Hpath.
  destruct fl as [r|[[scan2 state2] d2]].
  { injection H as ->. unfold balance_step, balance in *. cbn [fst snd] in *.
    by rewrite Hpath, Hsz. }
  clear Hsz.
  rewrite scan_file_new_spec in H. injection H as <- <- <-.
  destruct Hpath as [(-> & Hfl & Hll & Hdl)|[-> Hl2]]; balance_solve.
Qed.

Lemma scan_event_balance (ev : event) (ctx ctx' : scan_ctx) :
  scan_event ev ctx = Ok ctx' -> balance_step ctx ctx'.
Proof.
  destruct ctx as [[scan state] d], ctx' as [[scan' state'] d'], ev; simpl.
  - apply scan_file_balance.
  - apply scan_link_balance.
  - apply scan_emptydir_balance.
Qed.

Lemma balance_step_refl (ctx : scan_ctx) : balance_step ctx ctx.
Proof. done. Qed.

Lemma balance_step_trans (c1 c2 c3 : scan_ctx) :
  balance_step c1 c2 -> balance_step c2 c3 -> balance_step c1 c3.
Proof. unfold balance_step. congruence. Qed.

Lemma clear_inodes_lists (nodes : list nat) :
  forall d d', clear_inodes nodes d = Ok d' -> disk_lists d' = disk_lists d.
Proof.
  induction nodes as [|h nodes IH]; intros d d' H; simpl in H.
  - by injection H as <-.
  - run_inv H. apply IH in H. lists_steps.
    unfold disk_lists in *. simpl in *. congruence.
Qed.

Lemma scan_link_remove_lists (state state' : snapraid_state) (d d' : snapraid_disk)
    (l : nat) :
  scan_link_remove state d l = Ok (state', d') ->
  filelist d' = filelist d /\ length (linklist d) = S (length (linklist d')) /\
  dirlist d' = dirlist d.
Proof.
  unfold scan_link_remove. intros H. run_inv H. simplify_eq. simpl.
  repeat match goal with
  | H : tommy_remove_existing _ _ = Ok _ |- _ =>
      apply tommy_remove_existing_Ok_inv, remove_first_Some, Permutation_length in H
  end.
  done.
Qed.

Lemma scan_emptydir_remove_lists (state state' : snapraid_state) (d d' : snapraid_disk)
    (dh : nat) :
  scan_emptydir_remove state d dh = Ok (state', d') ->
  filelist d' = filelist d /\ linklist d' = linklist d /\
  length (dirlist d) = S (length (dirlist d')).
Proof.
  unfold scan_emptydir_remove. intros H. run_inv H. simplify_eq. simpl.
  repeat match goal with
  | H : tommy_remove_existing _ _ = Ok _ |- _ =>
      apply tommy_remove_existing_Ok_inv, remove_first_Some, Permutation_length in H
  end.
  done.
Qed.

Lemma remove_missing_files_balance (nodes : list nat) :
  forall scan state d scan' state' d',
    remove_missing_files nodes scan state d = Ok (scan', state', d') ->
    balance_step (scan, state, d) (scan', state', d').
Proof.
  induction nodes as [|h nodes IH]; intros scan state d scan' state' d' H; simpl in H.
  - injection H as <- <- <-. apply balance_step_refl.
  - run_inv H; apply IH in H; [|done].
    eapply balance_step_trans; [|exact H].
    match goal with
    | H : scan_file_remove _ _ _ = Ok _ |- _ =>
        apply scan_file_remove_lists in H as (? & ? & ?)
    end.
    balance_solve.
Qed.

Lemma remove_missing_links_balance (nodes : list nat) :
  forall scan state d scan' state' d',
    remove_missing_links nodes scan state d = Ok (scan', state', d') ->
    balance_step (scan, state, d) (scan', state', d').
Proof.
  induction nodes as [|h nodes IH]; intros scan state d scan' state' d' H; simpl in H.
  - injection H as <- <- <-. apply balance_step_refl.
  - run_inv H; apply IH in H; [|done].
    eapply balance_step_trans; [|exact H].
    match goal with
    | H : scan_link_remove _ _ _ = Ok _ |- _ =>
        apply scan_link_remove_lists in H as (? & ? & ?)
    end.
    balance_solve.
Qed.

Lemma remove_missing_dirs_balance (nodes : list nat) :
  forall scan state d scan' state' d',
    remove_missing_dirs nodes scan state d = Ok (scan', state', d') ->
    balance_step (scan, state, d) (scan', state', d').
Proof.
  induction nodes as [|h nodes IH]; intros scan state d scan' state' d' H; simpl in H.
  - injection H as <- <- <-. apply balance_step_refl.
  - run_inv H; apply IH in H; [|done].
    eapply balance_step_trans; [|exact H].
    match goal with
    | H : scan_emptydir_remove _ _ _ = Ok _ |- _ =>
        apply scan_emptydir_remove_lists in H as (? & ? & ?)
    end.
    balance_solve.
Qed.

(** The insertions list every object that waits. *)
Lemma insert_new_files_size (nodes : list nat) :
  forall state d c dup last state' d' dup',
    insert_new_files nodes state d c dup last = Ok (state', d', dup') ->
    catalog_size d' = catalog_size d + Z.of_nat (length nodes).
Proof.
  induction nodes as [|h nodes IH]; intros state d c dup last state' d' dup' H;
    simpl in H.
  - injection H as <- <- <-. simpl. lia.
  - apply bind_Ok in H as (f & _ & H).
    destruct (bool_decide _ && _) in H;
      apply bind_Ok in H as ([state1 d1] & Hins & H);
      apply scan_file_insert_catalog in Hins as (_ & Hfl & _ & _ & Hrest & _);
      apply IH in H; rewrite H;
      destruct (disk_rest_fields _ _ Hrest) as (_ & _ & _ & _ & Hll & _ & _ & Hdl & _);
      unfold catalog_size; rewrite Hfl, Hll, Hdl, length_app; simpl; lia.
Qed.

Lemma insert_new_links_size (nodes : list nat) :
  forall state d state' d',
    insert_new_links nodes state d = Ok (state', d') ->
    catalog_size d' = catalog_size d + Z.of_nat (length nodes).
Proof.
  induction nodes as [|h nodes IH]; intros state d state' d' H; simpl in H.
  - injection H as <- <-. simpl. lia.
  - apply IH in H. rewrite H. unfold catalog_size, tommy_insert_tail. simpl.
    rewrite length_app. simpl. lia.
Qed.

Lemma insert_new_dirs_size (nodes : list nat) :
  forall state d state' d',
    insert_new_dirs nodes state d = Ok (state', d') ->
    catalog_size d' = catalog_size d + Z.of_nat (length nodes).
Proof.
  induction nodes as [|h nodes IH]; intros state d state' d' H; simpl in H.
  - injection H as <- <-. simpl. lia.
  - apply IH in H. rewrite H. unfold catalog_size, tommy_insert_tail. simpl.
    rewrite length_app. simpl. lia.
Qed.

(** The scan of a disk, up to the insertions: the balance is the size of the
    catalog it started from. *)
Lemma state_scan_disk_sizes (flt : snapraid_filter) (state state' : snapraid_state)
    (d d' : snapraid_disk) (fs : disk_view) (scan' : snapraid_scan) :
  state_scan_disk flt state d fs = Ok (scan', state', d') ->
  wrap32 (catalog_size d' + count_remove scan' - count_insert scan')
  = wrap32 (catalog_size d).
Proof.
  unfold state_scan_disk. intros H.
  apply bind_Ok in H as (hp & _ & H).
  apply bind_Ok in H as (d0 & Hd0 & H).
  assert (catalog_size d0 = catalog_size d) as Hsz0.
  { apply catalog_size_lists. destruct (negb hp).
    - by apply clear_inodes_lists in Hd0.
    - by injection Hd0 as <-. }
  apply bind_Ok in H as ([[[scan1 state1] d1] p] & Hwalk & H).
  assert (balance_step (scan_init, state, d0) (scan1, state1, d1)) as Hs1.
  { apply (scan_dir_keeps balance_step balance_step_refl balance_step_trans flt
             match fs_root fs with
             | Some es => Some (map (fun e => (e, scan_dir_entry flt e)) es)
             | None => None
             end) in Hwalk; [done|].
    intros l Hl x Hx. destruct (fs_root fs) as [es|]; [|discriminate].
    injection Hl as <-. apply list_elem_of_fmap in Hx as (e & -> & He).
    apply (scan_dir_entry_keeps balance_step balance_step_refl balance_step_trans).
    apply scan_event_balance. }
  apply bind_Ok in H as ([[scan2 state2] d2] & Hrf & H).
  apply remove_missing_files_balance in Hrf.
  apply bind_Ok in H as ([[scan3 state3] d3] & Hrl & H).
  apply remove_missing_links_balance in Hrl.
  apply bind_Ok in H as ([[scan4 state4] d4] & Hrd & H).
  apply remove_missing_dirs_balance in Hrd.
  pose proof (balance_step_trans _ _ _ Hs1
                (balance_step_trans _ _ _ Hrf (balance_step_trans _ _ _ Hrl Hrd)))
    as Hall.
  apply bind_Ok in H as (nodes & Hsort & H).
  apply sort_file_insert_list_perm, Permutation_length in Hsort.
  apply bind_Ok in H as ([[state5 d5] dup] & Hif & H). cbn in Hif.
  apply insert_new_files_size in Hif.
  set (d5' := if bool_decide (opt_force_order state5 = SORT_PHYSICAL) && (dup >? 0)
              then set_has_not_reliable_physical true d5 else d5) in H.
  assert (catalog_size d5' = catalog_size d5) as Hsz5.
  { unfold d5'. by destruct (bool_decide _ && _). }
  apply bind_Ok in H as ([state6 d6] & Hil & H). cbn in Hil.
  apply insert_new_links_size in Hil.
  apply bind_Ok in H as ([state7 d7] & Hid & H). cbn in Hid.
  apply insert_new_dirs_size in Hid.
  injection H as <- <- <-.
  unfold balance_step, balance, waiting in Hall. cbn [fst snd] in Hall.
  replace (catalog_size d0 +
           (Z.of_nat (length (file_insert_list scan_init)) +
            Z.of_nat (length (link_insert_list scan_init)) +
            Z.of_nat (length (dir_insert_list scan_init))) +
           count_remove scan_init - count_insert scan_init)
    with (catalog_size d) in Hall by (simpl; lia).
  rewrite <- Hall. f_equal. simpl. lia.
Qed.

(** X16: the size of the catalog follows the counters.  Whenever the scan of
    a disk returns, the number of files, links and dirs listed in the
    catalog after it, plus the removals it counted, is the number listed
    before it plus the insertions it counted, as unsigned values of 32 bits;
    no condition on the catalog is needed. *)
Theorem state_scan_disk_balance (flt : snapraid_filter) (state state' : snapraid_state)
    (d d' : snapraid_disk) (fs : disk_view) (scan' : snapraid_scan) :
  state_scan_disk flt state d fs = Ok (scan', state', d') ->
  wrap32 (catalog_size d' + count_remove scan')
  = wrap32 (catalog_size d + count_insert scan').
Proof.
  intros H%state_scan_disk_sizes. wrap_solve.
Qed.

Lemma state_scan_disk_balance_witness :
  state_scan_disk ex_filter (ex_state false) ex_disk (ex_fs "/mnt/d1/") = Ok ex_scanned /\
  wrap32 (catalog_size ex_scanned.2 + count_remove ex_scanned.1.1)
  = wrap32 (catalog_size ex_disk + count_insert ex_scanned.1.1).
Proof.
  assert (state_scan_disk ex_filter (ex_state false) ex_disk (ex_fs "/mnt/d1/")
          = Ok ex_scanned) as Hrun by (vm_compute; reflexivity).
  split; [exact Hrun|].
  exact (state_scan_disk_balance ex_filter (ex_state false) ex_scanned.1.2 ex_disk
           ex_scanned.2 (ex_fs "/mnt/d1/") ex_scanned.1.1 Hrun).
Defined.

(** ** Every entry is counted once *)

Ltac counted_solve :=
  unfold counted_step, counted in *; cbn [fst snd] in *; simpl in *; simplify_eq;
  wrap_solve.

Lemma scan_link_counted (scan scan' : snapraid_scan) (state state' : snapraid_state)
    (d d' : snapraid_disk) (sub linkto : string) (flag : link_kind) :
  scan_link scan state d sub linkto flag = Ok (scan', state', d') ->
  counted_step 1 (scan, state, d) (scan', state', d').
Proof.
  unfold scan_link, heap_alloc. intros H. run_inv H; simplify_eq; counted_solve.
Qed.

Lemma scan_emptydir_counted (scan scan' : snapraid_scan) (state state' : snapraid_state)
    (d d' : snapraid_disk) (sub : string) :
  scan_emptydir scan state d sub = Ok (scan', state', d') ->
  counted_step 1 (scan, state, d) (scan', state', d').
Proof.
  unfold scan_emptydir, heap_alloc. intros H. run_inv H; simplify_eq; counted_solve.
Qed.

Lemma scan_file_inode_counted (scan : snapraid_scan) (state : snapraid_state)
    (d : snapraid_disk) (sub : string) (st : stat) (ctx' : scan_ctx) :
  scan_file_inode scan state d sub st = Ok (Return ctx') ->
  counted_step 1 (scan, state, d) ctx'.
Proof.
  unfold scan_file_inode. intros H. run_inv H; simplify_eq; try solve [counted_solve].
  destruct ctx' as [[scan' state'] d']. by eapply scan_link_counted.
Qed.

Lemma scan_file_path_counted (scan : snapraid_scan) (state : snapraid_state)
    (d : snapraid_disk) (sub : string) (st : stat) (fl : flow scan_ctx) :
  scan_file_path scan state d sub st = Ok fl ->
  counted_step 1 (scan, state, d)
    match fl with Return ctx' => ctx' | Continue ctx' => ctx' end.
Proof.
  unfold scan_file_path. intros H. run_inv H; simplify_eq; counted_solve.
Qed.

Lemma scan_file_counted (scan scan' : snapraid_scan) (state state' : snapraid_state)
    (d d' : snapraid_disk) (sub : string) (st : stat) (ph : Z) :
  scan_file scan state d sub st ph = Ok (scan', state', d') ->
  counted_step 1 (scan, state, d) (scan', state', d').
Proof.
  unfold scan_file. intros H. apply bind_Ok in H as (fl & Hino & H).
  destruct fl as [r|[[scan1 state1] d1]].
  { simplify_eq. exact (scan_file_inode_counted _ _ _ _ _ _ Hino). }
  apply scan_file_inode_balance in Hino as [-> _].
  apply bind_Ok in H as (fl & Hpath & H).
  apply scan_file_path_counted in Hpath.
  destruct fl as [r|[[scan2 state2] d2]]; [by simplify_eq|].
  rewrite scan_file_new_spec in H. injection H as <- <- <-. counted_solve.
Qed.

Lemma scan_event_counted (ev : event) (ctx ctx' : scan_ctx) :
  scan_event ev ctx = Ok ctx' -> counted_step 1 ctx ctx'.
Proof.
  destruct ctx as [[scan state] d], ctx' as [[scan' state'] d'], ev; simpl.
  - apply scan_file_counted.
  - apply scan_link_counted.
  - apply scan_emptydir_counted.
Qed.

Lemma scan_events_counted (evs : list event) :
  forall ctx ctx', scan_events evs ctx = Ok ctx' ->
    counted_step (Z.of_nat (length evs)) ctx ctx'.
Proof.
  induction evs as [|ev evs IH]; intros ctx ctx' H; simpl in H.
  - injection H as <-. unfold counted_step. simpl. f_equal. lia.
  - apply bind_Ok in H as (ctx1 & H1 & H). apply scan_event_counted in H1.
    apply IH in H. unfold counted_step in *. rewrite H.
    replace (Z.of_nat (length (ev :: evs))) with (1 + Z.of_nat (length evs))
      by (simpl; lia).
    wrap_solve.
Qed.

(** The removal sweeps count removals only. *)
Lemma remove_missing_files_counted (nodes : list nat) :
  forall scan state d scan' state' d',
    remove_missing_files nodes scan state d = Ok (scan', state', d') ->
    counted scan' = counted scan.
Proof.
  induction nodes as [|h nodes IH]; intros scan state d scan' state' d' H; simpl in H.
  - by injection H as <- <- <-.
  - run_inv H; apply IH in H; by rewrite H.
Qed.

Lemma remove_missing_links_counted (nodes : list nat) :
  forall scan state d scan' state' d',
    remove_missing_links nodes scan state d = Ok (scan', state', d') ->
    counted scan' = counted scan.
Proof.
  induction nodes as [|h nodes IH]; intros scan state d scan' state' d' H; simpl in H.
  - by injection H as <- <- <-.
  - run_inv H; apply IH in H; by rewrite H.
Qed.

Lemma remove_missing_dirs_counted (nodes : list nat) :
  forall scan state d scan' state' d',
    remove_missing_dirs nodes scan state d = Ok (scan', state', d') ->
    counted scan' = counted scan.
Proof.
  induction nodes as [|h nodes IH]; intros scan state d scan' state' d' H; simpl in H.
  - by injection H as <- <- <-.
  - run_inv H; apply IH in H; by rewrite H.
Qed.

(** Every mark is a file, a link or a dir. *)
Lemma mark_lengths (t : list mark) :
  (length (mark_files t) + length (mark_links t) + length (mark_dirs t))%nat = length t.
Proof.
  unfold mark_files, mark_links, mark_dirs.
  induction t as [|[h|h l|l|dh] t IH]; simpl; [done|..];
    change (list_omap mark nat) with (@omap list _ mark nat); lia.
Qed.

(** The counters of the scan of a disk and the events of its walk. *)
Lemma state_scan_disk_counted (flt : snapraid_filter) (state state1 : snapraid_state)
    (d0 d1 : snapraid_disk) (fs : disk_view) (scan : snapraid_scan) :
  catalog_wf d0 ->
  (has_not_persistent_inodes d0 = true -> fs_fsinfo fs = Some false) ->
  state_scan_disk flt state d0 fs = Ok (scan, state1, d1) ->
  exists evs,
    disk_events flt state d0 fs = Ok evs /\
    wrap32 (counted scan) = wrap32 (Z.of_nat (length evs)).
Proof.
  unfold state_scan_disk. intros Hcw Hflag H.
  destruct (fs_fsinfo fs) as [b|] eqn:Hinfo; [|discriminate]. cbn [bind] in H.
  apply bind_Ok in H as (d & Hd & H).
  destruct (scanning_start d0 d (negb b) Hcw) as (Hsc0 & Hnp & Hname & Hdir & Hdev).
  { intros Hf. specialize (Hflag Hf). by injection Hflag as ->. }
  { exact Hd. }
  assert (env_of state d = walk_env_of state d0 fs) as Henv.
  { unfold env_of, walk_env_of. by rewrite Hinfo, Hname, Hdir, Hdev, Hnp. }
  apply bind_Ok in H as ([[[scan2 state2] d2] p] & Hwalk & H).
  apply (scan_dir_follows flt (env_of state d) (scan_dir_entry flt)
           (walk_entry flt (env_of state d)) (fs_root fs)) with (evs0 := []) (t0 := [])
    in Hwalk as (evs & Hw & Hev);
    [|intros; apply scan_dir_entry_follows|exact Hsc0|done].
  apply scan_events_counted in Hev.
  apply bind_Ok in H as ([[scan3 state3] d3] & Hrf & H).
  apply remove_missing_files_counted in Hrf.
  apply bind_Ok in H as ([[scan4 state4] d4] & Hrl & H).
  apply remove_missing_links_counted in Hrl.
  apply bind_Ok in H as ([[scan5 state5] d5] & Hrd & H).
  apply remove_missing_dirs_counted in Hrd.
  run_inv H. simplify_eq.
  exists evs. split.
  - unfold disk_events, walk_disk. rewrite <- Henv, <- Hdir. by rewrite Hw.
  - unfold counted_step in Hev. cbn [fst snd] in Hev.
    change (counted (set_file_insert_list _ scan5)) with (counted scan5).
    rewrite Hrd, Hrl, Hrf, Hev. done.
Qed.

(** X17: every entry the walk meets is counted once and catalogued once.
    After the scan of a disk that started from a catalog satisfying I1 with
    no PRESENT flag set, on a disk whose flag for inodes that are not
    persistent is set only if the filesystem reports such inodes, the
    files, links and dirs listed in the catalog are
    as many as the entries scan_dir passed to scan_file, scan_link and
    scan_emptydir, and the counters equal, move, restore, change and insert
    add up to that number, as an unsigned value of 32 bits. *)
Theorem state_scan_disk_counts_entries (flt : snapraid_filter)
    (state state1 : snapraid_state) (d0 d1 : snapraid_disk) (fs : disk_view)
    (scan : snapraid_scan) :
  catalog_wf d0 ->
  (has_not_persistent_inodes d0 = true -> fs_fsinfo fs = Some false) ->
  state_scan_disk flt state d0 fs = Ok (scan, state1, d1) ->
  exists evs,
    disk_events flt state d0 fs = Ok evs /\
    catalog_size d1 = Z.of_nat (length evs) /\
    wrap32 (count_equal scan + count_move scan + count_restore scan
            + count_change scan + count_insert scan)
    = wrap32 (Z.of_nat (length evs)).
Proof.
  intros Hcw Hflag Hrun.
  destruct (state_scan_disk_counted _ _ _ _ _ _ _ Hcw Hflag Hrun) as (evs & Hevs & Hc).
  destruct (state_scan_disk_synced _ _ _ _ _ _ _ Hcw Hflag Hrun)
    as (evs' & t & Hevs' & Hsy & _).
  rewrite Hevs in Hevs'. injection Hevs' as <-.
  exists evs. split; [done|]. split; [|exact Hc].
  unfold catalog_size.
  rewrite (Permutation_length (sy_filelist _ _ _ _ Hsy)),
    (Permutation_length (sy_linklist _ _ _ _ Hsy)),
    (Permutation_length (sy_dirlist _ _ _ _ Hsy)).
  rewrite (Forall2_length _ _ _ (sy_marks _ _ _ _ Hsy)), <- (mark_lengths t). lia.
Qed.

Lemma state_scan_disk_counts_entries_witness :
  catalog_wf ex_disk_new /\
  state_scan_disk ex_filter (ex_state false) ex_disk_new ex_fs_tree = Ok ex_tree_scan /\
  exists evs,
    disk_events ex_filter (ex_state false) ex_disk_new ex_fs_tree = Ok evs /\
    catalog_size ex_tree_scan.2 = Z.of_nat (length evs) /\
    wrap32 (count_equal ex_tree_scan.1.1 + count_move ex_tree_scan.1.1
            + count_restore ex_tree_scan.1.1 + count_change ex_tree_scan.1.1
            + count_insert ex_tree_scan.1.1)
    = wrap32 (Z.of_nat (length evs)).
Proof.
  assert (state_scan_disk ex_filter (ex_state false) ex_disk_new ex_fs_tree
          = Ok ex_tree_scan) as Hrun by (vm_compute; reflexivity).
  split; [exact ex_disk_new_wf|]. split; [exact Hrun|].
  apply (state_scan_disk_counts_entries ex_filter (ex_state false) ex_tree_scan.1.2
           ex_disk_new ex_tree_scan.2 ex_fs_tree ex_tree_scan.1.1 ex_disk_new_wf).
  - intros H. discriminate H.
  - exact Hrun.
Defined.

(** ** The block map across scan_file_insert and scan_file_remove *)

Lemma block_store_blockarr (d d' : snapraid_disk) (p : block_ptr)
    (upd : snapraid_block -> snapraid_block) :
  block_store d p upd = Ok d' -> blockarr d' = blockarr d.
Proof.
  unfold block_store. intros H. run_inv H; by simplify_eq.
Qed.

(** The slot the search stops at holds no file block, or is past the end. *)
Lemma find_free_block_Ok_inv (arr : list block_ptr) (block_max : Z) (fuel : nat) :
  forall block_pos p,
    find_free_block fuel arr block_max block_pos = Ok p ->
    block_max <= p \/
    exists c, arr !! Z.to_nat p = Some c /\ block_has_file c = false.
Proof.
  induction fuel as [|fuel IH]; intros block_pos p H;
    rewrite find_free_block_unfold in H;
    (destruct (block_pos <? block_max) eqn:Hlt;
     [|injection H as <-; left; lia]);
    apply bind_Ok in H as (c & Hc & H); apply tommy_arrayblk_get_Ok in Hc;
    (destruct (block_has_file c) eqn:Hfile; [|injection H as <-; right; eauto]).
  - discriminate.
  - by apply IH in H.
Qed.

Lemma scan_file_insert_block_keeps (state : snapraid_state) (arr0 : list block_ptr)
    (file i : nat) (s s' : snapraid_disk * Z * Z) :
  insert_keeps arr0 file s ->
  scan_file_insert_block state file i s = Ok s' ->
  insert_keeps arr0 file s'.
Proof.
  destruct s as [[dk bm] bp], s' as [[dk' bm'] bp'].
  intros (Hmax & Hkeep & Honly & Hlen) H. cbn [fst snd] in *.
  unfold scan_file_insert_block in H.
  apply bind_Ok in H as (p & Hfind & H).
  apply find_free_block_Ok_inv in Hfind.
  set (grown := if p =? bm
                then (set_blockarr (tommy_arrayblk_grow (blockarr dk) (wrap32 (bm + 1))) dk,
                      wrap32 (bm + 1))
                else (dk, bm)) in H.
  destruct grown as [d1 bm1] eqn:Hgrown.
  apply bind_Ok in H as (d2 & Hd2%block_store_blockarr & H).
  apply bind_Ok in H as (c & Hc%tommy_arrayblk_get_Ok & H).
  apply bind_Ok in H as (d3 & Hd3 & H).
  assert (blockarr d3 = blockarr d2) as Harr3.
  { destruct (decide (c = BLOCK_EMPTY)).
    - by apply block_store_blockarr in Hd3.
    - apply bind_Ok in Hd3 as (x & Hx & Hd3).
      apply bind_Ok in Hd3 as (x0 & Hx0%block_store_blockarr & Hd3).
      apply bind_Ok in Hd3 as (old & _ & Hd3%block_store_blockarr).
      assert (blockarr x = blockarr d2) as Hx'.
      { destruct (negb (clear_undeterminate_hash state)).
        - by apply block_store_blockarr in Hx.
        - by injection Hx as <-. }
      congruence. }
  apply bind_Ok in H as (arr & [Hlt ->]%tommy_arrayblk_set_Ok_inv & H).
  injection H as <- <- <-. unfold insert_keeps. simpl.
  rewrite Harr3, Hd2 in *.
  (* the array after the growth *)
  assert ((blockarr d1 = blockarr dk /\
           bm1 = Z.of_nat (length (blockarr d1)) /\
           (Z.to_nat p < length (blockarr dk))%nat) \/
            (blockarr d1 = blockarr dk ++ [BLOCK_EMPTY] /\
             bm1 = Z.of_nat (length (blockarr d1)) /\
             Z.to_nat p = length (blockarr dk))) as Hgrow.
  { unfold grown in Hgrown. destruct (p =? bm) eqn:Hp.
    - apply Z.eqb_eq in Hp. injection Hgrown as <- <-. right.
      cbn [blockarr set_blockarr] in *. unfold tommy_arrayblk_grow in *.
      rewrite length_app, length_replicate in Hlt.
      assert (wrap32 (bm + 1) = bm + 1) as Hw
        by (unfold wrap32 in *; change (2 ^ 32) with 4294967296 in *;
            Z.to_euclidean_division_equations; lia).
      rewrite Hw.
      replace (Z.to_nat (bm + 1) - length (blockarr dk))%nat with 1%nat by lia.
      split; [done|]. split; [rewrite length_app; simpl; lia|lia].
    - apply Z.eqb_neq in Hp. injection Hgrown as <- <-. left.
      split; [done|]. split; [done|].
      destruct Hfind as [Hge|(c' & Hc' & _)]; [|by eapply lookup_lt_Some].
      apply lookup_lt_Some in Hc. lia. }
  split; [|split; [|split]].
  - rewrite length_insert. by destruct Hgrow as [(_ & ? & _)|(_ & ? & _)].
  - intros q g j Hq. specialize (Hkeep q g j Hq).
    assert (q <> Z.to_nat p) as Hne.
    { intros ->. destruct Hgrow as [(Harr & _ & Hin)|(_ & _ & Hout)].
      - destruct Hfind as [Hge|(c' & Hc' & Hnf)]; [lia|].
        rewrite Hkeep in Hc'. by injection Hc' as <-.
      - apply lookup_lt_Some in Hkeep. lia. }
    rewrite list_lookup_insert_ne by done.
    destruct Hgrow as [(-> & _)|(-> & _)]; [done|by apply lookup_app_l_Some].
  - intros q c' Hq. destruct (decide (q = Z.to_nat p)) as [->|Hne].
    + rewrite list_lookup_insert_eq in Hq by done. injection Hq as <-. eauto.
    + rewrite list_lookup_insert_ne in Hq by done.
      destruct Hgrow as [(Harr & _ & Hin)|(Harr & _ & Hout)].
      * rewrite Harr in Hq. by apply Honly.
      * rewrite Harr in Hq. apply lookup_lt_Some in Hq as Hq'.
        rewrite length_app in Hq'. simpl in Hq'.
        rewrite lookup_app_l in Hq by lia. by apply Honly.
  - rewrite length_insert.
    destruct Hgrow as [(-> & _)|(-> & _)]; [done|rewrite length_app; lia].
Qed.

(** X18: scan_file_insert claims no slot of another file.  Whenever it
    returns, every cell of the block map that held a file block holds the
    same block, and every cell of the block map after it is the cell it was
    before or a block of the inserted file; the map does not shrink. *)
Theorem scan_file_insert_keeps_file_blocks (state state' : snapraid_state)
    (d d' : snapraid_disk) (file : nat) :
  scan_file_insert state d file = Ok (state', d') ->
  (forall q g j, blockarr d !! q = Some (FileBlock g j) ->
     blockarr d' !! q = Some (FileBlock g j)) /\
  (forall q c, blockarr d' !! q = Some c ->
     blockarr d !! q = Some c \/ exists i, c = FileBlock file i) /\
  (length (blockarr d) <= length (blockarr d'))%nat.
Proof.
  unfold scan_file_insert. intros H.
  apply bind_Ok in H as (f & Hf & H).
  apply bind_Ok in H as ([[dL bm] bp] & Hloop & H). injection H as <- <-.
  assert (insert_keeps (blockarr d) file (dL, bm, bp)) as (_ & Hkeep & Honly & Hlen).
  { apply (for_loop_Ok_invariant (fun _ s => insert_keeps (blockarr d) file s)
             _ _ _ _ _ Hloop).
    - split; [done|]. split; [done|]. split; [|done]. intros q c Hq. by left.
    - intros j s s' _ Hs Hbody. by eapply scan_file_insert_block_keeps. }
  cbn [fst snd] in *.
  assert (blockarr (set_filelist (tommy_insert_tail
            (filelist (if decide (blockmax f = 0%nat) then dL
                       else set_first_free_block (wrap32 (bp + 1)) dL)) file)
            (if decide (blockmax f = 0%nat) then dL
             else set_first_free_block (wrap32 (bp + 1)) dL)) = blockarr dL) as ->
    by (by destruct (decide (blockmax f = 0%nat))).
  done.
Qed.

Lemma scan_file_insert_keeps_file_blocks_witness :
  scan_file_insert (ex_state false) ex_disk_two 1
  = Ok (set_need_write true (ex_state false), ex_disk_two_inserted) /\
  blockarr ex_disk_two = [FileBlock 0 0; FileBlock 0 1] /\
  blockarr ex_disk_two_inserted
  = [FileBlock 0 0; FileBlock 0 1; FileBlock 1 0; FileBlock 1 1] /\
  (forall q g j, blockarr ex_disk_two !! q = Some (FileBlock g j) ->
     blockarr ex_disk_two_inserted !! q = Some (FileBlock g j)) /\
  (forall q c, blockarr ex_disk_two_inserted !! q = Some c ->
     blockarr ex_disk_two !! q = Some c \/ exists i, c = FileBlock 1 i) /\
  (length (blockarr ex_disk_two) <= length (blockarr ex_disk_two_inserted))%nat.
Proof.
  assert (scan_file_insert (ex_state false) ex_disk_two 1
          = Ok (set_need_write true (ex_state false), ex_disk_two_inserted)) as Hrun
    by (vm_compute; reflexivity).
  split; [exact Hrun|]. split; [reflexivity|]. split; [reflexivity|].
  exact (scan_file_insert_keeps_file_blocks _ _ _ _ _ Hrun).
Defined.

(** X19: scan_file_remove touches the removed file only.  Whenever it
    returns, the block map has the size it had and differs only in cells at
    the parity positions of the blocks of the removed file, the other files
    of the disk are as they were, and the file is gone from the file list. *)
Theorem scan_file_remove_frame (state state' : snapraid_state) (d d' : snapraid_disk)
    (file : nat) :
  scan_file_remove state d file = Ok (state', d') ->
  exists f,
    files d !! file = Some (Some f) /\
    length (blockarr d') = length (blockarr d) /\
    (forall q, (forall j b, blockvec f !! j = Some b -> Z.to_nat (parity_pos b) <> q) ->
       blockarr d' !! q = blockarr d !! q) /\
    (forall g, g <> file -> files d' !! g = files d !! g) /\
    files d' !! file = Some None /\
    remove_first file (filelist d) = Some (filelist d').
Proof.
  intros (f & dL & ins & ps & fl & Hf & Hinv & _ & _ & Hfl & _ & ->)%scan_file_remove_Ok.
  exists f. split; [done|]. simpl.
  destruct (ri_files _ _ _ _ _ _ Hinv) as [Hlen Hother].
  split; [apply (ri_length _ _ _ _ _ _ Hinv)|]. split; [|split; [|split]].
  - intros q Hq. apply (ri_rest _ _ _ _ _ _ Hinv). intros j b _. apply Hq.
  - intros g Hg. rewrite list_lookup_insert_ne by done. by apply Hother.
  - apply list_lookup_insert_eq. rewrite Hlen. by eapply lookup_lt_Some.
  - done.
Qed.

Lemma scan_file_remove_frame_witness :
  scan_file_remove (ex_state false) ex_disk_two 0
  = Ok (set_need_write true (ex_state false), ex_removed_two) /\
  exists f,
    files ex_disk_two !! 0%nat = Some (Some f) /\
    length (blockarr ex_removed_two) = length (blockarr ex_disk_two) /\
    (forall q, (forall j b, blockvec f !! j = Some b -> Z.to_nat (parity_pos b) <> q) ->
       blockarr ex_removed_two !! q = blockarr ex_disk_two !! q) /\
    (forall g, g <> 0%nat -> files ex_removed_two !! g = files ex_disk_two !! g) /\
    files ex_removed_two !! 0%nat = Some None /\
    remove_first 0 (filelist ex_disk_two) = Some (filelist ex_removed_two).
Proof.
  assert (scan_file_remove (ex_state false) ex_disk_two 0
          = Ok (set_need_write true (ex_state false), ex_removed_two)) as Hrun
    by (vm_compute; reflexivity).
  split; [exact Hrun|].
  exact (scan_file_remove_frame _ _ _ _ _ Hrun).
Defined.

(** ** A disk without persistent inodes: no move, no restore *)

Lemma np_step_refl (ctx : scan_ctx) : np_step ctx ctx.
Proof. by intros ? ?. Qed.

Lemma np_step_trans (c1 c2 c3 : scan_ctx) :
  np_step c1 c2 -> np_step c2 c3 -> np_step c1 c3.
Proof.
  intros H1 H2 Hnp Hinv. destruct (H1 Hnp Hinv) as (Hnp2 & Hinv2 & Hm2 & Hr2).
  destruct (H2 Hnp2 Hinv2) as (Hnp3 & Hinv3 & Hm3 & Hr3).
  repeat split; [done|done|congruence|congruence].
Qed.

Lemma file_touch_refl (n : nat) (d : snapraid_disk) : file_touch n d d.
Proof. split; [done|]. split; [done|]. split; [by right|]. by eauto. Qed.

Lemma file_touch_trans (n : nat) (d1 d2 d3 : snapraid_disk) :
  file_touch n d1 d2 -> file_touch n d2 d3 -> file_touch n d1 d3.
Proof.
  intros (Hf1 & Ho1 & Hi1 & Hp1) (Hf2 & Ho2 & Hi2 & Hp2).
  split; [congruence|]. split; [|split].
  - intros h Hh. by rewrite Ho2, Ho1.
  - intros h [->|Hh]%Hi2; [by left|by apply Hi1].
  - intros f3 (f2 & Hf2' & Hp)%Hp2. destruct (Hp1 f2 Hf2') as (f1 & Hf1' & Hp').
    exists f1. split; [done|]. auto.
Qed.

Lemma file_store_touch (d d' : snapraid_disk) (n : nat)
    (upd : snapraid_file -> snapraid_file) :
  (forall f, file_is_present f = true -> file_is_present (upd f) = true) ->
  file_store d n upd = Ok d' -> file_touch n d d'.
Proof.
  intros Hupd (f & Hf & ->)%file_store_Ok. pose proof (lookup_lt_Some _ _ _ Hf) as Hlt.
  split; [done|]. split; [|split]; simpl.
  - intros h Hh. by rewrite list_lookup_insert_ne.
  - intros h Hh. by right.
  - intros f'. rewrite list_lookup_insert_eq by done. intros [= <-]. eauto.
Qed.

Lemma file_store_present (d d' : snapraid_disk) (n : nat) :
  file_store d n (set_file_is_present true) = Ok d' -> present_at n d'.
Proof.
  intros (f & Hf & ->)%file_store_Ok. pose proof (lookup_lt_Some _ _ _ Hf) as Hlt.
  intros f'. simpl. rewrite list_lookup_insert_eq by done. by intros [= <-].
Qed.

Lemma present_at_touch (n : nat) (d d' : snapraid_disk) :
  file_touch n d d' -> present_at n d -> present_at n d'.
Proof.
  intros (_ & _ & _ & Hp) Hn f' (f & Hf & Himp)%Hp. apply Himp. by apply Hn.
Qed.

Lemma update_mtime_nsec_touch (state state' : snapraid_state) (d d' : snapraid_disk)
    (n : nat) (st : stat) :
  update_mtime_nsec state d n st = Ok (state', d') -> file_touch n d d'.
Proof.
  unfold update_mtime_nsec. intros H. run_inv H; simplify_eq.
  - eapply file_store_touch; [|done]. by intros [].
  - apply file_touch_refl.
Qed.

Lemma scan_file_path_inode_touch (d d' : snapraid_disk) (n : nat) (sub : string)
    (st : stat) :
  scan_file_path_inode d n sub st = Ok d' -> file_touch n d d'.
Proof.
  unfold scan_file_path_inode. intros H. run_inv H; simplify_eq;
    [|apply file_touch_refl].
  match goal with
  | H1 : file_store d n _ = Ok ?x |- _ =>
      apply file_store_touch in H1; [|by intros []];
      apply (file_touch_trans n d x); [done|]
  end.
  apply (file_touch_trans n _
           (set_inodeset (tommy_insert_tail (inodeset x0) n) x0)).
  - split; [done|]. split; [done|]. split; [|by eauto].
    intros h. simpl. unfold tommy_insert_tail.
    rewrite elem_of_app, list_elem_of_singleton. tauto.
  - eapply file_store_touch; [|done]. by intros [].
Qed.

Lemma indexed_present_touch (n : nat) (d d' : snapraid_disk) :
  file_touch n d d' -> indexed_present None d -> indexed_present (Some n) d'.
Proof.
  intros (_ & Ho & Hi & _) Hinv h f Hh Hne Hf.
  assert (h <> n) as Hne' by congruence.
  rewrite Ho in Hf by done. destruct (Hi h Hh) as [->|Hin]; [done|].
  by apply (Hinv h f).
Qed.

Lemma indexed_present_at (n : nat) (d : snapraid_disk) :
  indexed_present (Some n) d -> present_at n d -> indexed_present None d.
Proof.
  intros Hinv Hn h f Hh _ Hf. destruct (decide (h = n)) as [->|Hne].
  - by apply Hn.
  - apply (Hinv h f); [done|congruence|done].
Qed.

Lemma scan_link_np (scan scan' : snapraid_scan) (state state' : snapraid_state)
    (d d' : snapraid_disk) (sub linkto : string) (flag : link_kind) :
  scan_link scan state d sub linkto flag = Ok (scan', state', d') ->
  np_step (scan, state, d) (scan', state', d').
Proof.
  intros ([h ->] & Hm & Hr & _)%scan_link_frame Hnp Hinv. by repeat split.
Qed.

Lemma scan_emptydir_np (scan scan' : snapraid_scan) (state state' : snapraid_state)
    (d d' : snapraid_disk) (sub : string) :
  scan_emptydir scan state d sub = Ok (scan', state', d') ->
  np_step (scan, state, d) (scan', state', d').
Proof.
  intros H Hnp Hinv.
  destruct (scan_emptydir_Ok _ _ _ _ _ _ _ H) as (dh & _ & _ & _ & _ & Hd & _).
  cbn [fst snd] in *. rewrite Hd. split; [done|]. split; [done|]. clear Hd.
  unfold scan_emptydir, heap_alloc in H. run_inv H; by simplify_eq.
Qed.

(** The search by inode, on a disk whose index by inode holds files marked
    present only: it finds a hardlink or nothing. *)
Lemma scan_file_inode_np (scan : snapraid_scan) (state : snapraid_state)
    (d : snapraid_disk) (sub : string) (st : stat) (fl : flow scan_ctx) :
  indexed_present None d ->
  scan_file_inode scan state d sub st = Ok fl ->
  match fl with
  | Return ctx' => np_step (scan, state, d) ctx'
  | Continue ctx' => ctx' = (scan, state, d)
  end.
Proof.
  intros Hinv H. unfold scan_file_inode in H.
  apply bind_Ok in H as (found & Hfound & H). destruct found as [file|].
  2:{ by injection H as <-. }
  apply tommy_hashdyn_search_Some in Hfound as (Hin & f0 & Hf0 & _).
  rewrite (heap_get_lookup _ _ _ Hf0) in H. cbn [bind] in H.
  rewrite (Hinv file f0 Hin ltac:(done) Hf0) in H.
  destruct (file_not_changed f0 st); [|discriminate].
  destruct (st_nlink st >? 1); [|discriminate].
  apply bind_Ok in H as ([[scan' state'] d'] & Hlink & H). injection H as <-.
  exact (scan_link_np _ _ _ _ _ _ _ _ _ Hlink).
Qed.

Lemma scan_file_remove_np (state state' : snapraid_state) (d d' : snapraid_disk)
    (n : nat) :
  scan_file_remove state d n = Ok (state', d') ->
  indexed_present (Some n) d ->
  has_not_persistent_inodes d' = has_not_persistent_inodes d /\
  indexed_present None d'.
Proof.
  intros H Hinv.
  destruct (scan_file_remove_catalog _ _ _ _ _ H)
    as (m & _ & _ & _ & _ & Hins & Hrest & _).
  destruct (disk_rest_fields _ _ Hrest) as (_ & _ & Hnp & _).
  apply scan_file_remove_Ok in H
    as (f & dL & ins & ps & fl & Hf & Hri & _ & _ & _ & _ & ->).
  split; [done|]. intros h f' Hh _ Hf'. cbn in Hf', Hh, Hins.
  destruct (ri_files _ _ _ _ _ _ Hri) as [Hlen Hother].
  destruct (decide (h = n)) as [->|Hne].
  - rewrite list_lookup_insert_eq in Hf' by (rewrite Hlen; by eapply lookup_lt_Some).
    done.
  - rewrite list_lookup_insert_ne in Hf' by done. rewrite Hother in Hf' by done.
    apply (Hinv h f'); [|congruence|done].
    destruct (file_is_without_inode m).
    + by rewrite <- Hins.
    + apply remove_first_Some in Hins. rewrite Hins. by right.
Qed.

Lemma scan_file_new_np (scan scan' : snapraid_scan) (state state' : snapraid_state)
    (d d' : snapraid_disk) (sub : string) (st : stat) (ph : Z) :
  scan_file_new scan state d sub st ph = Ok (scan', state', d') ->
  np_step (scan, state, d) (scan', state', d').
Proof.
  rewrite scan_file_new_spec. intros [= <- <- <-] Hnp Hinv.
  split; [done|]. split; [|done].
  intros h f Hh _ Hf. cbn in Hh, Hf.
  destruct (decide (h = length (files d))) as [->|Hne].
  - rewrite lookup_app_r, Nat.sub_diag in Hf by done. by injection Hf as <-.
  - apply elem_of_app in Hh as [Hh|Hh%list_elem_of_singleton]; [|done].
    destruct (decide (h < length (files d))%nat) as [Hlt|Hge].
    + rewrite lookup_app_l in Hf by done. by apply (Hinv h f).
    + rewrite lookup_ge_None_2 in Hf; [done|]. rewrite length_app. simpl. lia.
Qed.

(** The search by name on such a disk: no restore. *)
Lemma scan_file_path_np (scan : snapraid_scan) (state : snapraid_state)
    (d : snapraid_disk) (sub : string) (st : stat) (fl : flow scan_ctx) :
  scan_file_path scan state d sub st = Ok fl ->
  np_step (scan, state, d) match fl with Return ctx' => ctx' | Continue ctx' => ctx' end.
Proof.
  unfold scan_file_path. intros H Hnp Hinv. cbn [fst snd] in Hnp, Hinv.
  run_inv H; simplify_eq; cbn [fst snd];
    repeat match goal with
    | H : scan_file_path_inode _ _ _ _ = Ok _ |- _ =>
        apply scan_file_path_inode_touch in H
    | H : update_mtime_nsec _ _ _ _ = Ok _ |- _ => apply update_mtime_nsec_touch in H
    end.
  - (* restore: the disk has persistent inodes *)
    match goal with
    | H : file_store _ _ (set_file_is_present true) = Ok _ |- _ =>
        apply file_store_touch in H; [|done]
    end.
    repeat match goal with
    | H : file_touch _ _ _ |- _ => destruct H as (? & _)
    end.
    match goal with
    | H : negb (has_not_persistent_inodes _) = true |- _ =>
        apply negb_true_iff in H
    end.
    congruence.
  - (* equal *)
    match goal with
    | H : file_store ?x ?n (set_file_is_present true) = Ok ?x1 |- _ =>
        pose proof (file_store_present _ _ _ H) as Hpres;
        apply file_store_touch in H; [|done]
    end.
    match goal with
    | H1 : file_touch ?n d ?x, H2 : file_touch ?n ?x ?x1, H3 : file_touch ?n ?x1 ?x2 |- _ =>
        pose proof (file_touch_trans _ _ _ _ H1 (file_touch_trans _ _ _ _ H2 H3)) as Ht;
        pose proof (present_at_touch _ _ _ H3 Hpres) as Hpres2
    end.
    split; [destruct Ht as (-> & _); done|]. split; [|done].
    eapply indexed_present_at; [|done]. by eapply indexed_present_touch.
  - (* change *)
    match goal with
    | H1 : file_touch ?n d ?x, H2 : scan_file_remove _ ?x ?n = Ok _ |- _ =>
        apply scan_file_remove_np in H2 as [Hflag Hinv2];
        [|by eapply indexed_present_touch];
        destruct H1 as (Hflag1 & _)
    end.
    split; [congruence|]. done.
  - (* insert *)
    done.
Qed.

Lemma scan_file_np (scan scan' : snapraid_scan) (state state' : snapraid_state)
    (d d' : snapraid_disk) (sub : string) (st : stat) (ph : Z) :
  scan_file scan state d sub st ph = Ok (scan', state', d') ->
  np_step (scan, state, d) (scan', state', d').
Proof.
  unfold scan_file. intros H Hnp Hinv. cbn [fst snd] in Hnp, Hinv.
  apply bind_Ok in H as (fl & Hino & H).
  apply (scan_file_inode_np _ _ _ _ _ _ Hinv) in Hino.
  destruct fl as [r|ctx1]; [simplify_eq; by apply Hino|]. subst ctx1.
  apply bind_Ok in H as (fl & Hpath & H).
  apply scan_file_path_np in Hpath. specialize (Hpath Hnp Hinv).
  destruct fl as [r|[[scan2 state2] d2]]; [by simplify_eq|].
  apply scan_file_new_np in H. cbn [fst snd] in *.
  destruct Hpath as (Hnp2 & Hinv2 & Hm2 & Hr2).
  destruct (H Hnp2 Hinv2) as (Hnp3 & Hinv3 & Hm3 & Hr3). cbn [fst snd] in *.
  repeat split; [done|done|congruence|congruence].
Qed.

Lemma scan_event_np (ev : event) (ctx ctx' : scan_ctx) :
  scan_event ev ctx = Ok ctx' -> np_step ctx ctx'.
Proof.
  destruct ctx as [[scan state] d], ctx' as [[scan' state'] d'], ev; simpl.
  - apply scan_file_np.
  - apply scan_link_np.
  - apply scan_emptydir_np.
Qed.

Lemma remove_missing_files_np (nodes : list nat) :
  forall scan state d scan' state' d',
    remove_missing_files nodes scan state d = Ok (scan', state', d') ->
    count_move scan' = count_move scan /\ count_restore scan' = count_restore scan.
Proof.
  induction nodes as [|h nodes IH]; intros scan state d scan' state' d' H; simpl in H.
  - by injection H as <- <- <-.
  - run_inv H; by apply IH in H.
Qed.

Lemma remove_missing_links_np (nodes : list nat) :
  forall scan state d scan' state' d',
    remove_missing_links nodes scan state d = Ok (scan', state', d') ->
    count_move scan' = count_move scan /\ count_restore scan' = count_restore scan.
Proof.
  induction nodes as [|h nodes IH]; intros scan state d scan' state' d' H; simpl in H.
  - by injection H as <- <- <-.
  - run_inv H; by apply IH in H.
Qed.

Lemma remove_missing_dirs_np (nodes : list nat) :
  forall scan state d scan' state' d',
    remove_missing_dirs nodes scan state d = Ok (scan', state', d') ->
    count_move scan' = count_move scan /\ count_restore scan' = count_restore scan.
Proof.
  induction nodes as [|h nodes IH]; intros scan state d scan' state' d' H; simpl in H.
  - by injection H as <- <- <-.
  - run_inv H; by apply IH in H.
Qed.

(** X20: on a disk without persistent inodes nothing is a move or a
    restore.  When the filesystem of the disk reports that its inodes are
    not persistent, the scan of the disk, started from a catalog satisfying
    I1, counts no file as moved and none as restored: the files are matched
    by path only. *)
Theorem state_scan_disk_not_persistent (flt : snapraid_filter)
    (state state' : snapraid_state) (d d' : snapraid_disk) (fs : disk_view)
    (scan' : snapraid_scan) :
  files_wf d (filelist d) ->
  fs_fsinfo fs = Some false ->
  state_scan_disk flt state d fs = Ok (scan', state', d') ->
  count_move scan' = 0 /\ count_restore scan' = 0 /\
  has_not_persistent_inodes d' = true.
Proof.
  unfold state_scan_disk. intros Hwf Hinfo H. rewrite Hinfo in H. cbn [bind negb] in H.
  apply bind_Ok in H as (d0 & Hd0 & H).
  assert (has_not_persistent_inodes d0 = true /\ indexed_present None d0) as [Hnp Hinv].
  { apply clear_inodes_Ok in Hd0 as (_ & _ & Hmem & _ & _ & Hrest);
      [|apply (fw_inode_nodup _ _ Hwf)].
    destruct (disk_rest_fields _ _ Hrest) as (_ & _ & Hnp & _).
    split; [done|]. intros h f [Hin Hnot]%Hmem. cbn in Hin, Hnot.
    by apply (fw_inode _ _ Hwf) in Hin as [? _]. }
  apply bind_Ok in H as ([[[scan1 state1] d1] p] & Hwalk & H).
  assert (np_step (scan_init, state, d0) (scan1, state1, d1)) as Hs1.
  { apply (scan_dir_keeps np_step np_step_refl np_step_trans flt
             match fs_root fs with
             | Some es => Some (map (fun e => (e, scan_dir_entry flt e)) es)
             | None => None
             end) in Hwalk; [done|].
    intros l Hl x Hx. destruct (fs_root fs) as [es|]; [|discriminate].
    injection Hl as <-. apply list_elem_of_fmap in Hx as (e & -> & He).
    apply (scan_dir_entry_keeps np_step np_step_refl np_step_trans).
    apply scan_event_np. }
  destruct (Hs1 Hnp Hinv) as (Hnp1 & _ & Hm1 & Hr1). cbn [fst snd] in *.
  apply bind_Ok in H as ([[scan2 state2] d2] & Hrf & H).
  pose proof (remove_missing_files_step _ _ _ _ _ _ _ Hrf) as (_ & _ & Hid2).
  apply remove_missing_files_np in Hrf as [Hm2 Hr2].
  apply bind_Ok in H as ([[scan3 state3] d3] & Hrl & H).
  pose proof (remove_missing_links_step _ _ _ _ _ _ _ Hrl) as (_ & _ & Hid3).
  apply remove_missing_links_np in Hrl as [Hm3 Hr3].
  apply bind_Ok in H as ([[scan4 state4] d4] & Hrd & H).
  pose proof (remove_missing_dirs_step _ _ _ _ _ _ _ Hrd) as (_ & _ & Hid4).
  apply remove_missing_dirs_np in Hrd as [Hm4 Hr4].
  apply bind_Ok in H as (nodes & _ & H).
  apply bind_Ok in H as ([[state5 d5] dup] & Hif & H). cbn in Hif.
  apply insert_new_files_state in Hif as (_ & Hid5 & _).
  apply bind_Ok in H as ([state6 d6] & Hil & H). cbn in Hil.
  apply insert_new_links_state in Hil as (_ & Hid6 & _).
  apply bind_Ok in H as ([state7 d7] & Hid & H). cbn in Hid.
  apply insert_new_dirs_state in Hid as (_ & Hid7 & _).
  injection H as <- <- <-.
  split; [simpl in *; congruence|]. split; [simpl in *; congruence|].
  cbn [fst snd] in *. unfold disk_ident in *.
  destruct (bool_decide _ && _) in Hid6; simpl in *; congruence.
Qed.

Lemma state_scan_disk_not_persistent_witness :
  files_wf ex_disk (filelist ex_disk) /\
  state_scan_disk ex_filter (ex_state false) ex_disk (ex_fs_fat "/mnt/d1/")
  = Ok ex_fat_disk_scan /\
  count_equal ex_fat_disk_scan.1.1 = 1 /\
  count_move ex_fat_disk_scan.1.1 = 0 /\ count_restore ex_fat_disk_scan.1.1 = 0 /\
  has_not_persistent_inodes ex_fat_disk_scan.2 = true.
Proof.
  assert (state_scan_disk ex_filter (ex_state false) ex_disk (ex_fs_fat "/mnt/d1/")
          = Ok ex_fat_disk_scan) as Hrun by (vm_compute; reflexivity).
  split; [exact (cw_files _ ex_disk_wf)|]. split; [exact Hrun|].
  split; [reflexivity|].
  exact (state_scan_disk_not_persistent ex_filter (ex_state false)
           ex_fat_disk_scan.1.2 ex_disk ex_fat_disk_scan.2 (ex_fs_fat "/mnt/d1/")
           ex_fat_disk_scan.1.1 (cw_files _ ex_disk_wf) eq_refl Hrun).
Defined.

(** ** The filter and the catalog *)

Lemma walk_process_passes (flt : snapraid_filter) (name : string)
    (l : list (dirent * walk_action)) :
  (forall x dir sub evs p, x ∈ l -> x.2 dir sub = Ok (evs, p) ->
     Forall (event_passes flt name) evs) ->
  forall dir sub p0 evs p,
    walk_process l dir sub p0 = Ok (evs, p) -> Forall (event_passes flt name) evs.
Proof.
  induction l as [|[dd a] l IH]; intros Hact dir sub p0 evs p H; simpl in H.
  - injection H as <- _. constructor.
  - apply bind_Ok in H as ([evs1 p1] & Ha & H).
    apply bind_Ok in H as ([evs2 p2] & Hrest & H). injection H as <- <-.
    apply Forall_app. split.
    + apply (Hact (dd, a) dir sub evs1 p1); [left|done].
    + eapply IH; [|exact Hrest]. intros x dir0 sub0 evs0 q Hx. apply Hact. by right.
Qed.

Lemma walk_dir_passes (flt : snapraid_filter) (env : walk_env)
    (es : option (list (dirent * walk_action))) :
  (forall l, es = Some l -> forall x dir sub evs p, x ∈ l ->
     x.2 dir sub = Ok (evs, p) -> Forall (event_passes flt (we_name env)) evs) ->
  forall dir sub evs p,
    walk_dir flt env es dir sub = Ok (evs, p) ->
    Forall (event_passes flt (we_name env)) evs.
Proof.
  intros Hact dir sub evs p H. unfold walk_dir in H.
  destruct es as [l|]; [|discriminate]. apply bind_Ok in H as (l' & Hread & H).
  eapply walk_process_passes; [|exact H].
  intros x dir0 sub0 evs0 q Hx. apply (Hact l eq_refl).
  eapply scan_dir_read_elem; [exact Hread|].
  destruct (negb (we_not_persistent env)); [|done].
  by rewrite <- (tommy_list_sort_perm (fun a b => d_ino a.1 <=? d_ino b.1) l').
Qed.

(** No entry the filter excludes is passed on. *)
Lemma walk_entry_passes (flt : snapraid_filter) (env : walk_env) (dd : dirent) :
  forall dir sub evs p,
    walk_entry flt env dd dir sub = Ok (evs, p) ->
    Forall (event_passes flt (we_name env)) evs.
Proof.
  induction dd as [name ino ty lst phy tgt es IH] using dirent_nested_ind.
  intros dir sub evs p H. cbn [walk_entry] in H.
  assert (forall dir sub evs p,
            walk_dir flt env
              match es with
              | Some es => Some (map (fun e => (e, walk_entry flt env e)) es)
              | None => None
              end dir sub = Ok (evs, p) ->
            Forall (event_passes flt (we_name env)) evs) as Hdir.
  { apply walk_dir_passes. intros l Hl x dir0 sub0 evs0 q Hx.
    destruct es as [es|]; [|discriminate]. injection Hl as <-.
    apply list_elem_of_fmap in Hx as (e & -> & He).
    specialize (IH es eq_refl). rewrite Forall_forall in IH. by apply IH. }
  apply bind_Ok in H as (type & _ & H).
  destruct type; run_inv H; simplify_eq; try by constructor.
  - constructor; [|constructor]. simpl. by apply negb_true_iff.
  - constructor; [|constructor]. simpl. by apply negb_true_iff.
  - match goal with
    | H : walk_dir _ _ _ _ _ = Ok _ |- _ => apply Hdir in H
    end.
    match goal with
    | |- Forall _ (if negb ?b then _ else _) => destruct b; cbn [negb]; [done|]
    end.
    apply Forall_app. split; [done|]. constructor; [|constructor].
    simpl. by apply negb_true_iff.
Qed.

(** X21: what the filter excludes is not in the catalog after a scan.  After
    the scan of a disk that started from a catalog satisfying I1 with no
    PRESENT flag set, on a disk whose flag for inodes that are not
    persistent is set only if the filesystem reports such inodes, the
    filter excludes the path of no file and of no link
    of the catalog, and the path of no dir of the catalog as a directory. *)
Theorem state_scan_disk_filtered (flt : snapraid_filter)
    (state state1 : snapraid_state) (d0 d1 : snapraid_disk) (fs : disk_view)
    (scan : snapraid_scan) :
  catalog_wf d0 ->
  (has_not_persistent_inodes d0 = true -> fs_fsinfo fs = Some false) ->
  state_scan_disk flt state d0 fs = Ok (scan, state1, d1) ->
  (forall h f, h ∈ filelist d1 -> files d1 !! h = Some (Some f) ->
     filter_path flt (disk_name d0) (file_sub f) = false) /\
  (forall l x, l ∈ linklist d1 -> links d1 !! l = Some (Some x) ->
     filter_path flt (disk_name d0) (link_sub x) = false) /\
  (forall a y, a ∈ dirlist d1 -> dirs d1 !! a = Some (Some y) ->
     filter_dir flt (disk_name d0) (dir_sub y) = false).
Proof.
  intros Hcw Hflag Hrun.
  destruct (state_scan_disk_synced _ _ _ _ _ _ _ Hcw Hflag Hrun)
    as (evs & t & Hevs & Hsy & _).
  assert (Forall (event_passes flt (disk_name d0)) evs) as Hpass.
  { unfold disk_events, walk_disk in Hevs.
    apply bind_Ok in Hevs as ([evs' p] & Hw & Hevs). injection Hevs as <-.
    apply (walk_dir_passes flt (walk_env_of state d0 fs)) in Hw; [done|].
    intros l Hl x dir sub evs0 q Hx. destruct (fs_root fs) as [es|]; [|discriminate].
    injection Hl as <-. apply list_elem_of_fmap in Hx as (e & -> & He).
    apply walk_entry_passes. }
  rewrite Forall_forall in Hpass.
  pose proof (sy_marks _ _ _ _ Hsy) as Hmarks.
  split; [|split].
  - intros h f Hh Hf. rewrite (sy_filelist _ _ _ _ Hsy) in Hh.
    destruct (mark_files_has _ _ _ _ _ Hmarks Hh)
      as (i & sub & st & ph & _ & Hev & m & Hm & _ & _ & Hsub & _).
    rewrite (fget_lookup _ _ _ Hf) in Hm. injection Hm as <-. simpl in Hsub.
    rewrite Hsub. apply (Hpass (EvFile sub st ph)). by eapply list_elem_of_lookup_2.
  - intros l x Hl Hx. rewrite (sy_linklist _ _ _ _ Hsy) in Hl.
    destruct (mark_links_has _ _ _ _ _ Hmarks Hl)
      as (i & sub & linkto & kind & ev & mk & Hi & Hml & Hev & Hsub & Hlk).
    unfold link_has in Hlk. apply lget_Some in Hlk. rewrite Hx in Hlk.
    injection Hlk as ->. simpl.
    pose proof (Forall2_lookup_lr _ _ _ _ _ _ Hmarks Hev Hi) as Hok.
    apply list_elem_of_lookup_2, Hpass in Hev.
    destruct ev, mk; simpl in *; try done; by subst.
  - intros a y Ha Hy. rewrite (sy_dirlist _ _ _ _ Hsy) in Ha.
    destruct (mark_dirs_has _ _ _ _ _ Hmarks Ha) as (i & sub & _ & Hev & Hdh).
    unfold dir_has in Hdh. apply dget_Some in Hdh. rewrite Hy in Hdh.
    injection Hdh as ->. simpl.
    apply (Hpass (EvDir sub)). by eapply list_elem_of_lookup_2.
Qed.

Lemma state_scan_disk_filtered_witness :
  catalog_wf ex_disk_new /\
  state_scan_disk ex_filter_link (ex_state false) ex_disk_new ex_fs_tree
  = Ok ex_tree_filtered /\
  linklist ex_tree_filtered.2 = [] /\ filelist ex_tree_filtered.2 = [0; 1]%nat /\
  (forall h f, h ∈ filelist ex_tree_filtered.2 ->
     files ex_tree_filtered.2 !! h = Some (Some f) ->
     filter_path ex_filter_link (disk_name ex_disk_new) (file_sub f) = false) /\
  (forall l x, l ∈ linklist ex_tree_filtered.2 ->
     links ex_tree_filtered.2 !! l = Some (Some x) ->
     filter_path ex_filter_link (disk_name ex_disk_new) (link_sub x) = false) /\
  (forall a y, a ∈ dirlist ex_tree_filtered.2 ->
     dirs ex_tree_filtered.2 !! a = Some (Some y) ->
     filter_dir ex_filter_link (disk_name ex_disk_new) (dir_sub y) = false).
Proof.
  assert (state_scan_disk ex_filter_link (ex_state false) ex_disk_new ex_fs_tree
          = Ok ex_tree_filtered) as Hrun by (vm_compute; reflexivity).
  split; [exact ex_disk_new_wf|]. split; [exact Hrun|].
  split; [reflexivity|]. split; [reflexivity|].
  apply (state_scan_disk_filtered ex_filter_link (ex_state false) ex_tree_filtered.1.2
           ex_disk_new ex_tree_filtered.2 ex_fs_tree ex_tree_filtered.1.1
           ex_disk_new_wf).
  - intros H. discriminate H.
  - exact Hrun.
Defined.

(** ** scan_link on a link of the catalog *)

(** X22: a link the catalog has.  When the link index holds live links only
    and [l] is its only link with the path of the entry, scan_link fails
    with the internal inconsistency of a link met twice if the link is
    marked present; otherwise it marks the link present and, when the target
    and the kind are those of the entry, counts it equal and changes nothing
    else; when they differ it counts a change, sets need_write and gives the
    link the target and the kind of the entry.  The link keeps its handle,
    and the link list and the link index are untouched. *)
Theorem scan_link_found (scan : snapraid_scan) (state : snapraid_state)
    (d : snapraid_disk) (sub linkto : string) (flag : link_kind) (l : nat)
    (x : snapraid_link) :
  (forall k, k ∈ linkset d -> exists y, links d !! k = Some (Some y)) ->
  l ∈ linkset d ->
  links d !! l = Some (Some x) ->
  link_sub x = sub ->
  (forall k y, k ∈ linkset d -> links d !! k = Some (Some y) -> link_sub y = sub ->
     k = l) ->
  scan_link scan state d sub linkto flag
  = if link_is_present x then exit (InconsistentLink sub)
    else
      Ok (if bool_decide (link_linkto x = linkto) && bool_decide (flag = link_kind_of x)
          then (set_count_equal (incr (count_equal scan)) scan, state)
          else (set_count_change (incr (count_change scan)) scan,
                set_need_write true state),
          set_links (<[l := Some (mk_link sub linkto flag true)]> (links d)) d).
Proof.
  intros Hlive Hl Hx Hsub Huniq.
  assert (tommy_hashdyn_search (links d) (fun y => bool_decide (link_sub y = sub))
            (linkset d) = Ok (Some l)) as Hsearch.
  { apply (tommy_hashdyn_search_found _ _ _ _ x); [done|done|done| |].
    - by apply bool_decide_eq_true_2.
    - intros g b Hg Hb Hcmp. apply bool_decide_eq_true in Hcmp. by eapply Huniq. }
  unfold scan_link. rewrite Hsearch. cbn [bind].
  rewrite (heap_get_lookup _ _ _ Hx). cbn [bind].
  destruct (link_is_present x) eqn:Hp; [done|].
  rewrite (link_store_lookup _ _ _ _ Hx). cbn [bind].
  pose proof (lookup_lt_Some _ _ _ Hx) as Hlt.
  destruct (bool_decide (link_linkto x = linkto) && bool_decide (flag = link_kind_of x))
    eqn:Hsame.
  - apply andb_true_iff in Hsame as [Hto%bool_decide_eq_true Hk%bool_decide_eq_true].
    do 3 f_equal. destruct x; simpl in *. by subst.
  - erewrite link_store_lookup; [|simpl; by apply list_lookup_insert_eq].
    cbn [bind]. erewrite link_store_lookup;
      [|simpl; apply list_lookup_insert_eq; by rewrite length_insert].
    cbn [bind]. simpl. rewrite !list_insert_insert_eq.
    do 2 f_equal. destruct x, d; simpl in *. by subst.
Qed.

Lemma scan_link_found_witness :
  links ex_disk_link !! 0%nat = Some (Some ex_link) /\
  scan_link scan_init (ex_state false) ex_disk_link "l" "new" FILE_IS_SYMLINK
  = Ok (set_count_change 1 scan_init, set_need_write true (ex_state false),
        set_links [Some (mk_link "l" "new" FILE_IS_SYMLINK true)] ex_disk_link).
Proof.
  split; [reflexivity|].
  apply (scan_link_found scan_init (ex_state false) ex_disk_link "l" "new"
           FILE_IS_SYMLINK 0 ex_link).
  - intros k ->%list_elem_of_singleton. by exists ex_link.
  - by left.
  - reflexivity.
  - reflexivity.
  - by intros k y ->%list_elem_of_singleton _ _.
Defined.
